(** * I/O request packets and the SD/MMC disk driver

    A shallow embedding of [kernel/io/irp.c] (the IRP engine and the
    synchronous send helpers) and of the parts of [drivers/sd/core/sd.c]
    that enumerate a slot, dispatch open, close and I/O requests, resume
    DMA transfers and perform polled block I/O, together with the
    properties of the design document that concern them.

    Conventions.
    - C integers are [Z] with the wrap-around written out ([ULONG],
      [ULONGLONG], [UINTN]).
    - A pointer that may be NULL is an [option]; dereferencing NULL or
      indexing outside an allocation is the outcome [Fault].
    - A local variable that may never have been assigned is an [option]
      too, and reading it inside its function through [initialized] is a
      [Fault] while it is [None]. A function that returns such a local
      returns the [option]; its caller, which in C goes on with whatever
      value it received, finds for [None] the value that the surroundings
      give ([Unassigned]).
    - [KeCrashSystem] is the outcome [Crash]; a thread that waits for a
      signal nobody sends is [Blocked].
    - Calls that leave the modelled code (driver hooks, the object manager,
      the pool allocator, the SD controller library) are recorded in a
      trace of events, in program order.
    - [ASSERT] is outside the modelled core and compiles to nothing. *)

From Stdlib Require Import ZArith List Lia Bool.
From stdpp Require Import base numbers list option gmap.

Open Scope Z_scope.

Set Warnings "-clear-no-such-hyp".

(** ** Machine integers *)

Definition wrap (bits x : Z) : Z := x mod 2 ^ bits.
Definition ULONG (x : Z) : Z := wrap 32 x.
Definition ULONGLONG (x : Z) : Z := wrap 64 x.
Definition MAX_ULONG : Z := 2 ^ 32 - 1.
Definition MAX_ULONGLONG : Z := 2 ^ 64 - 1.

(** Flag words. [Flags |= m], [Flags &= ~m] and [(Flags & m) != 0]. *)
Definition flag_or (f m : Z) : Z := Z.lor f m.
Definition flag_clear (f m : Z) : Z := Z.land f (Z.lnot m).
Definition flag_test (f m : Z) : bool := negb (Z.land f m =? 0).

(** ** Status codes *)

(** Modelled from the spec: [minoca/status.h] is not part of the sources
    at hand; these are the status codes the design document lists as
    surfaced by the core (section 6), and [KSUCCESS] holds of
    [STATUS_SUCCESS] alone among them. *)
Inductive KSTATUS : Type :=
| STATUS_SUCCESS
| STATUS_NOT_HANDLED
| STATUS_INVALID_PARAMETER
| STATUS_INSUFFICIENT_RESOURCES
| STATUS_INVALID_CONFIGURATION
| STATUS_DEVICE_NOT_CONNECTED
| STATUS_NO_MEDIA
| STATUS_NOT_SUPPORTED
| STATUS_PATH_NOT_FOUND
| STATUS_TIMEOUT.

Definition KSUCCESS (s : KSTATUS) : bool :=
  match s with STATUS_SUCCESS => true | _ => false end.

#[global] Instance KSTATUS_eq_dec : EqDecision KSTATUS.
Proof. solve_decision. Defined.

(** ** Outcomes of a run *)

Inductive FAULT : Type :=
| NullDereference
| OutOfBounds
| UninitializedRead.

Inductive IRP_CRASH_REASON : Type :=
| IrpCrashReasonInvalid
| IrpCrashCorruption
| IrpCrashConstantStateModified
| IrpCrashImproperlyAllocated.

Inductive Outcome (A : Type) : Type :=
| Done (a : A)
| Fault (f : FAULT)
| Crash (r : IRP_CRASH_REASON)
| Blocked
| OutOfFuel.

Arguments Done {A} a.
Arguments Fault {A} f.
Arguments Crash {A} r.
Arguments Blocked {A}.
Arguments OutOfFuel {A}.

(** A computation yields a value and the events it emitted, or stops. *)
Definition Run (E A : Type) : Type := Outcome (A * list E).

Definition ret {E A} (a : A) : Run E A := Done (a, []).

Definition bind {E A B} (m : Run E A) (k : A -> Run E B) : Run E B :=
  match m with
  | Done (a, t1) =>
      match k a with
      | Done (b, t2) => Done (b, t1 ++ t2)
      | Fault f => Fault f
      | Crash r => Crash r
      | Blocked => Blocked
      | OutOfFuel => OutOfFuel
      end
  | Fault f => Fault f
  | Crash r => Crash r
  | Blocked => Blocked
  | OutOfFuel => OutOfFuel
  end.

Definition emit {E} (e : E) : Run E unit := Done (tt, [e]).

(** Dereference of a pointer that may be NULL. *)
Definition deref {E A} (p : option A) : Run E A :=
  match p with
  | Some a => ret a
  | None => Fault NullDereference
  end.

(** Read of a local variable that may never have been assigned. *)
Definition initialized {E A} (v : option A) : Run E A :=
  match v with
  | Some a => ret a
  | None => Fault UninitializedRead
  end.

(** [a[i]] for an array of [length a] elements. *)
Definition index {E A} (a : list A) (i : Z) : Run E A :=
  if (i <? 0) || (Z.of_nat (length a) <=? i) then Fault OutOfBounds
  else match a !! Z.to_nat i with
       | Some x => ret x
       | None => Fault OutOfBounds
       end.

Notation "'let!' x ':=' m 'in' k" := (bind m (fun x => k))
  (at level 10, x name, m at level 100, k at level 200).
Notation "'run!' m 'in' k" := (bind m (fun _ => k))
  (at level 10, m at level 100, k at level 200).

(** ** The IRP engine: data model ([kernel/io/irp.c]) *)

Module Irp.

(** Modelled from the spec: the flag set of an IRP is {Active, Complete,
    Pending, DriverStackComplete}; the bit values are those of the private
    header [iop.h], which is not part of the sources at hand. *)
Definition IRP_ACTIVE : Z := 1.
Definition IRP_COMPLETE : Z := 2.
Definition IRP_PENDING : Z := 4.
Definition IRP_DRIVER_STACK_COMPLETE : Z := 8.

(** Modelled from the spec: the magic word written by [IoCreateIrp]. *)
Definition IRP_MAGIC_VALUE : Z := 0x7269.

Inductive IRP_DIRECTION : Type :=
| IrpDirectionInvalid
| IrpDown
| IrpUp.

Inductive IRP_MAJOR_CODE : Type :=
| IrpMajorInvalid
| IrpMajorStateChange
| IrpMajorOpen
| IrpMajorClose
| IrpMajorIo
| IrpMajorSystemControl
| IrpMajorUserControl.

#[global] Instance IRP_DIRECTION_eq_dec : EqDecision IRP_DIRECTION.
Proof. solve_decision. Defined.
#[global] Instance IRP_MAJOR_CODE_eq_dec : EqDecision IRP_MAJOR_CODE.
Proof. solve_decision. Defined.

(** Minor codes are numbers. Modelled from the spec: the values come from
    a header that is not part of the sources at hand; only their being
    distinct, and [IrpMinorInvalid] and [IrpMinorSystemControlInvalid]
    being the least of their ranges, matters. *)
Definition IRP_MINOR_CODE : Type := Z.
Definition IrpMinorInvalid : IRP_MINOR_CODE := 0.
Definition IrpMinorOpen : IRP_MINOR_CODE := 0x2001.
Definition IrpMinorClose : IRP_MINOR_CODE := 0x3001.
Definition IrpMinorIoRead : IRP_MINOR_CODE := 0x4001.
Definition IrpMinorIoWrite : IRP_MINOR_CODE := 0x4002.
Definition IrpMinorSystemControlInvalid : IRP_MINOR_CODE := 0x5000.
Definition IrpMinorSystemControlLookup : IRP_MINOR_CODE := 0x5001.
Definition IrpMinorSystemControlWriteFileProperties : IRP_MINOR_CODE := 0x5004.
Definition IrpMinorSystemControlDelete : IRP_MINOR_CODE := 0x5006.

(** Addresses of kernel objects; equality of pointers is equality of
    addresses. *)
Definition PDEVICE : Type := nat.
Definition PDRIVER : Type := nat.
Definition PVOID : Type := Z.

(** The read/write parameters of an I/O IRP, as far as this code reads or
    writes them. [FileSize] is the file size found through the request's
    [FileProperties] pointer. *)
Record IRP_READ_WRITE : Type := {
  IoBuffer : option nat;
  IoFlags : Z;
  IoOffset : Z;
  IoSizeInBytes : Z;
  IoBytesCompleted : Z;
  NewIoOffset : Z;
  FileSize : Z
}.

Record IRP_USER_CONTROL : Type := {
  FromKernelMode : bool;
  UserBuffer : PVOID;
  UserBufferSize : Z
}.

(** The union [Irp->U]. *)
Inductive IRP_PARAMETERS : Type :=
| UZero
| UOpen (OpenRequest : PVOID)
| UClose (CloseRequest : PVOID)
| UReadWrite (Request : IRP_READ_WRITE)
| USystemControl (SystemContext : PVOID)
| UUserControl (Request : IRP_USER_CONTROL).

(** The object header of an IRP: its reference count and whether the
    object is signalled. *)
Record OBJECT_HEADER : Type := {
  ReferenceCount : Z;
  Signaled : bool
}.

(** The public part of an IRP. *)
Record IRP : Type := {
  Header : OBJECT_HEADER;
  Device : option PDEVICE;
  MajorCode : IRP_MAJOR_CODE;
  MinorCode : IRP_MINOR_CODE;
  Direction : IRP_DIRECTION;
  Status : KSTATUS;
  U : IRP_PARAMETERS;
  CompletionRoutine : option nat;
  CompletionContext : PVOID
}.

(** What a driver routine does with the IRP it is handed: the calls it
    makes back into the engine, each with the driver pointer it passes, and
    the results it stores in the read/write parameters. *)
Inductive DRIVER_ACTION : Type :=
| ActCompleteIrp (Driver : PDRIVER) (StatusCode : KSTATUS)
| ActPendIrp (Driver : PDRIVER)
| ActContinueIrp (Driver : PDRIVER)
| ActSetIoResult (BytesCompleted NewOffset : Z).

(** [PDRIVER_DISPATCH]: called with the IRP, the driver's device context
    and its IRP context. *)
Definition PDRIVER_DISPATCH : Type :=
  IRP -> PVOID -> option PVOID -> list DRIVER_ACTION.

(** [PDRIVER_CREATE_IRP]: called with the IRP, the driver's device context
    and the creation flags; yields a status and the IRP context stored
    through the out parameter. *)
Definition PDRIVER_CREATE_IRP : Type :=
  IRP -> PVOID -> Z -> KSTATUS * option PVOID.

(** The destroy hook is known by its address; a call to it is an event. *)
Record DRIVER_FUNCTION_TABLE : Type := {
  DispatchStateChange : option PDRIVER_DISPATCH;
  DispatchOpen : option PDRIVER_DISPATCH;
  DispatchClose : option PDRIVER_DISPATCH;
  DispatchIo : option PDRIVER_DISPATCH;
  DispatchSystemControl : option PDRIVER_DISPATCH;
  DispatchUserControl : option PDRIVER_DISPATCH;
  CreateIrp : option PDRIVER_CREATE_IRP;
  DestroyIrp : option nat
}.

Record DRIVER : Type := {
  DriverAddress : PDRIVER;
  FunctionTable : DRIVER_FUNCTION_TABLE
}.

Record DRIVER_STACK_ENTRY : Type := {
  Driver : DRIVER;
  DriverContext : PVOID
}.

Record IRP_STACK_ENTRY : Type := {
  DriverStackEntry : option DRIVER_STACK_ENTRY;
  IrpContext : option PVOID
}.

(** [IRP_INTERNAL]. The private copies of the device and of the major code
    are [ShadowDevice] and [ShadowMajorCode]. *)
Record IRP_INTERNAL : Type := {
  Public : IRP;
  Magic : Z;
  ShadowDevice : option PDEVICE;
  ShadowMajorCode : IRP_MAJOR_CODE;
  Stack : option (list IRP_STACK_ENTRY);
  StackIndex : Z;
  StackSize : Z;
  Flags : Z
}.

Inductive OBJECT_TYPE : Type :=
| ObjectDevice
| ObjectVolume.

Inductive DEVICE_STATE : Type :=
| DeviceInitialized
| DeviceStarted
| DeviceRemoved.

#[global] Instance OBJECT_TYPE_eq_dec : EqDecision OBJECT_TYPE.
Proof. solve_decision. Defined.
#[global] Instance DEVICE_STATE_eq_dec : EqDecision DEVICE_STATE.
Proof. solve_decision. Defined.

(** A device (or volume) with the chain of its target devices. *)
#[warnings="-register-all"]
Inductive DEVICE : Type := MkDevice {
  DeviceAddress : PDEVICE;
  DeviceType : OBJECT_TYPE;
  State : DEVICE_STATE;
  VolumeFlags : Z;
  DriverStackSize : Z;
  DriverStackHead : list DRIVER_STACK_ENTRY;
  TargetDevice : option DEVICE
}.

(** Events of the engine, in program order. *)
Inductive Event : Type :=
| EvObCreateObject
| EvObReleaseReference
| EvAllocateStack (AllocationSize : Z)
| EvFreeStack
| EvCreateIrp (Driver : PDRIVER) (EntryIndex : Z)
| EvDestroyIrp (Routine : nat) (DriverContext : PVOID)
               (IrpContext : option PVOID)
| EvDispatch (Driver : PDRIVER) (StackIndex : Z) (Direction : IRP_DIRECTION)
| EvSignal
| EvUnsignal
| EvWait
| EvCompletionRoutine (Routine : nat)
| EvAcquireShared (Device : PDEVICE)
| EvReleaseShared (Device : PDEVICE)
| EvHardPageFault
| EvBytesWritten (Bytes : Z)
| EvBytesRead (Bytes : Z).

(** Field updates. *)
Definition set_Signaled (b : bool) (p : IRP) : IRP :=
  {| Header := {| ReferenceCount := ReferenceCount (Header p);
                  Signaled := b |};
     Device := Device p; MajorCode := MajorCode p; MinorCode := MinorCode p;
     Direction := Direction p; Status := Status p; U := U p;
     CompletionRoutine := CompletionRoutine p;
     CompletionContext := CompletionContext p |}.

Definition set_MinorCode (m : IRP_MINOR_CODE) (p : IRP) : IRP :=
  {| Header := Header p;
     Device := Device p; MajorCode := MajorCode p; MinorCode := m;
     Direction := Direction p; Status := Status p; U := U p;
     CompletionRoutine := CompletionRoutine p;
     CompletionContext := CompletionContext p |}.

Definition set_Direction (d : IRP_DIRECTION) (p : IRP) : IRP :=
  {| Header := Header p;
     Device := Device p; MajorCode := MajorCode p; MinorCode := MinorCode p;
     Direction := d; Status := Status p; U := U p;
     CompletionRoutine := CompletionRoutine p;
     CompletionContext := CompletionContext p |}.

Definition set_Status (s : KSTATUS) (p : IRP) : IRP :=
  {| Header := Header p;
     Device := Device p; MajorCode := MajorCode p; MinorCode := MinorCode p;
     Direction := Direction p; Status := s; U := U p;
     CompletionRoutine := CompletionRoutine p;
     CompletionContext := CompletionContext p |}.

Definition set_U (u : IRP_PARAMETERS) (p : IRP) : IRP :=
  {| Header := Header p;
     Device := Device p; MajorCode := MajorCode p; MinorCode := MinorCode p;
     Direction := Direction p; Status := Status p; U := u;
     CompletionRoutine := CompletionRoutine p;
     CompletionContext := CompletionContext p |}.

Definition set_CompletionRoutine (r : option nat) (p : IRP) : IRP :=
  {| Header := Header p;
     Device := Device p; MajorCode := MajorCode p; MinorCode := MinorCode p;
     Direction := Direction p; Status := Status p; U := U p;
     CompletionRoutine := r;
     CompletionContext := CompletionContext p |}.

Definition set_Public (p : IRP) (i : IRP_INTERNAL) : IRP_INTERNAL :=
  {| Public := p; Magic := Magic i; ShadowDevice := ShadowDevice i;
     ShadowMajorCode := ShadowMajorCode i; Stack := Stack i;
     StackIndex := StackIndex i; StackSize := StackSize i;
     Flags := Flags i |}.

Definition set_Stack (s : option (list IRP_STACK_ENTRY)) (i : IRP_INTERNAL)
  : IRP_INTERNAL :=
  {| Public := Public i; Magic := Magic i; ShadowDevice := ShadowDevice i;
     ShadowMajorCode := ShadowMajorCode i; Stack := s;
     StackIndex := StackIndex i; StackSize := StackSize i;
     Flags := Flags i |}.

Definition set_StackIndex (n : Z) (i : IRP_INTERNAL) : IRP_INTERNAL :=
  {| Public := Public i; Magic := Magic i; ShadowDevice := ShadowDevice i;
     ShadowMajorCode := ShadowMajorCode i; Stack := Stack i;
     StackIndex := n; StackSize := StackSize i;
     Flags := Flags i |}.

Definition set_StackSize (n : Z) (i : IRP_INTERNAL) : IRP_INTERNAL :=
  {| Public := Public i; Magic := Magic i; ShadowDevice := ShadowDevice i;
     ShadowMajorCode := ShadowMajorCode i; Stack := Stack i;
     StackIndex := StackIndex i; StackSize := n;
     Flags := Flags i |}.

Definition set_Flags (f : Z) (i : IRP_INTERNAL) : IRP_INTERNAL :=
  {| Public := Public i; Magic := Magic i; ShadowDevice := ShadowDevice i;
     ShadowMajorCode := ShadowMajorCode i; Stack := Stack i;
     StackIndex := StackIndex i; StackSize := StackSize i;
     Flags := f |}.

(** [Irp->Stack[Index]], through the possibly NULL stack pointer. *)
Definition StackAt (Irp : IRP_INTERNAL) (Index : Z) : Run Event IRP_STACK_ENTRY :=
  let! stack := deref (Stack Irp) in index stack Index.

(** ** The IRP engine: operations *)

Definition IoGetIrpStatus (Irp : IRP_INTERNAL) : KSTATUS :=
  Status (Public Irp).

(** [ObSignalObject] with [SignalOptionSignalAll] and with
    [SignalOptionUnsignal]. *)
Definition ObSignalObject (Irp : IRP_INTERNAL) : Run Event IRP_INTERNAL :=
  run! emit EvSignal in
  ret (set_Public (set_Signaled true (Public Irp)) Irp).

Definition ObUnsignalObject (Irp : IRP_INTERNAL) : Run Event IRP_INTERNAL :=
  run! emit EvUnsignal in
  ret (set_Public (set_Signaled false (Public Irp)) Irp).

Definition IopAdvanceIrpStackLocation (Irp : IRP_INTERNAL) : IRP_INTERNAL :=
  if decide (Direction (Public Irp) = IrpDown) then
    if ULONG (StackIndex Irp + 1) <? StackSize Irp then
      set_StackIndex (ULONG (StackIndex Irp + 1)) Irp
    else
      set_Public (set_Direction IrpUp (Public Irp)) Irp
  else if StackIndex Irp =? 0 then
    set_Flags (flag_or (Flags Irp) IRP_DRIVER_STACK_COMPLETE) Irp
  else
    set_StackIndex (ULONG (StackIndex Irp - 1)) Irp.

Definition IoCompleteIrp (Driver' : PDRIVER) (Irp : IRP_INTERNAL)
    (StatusCode : KSTATUS) : Run Event IRP_INTERNAL :=
  let! entry := StackAt Irp (StackIndex Irp) in
  let! DriverStackEntry' := deref (DriverStackEntry entry) in
  if decide (DriverAddress (Driver DriverStackEntry') = Driver') then
    let Irp1 := set_Flags (flag_or (Flags Irp) IRP_COMPLETE) Irp in
    let Irp2 := set_Public (set_Direction IrpUp (Public Irp1)) Irp1 in
    let Irp3 := set_Public (set_Status StatusCode (Public Irp2)) Irp2 in
    if flag_test (Flags Irp3) IRP_PENDING then ObSignalObject Irp3
    else ret Irp3
  else ret Irp.

Definition IoPendIrp (Driver' : PDRIVER) (Irp : IRP_INTERNAL)
  : Run Event IRP_INTERNAL :=
  let! entry := StackAt Irp (StackIndex Irp) in
  let! DriverStackEntry' := deref (DriverStackEntry entry) in
  if decide (DriverAddress (Driver DriverStackEntry') = Driver') then
    ret (set_Flags (flag_or (Flags Irp) IRP_PENDING) Irp)
  else ret Irp.

Definition IoContinueIrp (Driver' : PDRIVER) (Irp : IRP_INTERNAL)
  : Run Event IRP_INTERNAL :=
  let! entry := StackAt Irp (StackIndex Irp) in
  let! DriverStackEntry' := deref (DriverStackEntry entry) in
  if decide (DriverAddress (Driver DriverStackEntry') = Driver') then
    ObSignalObject (IopAdvanceIrpStackLocation Irp)
  else ret Irp.

Definition IopInitializeIrp (Irp : IRP_INTERNAL) : IRP_INTERNAL :=
  let Irp1 := set_Public (set_Direction IrpDown (Public Irp)) Irp in
  let Irp2 := set_Public (set_Status STATUS_NOT_HANDLED (Public Irp1)) Irp1 in
  let Irp3 :=
    set_Flags
      (flag_clear (Flags Irp2)
         (Z.lor (Z.lor IRP_COMPLETE IRP_PENDING) IRP_DRIVER_STACK_COMPLETE))
      Irp2 in
  let Irp4 := set_Public (set_CompletionRoutine None (Public Irp3)) Irp3 in
  set_StackIndex 0 Irp4.


(** The dispatch routine of a function table for a major code. An unknown
    major code crashes the system. *)
Definition SelectDispatch (Major : IRP_MAJOR_CODE) (t : DRIVER_FUNCTION_TABLE)
  : Run Event (option PDRIVER_DISPATCH) :=
  match Major with
  | IrpMajorStateChange => ret (DispatchStateChange t)
  | IrpMajorOpen => ret (DispatchOpen t)
  | IrpMajorClose => ret (DispatchClose t)
  | IrpMajorIo => ret (DispatchIo t)
  | IrpMajorSystemControl => ret (DispatchSystemControl t)
  | IrpMajorUserControl => ret (DispatchUserControl t)
  | IrpMajorInvalid => Crash IrpCrashCorruption
  end.

Definition StoreIoResult (BytesCompleted NewOffset : Z) (u : IRP_PARAMETERS)
  : IRP_PARAMETERS :=
  match u with
  | UReadWrite r =>
      UReadWrite {| IoBuffer := IoBuffer r; IoFlags := IoFlags r;
                    IoOffset := IoOffset r; IoSizeInBytes := IoSizeInBytes r;
                    IoBytesCompleted := BytesCompleted;
                    NewIoOffset := NewOffset; FileSize := FileSize r |}
  | _ => u
  end.

(** One thing a driver does with the IRP. *)
Definition RunAction (Irp : IRP_INTERNAL) (a : DRIVER_ACTION)
  : Run Event IRP_INTERNAL :=
  match a with
  | ActCompleteIrp d s => IoCompleteIrp d Irp s
  | ActPendIrp d => IoPendIrp d Irp
  | ActContinueIrp d => IoContinueIrp d Irp
  | ActSetIoResult b n =>
      ret (set_Public (set_U (StoreIoResult b n (U (Public Irp))) (Public Irp))
             Irp)
  end.

Fixpoint RunActions (Irp : IRP_INTERNAL) (l : list DRIVER_ACTION)
  : Run Event IRP_INTERNAL :=
  match l with
  | [] => ret Irp
  | a :: l' => let! Irp1 := RunAction Irp a in RunActions Irp1 l'
  end.

Definition IopCallDriver (Irp : IRP_INTERNAL) : Run Event IRP_INTERNAL :=
  let! entry := StackAt Irp (StackIndex Irp) in
  let! DriverStackEntry' := deref (DriverStackEntry entry) in
  let Context := DriverContext DriverStackEntry' in
  let! DispatchRoutine :=
    SelectDispatch (ShadowMajorCode Irp)
      (FunctionTable (Driver DriverStackEntry')) in
  match DispatchRoutine with
  | Some routine =>
      run! emit (EvDispatch (DriverAddress (Driver DriverStackEntry'))
                   (StackIndex Irp) (Direction (Public Irp))) in
      RunActions Irp (routine (Public Irp) Context (IrpContext entry))
  | None => ret Irp
  end.

(** The loop of [IopPumpIrpThroughStack]; every iteration uses one unit of
    fuel. *)
Fixpoint PumpLoop (fuel : nat) (Irp : IRP_INTERNAL) : Run Event IRP_INTERNAL :=
  if flag_test (Flags Irp) IRP_DRIVER_STACK_COMPLETE then ret Irp
  else
    match fuel with
    | O => OutOfFuel
    | S fuel' =>
        let! Irp1 := IopCallDriver Irp in
        if flag_test (Flags Irp1) IRP_PENDING then ret Irp1
        else PumpLoop fuel' (IopAdvanceIrpStackLocation Irp1)
    end.

Definition IopPumpIrpThroughStack (fuel : nat) (Irp : IRP_INTERNAL)
  : Run Event IRP_INTERNAL :=
  let! Irp1 := PumpLoop fuel Irp in
  if flag_test (Flags Irp1) IRP_DRIVER_STACK_COMPLETE then
    match CompletionRoutine (Public Irp1) with
    | Some routine => run! emit (EvCompletionRoutine routine) in ret Irp1
    | None => ret Irp1
    end
  else ret Irp1.

(** What happens in other contexts while the sender waits: drivers act on
    the IRP, or the wait itself fails. *)
Inductive ENV_STEP : Type :=
| EnvRun (actions : list DRIVER_ACTION)
| EnvWaitFails (s : KSTATUS).

(** [ObWaitOnObject] on the IRP, without a timeout: returns at once when
    the IRP is signalled, otherwise lets the other contexts run until it
    is. *)
Fixpoint ObWaitOnObject (env : list ENV_STEP) (Irp : IRP_INTERNAL)
  : Run Event (KSTATUS * IRP_INTERNAL * list ENV_STEP) :=
  if Signaled (Header (Public Irp)) then ret (STATUS_SUCCESS, Irp, env)
  else
    match env with
    | [] => Blocked
    | EnvRun actions :: env' =>
        let! Irp1 := RunActions Irp actions in ObWaitOnObject env' Irp1
    | EnvWaitFails s :: env' => ret (s, Irp, env')
    end.

(** The loop of [IoSendSynchronousIrp]. The local [Status] has no
    initializer: it is [None] until the wait assigns it. *)
Fixpoint SendLoop (fuel : nat) (env : list ENV_STEP) (Irp : IRP_INTERNAL)
    (Status' : option KSTATUS) : Run Event (option KSTATUS * IRP_INTERNAL) :=
  if flag_test (Flags Irp) IRP_DRIVER_STACK_COMPLETE then
    ret (Status', set_Flags (flag_clear (Flags Irp) IRP_ACTIVE) Irp)
  else
    match fuel with
    | O => OutOfFuel
    | S fuel' =>
        let! Irp1 := IopPumpIrpThroughStack fuel' Irp in
        if flag_test (Flags Irp1) IRP_PENDING then
          run! emit EvWait in
          let! woken := ObWaitOnObject env Irp1 in
          let '(WaitStatus, Irp2, env') := woken in
          if negb (KSUCCESS WaitStatus) then
            ret (Some WaitStatus,
                 set_Flags (flag_clear (Flags Irp2) IRP_ACTIVE) Irp2)
          else
            SendLoop fuel' env'
              (set_Flags (flag_clear (Flags Irp2) IRP_PENDING) Irp2)
              (Some WaitStatus)
        else SendLoop fuel' env Irp1 Status'
    end.

(** [IoSendSynchronousIrp]. The value returned is [None] when the function
    returns its local [Status] without ever having assigned it. *)
Definition IoSendSynchronousIrp (fuel : nat) (env : list ENV_STEP)
    (Irp : IRP_INTERNAL) : Run Event (option KSTATUS * IRP_INTERNAL) :=
  if negb (Magic Irp =? IRP_MAGIC_VALUE) then Crash IrpCrashImproperlyAllocated
  else if negb (bool_decide (ShadowDevice Irp = Device (Public Irp)))
          || negb (bool_decide (ShadowMajorCode Irp = MajorCode (Public Irp)))
  then Crash IrpCrashConstantStateModified
  else if (MinorCode (Public Irp) =? IrpMinorInvalid)
          || negb (bool_decide (Direction (Public Irp) = IrpDown))
          || negb (bool_decide (CompletionRoutine (Public Irp) = None))
  then ret (Some STATUS_INVALID_PARAMETER, Irp)
  else
    let! Irp1 := ObUnsignalObject Irp in
    SendLoop fuel env (set_Flags (flag_or (Flags Irp1) IRP_ACTIVE) Irp1) None.

(** *** Creation and destruction *)

Section Machine.

(** The width of [UINTN] and of a pointer, in bits (32 or 64). *)
Variable UINTN_BITS : Z.

Definition UINTN (x : Z) : Z := wrap UINTN_BITS x.

(** [sizeof(IRP_STACK_ENTRY)]: two pointers. *)
Definition SIZEOF_IRP_STACK_ENTRY : Z := 2 * (UINTN_BITS / 8).

(** The first loop of [IoCreateIrp]: the stack sizes of the chain of target
    devices, added up in a [ULONG]; the chain is not followed through a
    volume. *)
Fixpoint SumStackSizes (CurrentTarget : DEVICE) (Size : Z) : Z :=
  match CurrentTarget with
  | MkDevice _ type _ _ size _ target =>
      let Size' := ULONG (Size + size) in
      match type, target with
      | ObjectDevice, Some next => SumStackSizes next Size'
      | _, _ => Size'
      end
  end.

(** The object [ObCreateObject] hands out: one reference, not signalled,
    everything else zero. *)
Definition FreshIrpObject : IRP_INTERNAL :=
  {| Public := {| Header := {| ReferenceCount := 1; Signaled := false |};
                  Device := None; MajorCode := IrpMajorInvalid;
                  MinorCode := 0; Direction := IrpDirectionInvalid;
                  Status := STATUS_SUCCESS; U := UZero;
                  CompletionRoutine := None; CompletionContext := 0 |};
     Magic := 0; ShadowDevice := None; ShadowMajorCode := IrpMajorInvalid;
     Stack := None; StackIndex := 0; StackSize := 0; Flags := 0 |}.

Definition ZeroStackEntry : IRP_STACK_ENTRY :=
  {| DriverStackEntry := None; IrpContext := None |}.

(** The locals of [IoCreateIrp] that live across its loops. [cStatus] and
    [cCurrentStackEntry] have no initializer. *)
Record CREATE_LOCALS : Type := {
  cIrp : IRP_INTERNAL;
  cEntryIndex : Z;
  cCurrentStackEntry : option DRIVER_STACK_ENTRY;
  cStatus : option KSTATUS
}.

(** A store through [Irp->Stack[EntryIndex]]. *)
Definition StoreStackEntry (Irp : IRP_INTERNAL) (EntryIndex : Z)
    (f : IRP_STACK_ENTRY -> IRP_STACK_ENTRY) : Run Event IRP_INTERNAL :=
  let! stack := deref (Stack Irp) in
  let! old := index stack EntryIndex in
  ret (set_Stack (Some (<[Z.to_nat EntryIndex := f old]> stack)) Irp).

(** The loop over the driver stack of one device. The boolean of the
    result tells whether the loop left through [goto CreateIrpEnd]. *)
Fixpoint CreateDriverLoop (Flags' : Z) (entries : list DRIVER_STACK_ENTRY)
    (L : CREATE_LOCALS) : Run Event (CREATE_LOCALS * bool) :=
  match entries with
  | [] => ret (L, false)
  | CurrentStackEntry :: rest =>
      let! Irp1 :=
        StoreStackEntry (cIrp L) (cEntryIndex L)
          (fun e => {| DriverStackEntry := Some CurrentStackEntry;
                       IrpContext := IrpContext e |}) in
      match CreateIrp (FunctionTable (Driver CurrentStackEntry)) with
      | Some hook =>
          run! emit (EvCreateIrp (DriverAddress (Driver CurrentStackEntry))
                       (cEntryIndex L)) in
          let '(Status', Context) :=
            hook (Public Irp1) (DriverContext CurrentStackEntry) Flags' in
          let! Irp2 :=
            StoreStackEntry Irp1 (cEntryIndex L)
              (fun e => {| DriverStackEntry := DriverStackEntry e;
                           IrpContext := Context |}) in
          if negb (KSUCCESS Status') then
            ret ({| cIrp := Irp2; cEntryIndex := cEntryIndex L;
                    cCurrentStackEntry := Some CurrentStackEntry;
                    cStatus := Some Status' |}, true)
          else
            CreateDriverLoop Flags' rest
              {| cIrp := Irp2; cEntryIndex := ULONG (cEntryIndex L + 1);
                 cCurrentStackEntry := Some CurrentStackEntry;
                 cStatus := Some Status' |}
      | None =>
          CreateDriverLoop Flags' rest
            {| cIrp := Irp1; cEntryIndex := ULONG (cEntryIndex L + 1);
               cCurrentStackEntry := Some CurrentStackEntry;
               cStatus := cStatus L |}
      end
  end.

(** The loop over the chain of target devices. *)
Fixpoint CreateDeviceLoop (Flags' : Z) (CurrentTarget : DEVICE)
    (L : CREATE_LOCALS) : Run Event (CREATE_LOCALS * bool) :=
  match CurrentTarget with
  | MkDevice _ type _ _ _ head target =>
      let! r := CreateDriverLoop Flags' head L in
      let '(L1, jumped) := r in
      if jumped then ret (L1, true)
      else
        match type, target with
        | ObjectDevice, Some next => CreateDeviceLoop Flags' next L1
        | _, _ => ret (L1, false)
        end
  end.

(** The clean-up loop under [CreateIrpEnd], from [EntryIndex] on; [count]
    bounds the iterations that remain ([StackSize - EntryIndex]). *)
Fixpoint CreateCleanupLoop (count : nat) (Irp : IRP_INTERNAL) (EntryIndex : Z)
    (CurrentStackEntry : option DRIVER_STACK_ENTRY) : Run Event unit :=
  match count with
  | O => ret tt
  | S count' =>
      let! entry := StackAt Irp EntryIndex in
      match DriverStackEntry entry with
      | None => ret tt
      | Some _ =>
          let! current := deref CurrentStackEntry in
          run! (match DestroyIrp (FunctionTable (Driver current)) with
                | Some routine =>
                    emit (EvDestroyIrp routine (DriverContext current)
                            (IrpContext entry))
                | None => ret tt
                end) in
          CreateCleanupLoop count' Irp (ULONG (EntryIndex + 1))
            CurrentStackEntry
      end
  end.

(** The code under the label [CreateIrpEnd]. *)
Definition CreateIrpEnd (Status' : option KSTATUS) (Irp : option IRP_INTERNAL)
    (CurrentStackEntry : option DRIVER_STACK_ENTRY)
  : Run Event (option IRP_INTERNAL) :=
  let! Status'' := initialized Status' in
  if negb (KSUCCESS Status'') then
    match Irp with
    | Some Irp' =>
        run! (match Stack Irp' with
              | Some _ =>
                  run! CreateCleanupLoop (Z.to_nat (StackSize Irp')) Irp' 0
                         CurrentStackEntry in
                  emit EvFreeStack
              | None => ret tt
              end) in
        run! emit EvObReleaseReference in
        ret None
    | None => ret None
    end
  else ret Irp.

(** The IRP as [IoCreateIrp] has it before it allocates the stack: the
    object from [ObCreateObject] with the magic word, the device and the
    major code (and their private copies) stored, no stack, and the stack
    size computed from the chain of target devices. *)
Definition NewIrp (Device' : option DEVICE) (Major : IRP_MAJOR_CODE)
  : IRP_INTERNAL :=
  let Address := option_map DeviceAddress Device' in
  {| Public := {| Header := Header (Public FreshIrpObject);
                  Device := Address; MajorCode := Major;
                  MinorCode := MinorCode (Public FreshIrpObject);
                  Direction := Direction (Public FreshIrpObject);
                  Status := Status (Public FreshIrpObject);
                  U := U (Public FreshIrpObject);
                  CompletionRoutine :=
                    CompletionRoutine (Public FreshIrpObject);
                  CompletionContext :=
                    CompletionContext (Public FreshIrpObject) |};
     Magic := IRP_MAGIC_VALUE; ShadowDevice := Address;
     ShadowMajorCode := Major; Stack := None; StackIndex := 0;
     StackSize :=
       match Device' with
       | Some d => SumStackSizes d 0
       | None => 0
       end;
     Flags := 0 |}.

(** [IoCreateIrp]. [ObjectAvailable] and [PoolAvailable] tell whether
    [ObCreateObject] and [MmAllocateNonPagedPool] succeed. *)
Definition IoCreateIrp (ObjectAvailable PoolAvailable : bool)
    (Device' : option DEVICE) (Major : IRP_MAJOR_CODE) (Flags' : Z)
  : Run Event (option IRP_INTERNAL) :=
  if match Device' with
     | Some d => (DriverStackSize d =? 0)
                 || bool_decide (DriverStackHead d = [])
     | None => false
     end
  then CreateIrpEnd (Some STATUS_INVALID_CONFIGURATION) None None
  else if negb ObjectAvailable
  then CreateIrpEnd (Some STATUS_INSUFFICIENT_RESOURCES) None None
  else
    run! emit EvObCreateObject in
    let Irp0 := NewIrp Device' Major in
    let AllocationSize := ULONG (SIZEOF_IRP_STACK_ENTRY * StackSize Irp0) in
    run! emit (EvAllocateStack AllocationSize) in
    let Irp1 :=
      if PoolAvailable then
        set_Stack
          (Some (replicate (Z.to_nat (AllocationSize / SIZEOF_IRP_STACK_ENTRY))
                   ZeroStackEntry)) Irp0
      else Irp0 in
    let Status' :=
      if PoolAvailable then None else Some STATUS_INSUFFICIENT_RESOURCES in
    (* RtlZeroMemory(Irp->Stack, AllocationSize) *)
    if negb PoolAvailable && (0 <? AllocationSize) then Fault NullDereference
    else
      let Irp2 := IopInitializeIrp Irp1 in
      let L := {| cIrp := Irp2; cEntryIndex := 0;
                  cCurrentStackEntry := None; cStatus := Status' |} in
      let! r := match Device' with
                | Some d => CreateDeviceLoop Flags' d L
                | None => ret (L, false)
                end in
      let '(L1, jumped) := r in
      CreateIrpEnd (if jumped then cStatus L1 else Some STATUS_SUCCESS)
        (Some (cIrp L1)) (cCurrentStackEntry L1).

(** The loop of [IoDestroyIrp]. *)
Fixpoint DestroyLoop (count : nat) (Irp : IRP_INTERNAL) (EntryIndex : Z)
  : Run Event unit :=
  match count with
  | O => ret tt
  | S count' =>
      let! entry := StackAt Irp EntryIndex in
      let! DriverStackEntry' := deref (DriverStackEntry entry) in
      run! (match DestroyIrp (FunctionTable (Driver DriverStackEntry')) with
            | Some routine =>
                emit (EvDestroyIrp routine (DriverContext DriverStackEntry')
                        (IrpContext entry))
            | None => ret tt
            end) in
      DestroyLoop count' Irp (ULONG (EntryIndex + 1))
  end.

Definition IoDestroyIrp (Irp : IRP_INTERNAL) : Run Event unit :=
  if negb (Magic Irp =? IRP_MAGIC_VALUE) then Crash IrpCrashImproperlyAllocated
  else if negb (bool_decide (ShadowDevice Irp = Device (Public Irp)))
          || negb (bool_decide (ShadowMajorCode Irp = MajorCode (Public Irp)))
  then Crash IrpCrashConstantStateModified
  else
    run! DestroyLoop (Z.to_nat (StackSize Irp)) Irp 0 in
    run! emit EvFreeStack in
    emit EvObReleaseReference.

(** *** Synchronous helpers *)

(** Modelled from the spec: the bit of a volume's flags that marks the
    unmounting sub-state, and the bit of the I/O flags that marks a request
    made to service a page fault; their values come from headers that are
    not part of the sources at hand. *)
Definition VOLUME_FLAG_UNMOUNTING : Z := 0x2.
Definition IO_FLAG_SERVICING_FAULT : Z := 0x2.

(** What the surroundings of a helper decide: whether the object manager
    and the pool can serve [IoCreateIrp], how many loop iterations the run
    may take, what other contexts do while the sender waits, and what the
    local [Status] of [IoSendSynchronousIrp] holds when that function
    returns it without having assigned it. *)
Record ENVIRONMENT : Type := {
  ObjectAvailable : bool;
  PoolAvailable : bool;
  Fuel : nat;
  Wakeups : list ENV_STEP;
  Unassigned : KSTATUS
}.

(** The status a helper receives from [IoSendSynchronousIrp]: the helpers
    test whatever value comes back, also when it was never assigned. *)
Definition SendStatus (env : ENVIRONMENT) (Sent : option KSTATUS) : KSTATUS :=
  match Sent with
  | Some Status' => Status'
  | None => Unassigned env
  end.

Definition OpenOf (u : IRP_PARAMETERS) (default : PVOID) : PVOID :=
  match u with UOpen r => r | _ => default end.

Definition ReadWriteOf (u : IRP_PARAMETERS) (default : IRP_READ_WRITE)
  : IRP_READ_WRITE :=
  match u with UReadWrite r => r | _ => default end.

Definition IopSendOpenIrp (env : ENVIRONMENT) (Device' : DEVICE)
    (OpenRequest : PVOID) : Run Event (KSTATUS * PVOID) :=
  run! emit (EvAcquireShared (DeviceAddress Device')) in
  if bool_decide (State Device' = DeviceRemoved) then
    run! emit (EvReleaseShared (DeviceAddress Device')) in
    ret (STATUS_DEVICE_NOT_CONNECTED, OpenRequest)
  else
    let! OpenIrp :=
      IoCreateIrp (ObjectAvailable env) (PoolAvailable env) (Some Device')
        IrpMajorOpen 0 in
    match OpenIrp with
    | None =>
        run! emit (EvReleaseShared (DeviceAddress Device')) in
        ret (STATUS_INSUFFICIENT_RESOURCES, OpenRequest)
    | Some Irp0 =>
        let Irp1 := set_Public (set_MinorCode IrpMinorOpen (Public Irp0)) Irp0 in
        let Irp2 := set_Public (set_U (UOpen OpenRequest) (Public Irp1)) Irp1 in
        let! sent := IoSendSynchronousIrp (Fuel env) (Wakeups env) Irp2 in
        let '(Sent, Irp3) := sent in
        let Status' := SendStatus env Sent in
        if negb (KSUCCESS Status') then
          run! emit (EvReleaseShared (DeviceAddress Device')) in
          run! IoDestroyIrp Irp3 in
          ret (Status', OpenRequest)
        else
          run! emit (EvReleaseShared (DeviceAddress Device')) in
          run! IoDestroyIrp Irp3 in
          ret (IoGetIrpStatus Irp3, OpenOf (U (Public Irp3)) OpenRequest)
    end.

Definition IopSendCloseIrp (env : ENVIRONMENT) (Device' : DEVICE)
    (CloseRequest : PVOID) : Run Event KSTATUS :=
  let! CloseIrp :=
    IoCreateIrp (ObjectAvailable env) (PoolAvailable env) (Some Device')
      IrpMajorClose 0 in
  match CloseIrp with
  | None => ret STATUS_INSUFFICIENT_RESOURCES
  | Some Irp0 =>
      let Irp1 := set_Public (set_MinorCode IrpMinorClose (Public Irp0)) Irp0 in
      let Irp2 := set_Public (set_U (UClose CloseRequest) (Public Irp1)) Irp1 in
      let! sent := IoSendSynchronousIrp (Fuel env) (Wakeups env) Irp2 in
      let '(Sent, Irp3) := sent in
      let Status' := SendStatus env Sent in
      if negb (KSUCCESS Status') then
        run! IoDestroyIrp Irp3 in ret Status'
      else
        run! IoDestroyIrp Irp3 in ret (IoGetIrpStatus Irp3)
  end.

Definition IopSendIoIrp (env : ENVIRONMENT) (Device' : DEVICE)
    (MinorCodeNumber : IRP_MINOR_CODE) (Request : IRP_READ_WRITE)
  : Run Event (KSTATUS * IRP_READ_WRITE) :=
  let! IoIrp :=
    IoCreateIrp (ObjectAvailable env) (PoolAvailable env) (Some Device')
      IrpMajorIo 0 in
  match IoIrp with
  | None => ret (STATUS_INSUFFICIENT_RESOURCES, Request)
  | Some Irp0 =>
      run! (if flag_test (IoFlags Request) IO_FLAG_SERVICING_FAULT
            then emit EvHardPageFault else ret tt) in
      let Irp1 := set_Public (set_MinorCode MinorCodeNumber (Public Irp0)) Irp0 in
      let Irp2 := set_Public (set_U (UReadWrite Request) (Public Irp1)) Irp1 in
      let! sent := IoSendSynchronousIrp (Fuel env) (Wakeups env) Irp2 in
      let '(Sent, Irp3) := sent in
      let Status' := SendStatus env Sent in
      if negb (KSUCCESS Status') then
        run! IoDestroyIrp Irp3 in ret (Status', Request)
      else
        let Request' := ReadWriteOf (U (Public Irp3)) Request in
        run! (if bool_decide (DeviceType Device' = ObjectDevice) then
                if MinorCodeNumber =? IrpMinorIoWrite
                then emit (EvBytesWritten (IoBytesCompleted Request'))
                else emit (EvBytesRead (IoBytesCompleted Request'))
              else ret tt) in
        run! IoDestroyIrp Irp3 in
        ret (IoGetIrpStatus Irp3, Request')
  end.

(** The adjustment [IopSendIoReadIrp] makes to the request that came back
    from the send. *)
Definition ClampToFileSize (Request : IRP_READ_WRITE) : IRP_READ_WRITE :=
  let FileSize' := FileSize Request in
  if FileSize' <? ULONGLONG (IoOffset Request + IoBytesCompleted Request) then
    if FileSize' <? IoOffset Request then
      {| IoBuffer := IoBuffer Request; IoFlags := IoFlags Request;
         IoOffset := IoOffset Request;
         IoSizeInBytes := IoSizeInBytes Request;
         IoBytesCompleted := 0;
         NewIoOffset := IoOffset Request;
         FileSize := FileSize Request |}
    else
      let Completed := UINTN (ULONGLONG (FileSize' - IoOffset Request)) in
      {| IoBuffer := IoBuffer Request; IoFlags := IoFlags Request;
         IoOffset := IoOffset Request;
         IoSizeInBytes := IoSizeInBytes Request;
         IoBytesCompleted := Completed;
         NewIoOffset := ULONGLONG (IoOffset Request + Completed);
         FileSize := FileSize Request |}
  else Request.

Definition IopSendIoReadIrp (env : ENVIRONMENT) (Device' : DEVICE)
    (Request : IRP_READ_WRITE) : Run Event (KSTATUS * IRP_READ_WRITE) :=
  let! r := IopSendIoIrp env Device' IrpMinorIoRead Request in
  let '(Status', Request') := r in
  ret (Status', ClampToFileSize Request').

Definition IopSendSystemControlIrp (env : ENVIRONMENT) (Device' : DEVICE)
    (ControlNumber : IRP_MINOR_CODE) (SystemContext : PVOID)
  : Run Event KSTATUS :=
  if ControlNumber <=? IrpMinorSystemControlInvalid then
    ret STATUS_INVALID_PARAMETER
  else
    run! emit (EvAcquireShared (DeviceAddress Device')) in
    if bool_decide (State Device' = DeviceRemoved) then
      run! emit (EvReleaseShared (DeviceAddress Device')) in
      ret STATUS_DEVICE_NOT_CONNECTED
    else if bool_decide (DeviceType Device' = ObjectVolume)
            && flag_test (VolumeFlags Device') VOLUME_FLAG_UNMOUNTING
            && negb (ControlNumber =? IrpMinorSystemControlWriteFileProperties)
            && negb (ControlNumber =? IrpMinorSystemControlDelete)
    then
      run! emit (EvReleaseShared (DeviceAddress Device')) in
      ret STATUS_DEVICE_NOT_CONNECTED
    else
      let! Irp' :=
        IoCreateIrp (ObjectAvailable env) (PoolAvailable env) (Some Device')
          IrpMajorSystemControl 0 in
      match Irp' with
      | None =>
          run! emit (EvReleaseShared (DeviceAddress Device')) in
          ret STATUS_INSUFFICIENT_RESOURCES
      | Some Irp0 =>
          let Irp1 :=
            set_Public (set_MinorCode ControlNumber (Public Irp0)) Irp0 in
          let Irp2 :=
            set_Public (set_U (USystemControl SystemContext) (Public Irp1))
              Irp1 in
          let! sent := IoSendSynchronousIrp (Fuel env) (Wakeups env) Irp2 in
          let '(Sent, Irp3) := sent in
          let Status' := SendStatus env Sent in
          run! emit (EvReleaseShared (DeviceAddress Device')) in
          run! IoDestroyIrp Irp3 in
          if negb (KSUCCESS Status') then ret Status'
          else ret (IoGetIrpStatus Irp3)
      end.

Definition IopSendUserControlIrp (env : ENVIRONMENT) (Device' : DEVICE)
    (MinorCode' : Z) (FromKernelMode' : bool) (UserContext : PVOID)
    (UserContextSize : Z) : Run Event KSTATUS :=
  run! emit (EvAcquireShared (DeviceAddress Device')) in
  if bool_decide (State Device' = DeviceRemoved) then
    run! emit (EvReleaseShared (DeviceAddress Device')) in
    ret STATUS_DEVICE_NOT_CONNECTED
  else
    let! Irp' :=
      IoCreateIrp (ObjectAvailable env) (PoolAvailable env) (Some Device')
        IrpMajorUserControl 0 in
    match Irp' with
    | None =>
        run! emit (EvReleaseShared (DeviceAddress Device')) in
        ret STATUS_INSUFFICIENT_RESOURCES
    | Some Irp0 =>
        let Irp1 := set_Public (set_MinorCode MinorCode' (Public Irp0)) Irp0 in
        let Irp2 :=
          set_Public
            (set_U (UUserControl {| FromKernelMode := FromKernelMode';
                                    UserBuffer := UserContext;
                                    UserBufferSize := UserContextSize |})
               (Public Irp1)) Irp1 in
        let! sent := IoSendSynchronousIrp (Fuel env) (Wakeups env) Irp2 in
        let '(Sent, Irp3) := sent in
        let Status' := SendStatus env Sent in
        run! emit (EvReleaseShared (DeviceAddress Device')) in
        run! IoDestroyIrp Irp3 in
        if negb (KSUCCESS Status') then ret Status'
        else ret (IoGetIrpStatus Irp3)
    end.

End Machine.
End Irp.

(** ** The SD/MMC driver ([drivers/sd/core/sd.c]) *)

Module Sd.

Definition SD_SLOT_FLAG_REMOVAL_PENDING : Z := 0x00000001.
Definition SD_SLOT_FLAG_INSERTION_PENDING : Z := 0x00000002.
Definition SD_DISK_FLAG_MEDIA_PRESENT : Z := 0x00000001.
Definition SD_DISK_FLAG_DMA_SUPPORTED : Z := 0x00000002.
Definition SD_INSERTION_SETTLE_DELAY : Z := 50000.

Inductive SD_DEVICE_TYPE : Type :=
| SdDeviceInvalid
| SdDeviceBus
| SdDeviceSlot
| SdDeviceDisk.

(** Addresses of pool allocations and of kernel objects. *)
Definition ADDRESS : Type := nat.

(** [SD_DISK]. [DiskToken] is the token of the published disk interface,
    the only member of [DiskInterface] this code inspects. *)
Record SD_DISK : Type := {
  DiskType : SD_DEVICE_TYPE;
  ReferenceCount : Z;
  DiskDevice : option ADDRESS;
  DiskParent : option ADDRESS;
  DiskController : option ADDRESS;
  ControllerLock : option ADDRESS;
  DiskIrp : option ADDRESS;
  DiskIoBuffer : option ADDRESS;
  DiskFlags : Z;
  BlockShift : Z;
  BlockCount : Z;
  DiskToken : option ADDRESS
}.

(** [SD_SLOT], as far as slot enumeration uses it. *)
Record SD_SLOT : Type := {
  SlotAddress : ADDRESS;
  SlotDevice : option ADDRESS;
  SlotController : option ADDRESS;
  SlotDisk : option ADDRESS;
  SlotFlags : Z;
  SlotLock : option ADDRESS
}.

Record IO_BUFFER_FRAGMENT : Type := {
  VirtualAddress : Z;
  PhysicalAddress : Z;
  Size : Z
}.

(** An I/O buffer: where it lives, its fragments ([FragmentCount] is their
    number) and its current offset. *)
Record IO_BUFFER : Type := {
  BufferAddress : ADDRESS;
  Fragment : list IO_BUFFER_FRAGMENT;
  CurrentOffset : Z
}.

Definition FragmentCount (b : IO_BUFFER) : Z := Z.of_nat (length (Fragment b)).

Inductive Event : Type :=
| EvIrp (e : Irp.Event)
| EvDebugPrint (Status : KSTATUS)
| EvBlockIoDma (Controller : option ADDRESS) (BlockOffset BlockCount : Z)
               (IoBuffer : option ADDRESS) (IoBufferOffset : Z) (Write : bool)
               (Context : ADDRESS)
| EvBlockIoPolled (Controller : option ADDRESS) (BlockOffset BlockCount : Z)
                  (VirtualAddress : Z) (Write : bool)
| EvAcquireQueuedLock (Lock : option ADDRESS)
| EvReleaseQueuedLock (Lock : option ADDRESS)
| EvDelayExecution (Microseconds : Z)
| EvInitializeController (Controller : option ADDRESS) (ResetController : bool)
| EvGetMediaParameters (Controller : option ADDRESS)
| EvInitializeDma (Controller : option ADDRESS)
| EvCreateDevice (Context : ADDRESS)
| EvMergeChildArrays (Child : option ADDRESS)
| EvAllocateDisk
| EvDestroyDisk (Address : ADDRESS) (Disk : SD_DISK)
| EvValidateIoBuffer (MaximumPhysicalAddress Alignment SizeInBytes : Z)
| EvCopyIoBuffer (Destination Source : ADDRESS) (ByteCount : Z)
| EvMapIoBuffer (IoBuffer : ADDRESS)
| EvFreeIoBuffer (IoBuffer : ADDRESS)
| EvFlushBuffer (VirtualAddress Size : Z).

(** A run of the IRP engine inside the driver. *)
Definition lift {A} (m : Run Irp.Event A) : Run Event A :=
  match m with
  | Done (a, t) => Done (a, map EvIrp t)
  | Fault f => Fault f
  | Crash r => Crash r
  | Blocked => Blocked
  | OutOfFuel => OutOfFuel
  end.

Definition set_ReferenceCount (n : Z) (d : SD_DISK) : SD_DISK :=
  {| DiskType := DiskType d; ReferenceCount := n; DiskDevice := DiskDevice d;
     DiskParent := DiskParent d; DiskController := DiskController d;
     ControllerLock := ControllerLock d; DiskIrp := DiskIrp d;
     DiskIoBuffer := DiskIoBuffer d; DiskFlags := DiskFlags d;
     BlockShift := BlockShift d; BlockCount := BlockCount d;
     DiskToken := DiskToken d |}.

Definition set_DiskDevice (v : option ADDRESS) (d : SD_DISK) : SD_DISK :=
  {| DiskType := DiskType d; ReferenceCount := ReferenceCount d;
     DiskDevice := v;
     DiskParent := DiskParent d; DiskController := DiskController d;
     ControllerLock := ControllerLock d; DiskIrp := DiskIrp d;
     DiskIoBuffer := DiskIoBuffer d; DiskFlags := DiskFlags d;
     BlockShift := BlockShift d; BlockCount := BlockCount d;
     DiskToken := DiskToken d |}.

Definition set_DiskFlags (f : Z) (d : SD_DISK) : SD_DISK :=
  {| DiskType := DiskType d; ReferenceCount := ReferenceCount d;
     DiskDevice := DiskDevice d;
     DiskParent := DiskParent d; DiskController := DiskController d;
     ControllerLock := ControllerLock d; DiskIrp := DiskIrp d;
     DiskIoBuffer := DiskIoBuffer d; DiskFlags := f;
     BlockShift := BlockShift d; BlockCount := BlockCount d;
     DiskToken := DiskToken d |}.

Definition set_BlockShift (n : Z) (d : SD_DISK) : SD_DISK :=
  {| DiskType := DiskType d; ReferenceCount := ReferenceCount d;
     DiskDevice := DiskDevice d;
     DiskParent := DiskParent d; DiskController := DiskController d;
     ControllerLock := ControllerLock d; DiskIrp := DiskIrp d;
     DiskIoBuffer := DiskIoBuffer d; DiskFlags := DiskFlags d;
     BlockShift := n; BlockCount := BlockCount d;
     DiskToken := DiskToken d |}.

Definition set_BlockCount (n : Z) (d : SD_DISK) : SD_DISK :=
  {| DiskType := DiskType d; ReferenceCount := ReferenceCount d;
     DiskDevice := DiskDevice d;
     DiskParent := DiskParent d; DiskController := DiskController d;
     ControllerLock := ControllerLock d; DiskIrp := DiskIrp d;
     DiskIoBuffer := DiskIoBuffer d; DiskFlags := DiskFlags d;
     BlockShift := BlockShift d; BlockCount := n;
     DiskToken := DiskToken d |}.

Definition set_SlotDisk (v : option ADDRESS) (s : SD_SLOT) : SD_SLOT :=
  {| SlotAddress := SlotAddress s; SlotDevice := SlotDevice s;
     SlotController := SlotController s; SlotDisk := v;
     SlotFlags := SlotFlags s; SlotLock := SlotLock s |}.

Definition set_SlotFlags (f : Z) (s : SD_SLOT) : SD_SLOT :=
  {| SlotAddress := SlotAddress s; SlotDevice := SlotDevice s;
     SlotController := SlotController s; SlotDisk := SlotDisk s;
     SlotFlags := f; SlotLock := SlotLock s |}.

(** The memory slot enumeration works on: the slot, the disk contexts in
    the pool, and the children reported through the IRP. *)
Record MEMORY : Type := {
  Slot : SD_SLOT;
  Disks : gmap ADDRESS SD_DISK;
  Children : list ADDRESS
}.

Definition set_Slot (s : SD_SLOT) (m : MEMORY) : MEMORY :=
  {| Slot := s; Disks := Disks m; Children := Children m |}.

Definition set_Disks (d : gmap ADDRESS SD_DISK) (m : MEMORY) : MEMORY :=
  {| Slot := Slot m; Disks := d; Children := Children m |}.

Definition set_Children (c : list ADDRESS) (m : MEMORY) : MEMORY :=
  {| Slot := Slot m; Disks := Disks m; Children := c |}.

(** A load through a pointer to a disk context. *)
Definition LoadDisk (m : MEMORY) (p : option ADDRESS) : Run Event SD_DISK :=
  let! a := deref p in deref (Disks m !! a).

Definition StoreDisk (m : MEMORY) (a : ADDRESS) (d : SD_DISK) : MEMORY :=
  set_Disks (<[a := d]> (Disks m)) m.

(** [RtlCountTrailingZeros32]: the index of the lowest set bit among the
    low 32, and 32 when there is none. *)
Fixpoint CountTrailingZerosFrom (bits : nat) (i : Z) (x : Z) : Z :=
  match bits with
  | O => i
  | S bits' =>
      if Z.testbit x i then i else CountTrailingZerosFrom bits' (i + 1) x
  end.

Definition RtlCountTrailingZeros32 (x : Z) : Z :=
  CountTrailingZerosFrom 32 0 x.

(** *** Disk contexts and their reference count *)

Definition ZeroDisk : SD_DISK :=
  {| DiskType := SdDeviceInvalid; ReferenceCount := 0; DiskDevice := None;
     DiskParent := None; DiskController := None; ControllerLock := None;
     DiskIrp := None; DiskIoBuffer := None; DiskFlags := 0; BlockShift := 0;
     BlockCount := 0; DiskToken := None |}.

(** The contents [SdpCreateDisk] gives a fresh context: zeroed, then tied
    to the slot, with one reference. *)
Definition NewDiskContext (s : SD_SLOT) : SD_DISK :=
  {| DiskType := SdDeviceDisk; ReferenceCount := 1;
     DiskDevice := DiskDevice ZeroDisk;
     DiskParent := Some (SlotAddress s);
     DiskController := SlotController s;
     ControllerLock := SlotLock s;
     DiskIrp := DiskIrp ZeroDisk; DiskIoBuffer := DiskIoBuffer ZeroDisk;
     DiskFlags := DiskFlags ZeroDisk; BlockShift := BlockShift ZeroDisk;
     BlockCount := BlockCount ZeroDisk;
     DiskToken := DiskToken ZeroDisk |}.

(** [SdpCreateDisk]; [Allocation] is what the pool returns. *)
Definition SdpCreateDisk (Allocation : option ADDRESS) (m : MEMORY)
  : Run Event (option ADDRESS * MEMORY) :=
  run! emit EvAllocateDisk in
  match Allocation with
  | None => ret (None, m)
  | Some a => ret (Some a, StoreDisk m a (NewDiskContext (Slot m)))
  end.

Definition SdpDestroyDisk (m : MEMORY) (a : ADDRESS) : Run Event MEMORY :=
  let! Disk := LoadDisk m (Some a) in
  run! emit (EvDestroyDisk a Disk) in
  ret (set_Disks (delete a (Disks m)) m).

Definition SdpDiskAddReference (m : MEMORY) (a : ADDRESS) : Run Event MEMORY :=
  let! Disk := LoadDisk m (Some a) in
  ret (StoreDisk m a (set_ReferenceCount (ULONG (ReferenceCount Disk + 1)) Disk)).

Definition SdpDiskReleaseReference (m : MEMORY) (a : ADDRESS)
  : Run Event MEMORY :=
  let! Disk := LoadDisk m (Some a) in
  let OldReferenceCount := ReferenceCount Disk in
  let m1 :=
    StoreDisk m a
      (set_ReferenceCount (ULONG (OldReferenceCount + ULONG (-1))) Disk) in
  if OldReferenceCount =? 1 then SdpDestroyDisk m1 a else ret m1.

(** *** Slot enumeration *)

(** What the controller library, the pool and the I/O manager answer
    during one enumeration. *)
Record ENUMERATION : Type := {
  InitializeController : KSTATUS;
  DiskAllocation : option ADDRESS;
  MediaParameters : KSTATUS * Z * Z;
  InitializeDma : KSTATUS;
  CreateDevice : KSTATUS * option ADDRESS;
  MergeChildArrays : KSTATUS
}.

(** The code under the label [SlotQueryChildrenEnd]. *)
Definition SlotQueryChildrenEnd (Status : KSTATUS) (NewDisk : option ADDRESS)
    (m : MEMORY) : Run Event (KSTATUS * MEMORY) :=
  match NewDisk with
  | Some a => let! m1 := SdpDiskReleaseReference m a in ret (Status, m1)
  | None => ret (Status, m)
  end.

(** The part of [SdpSlotQueryChildren] after the insertion block. *)
Definition SlotEnumerateChild (env : ENUMERATION) (m : MEMORY)
  : Run Event (KSTATUS * MEMORY) :=
  match SlotDisk (Slot m) with
  | None => SlotQueryChildrenEnd STATUS_SUCCESS None m
  | Some a =>
      let! Disk := LoadDisk m (Some a) in
      run! emit (EvMergeChildArrays (DiskDevice Disk)) in
      let m1 :=
        if KSUCCESS (MergeChildArrays env) then
          match DiskDevice Disk with
          | Some child => set_Children (Children m ++ [child]) m
          | None => m
          end
        else m in
      SlotQueryChildrenEnd (MergeChildArrays env) None m1
  end.

(** The removal of the slot's existing disk, if it has one: its media is
    marked absent under the slot's lock and the slot lets go of it. *)
Definition DetachDisk (m : MEMORY) : Run Event MEMORY :=
  match SlotDisk (Slot m) with
  | Some a =>
      run! emit (EvAcquireQueuedLock (SlotLock (Slot m))) in
      let! Disk := LoadDisk m (Some a) in
      let m' :=
        StoreDisk m a
          (set_DiskFlags
             (flag_clear (DiskFlags Disk) SD_DISK_FLAG_MEDIA_PRESENT) Disk) in
      run! emit (EvReleaseQueuedLock (SlotLock (Slot m))) in
      ret (set_Slot (set_SlotDisk None (Slot m')) m')
  | None => ret m
  end.

(** The insertion block from the DMA initialization on, for the new disk
    context at [a] whose block count and shift are set. *)
Definition SlotPublishDisk (env : ENUMERATION) (a : ADDRESS) (m : MEMORY)
  : Run Event (KSTATUS * MEMORY) :=
  let! Disk := LoadDisk m (Some a) in
  run! emit (EvInitializeDma (DiskController Disk)) in
  let Status := InitializeDma env in
  if negb (KSUCCESS Status) && bool_decide (Status = STATUS_NO_MEDIA) then
    SlotQueryChildrenEnd STATUS_SUCCESS (Some a) m
  else
    let Disk1 :=
      if KSUCCESS Status then
        set_DiskFlags (flag_or (DiskFlags Disk) SD_DISK_FLAG_DMA_SUPPORTED) Disk
      else Disk in
    let Disk2 :=
      set_DiskFlags (flag_or (DiskFlags Disk1) SD_DISK_FLAG_MEDIA_PRESENT)
        Disk1 in
    run! emit (EvCreateDevice a) in
    let '(Status', NewDevice) := CreateDevice env in
    let Disk3 :=
      if KSUCCESS Status' then set_DiskDevice NewDevice Disk2 else Disk2 in
    let m1 := StoreDisk m a Disk3 in
    if negb (KSUCCESS Status') then SlotQueryChildrenEnd Status' (Some a) m1
    else SlotEnumerateChild env (set_Slot (set_SlotDisk (Some a) (Slot m1)) m1).

(** The insertion block from the reading of the media parameters on, for
    the new disk context at [a]. *)
Definition SlotReadMedia (env : ENUMERATION) (a : ADDRESS) (m : MEMORY)
  : Run Event (KSTATUS * MEMORY) :=
  let! Disk := LoadDisk m (Some a) in
  run! emit (EvGetMediaParameters (DiskController Disk)) in
  let '(Status, Count, BlockSize) := MediaParameters env in
  if negb (KSUCCESS Status) then
    SlotQueryChildrenEnd
      (if bool_decide (Status = STATUS_NO_MEDIA) then STATUS_SUCCESS
       else Status) (Some a) m
  else
    let Disk1 := set_BlockCount (ULONGLONG Count) Disk in
    let Disk2 := set_BlockShift (RtlCountTrailingZeros32 BlockSize) Disk1 in
    SlotPublishDisk env a (StoreDisk m a Disk2).

(** The insertion block. *)
Definition SlotInsertDisk (env : ENUMERATION) (m : MEMORY)
  : Run Event (KSTATUS * MEMORY) :=
  run! emit (EvDelayExecution SD_INSERTION_SETTLE_DELAY) in
  run! emit (EvInitializeController (SlotController (Slot m)) true) in
  let Status := InitializeController env in
  if negb (KSUCCESS Status) then
    SlotQueryChildrenEnd
      (if bool_decide (Status = STATUS_TIMEOUT) then STATUS_SUCCESS
       else Status) None m
  else
    let! created := SdpCreateDisk (DiskAllocation env) m in
    let '(NewDisk, m1) := created in
    match NewDisk with
    | None => SlotQueryChildrenEnd STATUS_INSUFFICIENT_RESOURCES None m1
    | Some a => SlotReadMedia env a m1
    end.

Definition SdpSlotQueryChildren (env : ENUMERATION) (m : MEMORY)
  : Run Event (KSTATUS * MEMORY) :=
  let FlagsMask :=
    ULONG (Z.lnot (Z.lor SD_SLOT_FLAG_INSERTION_PENDING
                     SD_SLOT_FLAG_REMOVAL_PENDING)) in
  let OldFlags := SlotFlags (Slot m) in
  let m0 := set_Slot (set_SlotFlags (Z.land OldFlags FlagsMask) (Slot m)) m in
  let FlagsMask' :=
    Z.lor SD_SLOT_FLAG_INSERTION_PENDING SD_SLOT_FLAG_REMOVAL_PENDING in
  let! m1 :=
    (if flag_test OldFlags FlagsMask' then DetachDisk m0 else ret m0) in
  if flag_test OldFlags SD_SLOT_FLAG_INSERTION_PENDING
  then SlotInsertDisk env m1
  else SlotEnumerateChild env m1.

Section Driver.

(** The width of [UINTN] in bits, and the driver object [SdDriver]. *)
Variable UINTN_BITS : Z.
Variable SdDriver : Irp.PDRIVER.

Let UINTN (x : Z) : Z := Irp.UINTN UINTN_BITS x.

(** *** DMA completion *)

Definition ZeroReadWrite : Irp.IRP_READ_WRITE :=
  {| Irp.IoBuffer := None; Irp.IoFlags := 0; Irp.IoOffset := 0;
     Irp.IoSizeInBytes := 0; Irp.IoBytesCompleted := 0;
     Irp.NewIoOffset := 0; Irp.FileSize := 0 |}.

(** [Irp->U.ReadWrite]. *)
Definition ReadWrite (Irp' : Irp.IRP_INTERNAL) : Irp.IRP_READ_WRITE :=
  Irp.ReadWriteOf (Irp.U (Irp.Public Irp')) ZeroReadWrite.

(** [SdpDmaCompletion]. [ActiveIrp] is the IRP [Disk->Irp] points to, if
    any. *)
Definition SdpDmaCompletion (Disk : SD_DISK) (Context : ADDRESS)
    (ActiveIrp : option Irp.IRP_INTERNAL) (BytesTransferred : Z)
    (Status : KSTATUS) : Run Event Irp.IRP_INTERNAL :=
  let! Irp0 := deref ActiveIrp in
  if negb (KSUCCESS Status) then
    run! emit (EvDebugPrint Status) in
    lift (Irp.IoCompleteIrp SdDriver Irp0 Status)
  else
    let Request := ReadWrite Irp0 in
    let Completed := UINTN (Irp.IoBytesCompleted Request + BytesTransferred) in
    let NewOffset := ULONGLONG (Irp.NewIoOffset Request + BytesTransferred) in
    let Irp1 :=
      Irp.set_Public
        (Irp.set_U
           (Irp.StoreIoResult Completed NewOffset
              (Irp.UReadWrite Request)) (Irp.Public Irp0)) Irp0 in
    if Completed =? Irp.IoSizeInBytes Request then
      lift (Irp.IoCompleteIrp SdDriver Irp1 Status)
    else
      let IoOffset := NewOffset in
      let BlockOffset := Z.shiftr IoOffset (BlockShift Disk) in
      let IoSize := UINTN (Irp.IoSizeInBytes Request - Completed) in
      let BlockCount' := Z.shiftr IoSize (BlockShift Disk) in
      let Write :=
        Irp.MinorCode (Irp.Public Irp1) =? Irp.IrpMinorIoWrite in
      run! emit (EvBlockIoDma (DiskController Disk) BlockOffset BlockCount'
                   (Irp.IoBuffer Request) Completed Write Context) in
      ret Irp1.

(** *** Polled block I/O *)

(** What the memory manager and the controller answer during one polled
    transfer. [ValidateIoBuffer] yields the buffer to use, the caller's or
    a substitute. *)
Record POLLED_ENVIRONMENT : Type := {
  ValidateIoBuffer : KSTATUS * IO_BUFFER;
  CopyIn : KSTATUS;
  MapIoBuffer : KSTATUS;
  BlockIoPolled : Z -> Z -> Z -> bool -> KSTATUS;
  CopyBack : KSTATUS
}.

(** The loop that finds the fragment the buffer's current offset lies in.
    Yields [FragmentIndex] and [FragmentOffset]. *)
Fixpoint FindStartingFragment (fuel : nat) (IoBuffer : IO_BUFFER)
    (IoBufferOffset FragmentIndex : Z) : Run Event (Z * Z) :=
  if IoBufferOffset =? 0 then ret (FragmentIndex, 0)
  else
    match fuel with
    | O => OutOfFuel
    | S fuel' =>
        let! Fragment' := index (Fragment IoBuffer) FragmentIndex in
        if IoBufferOffset <? Size Fragment' then
          ret (FragmentIndex, IoBufferOffset)
        else
          FindStartingFragment fuel' IoBuffer
            (UINTN (IoBufferOffset - Size Fragment'))
            (UINTN (FragmentIndex + 1))
    end.

(** The locals of the transfer loop. *)
Record POLLED_LOCALS : Type := {
  lBlockOffset : Z;
  lBlocksComplete : Z;
  lFragmentIndex : Z;
  lFragmentOffset : Z
}.

(** The transfer loop. Yields the status it ends with and the locals. *)
Fixpoint PolledTransferLoop (fuel : nat) (env : POLLED_ENVIRONMENT)
    (Disk : SD_DISK) (IoBuffer : IO_BUFFER) (BlocksToComplete : Z)
    (Write : bool) (L : POLLED_LOCALS) : Run Event (KSTATUS * POLLED_LOCALS) :=
  if lBlocksComplete L =? BlocksToComplete then ret (STATUS_SUCCESS, L)
  else
    match fuel with
    | O => OutOfFuel
    | S fuel' =>
        let! Fragment' := index (Fragment IoBuffer) (lFragmentIndex L) in
        let VirtualAddress' :=
          UINTN (VirtualAddress Fragment' + lFragmentOffset L) in
        let FragmentSize := UINTN (Size Fragment' - lFragmentOffset L) in
        let BlockCount0 := Z.shiftr FragmentSize (BlockShift Disk) in
        let Remaining := UINTN (BlocksToComplete - lBlocksComplete L) in
        let BlockCount' :=
          if Remaining <? BlockCount0 then Remaining else BlockCount0 in
        run! emit (EvBlockIoPolled (DiskController Disk) (lBlockOffset L)
                     BlockCount' VirtualAddress' Write) in
        let Status :=
          BlockIoPolled env (lBlockOffset L) BlockCount' VirtualAddress' Write in
        if negb (KSUCCESS Status) then ret (Status, L)
        else
          let FragmentOffset' :=
            UINTN (lFragmentOffset L
                   + UINTN (Z.shiftl BlockCount' (BlockShift Disk))) in
          let Exhausted := Size Fragment' <=? FragmentOffset' in
          PolledTransferLoop fuel' env Disk IoBuffer BlocksToComplete Write
            {| lBlockOffset := ULONGLONG (lBlockOffset L + BlockCount');
               lBlocksComplete := UINTN (lBlocksComplete L + BlockCount');
               lFragmentIndex :=
                 if Exhausted then UINTN (lFragmentIndex L + 1)
                 else lFragmentIndex L;
               lFragmentOffset := if Exhausted then 0 else FragmentOffset' |}
    end.

Fixpoint FlushFragments (l : list IO_BUFFER_FRAGMENT) : Run Event unit :=
  match l with
  | [] => ret tt
  | f :: l' =>
      run! emit (EvFlushBuffer (VirtualAddress f) (Size f)) in
      FlushFragments l'
  end.

(** The code under the label [PerformBlockIoPolledEnd]. Yields the status
    and the value stored through [BlocksCompleted]. *)
Definition PerformBlockIoPolledEnd (env : POLLED_ENVIRONMENT) (Disk : SD_DISK)
    (OriginalIoBuffer IoBuffer : IO_BUFFER) (Write LockHeld : bool)
    (Status : KSTATUS) (BlocksComplete : Z) : Run Event (KSTATUS * Z) :=
  run! (if LockHeld then emit (EvReleaseQueuedLock (ControllerLock Disk))
        else ret tt) in
  let! r :=
    (if negb (bool_decide (BufferAddress OriginalIoBuffer
                           = BufferAddress IoBuffer)) then
       let! r' :=
         (if negb Write && negb (BlocksComplete =? 0) then
            run! emit (EvCopyIoBuffer (BufferAddress OriginalIoBuffer)
                         (BufferAddress IoBuffer)
                         (UINTN (Z.shiftl BlocksComplete (BlockShift Disk)))) in
            if negb (KSUCCESS (CopyBack env)) then ret (CopyBack env, 0)
            else ret (CopyBack env, BlocksComplete)
          else ret (Status, BlocksComplete)) in
       run! emit (EvFreeIoBuffer (BufferAddress IoBuffer)) in
       ret r'
     else ret (Status, BlocksComplete)) in
  let '(Status', BlocksComplete') := r in
  run! (if negb Write && negb (BlocksComplete' =? 0)
        then FlushFragments (Fragment OriginalIoBuffer) else ret tt) in
  ret (Status', BlocksComplete').

(** [1 << Disk->BlockShift] as the alignment handed to
    [MmValidateIoBuffer]: the shift is made in a 32-bit [int], whose value
    is then converted to [UINTN]. For the shifts 0 to 30 this is the power
    of two. Beyond, where C does not define the shift, the model takes the
    low 32 bits of the exact result, read as a signed number. *)
Definition BlockAlignment (shift : Z) : Z :=
  let low := wrap 32 (Z.shiftl 1 shift) in
  UINTN (if low <? 2 ^ 31 then low else low - 2 ^ 32).

(** [SdpPerformBlockIoPolled]. *)
Definition SdpPerformBlockIoPolled (fuel : nat) (env : POLLED_ENVIRONMENT)
    (Disk : SD_DISK) (OriginalIoBuffer : IO_BUFFER) (BlockAddress : Z)
    (BlocksToComplete : Z) (Write LockRequired : bool)
  : Run Event (KSTATUS * Z) :=
  let ByteCount := UINTN (Z.shiftl BlocksToComplete (BlockShift Disk)) in
  run! emit (EvValidateIoBuffer MAX_ULONGLONG
               (BlockAlignment (BlockShift Disk)) ByteCount) in
  let '(Status0, IoBuffer) := ValidateIoBuffer env in
  let Substituted :=
    negb (bool_decide (BufferAddress IoBuffer
                       = BufferAddress OriginalIoBuffer)) in
  if negb (KSUCCESS Status0) then
    PerformBlockIoPolledEnd env Disk OriginalIoBuffer IoBuffer Write false
      Status0 0
  else
    let! Status1 :=
      (if Substituted && Write then
         run! emit (EvCopyIoBuffer (BufferAddress IoBuffer)
                      (BufferAddress OriginalIoBuffer) ByteCount) in
         ret (CopyIn env)
       else ret Status0) in
    if negb (KSUCCESS Status1) then
      PerformBlockIoPolledEnd env Disk OriginalIoBuffer IoBuffer Write false
        Status1 0
    else
      run! emit (EvMapIoBuffer (BufferAddress IoBuffer)) in
      let Status2 := MapIoBuffer env in
      if negb (KSUCCESS Status2) then
        PerformBlockIoPolledEnd env Disk OriginalIoBuffer IoBuffer Write false
          Status2 0
      else
        let! start :=
          FindStartingFragment (S (length (Fragment IoBuffer))) IoBuffer
            (CurrentOffset IoBuffer) 0 in
        let '(FragmentIndex, FragmentOffset) := start in
        run! (if LockRequired
              then emit (EvAcquireQueuedLock (ControllerLock Disk))
              else ret tt) in
        let LockHeld := LockRequired in
        if negb (flag_test (DiskFlags Disk) SD_DISK_FLAG_MEDIA_PRESENT) then
          PerformBlockIoPolledEnd env Disk OriginalIoBuffer IoBuffer Write
            LockHeld STATUS_NO_MEDIA 0
        else
          let! r :=
            PolledTransferLoop fuel env Disk IoBuffer BlocksToComplete Write
              {| lBlockOffset := BlockAddress; lBlocksComplete := 0;
                 lFragmentIndex := FragmentIndex;
                 lFragmentOffset := FragmentOffset |} in
          let '(Status3, L) := r in
          PerformBlockIoPolledEnd env Disk OriginalIoBuffer IoBuffer Write
            LockHeld Status3 (lBlocksComplete L).

(** *** Crash dump I/O *)

(** [SdpDiskBlockIoRead] and [SdpDiskBlockIoWrite], the block I/O
    interface used when the system has crashed. *)
Definition SdpDiskBlockIoRead (fuel : nat) (env : POLLED_ENVIRONMENT)
    (DiskToken : SD_DISK) (IoBuffer : IO_BUFFER)
    (BlockAddress BlockCount' : Z) : Run Event (KSTATUS * Z) :=
  SdpPerformBlockIoPolled fuel env DiskToken IoBuffer BlockAddress BlockCount'
    false false.

Definition SdpDiskBlockIoWrite (fuel : nat) (env : POLLED_ENVIRONMENT)
    (DiskToken : SD_DISK) (IoBuffer : IO_BUFFER)
    (BlockAddress BlockCount' : Z) : Run Event (KSTATUS * Z) :=
  SdpPerformBlockIoPolled fuel env DiskToken IoBuffer BlockAddress BlockCount'
    true false.

(** *** Opening and closing a disk *)

#[global] Instance SD_DEVICE_TYPE_eq_dec : EqDecision SD_DEVICE_TYPE.
Proof. solve_decision. Defined.

(** [SdDispatchOpen]. [DeviceContext] points to the context of the device
    the IRP is sent to; every context of the driver begins with its type,
    which is all that is read of a context that is not a disk's. *)
Definition SdDispatchOpen (m : MEMORY) (Irp' : Irp.IRP_INTERNAL)
    (DeviceContext : ADDRESS) : Run Event (MEMORY * Irp.IRP_INTERNAL) :=
  let! Disk := LoadDisk m (Some DeviceContext) in
  if negb (bool_decide (DiskType Disk = SdDeviceDisk)) then ret (m, Irp')
  else
    let! m1 := SdpDiskAddReference m DeviceContext in
    let! Irp1 := lift (Irp.IoCompleteIrp SdDriver Irp' STATUS_SUCCESS) in
    ret (m1, Irp1).

(** [SdDispatchClose]. *)
Definition SdDispatchClose (m : MEMORY) (Irp' : Irp.IRP_INTERNAL)
    (DeviceContext : ADDRESS) : Run Event (MEMORY * Irp.IRP_INTERNAL) :=
  let! Disk := LoadDisk m (Some DeviceContext) in
  if negb (bool_decide (DiskType Disk = SdDeviceDisk)) then ret (m, Irp')
  else
    let! m1 := SdpDiskReleaseReference m DeviceContext in
    let! Irp1 := lift (Irp.IoCompleteIrp SdDriver Irp' STATUS_SUCCESS) in
    ret (m1, Irp1).

(** *** I/O dispatch *)

(** The events of the I/O dispatch routine: those of the rest of the
    driver, and the two cache flushes that prepare a buffer for DMA. *)
Inductive IoEvent : Type :=
| EvDriver (e : Event)
| EvFlushBufferForDataOut (VirtualAddress Size : Z)
| EvFlushBufferForDataIn (VirtualAddress Size : Z).

(** A run of the rest of the driver inside the I/O dispatch routine. *)
Definition driver {A} (m : Run Event A) : Run IoEvent A :=
  match m with
  | Done (a, t) => Done (a, map EvDriver t)
  | Fault f => Fault f
  | Crash r => Crash r
  | Blocked => Blocked
  | OutOfFuel => OutOfFuel
  end.

Definition set_DiskIrp (v : option ADDRESS) (d : SD_DISK) : SD_DISK :=
  {| DiskType := DiskType d; ReferenceCount := ReferenceCount d;
     DiskDevice := DiskDevice d;
     DiskParent := DiskParent d; DiskController := DiskController d;
     ControllerLock := ControllerLock d; DiskIrp := v;
     DiskIoBuffer := DiskIoBuffer d; DiskFlags := DiskFlags d;
     BlockShift := BlockShift d; BlockCount := BlockCount d;
     DiskToken := DiskToken d |}.

Definition set_DiskIoBuffer (v : option ADDRESS) (d : SD_DISK) : SD_DISK :=
  {| DiskType := DiskType d; ReferenceCount := ReferenceCount d;
     DiskDevice := DiskDevice d;
     DiskParent := DiskParent d; DiskController := DiskController d;
     ControllerLock := ControllerLock d; DiskIrp := DiskIrp d;
     DiskIoBuffer := v; DiskFlags := DiskFlags d;
     BlockShift := BlockShift d; BlockCount := BlockCount d;
     DiskToken := DiskToken d |}.

(** Stores to [Irp->U.ReadWrite.IoBytesCompleted] and to
    [Irp->U.ReadWrite.NewIoOffset]. *)
Definition set_IoBytesCompleted (n : Z) (Irp' : Irp.IRP_INTERNAL)
  : Irp.IRP_INTERNAL :=
  let Request := ReadWrite Irp' in
  Irp.set_Public
    (Irp.set_U
       (Irp.StoreIoResult n (Irp.NewIoOffset Request)
          (Irp.UReadWrite Request)) (Irp.Public Irp')) Irp'.

Definition set_NewIoOffset (n : Z) (Irp' : Irp.IRP_INTERNAL)
  : Irp.IRP_INTERNAL :=
  let Request := ReadWrite Irp' in
  Irp.set_Public
    (Irp.set_U
       (Irp.StoreIoResult (Irp.IoBytesCompleted Request) n
          (Irp.UReadWrite Request)) (Irp.Public Irp')) Irp'.

(** The code under the label [DispatchIoEnd]. *)
Definition DispatchIoEnd (OriginalIoBuffer IoBuffer : option ADDRESS)
    (Irp' : Irp.IRP_INTERNAL) (Status : KSTATUS)
  : Run IoEvent Irp.IRP_INTERNAL :=
  run! (if negb (bool_decide (OriginalIoBuffer = IoBuffer)) then
          let! b := deref IoBuffer in
          driver (emit (EvFreeIoBuffer b))
        else ret tt) in
  driver (lift (Irp.IoCompleteIrp SdDriver Irp' Status)).

(** The loop that flushes the fragments of the buffer before DMA. *)
Fixpoint FlushFragmentsForDma (Write : bool) (l : list IO_BUFFER_FRAGMENT)
  : Run IoEvent unit :=
  match l with
  | [] => ret tt
  | f :: l' =>
      run! emit (if Write
                 then EvFlushBufferForDataOut (VirtualAddress f) (Size f)
                 else EvFlushBufferForDataIn (VirtualAddress f) (Size f)) in
      FlushFragmentsForDma Write l'
  end.

(** The clean up on the way up of an IRP that used DMA. [IrpAddress] is
    the pointer [Irp]; [Buffers] is what pointers to I/O buffers point
    to. *)
Definition DispatchIoUp (env : POLLED_ENVIRONMENT)
    (Buffers : gmap ADDRESS IO_BUFFER) (IrpAddress : ADDRESS)
    (Irp' : Irp.IRP_INTERNAL) (Disk : SD_DISK) (Write : bool)
  : Run IoEvent (SD_DISK * Irp.IRP_INTERNAL) :=
  if negb (bool_decide (Some IrpAddress = DiskIrp Disk)) then ret (Disk, Irp')
  else
    let IoBuffer := DiskIoBuffer Disk in
    let Disk1 := set_DiskIrp None (set_DiskIoBuffer None Disk) in
    run! driver (emit (EvReleaseQueuedLock (ControllerLock Disk1))) in
    let OriginalIoBuffer := Irp.IoBuffer (ReadWrite Irp') in
    let! Irp1 :=
      (if negb (bool_decide (IoBuffer = OriginalIoBuffer)) then
         let! Irp2 :=
           (if negb Write
               && negb (Irp.IoBytesCompleted (ReadWrite Irp') =? 0) then
              let! o := deref OriginalIoBuffer in
              let! b := deref IoBuffer in
              run! driver (emit (EvCopyIoBuffer o b
                                   (Irp.IoBytesCompleted (ReadWrite Irp')))) in
              let Status := CopyBack env in
              if negb (KSUCCESS Status) then
                let Irp3 := set_IoBytesCompleted 0 Irp' in
                let IrpStatus := Irp.IoGetIrpStatus Irp3 in
                if KSUCCESS IrpStatus then
                  driver (lift (Irp.IoCompleteIrp SdDriver Irp3 Status))
                else ret Irp3
              else
                let! Original := deref (Buffers !! o) in
                run! driver (FlushFragments (Fragment Original)) in
                ret Irp'
            else ret Irp') in
         let! b := deref IoBuffer in
         run! driver (emit (EvFreeIoBuffer b)) in
         ret Irp2
       else ret Irp') in
    ret (Disk1, Irp1).

(** The start of a DMA transfer for an IRP on its way down.
    [DiskAddress] is the pointer [Disk], the context of the completion
    callback. *)
Definition DispatchIoDma (env : POLLED_ENVIRONMENT) (IrpAddress : ADDRESS)
    (Irp' : Irp.IRP_INTERNAL) (DiskAddress : ADDRESS) (Disk : SD_DISK)
    (Write : bool) : Run IoEvent (SD_DISK * Irp.IRP_INTERNAL) :=
  let BytesToComplete := Irp.IoSizeInBytes (ReadWrite Irp') in
  let IoOffset := Irp.IoOffset (ReadWrite Irp') in
  let OriginalIoBuffer := Irp.IoBuffer (ReadWrite Irp') in
  let Irp1 := set_IoBytesCompleted 0 Irp' in
  run! driver (emit (EvValidateIoBuffer MAX_ULONG
                       (BlockAlignment (BlockShift Disk))
                       BytesToComplete)) in
  let '(Status0, Validated) := ValidateIoBuffer env in
  let IoBuffer := Some (BufferAddress Validated) in
  if negb (KSUCCESS Status0) then
    let! Irp2 := DispatchIoEnd OriginalIoBuffer IoBuffer Irp1 Status0 in
    ret (Disk, Irp2)
  else
    let! Status1 :=
      (if negb (bool_decide (IoBuffer = OriginalIoBuffer)) && Write then
         let! o := deref OriginalIoBuffer in
         run! driver (emit (EvCopyIoBuffer (BufferAddress Validated) o
                              BytesToComplete)) in
         ret (CopyIn env)
       else ret Status0) in
    if negb (KSUCCESS Status1) then
      let! Irp2 := DispatchIoEnd OriginalIoBuffer IoBuffer Irp1 Status1 in
      ret (Disk, Irp2)
    else
      run! driver (emit (EvMapIoBuffer (BufferAddress Validated))) in
      let Status2 := MapIoBuffer env in
      if negb (KSUCCESS Status2) then
        let! Irp2 := DispatchIoEnd OriginalIoBuffer IoBuffer Irp1 Status2 in
        ret (Disk, Irp2)
      else
        run! FlushFragmentsForDma Write (Fragment Validated) in
        run! driver (emit (EvAcquireQueuedLock (ControllerLock Disk))) in
        if negb (flag_test (DiskFlags Disk) SD_DISK_FLAG_MEDIA_PRESENT) then
          run! driver (emit (EvReleaseQueuedLock (ControllerLock Disk))) in
          let! Irp2 :=
            DispatchIoEnd OriginalIoBuffer IoBuffer Irp1 STATUS_NO_MEDIA in
          ret (Disk, Irp2)
        else
          let Irp2 :=
            set_NewIoOffset (Irp.IoOffset (ReadWrite Irp1)) Irp1 in
          let! Irp3 := driver (lift (Irp.IoPendIrp SdDriver Irp2)) in
          let Disk1 :=
            set_DiskIoBuffer IoBuffer
              (set_DiskIrp (Some IrpAddress) Disk) in
          let BlockOffset := Z.shiftr IoOffset (BlockShift Disk1) in
          let BlockCount' := Z.shiftr BytesToComplete (BlockShift Disk1) in
          run! driver (emit (EvBlockIoDma (DiskController Disk1) BlockOffset
                               BlockCount' IoBuffer 0 Write DiskAddress)) in
          ret (Disk1, Irp3).

(** [SdDispatchIo], handed the IRP at [IrpAddress] and the disk context
    at [DiskAddress]. Yields the disk and the IRP as it leaves them. *)
Definition SdDispatchIo (fuel : nat) (env : POLLED_ENVIRONMENT)
    (Buffers : gmap ADDRESS IO_BUFFER) (IrpAddress : ADDRESS)
    (Irp' : Irp.IRP_INTERNAL) (DiskAddress : ADDRESS) (Disk : SD_DISK)
  : Run IoEvent (SD_DISK * Irp.IRP_INTERNAL) :=
  if negb (bool_decide (DiskType Disk = SdDeviceDisk)) then ret (Disk, Irp')
  else
    let Write :=
      Irp.MinorCode (Irp.Public Irp') =? Irp.IrpMinorIoWrite in
    let BytesToComplete := Irp.IoSizeInBytes (ReadWrite Irp') in
    let IoOffset := Irp.IoOffset (ReadWrite Irp') in
    let OriginalIoBuffer := Irp.IoBuffer (ReadWrite Irp') in
    if negb (flag_test (DiskFlags Disk) SD_DISK_FLAG_MEDIA_PRESENT) then
      let! Irp1 :=
        DispatchIoEnd OriginalIoBuffer OriginalIoBuffer Irp' STATUS_NO_MEDIA in
      ret (Disk, Irp1)
    else if negb (flag_test (DiskFlags Disk) SD_DISK_FLAG_DMA_SUPPORTED) then
      let BlockOffset := Z.shiftr IoOffset (BlockShift Disk) in
      let BlockCount' := Z.shiftr BytesToComplete (BlockShift Disk) in
      let! o := deref OriginalIoBuffer in
      let! Original := deref (Buffers !! o) in
      let! r :=
        driver (SdpPerformBlockIoPolled fuel env Disk Original BlockOffset
                  BlockCount' Write true) in
      let '(Status, BlocksCompleted) := r in
      let BytesCompleted :=
        UINTN (Z.shiftl BlocksCompleted (BlockShift Disk)) in
      let Irp1 :=
        set_NewIoOffset (ULONGLONG (IoOffset + BytesCompleted))
          (set_IoBytesCompleted BytesCompleted Irp') in
      let! Irp2 :=
        DispatchIoEnd OriginalIoBuffer OriginalIoBuffer Irp1 Status in
      ret (Disk, Irp2)
    else if bool_decide (Irp.Direction (Irp.Public Irp') = Irp.IrpUp) then
      DispatchIoUp env Buffers IrpAddress Irp' Disk Write
    else DispatchIoDma env IrpAddress Irp' DiskAddress Disk Write.

End Driver.

End Sd.
(** * Properties

    ** The run monad *)

Lemma bind_Done {E A B} (m : Run E A) (k : A -> Run E B) a t1 b t2 :
  m = Done (a, t1) -> k a = Done (b, t2) -> bind m k = Done (b, t1 ++ t2).
Proof. intros -> Hk. simpl. by rewrite Hk. Qed.

Lemma bind_ret_l {E A B} (a : A) (k : A -> Run E B) :
  bind (ret a) k = k a.
Proof. unfold ret, bind. destruct (k a) as [[b t]| | | |]; done. Qed.

Lemma bind_inv {E A B} (m : Run E A) (k : A -> Run E B) b t :
  bind m k = Done (b, t) ->
  exists a t1 t2, m = Done (a, t1) /\ k a = Done (b, t2) /\ t = t1 ++ t2.
Proof.
  destruct m as [[a t1]| | | |]; simpl; try discriminate.
  destruct (k a) as [[b' t2]| | | |] eqn:Hk; try discriminate.
  intros [= <- <-]. by exists a, t1, t2.
Qed.


Lemma bind_assoc {E A B C} (m : Run E A) (f : A -> Run E B)
    (g : B -> Run E C) :
  bind (bind m f) g = bind m (fun a => bind (f a) g).
Proof.
  destruct m as [[a t]| | | |]; try done. simpl.
  destruct (f a) as [[b t1]| | | |]; try done. simpl.
  destruct (g b) as [[c t2]| | | |]; try done. by rewrite app_assoc.
Qed.

Lemma bind_ext {E A B} (m : Run E A) (k1 k2 : A -> Run E B) :
  (forall a, k1 a = k2 a) -> bind m k1 = bind m k2.
Proof. intros H. destruct m as [[a t]| | | |]; try done. simpl. by rewrite H. Qed.

Lemma bind_ret_r {E A} (m : Run E A) : bind m ret = m.
Proof. destruct m as [[a t]| | | |]; try done. simpl. by rewrite app_nil_r. Qed.

Lemma bind_Fault {E A B} (m : Run E A) (k : A -> Run E B) a t f :
  m = Done (a, t) -> k a = Fault f -> bind m k = Fault f.
Proof. intros -> Hk. simpl. by rewrite Hk. Qed.

Lemma index_lookup {E A} (a : list A) (i : nat) (x : A) :
  a !! i = Some x -> index (E := E) a (Z.of_nat i) = Done (x, []).
Proof.
  intros H. unfold index.
  pose proof (lookup_lt_Some _ _ _ H) as Hlt.
  destruct (Z.ltb_spec (Z.of_nat i) 0); [lia|].
  destruct (Z.leb_spec (Z.of_nat (length a)) (Z.of_nat i)); [lia|].
  simpl. by rewrite Nat2Z.id, H.
Qed.

(** ** Machine integers and flag words *)

Lemma wrap_small bits x : 0 <= x < 2 ^ bits -> wrap bits x = x.
Proof. intros H. unfold wrap. by apply Z.mod_small. Qed.

Lemma wrap_range bits x : 0 <= bits -> 0 <= wrap bits x < 2 ^ bits.
Proof. intros H. unfold wrap. apply Z.mod_pos_bound. by apply Z.pow_pos_nonneg. Qed.

Lemma ULONG_small x : 0 <= x <= MAX_ULONG -> ULONG x = x.
Proof. unfold MAX_ULONG. intros H. apply wrap_small. lia. Qed.

Lemma ULONGLONG_small x : 0 <= x <= MAX_ULONGLONG -> ULONGLONG x = x.
Proof. unfold MAX_ULONGLONG. intros H. apply wrap_small. lia. Qed.

Lemma flag_test_or_same f m : m <> 0 -> flag_test (flag_or f m) m = true.
Proof.
  intros Hm. unfold flag_test, flag_or.
  rewrite Z.land_lor_distr_l, Z.land_diag.
  destruct (Z.eqb_spec (Z.lor (Z.land f m) m) 0) as [H|]; [|done].
  apply Z.lor_eq_0_iff in H. by destruct H.
Qed.

Lemma flag_test_or_other f m m' :
  Z.land m m' = 0 -> flag_test (flag_or f m) m' = flag_test f m'.
Proof.
  intros H. unfold flag_test, flag_or.
  by rewrite Z.land_lor_distr_l, H, Z.lor_0_r.
Qed.

Lemma flag_test_clear_other f m m' :
  Z.land m m' = 0 -> flag_test (flag_clear f m) m' = flag_test f m'.
Proof.
  intros H. unfold flag_test, flag_clear.
  replace (Z.land (Z.land f (Z.lnot m)) m') with (Z.land f m'); [done|].
  apply Z.bits_inj'. intros n Hn.
  rewrite !Z.land_spec, Z.lnot_spec by done.
  pose proof (f_equal (fun z => Z.testbit z n) H) as Hb. simpl in Hb.
  rewrite Z.land_spec, Z.bits_0 in Hb.
  destruct (Z.testbit f n), (Z.testbit m n), (Z.testbit m' n);
    simpl in *; congruence.
Qed.

Lemma flag_test_clear_same f m : flag_test (flag_clear f m) m = false.
Proof.
  unfold flag_test, flag_clear.
  replace (Z.land (Z.land f (Z.lnot m)) m) with 0; [done|].
  symmetry. apply Z.bits_inj'. intros n Hn.
  rewrite !Z.land_spec, Z.lnot_spec, Z.bits_0 by done.
  destruct (Z.testbit f n), (Z.testbit m n); done.
Qed.
(** ** Runs that do not go wrong *)

(** A run that ends neither in a fault nor in a crash and whose result
    and trace, if it returns, satisfy [Q]. *)
Definition Sound {E A} (m : Run E A) (Q : A -> list E -> Prop) : Prop :=
  match m with
  | Done (a, t) => Q a t
  | Fault _ | Crash _ => False
  | Blocked | OutOfFuel => True
  end.

Lemma Sound_bind {E A B} (m : Run E A) (k : A -> Run E B)
    (Q1 : A -> list E -> Prop) (Q : B -> list E -> Prop) :
  Sound m Q1 ->
  (forall a t1, Q1 a t1 -> Sound (k a) (fun b t2 => Q b (t1 ++ t2))) ->
  Sound (bind m k) Q.
Proof.
  destruct m as [[a t1]| | | |]; simpl; try done.
  intros H1 Hk. specialize (Hk a t1 H1).
  destruct (k a) as [[b t2]| | | |]; done.
Qed.

Lemma Sound_weaken {E A} (m : Run E A) (Q Q' : A -> list E -> Prop) :
  Sound m Q -> (forall a t, Q a t -> Q' a t) -> Sound m Q'.
Proof. destruct m as [[a t]| | | |]; simpl; auto. Qed.

Lemma Sound_Done {E A} (m : Run E A) (Q : A -> list E -> Prop) a t :
  Sound m Q -> m = Done (a, t) -> Q a t.
Proof. by intros H ->. Qed.

Lemma bind_Done_l {E A B} (a : A) (t : list E) (k : A -> Run E B) :
  bind (Done (a, t)) k = (run! Done (tt, t) in k a).
Proof. reflexivity. Qed.

Lemma bind_Done_eq {E A B} (m : Run E A) (k : A -> Run E B) a t1 b t2 t :
  m = Done (a, t1) -> k a = Done (b, t2) -> t = t1 ++ t2 ->
  bind m k = Done (b, t).
Proof. intros Hm Hk ->. by eapply bind_Done. Qed.


(** ** The IRP engine *)

Module IrpFacts.

Import Irp.

(** The driver that owns the current stack slot of an IRP. *)
Definition CurrentOwner (Irp : IRP_INTERNAL) : option PDRIVER :=
  match StackAt Irp (StackIndex Irp) with
  | Done (entry, _) =>
      match DriverStackEntry entry with
      | Some owner => Some (DriverAddress (Driver owner))
      | None => None
      end
  | _ => None
  end.

Lemma CurrentOwner_inv Irp d :
  CurrentOwner Irp = Some d ->
  exists entry owner,
    StackAt Irp (StackIndex Irp) = Done (entry, []) /\
    DriverStackEntry entry = Some owner /\
    DriverAddress (Driver owner) = d.
Proof.
  unfold CurrentOwner.
  destruct (StackAt Irp (StackIndex Irp)) as [[entry t]| | | |] eqn:H;
    try discriminate.
  destruct (DriverStackEntry entry) as [owner|] eqn:Ho; try discriminate.
  intros [= <-]. exists entry, owner. split; [|done].
  unfold StackAt, deref in H. destruct (Stack Irp) as [stack|]; [|discriminate].
  rewrite bind_ret_l in H. unfold index in H.
  destruct (_ || _); [discriminate|].
  destruct (stack !! _); [|discriminate].
  by injection H as -> <-.
Qed.

(** A small stack used to instantiate the statements below: three drivers
    that do nothing in their dispatch routines. *)
Definition QuietTable (destroy : nat) : DRIVER_FUNCTION_TABLE :=
  {| DispatchStateChange := Some (fun _ _ _ => []);
     DispatchOpen := Some (fun _ _ _ => []);
     DispatchClose := Some (fun _ _ _ => []);
     DispatchIo := Some (fun _ _ _ => []);
     DispatchSystemControl := Some (fun _ _ _ => []);
     DispatchUserControl := Some (fun _ _ _ => []);
     CreateIrp := None;
     DestroyIrp := Some destroy |}.

Definition QuietEntry (address : nat) : IRP_STACK_ENTRY :=
  {| DriverStackEntry :=
       Some {| Driver := {| DriverAddress := address;
                            FunctionTable := QuietTable address |};
               DriverContext := Z.of_nat address |};
     IrpContext := None |}.

Definition SampleIrp : IRP_INTERNAL :=
  {| Public := {| Header := {| ReferenceCount := 1; Signaled := false |};
                  Device := Some 7%nat; MajorCode := IrpMajorOpen;
                  MinorCode := IrpMinorOpen; Direction := IrpDown;
                  Status := STATUS_NOT_HANDLED; U := UOpen 0;
                  CompletionRoutine := None; CompletionContext := 0 |};
     Magic := IRP_MAGIC_VALUE; ShadowDevice := Some 7%nat;
     ShadowMajorCode := IrpMajorOpen;
     Stack := Some [QuietEntry 1; QuietEntry 2; QuietEntry 3];
     StackIndex := 0; StackSize := 3; Flags := 0 |}.

(** A driver that fails every IRP on the way down with [STATUS_NO_MEDIA],
    and a driver that pends every IRP on the way down. *)
Definition RoutineTable (routine : PDRIVER_DISPATCH) (destroy : nat)
  : DRIVER_FUNCTION_TABLE :=
  {| DispatchStateChange := Some routine;
     DispatchOpen := Some routine;
     DispatchClose := Some routine;
     DispatchIo := Some routine;
     DispatchSystemControl := Some routine;
     DispatchUserControl := Some routine;
     CreateIrp := None;
     DestroyIrp := Some destroy |}.

Definition RoutineEntry (address : nat) (routine : PDRIVER_DISPATCH)
  : IRP_STACK_ENTRY :=
  {| DriverStackEntry :=
       Some {| Driver := {| DriverAddress := address;
                            FunctionTable := RoutineTable routine address |};
               DriverContext := Z.of_nat address |};
     IrpContext := None |}.

Definition FailingEntry (address : nat) : IRP_STACK_ENTRY :=
  RoutineEntry address
    (fun p _ _ =>
       match Direction p with
       | IrpDown => [ActCompleteIrp address STATUS_NO_MEDIA]
       | _ => []
       end).

Definition PendingEntry (address : nat) : IRP_STACK_ENTRY :=
  RoutineEntry address
    (fun p _ _ =>
       match Direction p with
       | IrpDown => [ActPendIrp address]
       | _ => []
       end).

(** C10. When [IoCompleteIrp], [IoPendIrp] or [IoContinueIrp] is called
    with a driver that is not the one owning the IRP's current stack slot,
    the call returns normally, the IRP is exactly what it was (flags,
    status, direction, stack index and signal state included) and nothing
    is signalled: no event at all is emitted. *)
Theorem mismatched_driver_is_a_no_op (Driver' owner : PDRIVER)
    (Irp : IRP_INTERNAL) (StatusCode : KSTATUS) :
  CurrentOwner Irp = Some owner ->
  owner <> Driver' ->
  IoCompleteIrp Driver' Irp StatusCode = Done (Irp, []) /\
  IoPendIrp Driver' Irp = Done (Irp, []) /\
  IoContinueIrp Driver' Irp = Done (Irp, []).
Proof.
  intros Hown Hne.
  destruct (CurrentOwner_inv _ _ Hown) as (entry & o & Hat & Ho & Hd).
  unfold IoCompleteIrp, IoPendIrp, IoContinueIrp.
  rewrite Hat. simpl. rewrite Ho. simpl.
  subst owner.
  destruct (decide (DriverAddress (Driver o) = Driver')); [done|].
  done.
Qed.

Lemma mismatched_driver_is_a_no_op_witness :
  CurrentOwner SampleIrp = Some 1%nat /\
  IoCompleteIrp 2%nat SampleIrp STATUS_SUCCESS = Done (SampleIrp, []) /\
  IoPendIrp 2%nat SampleIrp = Done (SampleIrp, []) /\
  IoContinueIrp 2%nat SampleIrp = Done (SampleIrp, []).
Proof.
  split; [reflexivity|].
  apply (mismatched_driver_is_a_no_op 2%nat 1%nat SampleIrp STATUS_SUCCESS);
    [reflexivity | lia].
Defined.

(** *** Traversal of the driver stack *)

(** The dispatch routine calls found in a trace: driver, stack index and
    direction of each. *)
Definition Dispatched (e : Event) : option (PDRIVER * Z * IRP_DIRECTION) :=
  match e with
  | EvDispatch d i dir => Some (d, i, dir)
  | _ => None
  end.

Definition Dispatches (t : list Event) : list (PDRIVER * Z * IRP_DIRECTION) :=
  omap Dispatched t.

(** The driver of the [k]-th stack entry. *)
Definition DriverAt (stack : list IRP_STACK_ENTRY) (k : nat) : PDRIVER :=
  match stack !! k with
  | Some entry =>
      match DriverStackEntry entry with
      | Some owner => DriverAddress (Driver owner)
      | None => 0%nat
      end
  | None => 0%nat
  end.

(** A driver action that neither completes, pends nor continues the IRP. *)
Definition Passive (a : DRIVER_ACTION) : Prop :=
  match a with
  | ActSetIoResult _ _ => True
  | _ => False
  end.

(** A stack entry whose driver has a dispatch routine for the major code,
    one that only ever performs passive actions. *)
Definition PassiveEntry (Major : IRP_MAJOR_CODE) (entry : IRP_STACK_ENTRY)
  : Prop :=
  exists owner routine,
    DriverStackEntry entry = Some owner /\
    SelectDispatch Major (FunctionTable (Driver owner))
      = Done (Some routine, []) /\
    forall p c ic, Forall Passive (routine p c ic).

(** An IRP as [IoSendSynchronousIrp] expects it: created by [IoCreateIrp],
    initialized, with a minor code, and not yet sent. *)
Definition ReadyToSend (Irp : IRP_INTERNAL) : Prop :=
  Magic Irp = IRP_MAGIC_VALUE /\
  ShadowDevice Irp = Device (Public Irp) /\
  ShadowMajorCode Irp = MajorCode (Public Irp) /\
  MinorCode (Public Irp) <> IrpMinorInvalid /\
  Direction (Public Irp) = IrpDown /\
  CompletionRoutine (Public Irp) = None /\
  StackIndex Irp = 0 /\
  flag_test (Flags Irp) IRP_COMPLETE = false /\
  flag_test (Flags Irp) IRP_PENDING = false /\
  flag_test (Flags Irp) IRP_DRIVER_STACK_COMPLETE = false.

Lemma PumpLoop_done fuel Irp :
  flag_test (Flags Irp) IRP_DRIVER_STACK_COMPLETE = true ->
  PumpLoop fuel Irp = Done (Irp, []).
Proof. intros H. destruct fuel; simpl; by rewrite H. Qed.

Lemma PumpLoop_step fuel Irp :
  flag_test (Flags Irp) IRP_DRIVER_STACK_COMPLETE = false ->
  PumpLoop (S fuel) Irp =
    (let! Irp1 := IopCallDriver Irp in
     if flag_test (Flags Irp1) IRP_PENDING then ret Irp1
     else PumpLoop fuel (IopAdvanceIrpStackLocation Irp1)).
Proof. intros H. simpl. by rewrite H. Qed.

Lemma RunActions_passive Irp l :
  Forall Passive l ->
  exists u, RunActions Irp l = Done (set_Public (set_U u (Public Irp)) Irp, []).
Proof.
  intros H. revert Irp. induction H as [|a l Ha _ IH]; intros Irp.
  - exists (U (Public Irp)). by destruct Irp as [[]].
  - destruct a; try done.
    destruct (IH (set_Public
                    (set_U (StoreIoResult BytesCompleted NewOffset
                              (U (Public Irp))) (Public Irp)) Irp))
      as [u Hu].
    exists u. cbn [RunActions RunAction]. rewrite bind_ret_l, Hu. done.
Qed.

Section Traversal.

Variable stack : list IRP_STACK_ENTRY.
Variable Major : IRP_MAJOR_CODE.
Hypothesis stack_passive : Forall (PassiveEntry Major) stack.
Hypothesis stack_fits : Z.of_nat (length stack) <= MAX_ULONG.

(** The state of an IRP between two dispatches of a traversal. *)
Definition Travelling (Irp : IRP_INTERNAL) : Prop :=
  Stack Irp = Some stack /\
  ShadowMajorCode Irp = Major /\
  StackSize Irp = Z.of_nat (length stack) /\
  flag_test (Flags Irp) IRP_DRIVER_STACK_COMPLETE = false /\
  flag_test (Flags Irp) IRP_PENDING = false.

Lemma IopCallDriver_passive Irp (i : nat) :
  Travelling Irp -> StackIndex Irp = Z.of_nat i -> (i < length stack)%nat ->
  exists u,
    IopCallDriver Irp =
      Done (set_Public (set_U u (Public Irp)) Irp,
            [EvDispatch (DriverAt stack i) (Z.of_nat i)
               (Direction (Public Irp))]).
Proof.
  intros (Hs & Hm & _) Hi Hlt.
  destruct (lookup_lt_is_Some_2 stack i Hlt) as [entry He].
  pose proof (proj1 (Forall_lookup _ _) stack_passive i entry He)
    as (owner & routine & Ho & Hsel & Hp).
  destruct (RunActions_passive Irp _
              (Hp (Public Irp) (DriverContext owner) (IrpContext entry)))
    as [u Hu].
  exists u. unfold IopCallDriver, StackAt, deref.
  rewrite Hs, bind_ret_l, Hi, (index_lookup _ _ _ He). simpl bind at 1.
  rewrite Ho, bind_ret_l, Hm, Hsel. simpl bind at 1.
  unfold emit. simpl bind. rewrite Hu.
  unfold DriverAt. by rewrite He, Ho.
Qed.

(** Where a traversal ends. *)
Definition Finished (Irp Irp' : IRP_INTERNAL) : Prop :=
  StackIndex Irp' = 0 /\
  flag_test (Flags Irp') IRP_DRIVER_STACK_COMPLETE = true /\
  flag_test (Flags Irp') IRP_PENDING = false /\
  CompletionRoutine (Public Irp') = CompletionRoutine (Public Irp).

Definition UpwardCalls (i : nat) : list (PDRIVER * Z * IRP_DIRECTION) :=
  map (fun k => (DriverAt stack k, Z.of_nat k, IrpUp)) (rev (seq 0 (S i))).

Definition DownwardCalls (i n : nat) : list (PDRIVER * Z * IRP_DIRECTION) :=
  map (fun k => (DriverAt stack k, Z.of_nat k, IrpDown)) (seq i n).

Lemma UpwardCalls_S i :
  UpwardCalls (S i) = (DriverAt stack (S i), Z.of_nat (S i), IrpUp)
                      :: UpwardCalls i.
Proof.
  unfold UpwardCalls. rewrite (seq_S (S i) 0), rev_app_distr. reflexivity.
Qed.

Lemma PumpLoop_upward (i : nat) : forall fuel Irp,
  Travelling Irp -> Direction (Public Irp) = IrpUp ->
  StackIndex Irp = Z.of_nat i -> (i < length stack)%nat ->
  (i + 1 <= fuel)%nat ->
  exists Irp' t,
    PumpLoop fuel Irp = Done (Irp', t) /\
    Dispatches t = UpwardCalls i /\
    Finished Irp Irp'.
Proof.
  induction i as [|i IH]; intros fuel Irp HT Hdir Hi Hlt Hfuel;
    (destruct fuel as [|fuel]; [lia|]);
    pose proof HT as (Hs & Hm & Hsz & Hdsc & Hpend);
    destruct (IopCallDriver_passive Irp _ HT Hi Hlt) as [u Hcall];
    set (Irp1 := set_Public (set_U u (Public Irp)) Irp) in *.
  - set (Irp2 := set_Flags (flag_or (Flags Irp1) IRP_DRIVER_STACK_COMPLETE) Irp1).
    assert (Hadv : IopAdvanceIrpStackLocation Irp1 = Irp2).
    { unfold IopAdvanceIrpStackLocation. simpl. rewrite Hdir, Hi. done. }
    exists Irp2, ([EvDispatch (DriverAt stack 0) 0 (Direction (Public Irp))] ++ []).
    split; [|split].
    + rewrite (PumpLoop_step _ _ Hdsc).
      eapply bind_Done; [exact Hcall|].
      cbv beta. change (Flags Irp1) with (Flags Irp). rewrite Hpend, Hadv.
      apply PumpLoop_done. simpl. by apply flag_test_or_same.
    + rewrite Hdir. reflexivity.
    + repeat split; simpl; try done.
      * by apply flag_test_or_same.
      * by rewrite flag_test_or_other.
  - set (Irp2 := set_StackIndex (Z.of_nat i) Irp1).
    assert (Hadv : IopAdvanceIrpStackLocation Irp1 = Irp2).
    { unfold IopAdvanceIrpStackLocation. simpl. rewrite Hdir, Hi.
      destruct (Z.eqb_spec (Z.of_nat (S i)) 0); [lia|].
      unfold Irp2. f_equal. rewrite ULONG_small; lia. }
    destruct (IH fuel Irp2) as (Irp' & t & Hrun & Ht & Hfin);
      [done | done | done | lia | lia |].
    exists Irp',
      ([EvDispatch (DriverAt stack (S i)) (Z.of_nat (S i))
          (Direction (Public Irp))] ++ t).
    split; [|split].
    + rewrite (PumpLoop_step _ _ Hdsc).
      eapply bind_Done; [exact Hcall|].
      cbv beta. change (Flags Irp1) with (Flags Irp). by rewrite Hpend, Hadv.
    + rewrite UpwardCalls_S, <- Ht, Hdir. reflexivity.
    + exact Hfin.
Qed.

Lemma PumpLoop_downward (n : nat) : forall (i : nat) fuel Irp,
  Travelling Irp -> Direction (Public Irp) = IrpDown ->
  StackIndex Irp = Z.of_nat i -> (i + S n = length stack)%nat ->
  (S n + length stack <= fuel)%nat ->
  exists Irp' t,
    PumpLoop fuel Irp = Done (Irp', t) /\
    Dispatches t = DownwardCalls i (S n) ++ UpwardCalls (length stack - 1) /\
    Finished Irp Irp'.
Proof.
  induction n as [|n IH]; intros i fuel Irp HT Hdir Hi Hlen Hfuel;
    (destruct fuel as [|fuel]; [lia|]);
    pose proof HT as (Hs & Hm & Hsz & Hdsc & Hpend);
    (destruct (IopCallDriver_passive Irp i HT Hi) as [u Hcall]; [lia|]);
    set (Irp1 := set_Public (set_U u (Public Irp)) Irp) in *.
  - set (Irp2 := set_Public (set_Direction IrpUp (Public Irp1)) Irp1).
    assert (Hadv : IopAdvanceIrpStackLocation Irp1 = Irp2).
    { unfold IopAdvanceIrpStackLocation. simpl. rewrite Hdir, Hi, Hsz.
      rewrite ULONG_small by lia.
      destruct (Z.ltb_spec (Z.of_nat i + 1) (Z.of_nat (length stack)));
        [lia|done]. }
    destruct (PumpLoop_upward i fuel Irp2) as (Irp' & t & Hrun & Ht & Hfin);
      [done | done | done | lia | lia |].
    exists Irp',
      ([EvDispatch (DriverAt stack i) (Z.of_nat i) (Direction (Public Irp))]
       ++ t).
    split; [|split].
    + rewrite (PumpLoop_step _ _ Hdsc).
      eapply bind_Done; [exact Hcall|].
      cbv beta. change (Flags Irp1) with (Flags Irp). by rewrite Hpend, Hadv.
    + replace (length stack - 1)%nat with i by lia.
      rewrite <- Ht, Hdir. reflexivity.
    + exact Hfin.
  - set (Irp2 := set_StackIndex (Z.of_nat (S i)) Irp1).
    assert (Hadv : IopAdvanceIrpStackLocation Irp1 = Irp2).
    { unfold IopAdvanceIrpStackLocation. simpl. rewrite Hdir, Hi, Hsz.
      rewrite ULONG_small by lia.
      destruct (Z.ltb_spec (Z.of_nat i + 1) (Z.of_nat (length stack)));
        [|lia].
      unfold Irp2. f_equal. lia. }
    destruct (IH (S i) fuel Irp2) as (Irp' & t & Hrun & Ht & Hfin);
      [done | done | done | lia | lia |].
    exists Irp',
      ([EvDispatch (DriverAt stack i) (Z.of_nat i) (Direction (Public Irp))]
       ++ t).
    split; [|split].
    + rewrite (PumpLoop_step _ _ Hdsc).
      eapply bind_Done; [exact Hcall|].
      cbv beta. change (Flags Irp1) with (Flags Irp). by rewrite Hpend, Hadv.
    + change (DownwardCalls i (S (S n)))
        with ((DriverAt stack i, Z.of_nat i, IrpDown)
              :: DownwardCalls (S i) (S n)).
      rewrite Hdir.
      transitivity ((DriverAt stack i, Z.of_nat i, IrpDown) :: Dispatches t);
        [reflexivity|].
      rewrite Ht. reflexivity.
    + exact Hfin.
Qed.

End Traversal.

Lemma SendLoop_done fuel env Irp Status' :
  flag_test (Flags Irp) IRP_DRIVER_STACK_COMPLETE = true ->
  SendLoop fuel env Irp Status' =
    Done (Status', set_Flags (flag_clear (Flags Irp) IRP_ACTIVE) Irp, []).
Proof. intros H. destruct fuel; simpl; by rewrite H. Qed.

Lemma SendLoop_step fuel env Irp Status' :
  flag_test (Flags Irp) IRP_DRIVER_STACK_COMPLETE = false ->
  SendLoop (S fuel) env Irp Status' =
    (let! Irp1 := IopPumpIrpThroughStack fuel Irp in
     if flag_test (Flags Irp1) IRP_PENDING then
       run! emit EvWait in
       let! woken := ObWaitOnObject env Irp1 in
       let '(WaitStatus, Irp2, env') := woken in
       if negb (KSUCCESS WaitStatus) then
         ret (Some WaitStatus,
              set_Flags (flag_clear (Flags Irp2) IRP_ACTIVE) Irp2)
       else
         SendLoop fuel env'
           (set_Flags (flag_clear (Flags Irp2) IRP_PENDING) Irp2)
           (Some WaitStatus)
     else SendLoop fuel env Irp1 Status').
Proof. intros H. simpl. by rewrite H. Qed.

(** The checks at the head of [IoSendSynchronousIrp] pass on an IRP that
    is ready to be sent. *)
Lemma IoSendSynchronousIrp_ready fuel env Irp :
  ReadyToSend Irp ->
  IoSendSynchronousIrp fuel env Irp =
    (let! Irp1 := ObUnsignalObject Irp in
     SendLoop fuel env (set_Flags (flag_or (Flags Irp1) IRP_ACTIVE) Irp1) None).
Proof.
  intros (Hmagic & Hdev & Hmaj & Hmin & Hdir & Hcr & _).
  unfold IoSendSynchronousIrp.
  rewrite Hmagic, Z.eqb_refl. simpl negb. cbv iota.
  rewrite !bool_decide_eq_true_2 by done. simpl.
  destruct (Z.eqb_spec (MinorCode (Public Irp)) IrpMinorInvalid); done.
Qed.

(** A full send cycle through passive drivers: the dispatch routines are
    called for the stack entries [0 .. N-1] going down and then for
    [N-1 .. 0] going up, and the traversal ends at index 0 with the driver
    stack complete. *)
Lemma send_through_passive_stack (fuel : nat) (env : list ENV_STEP)
    (Irp : IRP_INTERNAL) (stack : list IRP_STACK_ENTRY) :
  Stack Irp = Some stack ->
  StackSize Irp = Z.of_nat (length stack) ->
  1 <= StackSize Irp <= MAX_ULONG ->
  ReadyToSend Irp ->
  Forall (PassiveEntry (ShadowMajorCode Irp)) stack ->
  (2 * length stack + 1 <= fuel)%nat ->
  exists Returned Irp' t,
    IoSendSynchronousIrp fuel env Irp = Done (Returned, Irp', t) /\
    Dispatches t =
      map (fun k => (DriverAt stack k, Z.of_nat k, IrpDown))
          (seq 0 (length stack))
      ++ map (fun k => (DriverAt stack k, Z.of_nat k, IrpUp))
             (rev (seq 0 (length stack))) /\
    StackIndex Irp' = 0 /\
    flag_test (Flags Irp') IRP_DRIVER_STACK_COMPLETE = true.
Proof.
  intros Hs Hsz Hn Hready Hpassive Hfuel.
  pose proof Hready as (_ & _ & _ & _ & Hdir & Hcr & Hidx & _ & Hpend & Hdsc).
  rewrite (IoSendSynchronousIrp_ready _ _ _ Hready).
  destruct fuel as [|fuel]; [lia|].
  set (IrpU := set_Public (set_Signaled false (Public Irp)) Irp).
  set (IrpA := set_Flags (flag_or (Flags IrpU) IRP_ACTIVE) IrpU).
  assert (HT : Travelling stack (ShadowMajorCode Irp) IrpA).
  { repeat split; simpl; try done.
    - by rewrite flag_test_or_other.
    - by rewrite flag_test_or_other. }
  destruct (PumpLoop_downward stack (ShadowMajorCode Irp) Hpassive
              ltac:(lia) (length stack - 1) 0 fuel IrpA)
    as (Irp' & t & Hrun & Ht & Hi' & Hdsc' & Hpend' & Hcr');
    [done | done | simpl; lia | lia | lia |].
  exists None, (set_Flags (flag_clear (Flags Irp') IRP_ACTIVE) Irp'),
    ([EvUnsignal] ++ (t ++ []) ++ []).
  split; [|split; [|split]].
  - eapply bind_Done; [reflexivity|].
    fold IrpU. fold IrpA.
    rewrite (SendLoop_step _ _ _ _ (proj1 (proj2 (proj2 (proj2 HT))))).
    eapply bind_Done.
    + unfold IopPumpIrpThroughStack. eapply bind_Done; [exact Hrun|].
      cbv beta. rewrite Hdsc', Hcr'. simpl. rewrite Hcr. reflexivity.
    + cbv beta. rewrite Hpend'. by apply SendLoop_done.
  - rewrite !app_nil_r. change (Dispatches ([EvUnsignal] ++ t))
      with (Dispatches t).
    rewrite Ht. unfold DownwardCalls, UpwardCalls.
    replace (S (length stack - 1)) with (length stack) by lia.
    replace (S (length stack - 1)) with (length stack) by lia.
    reflexivity.
  - exact Hi'.
  - simpl. by rewrite flag_test_clear_other.
Qed.


Lemma SampleIrp_ready : ReadyToSend SampleIrp.
Proof. repeat split; done. Qed.

Lemma QuietEntry_passive a : PassiveEntry IrpMajorOpen (QuietEntry a).
Proof.
  eexists _, _. split; [reflexivity|]. split; [reflexivity|].
  intros p c ic. constructor.
Qed.


(** An IRP for a stack of two drivers, the deeper of which completes
    every IRP on its way down. *)
Definition TurningStack : list IRP_STACK_ENTRY :=
  [QuietEntry 1; FailingEntry 2].

Definition TurningIrp : IRP_INTERNAL :=
  set_Stack (Some TurningStack) (set_StackSize 2 SampleIrp).


(** *** The status returned by [IoSendSynchronousIrp] *)

(** A stack entry whose driver pends the IRP on the way down and completes
    it at once, as a driver does whose transfer finishes before its
    dispatch routine returns. *)
Definition PendingTable (address : nat) : DRIVER_FUNCTION_TABLE :=
  let routine : PDRIVER_DISPATCH :=
    fun p _ _ =>
      match Direction p with
      | IrpDown => [ActPendIrp address; ActSetIoResult 512 1536;
                    ActCompleteIrp address STATUS_SUCCESS]
      | _ => []
      end in
  {| DispatchStateChange := Some routine;
     DispatchOpen := Some routine;
     DispatchClose := Some routine;
     DispatchIo := Some routine;
     DispatchSystemControl := Some routine;
     DispatchUserControl := Some routine;
     CreateIrp := None;
     DestroyIrp := Some address |}.

Definition PendingDriver (address : nat) : DRIVER_STACK_ENTRY :=
  {| Driver := {| DriverAddress := address;
                  FunctionTable := PendingTable address |};
     DriverContext := Z.of_nat address |}.

Definition SamplePendingIrp : IRP_INTERNAL :=
  set_Stack
    (Some [{| DriverStackEntry := Some (PendingDriver 1); IrpContext := None |};
           QuietEntry 2])
    (set_StackSize 2 SampleIrp).

(** C1, at the failing input: an initialized open IRP for a stack of three
    drivers that leave the IRP alone. The traversal runs to completion
    (the flag [IRP_DRIVER_STACK_COMPLETE] is set, the index is back at 0,
    all six dispatches were made), yet the value returned is the local
    [Status] that no statement ever assigned, not [STATUS_SUCCESS]. *)
Theorem send_without_pending_returns_unassigned_status :
  exists Irp' t,
    IoSendSynchronousIrp 7 [] SampleIrp = Done (None, Irp', t) /\
    flag_test (Flags Irp') IRP_DRIVER_STACK_COMPLETE = true /\
    StackIndex Irp' = 0 /\
    length (Dispatches t) = 6%nat.
Proof. eexists _, _. split; [vm_compute; reflexivity|]. by vm_compute. Qed.

(** The same engine returns [STATUS_SUCCESS] when a driver pended the IRP:
    the wait assigns the status. *)
Example send_with_pending_returns_success :
  exists Irp' t,
    IoSendSynchronousIrp 7 [] SamplePendingIrp
      = Done (Some STATUS_SUCCESS, Irp', t) /\
    flag_test (Flags Irp') IRP_DRIVER_STACK_COMPLETE = true.
Proof. eexists _, _. split; [vm_compute; reflexivity|]. by vm_compute. Qed.

(** *** Failure of the stack allocation in [IoCreateIrp] *)

Definition QuietDriver (address : nat) : DRIVER_STACK_ENTRY :=
  {| Driver := {| DriverAddress := address;
                  FunctionTable := QuietTable address |};
     DriverContext := Z.of_nat address |}.

Definition SampleDevice (state : DEVICE_STATE) : DEVICE :=
  {| DeviceAddress := 7%nat; DeviceType := ObjectDevice; State := state;
     VolumeFlags := 0; DriverStackSize := 2;
     DriverStackHead := [QuietDriver 1; QuietDriver 2];
     TargetDevice := None |}.

(** C2, at the failing input: a started device with two drivers, on a
    32-bit machine, when the pool cannot serve the stack. [IoCreateIrp]
    does not return NULL: after recording the failure it goes on and clears
    the stack through the NULL pointer. *)
Theorem create_after_failed_stack_allocation :
  IoCreateIrp 32 true false (Some (SampleDevice DeviceStarted)) IrpMajorOpen 0
  = Fault NullDereference.
Proof. reflexivity. Qed.

(** This happens whenever the stack to allocate is not empty. *)
Lemma create_after_failed_stack_allocation_in_general
    (UINTN_BITS : Z) (Device' : DEVICE) (Major : IRP_MAJOR_CODE) (Flags' : Z) :
  DriverStackSize Device' <> 0 ->
  DriverStackHead Device' <> [] ->
  0 < ULONG (SIZEOF_IRP_STACK_ENTRY UINTN_BITS * SumStackSizes Device' 0) ->
  IoCreateIrp UINTN_BITS true false (Some Device') Major Flags'
  = Fault NullDereference.
Proof.
  intros Hsize Hhead Halloc. unfold IoCreateIrp.
  destruct (Z.eqb_spec (DriverStackSize Device') 0); [done|].
  rewrite bool_decide_eq_false_2 by done. simpl orb. cbv iota.
  simpl negb. cbv iota zeta. cbn [StackSize NewIrp].
  destruct (Z.ltb_spec 0
              (ULONG (SIZEOF_IRP_STACK_ENTRY UINTN_BITS
                      * SumStackSizes Device' 0))); [|lia].
  reflexivity.
Qed.

(** *** Reads past the end of the file *)

Lemma ClampToFileSize_spec (UINTN_BITS : Z) (Request : IRP_READ_WRITE) :
  0 <= IoOffset Request <= MAX_ULONGLONG ->
  0 <= IoBytesCompleted Request < 2 ^ UINTN_BITS ->
  0 <= FileSize Request <= MAX_ULONGLONG ->
  FileSize Request
    < ULONGLONG (IoOffset Request + IoBytesCompleted Request) ->
  let Clamped := ClampToFileSize UINTN_BITS Request in
  IoOffset Clamped = IoOffset Request /\
  FileSize Clamped = FileSize Request /\
  IoBytesCompleted Clamped = Z.max 0 (FileSize Request - IoOffset Request) /\
  NewIoOffset Clamped = IoOffset Clamped + IoBytesCompleted Clamped.
Proof.
  intros Hoff Hdone Hsize Hbeyond. unfold ClampToFileSize.
  destruct (Z.ltb_spec (FileSize Request)
              (ULONGLONG (IoOffset Request + IoBytesCompleted Request)));
    [|lia].
  assert (Hsum : ULONGLONG (IoOffset Request + IoBytesCompleted Request)
                 <= IoOffset Request + IoBytesCompleted Request).
  { unfold ULONGLONG, wrap. apply Z.mod_le; [lia|]. by apply Z.pow_pos_nonneg. }
  destruct (Z.ltb_spec (FileSize Request) (IoOffset Request)) as [Hlt|Hge];
    cbn [IoOffset IoBytesCompleted NewIoOffset FileSize].
  - repeat split; lia.
  - assert (Hdiff : 0 <= FileSize Request - IoOffset Request
                    < 2 ^ UINTN_BITS) by lia.
    assert (Hdiff' : 0 <= FileSize Request - IoOffset Request
                     <= MAX_ULONGLONG) by lia.
    rewrite (ULONGLONG_small _ Hdiff').
    unfold UINTN. rewrite (wrap_small _ _ Hdiff).
    rewrite ULONGLONG_small by lia.
    repeat split; lia.
Qed.

(** The adjustment as the routine's description has it: whenever the
    request that comes back from the send of a read IRP has
    [IoOffset + IoBytesCompleted] beyond the file size, and that sum fits
    the 64 bits the code forms it in, [IopSendIoReadIrp] reports
    [IoBytesCompleted = max 0 (FileSize - IoOffset)] and
    [NewIoOffset = IoOffset + IoBytesCompleted], with the status and the
    events of the send. *)
Lemma read_is_clamped_to_file_size (UINTN_BITS : Z) (env : ENVIRONMENT)
    (Device' : DEVICE) (Request Sent : IRP_READ_WRITE) (Status' : KSTATUS)
    (t : list Event) :
  IopSendIoIrp UINTN_BITS env Device' IrpMinorIoRead Request
    = Done (Status', Sent, t) ->
  0 <= IoOffset Sent <= MAX_ULONGLONG ->
  0 <= IoBytesCompleted Sent < 2 ^ UINTN_BITS ->
  0 <= FileSize Sent <= MAX_ULONGLONG ->
  IoOffset Sent + IoBytesCompleted Sent <= MAX_ULONGLONG ->
  FileSize Sent < IoOffset Sent + IoBytesCompleted Sent ->
  exists Reported,
    IopSendIoReadIrp UINTN_BITS env Device' Request
      = Done (Status', Reported, t) /\
    IoOffset Reported = IoOffset Sent /\
    IoBytesCompleted Reported = Z.max 0 (FileSize Sent - IoOffset Sent) /\
    NewIoOffset Reported = IoOffset Reported + IoBytesCompleted Reported.
Proof.
  intros Hsend Hoff Hdone Hsize Hfits Hbeyond.
  assert (Hwrapped : FileSize Sent
                     < ULONGLONG (IoOffset Sent + IoBytesCompleted Sent))
    by (rewrite ULONGLONG_small; lia).
  exists (ClampToFileSize UINTN_BITS Sent). split.
  - unfold IopSendIoReadIrp. rewrite Hsend. unfold bind, ret.
    by rewrite app_nil_r.
  - pose proof (ClampToFileSize_spec UINTN_BITS Sent Hoff Hdone Hsize
                  Hwrapped) as (H1 & _ & H3 & H4).
    done.
Qed.

Definition SampleDisk (state : DEVICE_STATE) : DEVICE :=
  {| DeviceAddress := 9%nat; DeviceType := ObjectDevice; State := state;
     VolumeFlags := 0; DriverStackSize := 1;
     DriverStackHead := [PendingDriver 1];
     TargetDevice := None |}.

Definition SampleEnvironment : ENVIRONMENT :=
  {| ObjectAvailable := true; PoolAvailable := true; Fuel := 8;
     Wakeups := []; Unassigned := STATUS_SUCCESS |}.

Definition SampleRead (size : Z) : IRP_READ_WRITE :=
  {| IoBuffer := Some 5%nat; IoFlags := 0; IoOffset := 1024;
     IoSizeInBytes := 512; IoBytesCompleted := 0; NewIoOffset := 0;
     FileSize := size |}.

(** What the sample disk's driver leaves in the request, and the events of
    the send. *)
Definition SampleSent : IRP_READ_WRITE :=
  {| IoBuffer := Some 5%nat; IoFlags := 0; IoOffset := 1024;
     IoSizeInBytes := 512; IoBytesCompleted := 512; NewIoOffset := 1536;
     FileSize := 1200 |}.

Definition SampleSendTrace : list Event :=
  [EvObCreateObject; EvAllocateStack 8; EvUnsignal;
   EvDispatch 1%nat 0 IrpDown; EvSignal; EvWait;
   EvDispatch 1%nat 0 IrpUp; EvBytesRead 512;
   EvDestroyIrp 1 1 None; EvFreeStack; EvObReleaseReference].

Lemma read_is_clamped_to_file_size_witness :
  exists Reported,
    IopSendIoReadIrp 32 SampleEnvironment (SampleDisk DeviceStarted)
      (SampleRead 1200) = Done (STATUS_SUCCESS, Reported, SampleSendTrace) /\
    IoOffset Reported = 1024 /\
    IoBytesCompleted Reported = Z.max 0 (1200 - 1024) /\
    NewIoOffset Reported = IoOffset Reported + IoBytesCompleted Reported.
Proof.
  apply (read_is_clamped_to_file_size 32 SampleEnvironment
           (SampleDisk DeviceStarted) (SampleRead 1200) SampleSent
           STATUS_SUCCESS SampleSendTrace).
  - vm_compute. reflexivity.
  - cbn [SampleSent IoOffset]. unfold MAX_ULONGLONG. lia.
  - cbn [SampleSent IoBytesCompleted]. lia.
  - cbn [SampleSent FileSize]. unfold MAX_ULONGLONG. lia.
  - cbn [SampleSent IoOffset IoBytesCompleted]. unfold MAX_ULONGLONG. lia.
  - cbn [SampleSent IoOffset IoBytesCompleted FileSize]. lia.
Defined.

(** A disk whose driver, handed a read, pends it, transfers 512 bytes
    from wherever the read starts and completes it with success. *)
Definition ReadingTable (address : nat) : DRIVER_FUNCTION_TABLE :=
  RoutineTable
    (fun p _ _ =>
       match Direction p, U p with
       | IrpDown, UReadWrite r =>
           [ActPendIrp address;
            ActSetIoResult 512 (ULONGLONG (IoOffset r + 512));
            ActCompleteIrp address STATUS_SUCCESS]
       | _, _ => []
       end)
    address.

Definition ReadingDisk : DEVICE :=
  {| DeviceAddress := 9%nat; DeviceType := ObjectDevice;
     State := DeviceStarted; VolumeFlags := 0; DriverStackSize := 1;
     DriverStackHead :=
       [{| Driver := {| DriverAddress := 1%nat;
                        FunctionTable := ReadingTable 1 |};
           DriverContext := 1 |}];
     TargetDevice := None |}.

(** A read of 512 bytes that starts 256 bytes below the end of the range
    of offsets, from a file of 1000 bytes. *)
Definition FarRead : IRP_READ_WRITE :=
  {| IoBuffer := Some 5%nat; IoFlags := 0; IoOffset := 2 ^ 64 - 256;
     IoSizeInBytes := 512; IoBytesCompleted := 0; NewIoOffset := 0;
     FileSize := 1000 |}.

(** C9, at the failing input. The driver completes all 512 bytes of
    the read [FarRead], so that [IoOffset + IoBytesCompleted] is beyond
    the file size of 1000. The code forms the sum in 64 bits, where it
    wraps around to 256, finds it within the file and adjusts nothing:
    [IopSendIoReadIrp] reports 512 bytes completed, where
    [max 0 (FileSize - IoOffset)] is 0, although the routine is
    described as making sure that the bytes completed that are returned
    do not extend beyond the file size. *)
Theorem far_read_is_not_clamped :
  exists Sent Reported t,
    IopSendIoIrp 64 SampleEnvironment ReadingDisk IrpMinorIoRead FarRead
      = Done (STATUS_SUCCESS, Sent, t) /\
    IopSendIoReadIrp 64 SampleEnvironment ReadingDisk FarRead
      = Done (STATUS_SUCCESS, Reported, t) /\
    FileSize Sent = 1000 /\
    IoOffset Sent = 2 ^ 64 - 256 /\
    IoBytesCompleted Sent = 512 /\
    FileSize Sent < IoOffset Sent + IoBytesCompleted Sent /\
    ULONGLONG (IoOffset Sent + IoBytesCompleted Sent) = 256 /\
    IoBytesCompleted Reported = 512 /\
    Z.max 0 (FileSize Sent - IoOffset Sent) = 0 /\
    IoBytesCompleted Reported <> Z.max 0 (FileSize Sent - IoOffset Sent).
Proof.
  eexists _, _, _.
  split; [vm_compute; reflexivity|].
  split; [vm_compute; reflexivity|].
  repeat split; try reflexivity; vm_compute; discriminate.
Qed.

(** *** Completion by the owner of the current stack slot *)

Lemma IoCompleteIrp_by_owner (owner : PDRIVER) (Irp : IRP_INTERNAL)
    (StatusCode : KSTATUS) :
  CurrentOwner Irp = Some owner ->
  exists Irp' t,
    IoCompleteIrp owner Irp StatusCode = Done (Irp', t) /\
    Status (Public Irp') = StatusCode /\
    Direction (Public Irp') = IrpUp /\
    flag_test (Flags Irp') IRP_COMPLETE = true /\
    U (Public Irp') = U (Public Irp) /\
    MinorCode (Public Irp') = MinorCode (Public Irp) /\
    StackIndex Irp' = StackIndex Irp /\
    Stack Irp' = Stack Irp.
Proof.
  intros Hown.
  destruct (CurrentOwner_inv _ _ Hown) as (entry & o & Hat & Ho & Hd).
  unfold IoCompleteIrp. rewrite Hat. simpl bind at 1. rewrite Ho.
  simpl bind at 1. rewrite decide_True by done.
  cbv zeta.
  match goal with |- context [flag_test ?f IRP_PENDING] =>
    destruct (flag_test f IRP_PENDING) end.
  - eexists _, _. split; [reflexivity|]. simpl.
    repeat split. by apply flag_test_or_same.
  - eexists _, _. split; [reflexivity|]. simpl.
    repeat split. by apply flag_test_or_same.
Qed.

(** *** What the engine emits *)

(** A trace all of whose events satisfy [P]. *)
Definition Only (P : Event -> bool) (t : list Event) : Prop :=
  Forall (fun e => P e = true) t.

(** Events other than taking or releasing a device lock. *)
Definition NotLock (e : Event) : bool :=
  match e with
  | EvAcquireShared _ | EvReleaseShared _ => false
  | _ => true
  end.

(** The events of [IoDestroyIrp]. *)
Definition IsTeardown (e : Event) : bool :=
  match e with
  | EvDestroyIrp _ _ _ | EvFreeStack | EvObReleaseReference => true
  | _ => false
  end.

Lemma Only_bind {A B} P (m : Run Event A) (k : A -> Run Event B) b t :
  bind m k = Done (b, t) ->
  (forall a t1, m = Done (a, t1) -> Only P t1) ->
  (forall a t2, k a = Done (b, t2) -> Only P t2) ->
  Only P t.
Proof.
  intros H Hm Hk. apply bind_inv in H as (a & t1 & t2 & H1 & H2 & ->).
  apply Forall_app. split; [by eapply Hm | by eapply Hk].
Qed.

Lemma Only_emit P (e : Event) u t :
  P e = true -> emit e = Done (u, t) -> Only P t.
Proof. intros He [= _ <-]. by repeat constructor. Qed.

Lemma Only_ret {A} P (a b : A) t :
  ret (E := Event) a = Done (b, t) -> Only P t.
Proof. intros [= _ <-]. constructor. Qed.

Lemma Only_Done_nil {A} P (a b : A) t :
  Done (a, @nil Event) = Done (b, t) -> Only P t.
Proof. intros [= _ <-]. constructor. Qed.

Lemma Only_weaken (P Q : Event -> bool) t :
  (forall e, P e = true -> Q e = true) -> Only P t -> Only Q t.
Proof. intros H Ht. eapply Forall_impl; [exact Ht|exact H]. Qed.

Create HintDb emitted discriminated.

(** One step of the analysis of a run that ended in [Done]: split a bind,
    decide a test, or close the goal with a fact already known. *)
Ltac emitted_step :=
  match goal with
  | |- ret _ = Done _ -> Only _ _ => apply Only_ret
  | |- Done (_, []) = Done _ -> Only _ _ => apply Only_Done_nil
  | |- emit _ = Done _ -> Only _ _ =>
      apply Only_emit; first [reflexivity | solve [auto]]
  | |- bind _ _ = Done _ -> Only _ _ =>
      let H := fresh "H" in
      intros H; eapply Only_bind; [exact H | intros ? ? | intros ? ?];
      clear H; cbv beta
  | |- Fault _ = Done _ -> _ => discriminate
  | |- Crash _ = Done _ -> _ => discriminate
  | |- Blocked = Done _ -> _ => discriminate
  | |- OutOfFuel = Done _ -> _ => discriminate
  | |- (if ?c then _ else _) = Done _ -> Only _ _ => destruct c
  | |- match ?x with _ => _ end = Done _ -> Only _ _ => destruct x
  | |- _ = Done _ -> Only _ _ => solve [eauto with emitted]
  end.

Ltac emitted := repeat emitted_step.

Section Emitted.

Variable P : Event -> bool.
Hypothesis P_signal : P EvSignal = true.
Hypothesis P_unsignal : P EvUnsignal = true.
Hypothesis P_wait : P EvWait = true.
Hypothesis P_dispatch : forall d i dir, P (EvDispatch d i dir) = true.
Hypothesis P_completion : forall r, P (EvCompletionRoutine r) = true.

Lemma deref_Only {A} (p : option A) a t :
  deref (E := Event) p = Done (a, t) -> Only P t.
Proof. unfold deref. emitted. Qed.

Lemma initialized_Only {A} (p : option A) a t :
  initialized (E := Event) p = Done (a, t) -> Only P t.
Proof. unfold initialized. emitted. Qed.

Lemma index_Only {A} (l : list A) i x t :
  index (E := Event) l i = Done (x, t) -> Only P t.
Proof. unfold index. emitted. Qed.

Hint Resolve deref_Only initialized_Only index_Only : emitted.

Lemma StackAt_Only Irp i e t : StackAt Irp i = Done (e, t) -> Only P t.
Proof. unfold StackAt. emitted. Qed.

Hint Resolve StackAt_Only : emitted.

Lemma ObSignalObject_Only Irp r t :
  ObSignalObject Irp = Done (r, t) -> Only P t.
Proof.
  unfold ObSignalObject. emitted.
Qed.

Lemma ObUnsignalObject_Only Irp r t :
  ObUnsignalObject Irp = Done (r, t) -> Only P t.
Proof.
  unfold ObUnsignalObject. emitted.
Qed.

Hint Resolve ObSignalObject_Only ObUnsignalObject_Only : emitted.

Lemma IoCompleteIrp_Only d Irp s r t :
  IoCompleteIrp d Irp s = Done (r, t) -> Only P t.
Proof. unfold IoCompleteIrp. cbv zeta. emitted. Qed.

Lemma IoPendIrp_Only d Irp r t : IoPendIrp d Irp = Done (r, t) -> Only P t.
Proof. unfold IoPendIrp. emitted. Qed.

Lemma IoContinueIrp_Only d Irp r t :
  IoContinueIrp d Irp = Done (r, t) -> Only P t.
Proof. unfold IoContinueIrp. emitted. Qed.

Hint Resolve IoCompleteIrp_Only IoPendIrp_Only IoContinueIrp_Only : emitted.

Lemma RunAction_Only Irp a r t : RunAction Irp a = Done (r, t) -> Only P t.
Proof. unfold RunAction. emitted. Qed.

Hint Resolve RunAction_Only : emitted.

Lemma RunActions_Only l : forall Irp r t,
  RunActions Irp l = Done (r, t) -> Only P t.
Proof.
  induction l as [|a l IH]; intros Irp r t; cbn [RunActions]; emitted.
Qed.

Hint Resolve RunActions_Only : emitted.

Lemma SelectDispatch_Only m tbl r t :
  SelectDispatch m tbl = Done (r, t) -> Only P t.
Proof. unfold SelectDispatch. emitted. Qed.

Hint Resolve SelectDispatch_Only : emitted.

Lemma IopCallDriver_Only Irp r t :
  IopCallDriver Irp = Done (r, t) -> Only P t.
Proof.
  unfold IopCallDriver. cbv zeta. emitted.
Qed.

Hint Resolve IopCallDriver_Only : emitted.

Lemma PumpLoop_Only fuel : forall Irp r t,
  PumpLoop fuel Irp = Done (r, t) -> Only P t.
Proof.
  induction fuel as [|fuel IH]; intros Irp r t; cbn [PumpLoop]; emitted.
Qed.

Hint Resolve PumpLoop_Only : emitted.

Lemma IopPumpIrpThroughStack_Only fuel Irp r t :
  IopPumpIrpThroughStack fuel Irp = Done (r, t) -> Only P t.
Proof.
  unfold IopPumpIrpThroughStack. emitted.
Qed.

Hint Resolve IopPumpIrpThroughStack_Only : emitted.

Lemma ObWaitOnObject_Only env : forall Irp r t,
  ObWaitOnObject env Irp = Done (r, t) -> Only P t.
Proof.
  induction env as [|step env IH]; intros Irp r t; cbn [ObWaitOnObject]; emitted.
Qed.

Hint Resolve ObWaitOnObject_Only : emitted.

Lemma SendLoop_Only fuel : forall env Irp s r t,
  SendLoop fuel env Irp s = Done (r, t) -> Only P t.
Proof.
  induction fuel as [|fuel IH]; intros env Irp s r t; cbn [SendLoop]; emitted.
Qed.

Hint Resolve SendLoop_Only : emitted.

Lemma IoSendSynchronousIrp_Only fuel env Irp r t :
  IoSendSynchronousIrp fuel env Irp = Done (r, t) -> Only P t.
Proof. unfold IoSendSynchronousIrp. emitted. Qed.

End Emitted.

Section EmittedByCreation.

Variable P : Event -> bool.
Hypothesis P_create : P EvObCreateObject = true.
Hypothesis P_release : P EvObReleaseReference = true.
Hypothesis P_allocate : forall n, P (EvAllocateStack n) = true.
Hypothesis P_free : P EvFreeStack = true.
Hypothesis P_hook : forall d i, P (EvCreateIrp d i) = true.
Hypothesis P_destroy : forall r c ic, P (EvDestroyIrp r c ic) = true.

Hint Resolve deref_Only initialized_Only index_Only StackAt_Only : emitted.

Lemma StoreStackEntry_Only Irp i f r t :
  StoreStackEntry Irp i f = Done (r, t) -> Only P t.
Proof. unfold StoreStackEntry. emitted. Qed.

Hint Resolve StoreStackEntry_Only : emitted.

Lemma CreateDriverLoop_Only F entries : forall L r t,
  CreateDriverLoop F entries L = Done (r, t) -> Only P t.
Proof.
  induction entries as [|e entries IH]; intros L r t;
    cbn [CreateDriverLoop]; emitted.
Qed.

Hint Resolve CreateDriverLoop_Only : emitted.

Lemma CreateDeviceLoop_Only F : forall d L r t,
  CreateDeviceLoop F d L = Done (r, t) -> Only P t.
Proof.
  fix IH 1. intros [a type s vf size head target] L r t.
  cbn [CreateDeviceLoop]. emitted.
Qed.

Hint Resolve CreateDeviceLoop_Only : emitted.

Lemma CreateCleanupLoop_Only count : forall Irp i c r t,
  CreateCleanupLoop count Irp i c = Done (r, t) -> Only P t.
Proof.
  induction count as [|count IH]; intros Irp i c r t;
    cbn [CreateCleanupLoop]; emitted.
Qed.

Hint Resolve CreateCleanupLoop_Only : emitted.

Lemma CreateIrpEnd_Only s Irp c r t :
  CreateIrpEnd s Irp c = Done (r, t) -> Only P t.
Proof. unfold CreateIrpEnd. emitted. Qed.

Hint Resolve CreateIrpEnd_Only : emitted.

Lemma IoCreateIrp_Only bits o p d m F r t :
  IoCreateIrp bits o p d m F = Done (r, t) -> Only P t.
Proof. unfold IoCreateIrp. cbv zeta. emitted. Qed.

Lemma DestroyLoop_Only count : forall Irp i r t,
  DestroyLoop count Irp i = Done (r, t) -> Only P t.
Proof.
  induction count as [|count IH]; intros Irp i r t;
    cbn [DestroyLoop]; emitted.
Qed.

Hint Resolve DestroyLoop_Only : emitted.

Lemma IoDestroyIrp_Only Irp r t :
  IoDestroyIrp Irp = Done (r, t) -> Only P t.
Proof. unfold IoDestroyIrp. emitted. Qed.

End EmittedByCreation.

(** The engine takes no device lock of its own, and what [IoDestroyIrp]
    emits is the teardown of the IRP. *)
Lemma IoCreateIrp_NotLock bits o p d m F r t :
  IoCreateIrp bits o p d m F = Done (r, t) -> Only NotLock t.
Proof. by apply IoCreateIrp_Only. Qed.

Lemma IoSendSynchronousIrp_NotLock fuel env Irp r t :
  IoSendSynchronousIrp fuel env Irp = Done (r, t) -> Only NotLock t.
Proof. by apply IoSendSynchronousIrp_Only. Qed.

Lemma IoDestroyIrp_IsTeardown Irp r t :
  IoDestroyIrp Irp = Done (r, t) -> Only IsTeardown t.
Proof. by apply IoDestroyIrp_Only. Qed.

Lemma IoDestroyIrp_NotLock Irp r t :
  IoDestroyIrp Irp = Done (r, t) -> Only NotLock t.
Proof.
  intros H. eapply Only_weaken; [|by eapply IoDestroyIrp_IsTeardown].
  by intros [].
Qed.

(** *** The synchronous helpers and the device lock *)

(** A trace in which the shared lock of the device at [a] is taken first,
    then nothing touches a device lock until the lock is released, and
    after the release only the IRP is torn down. *)
Definition LockedSubmission (a : PDEVICE) (t : list Event) : Prop :=
  exists mid tail,
    t = EvAcquireShared a :: mid ++ EvReleaseShared a :: tail /\
    Only NotLock mid /\
    Only IsTeardown tail.

(** Inversion of a run that ended in [Done]: bind by bind, and by cases
    on the tests and scrutinees met on the way. *)
Ltac peel H :=
  repeat (let Hm := fresh "Hm" in
          apply bind_inv in H as (? & ? & ? & Hm & H & ->);
          unfold emit, ret in Hm;
          try (injection Hm as <- <-);
          try match type of Hm with
              | initialized ?v = _ =>
                  destruct v;
                  [ unfold initialized, ret in Hm; injection Hm as <- <-
                  | discriminate Hm ]
              end;
          cbv beta iota zeta in H).

Ltac split_run H :=
  match type of H with
  | (if ?c then _ else _) = _ => destruct c
  | match ?x with _ => _ end = _ => destruct x
  end.

Ltac unravel H := repeat (peel H; try (progress split_run H)).

Ltac close_locked_submission H :=
  unfold ret in H; injection H as <- <-;
  lazymatch goal with
  | Hc : IoCreateIrp _ _ _ _ _ _ = Done (_, ?tc),
    Hs : IoSendSynchronousIrp _ _ _ = Done (_, ?ts),
    Hd : IoDestroyIrp _ = Done (_, ?td) |- _ =>
      exists (tc ++ ts), td; split; [|split];
      [ cbn [app]; rewrite ?app_nil_r, <- ?app_assoc; reflexivity
      | apply Forall_app; split;
        [ by eapply IoCreateIrp_NotLock
        | by eapply IoSendSynchronousIrp_NotLock ]
      | by eapply IoDestroyIrp_IsTeardown ]
  | Hc : IoCreateIrp _ _ _ _ _ _ = Done (_, ?tc) |- _ =>
      exists tc, []; split; [|split];
      [ cbn [app]; rewrite ?app_nil_r, <- ?app_assoc; reflexivity
      | by eapply IoCreateIrp_NotLock
      | constructor ]
  | |- _ =>
      exists [], []; split; [|split]; [reflexivity | constructor | constructor]
  end.

Lemma IopSendOpenIrp_locked bits env d req r t :
  IopSendOpenIrp bits env d req = Done (r, t) ->
  LockedSubmission (DeviceAddress d) t.
Proof.
  intros H. unfold IopSendOpenIrp in H. unravel H;
    close_locked_submission H.
Qed.

Lemma IopSendUserControlIrp_locked bits env d minor k ctx size r t :
  IopSendUserControlIrp bits env d minor k ctx size = Done (r, t) ->
  LockedSubmission (DeviceAddress d) t.
Proof.
  intros H. unfold IopSendUserControlIrp in H. unravel H;
    close_locked_submission H.
Qed.

Lemma IopSendSystemControlIrp_locked bits env d control ctx r t :
  IrpMinorSystemControlInvalid < control ->
  IopSendSystemControlIrp bits env d control ctx = Done (r, t) ->
  LockedSubmission (DeviceAddress d) t.
Proof.
  intros Hvalid H. unfold IopSendSystemControlIrp in H.
  destruct (Z.leb_spec control IrpMinorSystemControlInvalid); [lia|].
  unravel H; close_locked_submission H.
Qed.

Lemma IopSendCloseIrp_unlocked bits env d req r t :
  IopSendCloseIrp bits env d req = Done (r, t) -> Only NotLock t.
Proof.
  pose proof IoCreateIrp_NotLock. pose proof IoSendSynchronousIrp_NotLock.
  pose proof IoDestroyIrp_NotLock. pose proof (@initialized_Only NotLock).
  unfold IopSendCloseIrp. emitted.
Qed.

Lemma IopSendIoIrp_unlocked bits env d minor req r t :
  IopSendIoIrp bits env d minor req = Done (r, t) -> Only NotLock t.
Proof.
  pose proof IoCreateIrp_NotLock. pose proof IoSendSynchronousIrp_NotLock.
  pose proof IoDestroyIrp_NotLock. pose proof (@initialized_Only NotLock).
  unfold IopSendIoIrp. cbv zeta. emitted.
Qed.

(** The device with another state. *)
Definition WithState (s : DEVICE_STATE) (d : DEVICE) : DEVICE :=
  match d with
  | MkDevice a type _ f size head target =>
      MkDevice a type s f size head target
  end.

(** [IoCreateIrp] does not read the state of the device. *)
Lemma IoCreateIrp_any_state bits o p s d Major F :
  IoCreateIrp bits o p (Some (WithState s d)) Major F
  = IoCreateIrp bits o p (Some d) Major F.
Proof. by destruct d. Qed.

Lemma IopSendCloseIrp_any_state bits env s d req :
  IopSendCloseIrp bits env (WithState s d) req
  = IopSendCloseIrp bits env d req.
Proof. unfold IopSendCloseIrp. by rewrite IoCreateIrp_any_state. Qed.

Lemma IopSendIoIrp_any_state bits env s d minor req :
  IopSendIoIrp bits env (WithState s d) minor req
  = IopSendIoIrp bits env d minor req.
Proof.
  unfold IopSendIoIrp. rewrite IoCreateIrp_any_state.
  by destruct d.
Qed.


(** A disk whose driver serves every request inside its dispatch
    routine, without pending it. *)
Definition ServingDisk (state : DEVICE_STATE) : DEVICE :=
  {| DeviceAddress := 9%nat; DeviceType := ObjectDevice; State := state;
     VolumeFlags := 0; DriverStackSize := 1;
     DriverStackHead :=
       [{| Driver :=
             {| DriverAddress := 1%nat;
                FunctionTable :=
                  RoutineTable
                    (fun p _ _ =>
                       match Direction p with
                       | IrpDown => [ActCompleteIrp 1%nat STATUS_SUCCESS]
                       | _ => []
                       end) 1 |};
           DriverContext := 1 |}];
     TargetDevice := None |}.



(** *** A create hook that fails *)

(** The driver stack entries [IoCreateIrp] walks for a device: those of the
    device, then those of its chain of targets, not followed through a
    volume. *)
Fixpoint ChainEntries (d : DEVICE) : list DRIVER_STACK_ENTRY :=
  match d with
  | MkDevice _ type _ _ _ head target =>
      head ++ match type, target with
              | ObjectDevice, Some next => ChainEntries next
              | _, _ => []
              end
  end.

(** The public part of the IRP the create hooks are handed. *)
Definition PublicAtCreate (d : DEVICE) (Major : IRP_MAJOR_CODE) : IRP :=
  Public (IopInitializeIrp (NewIrp (Some d) Major)).

(** An IRP stack of [n] entries of which the first are [filled] and the
    others still zero. *)
Definition Partial (n : nat) (filled : list IRP_STACK_ENTRY)
  : list IRP_STACK_ENTRY :=
  filled ++ replicate (n - length filled) ZeroStackEntry.

Lemma Partial_length n filled :
  (length filled <= n)%nat -> length (Partial n filled) = n.
Proof.
  intros H. unfold Partial. rewrite length_app, length_replicate. lia.
Qed.

Lemma Partial_lookup_next n filled (i : nat) :
  i = length filled -> (i < n)%nat ->
  Partial n filled !! i = Some ZeroStackEntry.
Proof.
  intros -> H. unfold Partial. rewrite lookup_app_r by lia.
  rewrite Nat.sub_diag. apply lookup_replicate_2. lia.
Qed.

Lemma Partial_lookup_filled n filled (i : nat) x :
  filled !! i = Some x -> Partial n filled !! i = Some x.
Proof. intros H. unfold Partial. by apply lookup_app_l_Some. Qed.

Lemma Partial_insert_next n filled (i : nat) x :
  i = length filled -> (i < n)%nat ->
  <[i := x]> (Partial n filled) = Partial n (filled ++ [x]).
Proof.
  intros -> H. unfold Partial.
  replace (length filled) with (length filled + 0)%nat at 1 by lia.
  rewrite insert_app_r.
  replace (n - length filled)%nat with (S (n - length (filled ++ [x])))
    by (rewrite length_app; simpl; lia).
  simpl. by rewrite <- app_assoc.
Qed.

Lemma Partial_insert_last n filled (i : nat) x y :
  i = length filled ->
  <[i := y]> (Partial n (filled ++ [x])) = Partial n (filled ++ [y]).
Proof.
  intros ->. unfold Partial. rewrite !length_app. simpl.
  rewrite <- !app_assoc.
  replace (length filled) with (length filled + 0)%nat at 1 by lia.
  by rewrite insert_app_r.
Qed.

Lemma StoreStackEntry_at Irp stack (i : nat) old f :
  Stack Irp = Some stack -> stack !! i = Some old ->
  StoreStackEntry Irp (Z.of_nat i) f
  = ret (set_Stack (Some (<[i := f old]> stack)) Irp).
Proof.
  intros Hs Hi. unfold StoreStackEntry, deref.
  rewrite Hs, bind_ret_l, (index_lookup _ _ _ Hi).
  change (Done (old, [])) with (ret (E := Event) old).
  by rewrite bind_ret_l, Nat2Z.id.
Qed.

Section CreateHooks.

Variable p : IRP.
Variable F : Z.
Variable n : nat.
Hypothesis n_fits : Z.of_nat n <= MAX_ULONG.

(** What the create hook of a driver answers, if the driver has one. *)
Definition HookOutcome (e : DRIVER_STACK_ENTRY)
  : option (KSTATUS * option PVOID) :=
  match CreateIrp (FunctionTable (Driver e)) with
  | Some hook => Some (hook p (DriverContext e) F)
  | None => None
  end.

Definition HookFails (e : DRIVER_STACK_ENTRY) : bool :=
  match HookOutcome e with
  | Some (s, _) => negb (KSUCCESS s)
  | None => false
  end.

(** The IRP context of a stack entry once its driver's hook has run. *)
Definition ContextAfter (e : DRIVER_STACK_ENTRY) : option PVOID :=
  match HookOutcome e with
  | Some (_, c) => c
  | None => None
  end.

Definition Filled (e : DRIVER_STACK_ENTRY) : IRP_STACK_ENTRY :=
  {| DriverStackEntry := Some e; IrpContext := ContextAfter e |}.

(** The calls of create hooks made for a list of drivers, the first of
    which sits at stack index [i]. *)
Fixpoint HookCalls (i : nat) (l : list DRIVER_STACK_ENTRY) : list Event :=
  match l with
  | [] => []
  | e :: l' =>
      match CreateIrp (FunctionTable (Driver e)) with
      | Some _ =>
          EvCreateIrp (DriverAddress (Driver e)) (Z.of_nat i)
          :: HookCalls (S i) l'
      | None => HookCalls (S i) l'
      end
  end.

(** The locals of [IoCreateIrp] once the drivers [done] have been walked
    without a failure. *)
Definition Walked (done : list DRIVER_STACK_ENTRY) (L : CREATE_LOCALS)
  : Prop :=
  Stack (cIrp L) = Some (Partial n (map Filled done)) /\
  Public (cIrp L) = p /\
  StackSize (cIrp L) = Z.of_nat n /\
  cEntryIndex L = Z.of_nat (length done).

(** The locals after the driver [e], the next after [done], has been
    walked. *)
Definition StepLocals (done : list DRIVER_STACK_ENTRY)
    (e : DRIVER_STACK_ENTRY) (L : CREATE_LOCALS) : CREATE_LOCALS :=
  {| cIrp := set_Stack (Some (Partial n (map Filled (done ++ [e])))) (cIrp L);
     cEntryIndex := Z.of_nat (length done) + 1;
     cCurrentStackEntry := Some e;
     cStatus := match HookOutcome e with
                | Some (s, _) => Some s
                | None => cStatus L
                end |}.

Lemma StepLocals_Walked done e L :
  Walked done L -> Walked (done ++ [e]) (StepLocals done e L).
Proof.
  intros (Hs & Hp & Hn & Hi). repeat split; try done.
  cbn [StepLocals cEntryIndex]. rewrite length_app. cbn [length]. lia.
Qed.

Lemma CreateDriverLoop_step_ok done e rest L :
  Walked done L -> (length done < n)%nat -> HookFails e = false ->
  CreateDriverLoop F (e :: rest) L
  = (run! Done (tt, HookCalls (length done) [e]) in
     CreateDriverLoop F rest (StepLocals done e L)).
Proof.
  intros (Hs & Hp & Hn & Hi) Hlt Hok.
  assert (Hlen : length (map Filled done) = length done) by apply length_map.
  unfold StepLocals. unfold HookFails in Hok. unfold HookOutcome in *.
  cbn [CreateDriverLoop HookCalls]. rewrite Hi.
  rewrite (StoreStackEntry_at _ _ _ ZeroStackEntry _ Hs)
    by (apply Partial_lookup_next; [done | lia]).
  rewrite bind_ret_l.
  rewrite (Partial_insert_next n (map Filled done) (length done)) by done.
  rewrite (ULONG_small (Z.of_nat (length done) + 1)) by lia.
  rewrite map_app. cbn [map]. unfold Filled at 5, ContextAfter, HookOutcome.
  destruct (CreateIrp (FunctionTable (Driver e))) as [hook|] eqn:Hhook.
  - cbn [Public set_Stack]. rewrite Hp.
    destruct (hook p (DriverContext e) F) as [s c] eqn:Hcall.
    erewrite StoreStackEntry_at;
      [ | reflexivity
        | apply Partial_lookup_filled; rewrite <- Hlen;
          by apply list_lookup_middle ].
    rewrite bind_ret_l, Hok. cbn [DriverStackEntry].
    rewrite (Partial_insert_last n (map Filled done) (length done)) by done.
    reflexivity.
  - exact (eq_sym (bind_ret_l tt _)).
Qed.

Lemma CreateDriverLoop_step_fails done e rest L :
  Walked done L -> (length done < n)%nat -> HookFails e = true ->
  exists L' s,
    CreateDriverLoop F (e :: rest) L
      = Done (L', true, HookCalls (length done) [e]) /\
    Stack (cIrp L') = Some (Partial n (map Filled (done ++ [e]))) /\
    StackSize (cIrp L') = Z.of_nat n /\
    cCurrentStackEntry L' = Some e /\
    cStatus L' = Some s /\
    KSUCCESS s = false.
Proof.
  intros (Hs & Hp & Hn & Hi) Hlt Hfail.
  assert (Hlen : length (map Filled done) = length done) by apply length_map.
  unfold HookFails, HookOutcome in Hfail.
  cbn [CreateDriverLoop HookCalls]. rewrite Hi.
  rewrite (StoreStackEntry_at _ _ _ ZeroStackEntry _ Hs)
    by (apply Partial_lookup_next; [done | lia]).
  rewrite bind_ret_l.
  rewrite (Partial_insert_next n (map Filled done) (length done)) by done.
  destruct (CreateIrp (FunctionTable (Driver e))) as [hook|] eqn:Hhook;
    [|discriminate].
  cbn [Public set_Stack]. rewrite Hp.
  destruct (hook p (DriverContext e) F) as [s c] eqn:Hcall.
  erewrite StoreStackEntry_at;
    [ | reflexivity
      | apply Partial_lookup_filled; rewrite <- Hlen;
        by apply list_lookup_middle ].
  rewrite bind_ret_l, Hfail. cbn [DriverStackEntry].
  rewrite (Partial_insert_last n (map Filled done) (length done)) by done.
  eexists _, s. split; [reflexivity|].
  cbn [cIrp cCurrentStackEntry cStatus Stack StackSize set_Stack].
  repeat split; try done.
  - rewrite map_app. cbn [map]. unfold Filled at 3, ContextAfter, HookOutcome.
    by rewrite Hhook, Hcall.
  - by destruct (KSUCCESS s).
Qed.

Lemma HookCalls_app i l1 l2 :
  HookCalls i (l1 ++ l2) = HookCalls i l1 ++ HookCalls (i + length l1) l2.
Proof.
  revert i. induction l1 as [|e l1 IH]; intros i; cbn [HookCalls app length].
  - by rewrite Nat.add_0_r.
  - rewrite IH. replace (S i + length l1)%nat with (i + S (length l1))%nat by lia.
    by destruct (CreateIrp (FunctionTable (Driver e))).
Qed.

Lemma run_events_twice {A} (t1 t2 : list Event) (m : Run Event A) :
  (run! Done (tt, t1) in run! Done (tt, t2) in m)
  = (run! Done (tt, t1 ++ t2) in m).
Proof.
  destruct m as [[a t]| | | |]; try done. simpl. by rewrite app_assoc.
Qed.

(** The walk over drivers whose hooks all succeed. *)
Lemma CreateDriverLoop_walk before : forall done L,
  Walked done L -> (length done + length before <= n)%nat ->
  Forall (fun e => HookFails e = false) before ->
  exists L',
    Walked (done ++ before) L' /\
    forall rest,
      CreateDriverLoop F (before ++ rest) L
      = (run! Done (tt, HookCalls (length done) before) in
         CreateDriverLoop F rest L').
Proof.
  induction before as [|e before IH]; intros done L HW Hlen Hok.
  - exists L. split; [by rewrite app_nil_r|].
    intros rest. exact (eq_sym (bind_ret_l tt _)).
  - cbn [length] in Hlen. apply Forall_cons in Hok as [He Hok].
    destruct (IH (done ++ [e]) (StepLocals done e L)
                (StepLocals_Walked done e L HW))
      as (L2 & HW2 & Hrun2);
      [rewrite length_app; cbn [length]; lia | done |].
    exists L2. split; [by rewrite <- app_assoc in HW2|].
    intros rest. rewrite <- app_comm_cons.
    rewrite (CreateDriverLoop_step_ok done e _ L HW) by (done || lia).
    rewrite Hrun2, run_events_twice.
    change (e :: before) with ([e] ++ before). rewrite HookCalls_app.
    rewrite length_app. reflexivity.
Qed.

(** The walk up to and including the first driver whose hook fails. *)
Lemma CreateDriverLoop_first_failure before failing after L :
  Walked [] L ->
  (length before < n)%nat ->
  Forall (fun e => HookFails e = false) before ->
  HookFails failing = true ->
  exists L' s,
    CreateDriverLoop F (before ++ failing :: after) L
      = Done (L', true, HookCalls 0 (before ++ [failing])) /\
    Stack (cIrp L') = Some (Partial n (map Filled (before ++ [failing]))) /\
    StackSize (cIrp L') = Z.of_nat n /\
    cCurrentStackEntry L' = Some failing /\
    cStatus L' = Some s /\
    KSUCCESS s = false.
Proof.
  intros HW Hlt Hok Hfail.
  destruct (CreateDriverLoop_walk before [] L HW) as (L1 & HW1 & Hrun1);
    [cbn [length]; lia | done |].
  cbn [app length] in HW1, Hrun1.
  destruct (CreateDriverLoop_step_fails before failing after L1 HW1)
    as (L' & s & Hrun & Hrest); [lia | done |].
  exists L', s. split; [|exact Hrest].
  rewrite Hrun1, Hrun, HookCalls_app. reflexivity.
Qed.

End CreateHooks.

(** The driver loop over two lists in a row. *)
Lemma CreateDriverLoop_app F l1 : forall l2 L,
  CreateDriverLoop F (l1 ++ l2) L
  = (let! r := CreateDriverLoop F l1 L in
     if r.2 then ret (r.1, true) else CreateDriverLoop F l2 r.1).
Proof.
  induction l1 as [|e l1 IH]; intros l2 L.
  - cbn [app CreateDriverLoop]. by rewrite bind_ret_l.
  - cbn [app CreateDriverLoop]. rewrite bind_assoc. apply bind_ext.
    intros Irp1.
    destruct (CreateIrp (FunctionTable (Driver e))) as [hook|]; [|apply IH].
    rewrite bind_assoc. apply bind_ext. intros _.
    destruct (hook (Public Irp1) (DriverContext e) F) as [s c].
    rewrite bind_assoc. apply bind_ext. intros Irp2.
    destruct (negb (KSUCCESS s)); [by rewrite bind_ret_l | apply IH].
Qed.

(** The loop over the chain of target devices is the driver loop over the
    entries of the chain. *)
Lemma CreateDeviceLoop_chain F : forall d L,
  CreateDeviceLoop F d L = CreateDriverLoop F (ChainEntries d) L.
Proof.
  fix IH 1. intros [a type s vf size head target] L.
  cbn [CreateDeviceLoop ChainEntries]. rewrite CreateDriverLoop_app.
  apply bind_ext. intros [L1 jumped]. cbn [fst snd].
  destruct jumped; [done|].
  destruct type; [|done]. destruct target as [next|]; [apply IH|done].
Qed.

(** The calls the clean-up loop of [IoCreateIrp] makes for the stack
    entries [todo], with [current] the driver stack entry left in the
    local [CurrentStackEntry]. *)
Definition CleanupCalls (current : DRIVER_STACK_ENTRY)
    (todo : list IRP_STACK_ENTRY) : list Event :=
  match DestroyIrp (FunctionTable (Driver current)) with
  | Some routine =>
      map (fun e => EvDestroyIrp routine (DriverContext current)
                      (IrpContext e)) todo
  | None => []
  end.

Lemma CreateCleanupLoop_run current todo : forall done m Irp,
  Stack Irp = Some (done ++ todo ++ replicate m ZeroStackEntry) ->
  Forall (fun e => DriverStackEntry e <> None) todo ->
  Z.of_nat (length done + length todo + m) <= MAX_ULONG ->
  CreateCleanupLoop (length todo + m) Irp (Z.of_nat (length done))
    (Some current)
  = Done (tt, CleanupCalls current todo).
Proof.
  induction todo as [|e todo IH]; intros done m Irp Hs Hfilled Hfits.
  - assert (Hnil : CleanupCalls current [] = [])
      by (unfold CleanupCalls; by destruct (DestroyIrp _)).
    rewrite Hnil. cbn [length Nat.add app] in *.
    destruct m as [|m]; [done|].
    cbn [CreateCleanupLoop]. unfold StackAt, deref.
    rewrite Hs, bind_ret_l.
    erewrite index_lookup
      by (rewrite lookup_app_r, Nat.sub_diag by lia; reflexivity).
    reflexivity.
  - apply Forall_cons in Hfilled as [He Hfilled].
    cbn [length Nat.add]. cbn [CreateCleanupLoop]. unfold StackAt, deref.
    rewrite Hs, bind_ret_l.
    erewrite index_lookup
      by (rewrite lookup_app_r, Nat.sub_diag by lia; reflexivity).
    change (Done (e, [])) with (ret (E := Event) e). rewrite bind_ret_l.
    destruct (DriverStackEntry e) as [own|] eqn:Hown; [|done].
    rewrite bind_ret_l.
    rewrite ULONG_small by (cbn [length] in Hfits; lia).
    replace (Z.of_nat (length done) + 1) with (Z.of_nat (length (done ++ [e])))
      by (rewrite length_app; cbn [length]; lia).
    rewrite (IH (done ++ [e]) m Irp);
      [ | by rewrite <- app_assoc | done
        | rewrite length_app; cbn [length] in *; lia ].
    unfold CleanupCalls.
    destruct (DestroyIrp (FunctionTable (Driver current))); reflexivity.
Qed.

Lemma SumStackSizes_nonneg d s : 0 <= SumStackSizes d s <= MAX_ULONG.
Proof.
  revert d s. fix IH 1. intros [a type st vf size head target] s.
  cbn [SumStackSizes].
  assert (Hw : 0 <= ULONG (s + size) <= MAX_ULONG).
  { unfold ULONG, MAX_ULONG. pose proof (wrap_range 32 (s + size)). lia. }
  destruct type; [|exact Hw]. destruct target as [next|]; [apply IH|exact Hw].
Qed.

(** What [IoCreateIrp] does when the first create hook to fail is that of
    the driver [failing], reached after the drivers [before]: the hooks up
    to the failing one are called, then the clean-up loop runs over the
    stack entries filled so far, the failing one included, always with the
    destroy hook and the driver context of the entry left in
    [CurrentStackEntry], which is the failing one; the stack is freed, the
    IRP released and NULL returned. *)
Lemma IoCreateIrp_first_failure (UINTN_BITS : Z) (d : DEVICE)
    (Major : IRP_MAJOR_CODE) (F : Z)
    (before after : list DRIVER_STACK_ENTRY) (failing : DRIVER_STACK_ENTRY) :
  let p := PublicAtCreate d Major in
  DriverStackSize d <> 0 ->
  DriverStackHead d <> [] ->
  0 < SIZEOF_IRP_STACK_ENTRY UINTN_BITS ->
  SIZEOF_IRP_STACK_ENTRY UINTN_BITS * SumStackSizes d 0 <= MAX_ULONG ->
  ChainEntries d = before ++ failing :: after ->
  Z.of_nat (length before) < SumStackSizes d 0 ->
  Forall (fun e => HookFails p F e = false) before ->
  HookFails p F failing = true ->
  IoCreateIrp UINTN_BITS true true (Some d) Major F
  = Done (None,
          [EvObCreateObject;
           EvAllocateStack
             (SIZEOF_IRP_STACK_ENTRY UINTN_BITS * SumStackSizes d 0)]
          ++ HookCalls 0 (before ++ [failing])
          ++ CleanupCalls failing (map (Filled p F) (before ++ [failing]))
          ++ [EvFreeStack; EvObReleaseReference]).
Proof.
  intros p Hsize Hhead Hsizeof Hfits Hchain Hroom Hok Hfail.
  pose proof (SumStackSizes_nonneg d 0) as Hn.
  set (nZ := SumStackSizes d 0) in *.
  set (n := Z.to_nat nZ).
  assert (HnZ : Z.of_nat n = nZ) by (unfold n; lia).
  unfold IoCreateIrp.
  destruct (Z.eqb_spec (DriverStackSize d) 0); [done|].
  rewrite bool_decide_eq_false_2 by done. cbn [orb negb]. cbv iota zeta.
  cbn [StackSize NewIrp]. fold nZ.
  rewrite (ULONG_small (SIZEOF_IRP_STACK_ENTRY UINTN_BITS * nZ)) by lia.
  rewrite Z.mul_comm, Z.div_mul by lia. fold n.
  rewrite (Z.mul_comm nZ).
  cbn [andb]. cbv iota.
  rewrite CreateDeviceLoop_chain, Hchain.
  set (L0 := {| cIrp := _ |}).
  assert (HW : Walked p F n [] L0).
  { repeat split.
    - unfold Partial. cbn [map length app]. by rewrite Nat.sub_0_r.
    - cbn. fold nZ. by rewrite HnZ. }
  destruct (CreateDriverLoop_first_failure p F n ltac:(lia) before failing
              after L0 HW)
    as (L' & s & Hrun & Hstack & Hsz & Hcur & Hst & Hs); [lia | done | done |].
  rewrite Hrun.
  assert (Hend :
    CreateIrpEnd (cStatus L') (Some (cIrp L')) (cCurrentStackEntry L')
    = Done (None,
            CleanupCalls failing (map (Filled p F) (before ++ [failing]))
            ++ [EvFreeStack; EvObReleaseReference])).
  { unfold CreateIrpEnd. rewrite Hst, Hcur, Hstack, Hsz. unfold initialized.
    rewrite bind_ret_l, Hs. cbn [negb]. rewrite Nat2Z.id.
    set (todo := map (Filled p F) (before ++ [failing])).
    assert (Hlen : (length todo <= n)%nat).
    { unfold todo. rewrite length_map, length_app. cbn [length]. lia. }
    replace n with (length todo + (n - length todo))%nat at 1 by lia.
    pose proof (CreateCleanupLoop_run failing todo [] (n - length todo)
                  (cIrp L')) as Hloop.
    cbn [length app] in Hloop. change (Z.of_nat 0) with 0 in Hloop.
    rewrite Hloop;
      [ | by rewrite Hstack
        | unfold todo; apply Forall_map, Forall_true; by intros
        | lia ].
    unfold emit, ret, bind. cbn [app]. by rewrite <- app_assoc. }
  unfold emit, bind at 1 2. cbn [fst snd].
  unfold bind. rewrite Hend. reflexivity.
Qed.

(** The destroy hook calls found in a trace: routine, driver context and
    IRP context of each. *)
Definition DestroyCall (e : Event) : option (nat * PVOID * option PVOID) :=
  match e with
  | EvDestroyIrp r c ic => Some (r, c, ic)
  | _ => None
  end.

Definition DestroyCalls (t : list Event) : list (nat * PVOID * option PVOID) :=
  omap DestroyCall t.

Definition DestroyedContexts (t : list Event) : list (option PVOID) :=
  map snd (DestroyCalls t).

Lemma DestroyCalls_HookCalls i l : DestroyCalls (HookCalls i l) = [].
Proof.
  revert i. induction l as [|e l IH]; intros i; cbn [HookCalls]; [done|].
  destruct (CreateIrp (FunctionTable (Driver e))); apply IH.
Qed.

Lemma DestroyCalls_CleanupCalls current todo :
  DestroyCalls (CleanupCalls current todo)
  = match DestroyIrp (FunctionTable (Driver current)) with
    | Some r => map (fun e => (r, DriverContext current, IrpContext e)) todo
    | None => []
    end.
Proof.
  unfold CleanupCalls.
  destruct (DestroyIrp (FunctionTable (Driver current))) as [r|]; [|done].
  unfold DestroyCalls. induction todo as [|e todo IH]; [done|].
  simpl in *. by f_equal.
Qed.


(** A driver with both hooks: its create hook stores the address of its
    context block, [100 * address + 1], and succeeds or not as [ok] says;
    its destroy hook is the routine at [address + 10]. *)
Definition HookedDriver (address : nat) (ok : bool) : DRIVER_STACK_ENTRY :=
  {| Driver :=
       {| DriverAddress := address;
          FunctionTable :=
            {| DispatchStateChange := None; DispatchOpen := None;
               DispatchClose := None; DispatchIo := None;
               DispatchSystemControl := None; DispatchUserControl := None;
               CreateIrp :=
                 Some (fun _ c _ =>
                         (if ok then STATUS_SUCCESS
                          else STATUS_INSUFFICIENT_RESOURCES,
                          Some (100 * c + 1)));
               DestroyIrp := Some (address + 10)%nat |} |};
     DriverContext := Z.of_nat address |}.

(** A device with three drivers, the third of which fails to create its
    IRP context. *)
Definition ThirdHookFails : DEVICE :=
  {| DeviceAddress := 7%nat; DeviceType := ObjectDevice;
     State := DeviceStarted; VolumeFlags := 0; DriverStackSize := 3;
     DriverStackHead :=
       [HookedDriver 1 true; HookedDriver 2 true; HookedDriver 3 false];
     TargetDevice := None |}.


(** The destroy calls C3 describes: one for each entry before the failing
    one whose driver has a destroy hook, with that driver's hook and
    context and the entry's IRP context, in reverse stack order. *)
Definition ClaimedDestroyCalls (p : IRP) (F : Z)
    (before : list DRIVER_STACK_ENTRY) : list (nat * PVOID * option PVOID) :=
  reverse
    (omap (fun e =>
             match DestroyIrp (FunctionTable (Driver e)) with
             | Some r => Some (r, DriverContext e, ContextAfter p F e)
             | None => None
             end) before).

(** *** What a send cycle keeps, whatever the drivers do *)

(** An IRP whose stack has as many entries as its stack size says, each
    with its driver stack entry, whose index lies inside the stack and
    whose major code selects a dispatch routine. *)
Definition WellFormed (stack : list IRP_STACK_ENTRY) (Irp : IRP_INTERNAL)
  : Prop :=
  Stack Irp = Some stack /\
  StackSize Irp = Z.of_nat (length stack) /\
  StackSize Irp <= MAX_ULONG /\
  0 <= StackIndex Irp < StackSize Irp /\
  Forall (fun e => DriverStackEntry e <> None) stack /\
  ShadowMajorCode Irp <> IrpMajorInvalid.

(** The parts of an IRP that are fixed when it is created. *)
Definition SameConstants (Irp Irp' : IRP_INTERNAL) : Prop :=
  Magic Irp' = Magic Irp /\
  ShadowDevice Irp' = ShadowDevice Irp /\
  ShadowMajorCode Irp' = ShadowMajorCode Irp /\
  Device (Public Irp') = Device (Public Irp) /\
  MajorCode (Public Irp') = MajorCode (Public Irp) /\
  MinorCode (Public Irp') = MinorCode (Public Irp) /\
  Stack Irp' = Stack Irp /\
  StackSize Irp' = StackSize Irp.

(** What is said of an event of a send: a dispatch is made to the driver
    that owns the stack entry it names, which lies inside the stack. *)
Definition OwnDispatch (stack : list IRP_STACK_ENTRY) (e : Event) : Prop :=
  match e with
  | EvDispatch d i _ =>
      0 <= i < Z.of_nat (length stack) /\ d = DriverAt stack (Z.to_nat i)
  | _ => True
  end.

Section Kept.

Variable stack : list IRP_STACK_ENTRY.
Variable Irp0 : IRP_INTERNAL.

(** What holds of the IRP throughout a send that started from [Irp0]. The
    last part is what the assertions of the engine say of the status. *)
Definition Kept (Irp : IRP_INTERNAL) : Prop :=
  WellFormed stack Irp /\
  SameConstants Irp0 Irp /\
  (flag_test (Flags Irp) IRP_COMPLETE = true \/
   Status (Public Irp) = STATUS_NOT_HANDLED).

(** Events other than the wait of the sender. *)
Definition Quiet (e : Event) : Prop := OwnDispatch stack e /\ e <> EvWait.

Definition KeptQuietly (Irp : IRP_INTERNAL) (t : list Event) : Prop :=
  Kept Irp /\ Forall Quiet t.

Lemma Kept_current Irp :
  Kept Irp ->
  exists entry owner,
    StackAt Irp (StackIndex Irp) = ret entry /\
    stack !! Z.to_nat (StackIndex Irp) = Some entry /\
    DriverStackEntry entry = Some owner.
Proof.
  intros ((Hs & Hn & _ & Hi & Hall & _) & _).
  destruct (lookup_lt_is_Some_2 stack (Z.to_nat (StackIndex Irp)))
    as [entry He]; [lia|].
  pose proof (proj1 (Forall_lookup _ _) Hall _ _ He) as Ho.
  destruct (DriverStackEntry entry) as [owner|] eqn:Hown; [|done].
  exists entry, owner. split; [|done].
  unfold StackAt, deref. rewrite Hs, bind_ret_l.
  rewrite <- (Z2Nat.id (StackIndex Irp)) at 1 by lia.
  by apply index_lookup.
Qed.

Lemma Kept_flags Irp f :
  Kept Irp ->
  flag_test f IRP_COMPLETE = flag_test (Flags Irp) IRP_COMPLETE ->
  Kept (set_Flags f Irp).
Proof.
  intros (HW & HC & HS) Hf. split; [done|]. split; [done|].
  cbn [Flags set_Flags Public]. by rewrite Hf.
Qed.

Lemma Kept_signal Irp b :
  Kept Irp -> Kept (set_Public (set_Signaled b (Public Irp)) Irp).
Proof. intros (HW & HC & HS). done. Qed.

Lemma Kept_advance Irp : Kept Irp -> Kept (IopAdvanceIrpStackLocation Irp).
Proof.
  intros (HW & HC & HS). pose proof HW as (Hs & Hn & Hmax & Hi & Hall & Hm).
  unfold IopAdvanceIrpStackLocation, MAX_ULONG in *.
  destruct (decide (Direction (Public Irp) = IrpDown)).
  - rewrite ULONG_small by (unfold MAX_ULONG; lia).
    destruct (Z.ltb_spec (StackIndex Irp + 1) (StackSize Irp)); [|done].
    split; [|done]. repeat split; try done; cbn; lia.
  - destruct (Z.eqb_spec (StackIndex Irp) 0).
    + apply Kept_flags; [done|]. by apply flag_test_or_other.
    + rewrite ULONG_small by (unfold MAX_ULONG; lia).
      split; [|done]. repeat split; try done; cbn; lia.
Qed.

Lemma Quiet_signal : Forall Quiet [EvSignal].
Proof. by repeat constructor. Qed.

Lemma IoCompleteIrp_kept d Irp s :
  Kept Irp -> Sound (IoCompleteIrp d Irp s) KeptQuietly.
Proof.
  intros HK. destruct (Kept_current Irp HK) as (entry & owner & Hat & _ & Ho).
  pose proof HK as (HW & HC & HS).
  unfold IoCompleteIrp. rewrite Hat, bind_ret_l, Ho. unfold deref.
  rewrite bind_ret_l.
  destruct (decide (DriverAddress (Driver owner) = d)); [|by split].
  cbv zeta.
  assert (HK' : Kept
    (set_Public
       (set_Status s
          (Public
             (set_Public
                (set_Direction IrpUp
                   (Public (set_Flags (flag_or (Flags Irp) IRP_COMPLETE) Irp)))
                (set_Flags (flag_or (Flags Irp) IRP_COMPLETE) Irp))))
       (set_Public
          (set_Direction IrpUp
             (Public (set_Flags (flag_or (Flags Irp) IRP_COMPLETE) Irp)))
          (set_Flags (flag_or (Flags Irp) IRP_COMPLETE) Irp)))).
  { split; [done|]. split; [done|]. left. cbn. by apply flag_test_or_same. }
  match goal with |- context [flag_test ?f IRP_PENDING] =>
    destruct (flag_test f IRP_PENDING) end.
  - split; [by apply Kept_signal | apply Quiet_signal].
  - by split.
Qed.

Lemma IoPendIrp_kept d Irp :
  Kept Irp -> Sound (IoPendIrp d Irp) KeptQuietly.
Proof.
  intros HK. destruct (Kept_current Irp HK) as (entry & owner & Hat & _ & Ho).
  unfold IoPendIrp. rewrite Hat, bind_ret_l, Ho. unfold deref.
  rewrite bind_ret_l.
  destruct (decide (DriverAddress (Driver owner) = d)); [|by split].
  split; [|constructor]. apply Kept_flags; [done|].
  by apply flag_test_or_other.
Qed.

Lemma IoContinueIrp_kept d Irp :
  Kept Irp -> Sound (IoContinueIrp d Irp) KeptQuietly.
Proof.
  intros HK. destruct (Kept_current Irp HK) as (entry & owner & Hat & _ & Ho).
  unfold IoContinueIrp. rewrite Hat, bind_ret_l, Ho. unfold deref.
  rewrite bind_ret_l.
  destruct (decide (DriverAddress (Driver owner) = d)); [|by split].
  split; [|apply Quiet_signal]. by apply Kept_signal, Kept_advance.
Qed.

Lemma RunAction_kept Irp a :
  Kept Irp -> Sound (RunAction Irp a) KeptQuietly.
Proof.
  intros HK. destruct a; cbn [RunAction].
  - by apply IoCompleteIrp_kept.
  - by apply IoPendIrp_kept.
  - by apply IoContinueIrp_kept.
  - destruct HK as (HW & HC & HS).
    split; [split; [exact HW | split; [exact HC | exact HS]] | constructor].
Qed.

Lemma RunActions_kept l : forall Irp,
  Kept Irp -> Sound (RunActions Irp l) KeptQuietly.
Proof.
  induction l as [|a l IH]; intros Irp HK; cbn [RunActions].
  - by split.
  - eapply Sound_bind; [by apply RunAction_kept|].
    intros Irp1 t1 [HK1 Ht1]. eapply Sound_weaken; [by apply IH|].
    intros Irp2 t2 [HK2 Ht2]. split; [done|]. by apply Forall_app.
Qed.

Lemma IopCallDriver_kept Irp :
  Kept Irp -> Sound (IopCallDriver Irp) KeptQuietly.
Proof.
  intros HK.
  destruct (Kept_current Irp HK) as (entry & owner & Hat & He & Ho).
  pose proof HK as ((_ & Hn & _ & Hi & _ & Hm) & _).
  unfold IopCallDriver. rewrite Hat, bind_ret_l, Ho. unfold deref.
  rewrite bind_ret_l. cbv zeta.
  assert (Hsel : exists r,
    SelectDispatch (ShadowMajorCode Irp) (FunctionTable (Driver owner))
    = ret r).
  { unfold SelectDispatch. destruct (ShadowMajorCode Irp); try done;
      by eexists. }
  destruct Hsel as [[routine|] ->]; rewrite bind_ret_l; [|by split].
  eapply Sound_bind with (Q1 := fun _ t => Forall Quiet t).
  - cbn. constructor; [|constructor]. split; [|done]. split; [lia|].
    unfold DriverAt. by rewrite He, Ho.
  - intros [] t1 Ht1. eapply Sound_weaken; [by apply RunActions_kept|].
    intros Irp2 t2 [HK2 Ht2]. split; [done|]. by apply Forall_app.
Qed.

Lemma PumpLoop_kept fuel : forall Irp,
  Kept Irp -> Sound (PumpLoop fuel Irp) KeptQuietly.
Proof.
  induction fuel as [|fuel IH]; intros Irp HK; cbn [PumpLoop];
    (destruct (flag_test (Flags Irp) IRP_DRIVER_STACK_COMPLETE);
     [by split|]); [done|].
  eapply Sound_bind; [by apply IopCallDriver_kept|].
  intros Irp1 t1 [HK1 Ht1].
  destruct (flag_test (Flags Irp1) IRP_PENDING).
  - split; [done|]. by rewrite app_nil_r.
  - eapply Sound_weaken; [by apply IH, Kept_advance|].
    intros Irp2 t2 [HK2 Ht2]. split; [done|]. by apply Forall_app.
Qed.

Lemma IopPumpIrpThroughStack_kept fuel Irp :
  Kept Irp -> Sound (IopPumpIrpThroughStack fuel Irp) KeptQuietly.
Proof.
  intros HK. unfold IopPumpIrpThroughStack.
  eapply Sound_bind; [by apply PumpLoop_kept|].
  intros Irp1 t1 [HK1 Ht1].
  destruct (flag_test (Flags Irp1) IRP_DRIVER_STACK_COMPLETE);
    [destruct (CompletionRoutine (Public Irp1))|].
  - split; [done|]. apply Forall_app. split; [done|]. by repeat constructor.
  - split; [done|]. by rewrite app_nil_r.
  - split; [done|]. by rewrite app_nil_r.
Qed.

Lemma ObWaitOnObject_kept env : forall Irp,
  Kept Irp ->
  Sound (ObWaitOnObject env Irp) (fun r t => Kept (r.1.2) /\ Forall Quiet t).
Proof.
  induction env as [|step env IH]; intros Irp HK; cbn [ObWaitOnObject];
    (destruct (Signaled (Header (Public Irp))); [by split|]); [done|].
  destruct step as [actions|s]; [|by split].
  eapply Sound_bind; [by apply RunActions_kept|].
  intros Irp1 t1 [HK1 Ht1]. eapply Sound_weaken; [by apply IH|].
  intros r t2 [HK2 Ht2]. split; [done|]. by apply Forall_app.
Qed.

(** How a send ends: the IRP is no longer active, and either the
    traversal is over, nothing is pending and the status returned is the
    one the last wait assigned, or a wait failed. The status is the one
    the loop started with exactly when the sender never waited. *)
Definition Returned (Status0 : option KSTATUS)
    (r : option KSTATUS * IRP_INTERNAL) (t : list Event) : Prop :=
  Kept (r.2) /\
  Forall (OwnDispatch stack) t /\
  flag_test (Flags r.2) IRP_ACTIVE = false /\
  (((EvWait ∉ t) /\ r.1 = Status0) \/
   ((EvWait ∈ t) /\ exists s, r.1 = Some s)) /\
  ((flag_test (Flags r.2) IRP_DRIVER_STACK_COMPLETE = true /\
    flag_test (Flags r.2) IRP_PENDING = false /\
    (forall s, r.1 = Some s -> EvWait ∈ t -> s = STATUS_SUCCESS)) \/
   (exists s, r.1 = Some s /\ KSUCCESS s = false)).

Lemma Quiet_OwnDispatch t : Forall Quiet t -> Forall (OwnDispatch stack) t.
Proof. intros H. eapply Forall_impl; [exact H|]. by intros e [He _]. Qed.

Lemma Quiet_no_wait t : Forall Quiet t -> EvWait ∉ t.
Proof.
  intros H Hin. rewrite Forall_forall in H. by destruct (H _ Hin).
Qed.

Lemma SendLoop_kept fuel : forall env Irp Status0,
  Kept Irp ->
  flag_test (Flags Irp) IRP_PENDING = false ->
  Sound (SendLoop fuel env Irp Status0) (Returned Status0).
Proof.
  induction fuel as [|fuel IH]; intros env Irp Status0 HK Hpend;
    cbn [SendLoop];
    destruct (flag_test (Flags Irp) IRP_DRIVER_STACK_COMPLETE) eqn:Hdsc.
  - split; [|split; [|split; [|split]]]; cbn [fst snd].
    + apply Kept_flags; [done|]. by apply flag_test_clear_other.
    + constructor.
    + apply flag_test_clear_same.
    + left. split; [set_solver|done].
    + left. cbn. rewrite !flag_test_clear_other by done. set_solver.
  - done.
  - split; [|split; [|split; [|split]]]; cbn [fst snd].
    + apply Kept_flags; [done|]. by apply flag_test_clear_other.
    + constructor.
    + apply flag_test_clear_same.
    + left. split; [set_solver|done].
    + left. cbn. rewrite !flag_test_clear_other by done. set_solver.
  - eapply Sound_bind; [by apply IopPumpIrpThroughStack_kept|].
    intros Irp1 t1 [HK1 Ht1].
    destruct (flag_test (Flags Irp1) IRP_PENDING) eqn:Hpend1.
    + eapply Sound_bind with (Q1 := fun _ t => t = [EvWait]); [done|].
      intros [] ? ->.
      eapply Sound_bind; [by apply ObWaitOnObject_kept|].
      intros [[WaitStatus Irp2] env'] t2 [HK2 Ht2]. cbn [fst snd] in HK2.
      destruct (KSUCCESS WaitStatus) eqn:Hok; cbn [negb].
      * eapply Sound_weaken.
        { apply (IH env' _ (Some WaitStatus)).
          - apply Kept_flags; [done|]. by apply flag_test_clear_other.
          - apply flag_test_clear_same. }
        intros [r Irp3] t3 (HK3 & Ht3 & Hact & Hst & Hend).
        cbn [fst snd] in *.
        split; [done|]. split; [|split; [done|split]].
        -- apply Forall_app. split; [by apply Quiet_OwnDispatch|].
           apply Forall_app. split; [by repeat constructor|].
           apply Forall_app. split; [by apply Quiet_OwnDispatch|done].
        -- right. split; [set_solver|].
           destruct Hst as [[_ ->]|[_ Hx]]; [by eexists|done].
        -- destruct Hend as [(H1 & H2 & H3)|Hfail]; [|by right].
           left. split; [done|]. split; [done|].
           intros s Hr _.
           destruct Hst as [[Hno Heq]|[Hin _]].
           ++ rewrite Heq in Hr. injection Hr as <-. by destruct WaitStatus.
           ++ by apply H3.
      * split; [|split; [|split; [|split]]]; cbn [fst snd].
        -- apply Kept_flags; [done|]. by apply flag_test_clear_other.
        -- apply Forall_app. split; [by apply Quiet_OwnDispatch|].
           apply Forall_app. split; [by repeat constructor|].
           apply Forall_app. split; [by apply Quiet_OwnDispatch|constructor].
        -- apply flag_test_clear_same.
        -- right. split; [set_solver|by eexists].
        -- right. by eexists.
    + eapply Sound_weaken; [by apply IH|].
      intros [r Irp3] t3 (HK3 & Ht3 & Hact & Hst & Hend). cbn [fst snd] in *.
      pose proof (Quiet_no_wait _ Ht1) as Hno1.
      split; [done|]. split; [|split; [done|split]].
      * apply Forall_app. split; [by apply Quiet_OwnDispatch|done].
      * destruct Hst as [[Hno Heq]|[Hin Hx]].
        -- left. split; [set_solver|done].
        -- right. split; [set_solver|done].
      * destruct Hend as [(H1 & H2 & H3)|Hfail]; [|by right].
        left. split; [done|]. split; [done|].
        intros s Hr Hin. apply H3; [done|]. set_solver.
Qed.

End Kept.


(** An IRP as its sender hands it to [IoSendSynchronousIrp]: ready to be
    sent, well formed, and with the status [IopInitializeIrp] gave it. *)
Definition Prepared (stack : list IRP_STACK_ENTRY) (Irp : IRP_INTERNAL)
  : Prop :=
  ReadyToSend Irp /\
  WellFormed stack Irp /\
  Status (Public Irp) = STATUS_NOT_HANDLED.

Lemma IoSendSynchronousIrp_kept (stack : list IRP_STACK_ENTRY)
    (fuel : nat) (env : list ENV_STEP) (Irp : IRP_INTERNAL) :
  Prepared stack Irp ->
  Sound (IoSendSynchronousIrp fuel env Irp)
    (fun r t => Returned stack Irp None r (tail t) /\ head t = Some EvUnsignal).
Proof.
  intros (Hready & HW & Hst).
  rewrite (IoSendSynchronousIrp_ready _ _ _ Hready).
  destruct Hready as (_ & _ & _ & _ & _ & _ & _ & _ & Hpend & _).
  unfold ObUnsignalObject. rewrite bind_assoc.
  eapply Sound_bind with (Q1 := fun _ t => t = [EvUnsignal]); [done|].
  intros [] ? ->. rewrite bind_ret_l.
  eapply Sound_weaken.
  - apply (SendLoop_kept stack Irp).
    + split; [done|]. split; [done|]. by right.
    + cbn. by rewrite flag_test_or_other.
  - intros r t H. done.
Qed.

Lemma SampleIrp_prepared :
  Prepared [QuietEntry 1; QuietEntry 2; QuietEntry 3] SampleIrp.
Proof.
  split; [exact SampleIrp_ready|]. split; [|done].
  repeat split; try done. repeat constructor; done.
Qed.

(** X1. Sent an IRP prepared as above, [IoSendSynchronousIrp] never
    dereferences a NULL pointer, never indexes outside the IRP stack and
    never crashes the system, whatever the dispatch routines of the
    drivers and the other contexts do with the IRP through
    [IoCompleteIrp], [IoPendIrp] and [IoContinueIrp]. *)
Theorem send_never_faults (stack : list IRP_STACK_ENTRY) (fuel : nat)
    (env : list ENV_STEP) (Irp : IRP_INTERNAL) :
  Prepared stack Irp ->
  (forall f, IoSendSynchronousIrp fuel env Irp <> Fault f) /\
  (forall c, IoSendSynchronousIrp fuel env Irp <> Crash c).
Proof.
  intros HP. pose proof (IoSendSynchronousIrp_kept stack fuel env Irp HP) as H.
  split; intros x Hx; by rewrite Hx in H.
Qed.

Lemma send_never_faults_witness :
  (forall f, IoSendSynchronousIrp 7 [] SampleIrp <> Fault f) /\
  (forall c, IoSendSynchronousIrp 7 [] SampleIrp <> Crash c).
Proof.
  apply (send_never_faults [QuietEntry 1; QuietEntry 2; QuietEntry 3] 7 []
           SampleIrp).
  exact SampleIrp_prepared.
Defined.

(** X2. What [IoSendSynchronousIrp] returns is the IRP it was given as far
    as the parts fixed at creation go: the magic word, the device and the
    major code and their private copies, the minor code, the stack and its
    size are unchanged, and the stack index is still inside the stack. *)
Theorem send_keeps_the_constants (stack : list IRP_STACK_ENTRY) (fuel : nat)
    (env : list ENV_STEP) (Irp Irp' : IRP_INTERNAL)
    (r : option KSTATUS) (t : list Event) :
  Prepared stack Irp ->
  IoSendSynchronousIrp fuel env Irp = Done (r, Irp', t) ->
  SameConstants Irp Irp' /\ WellFormed stack Irp'.
Proof.
  intros HP Hrun.
  pose proof (Sound_Done _ _ _ _
                (IoSendSynchronousIrp_kept stack fuel env Irp HP) Hrun)
    as (((HW & HC & _) & _) & _).
  done.
Qed.

Lemma send_keeps_the_constants_witness :
  exists r Irp' t,
    IoSendSynchronousIrp 7 [] SampleIrp = Done (r, Irp', t) /\
    SameConstants SampleIrp Irp' /\
    WellFormed [QuietEntry 1; QuietEntry 2; QuietEntry 3] Irp'.
Proof.
  eexists _, _, _. split; [vm_compute; reflexivity|].
  eapply (send_keeps_the_constants
            [QuietEntry 1; QuietEntry 2; QuietEntry 3] 7 [] SampleIrp).
  - exact SampleIrp_prepared.
  - vm_compute. reflexivity.
Defined.

(** X3. Every call of a dispatch routine made during a send names a stack
    index inside the IRP stack (the assertion of [IopCallDriver]) and goes
    to the driver of that stack entry. *)
Theorem send_dispatches_inside_the_stack (stack : list IRP_STACK_ENTRY)
    (fuel : nat) (env : list ENV_STEP) (Irp Irp' : IRP_INTERNAL)
    (r : option KSTATUS) (t : list Event) :
  Prepared stack Irp ->
  IoSendSynchronousIrp fuel env Irp = Done (r, Irp', t) ->
  forall d i dir,
    EvDispatch d i dir ∈ t ->
    0 <= i < StackSize Irp /\ d = DriverAt stack (Z.to_nat i).
Proof.
  intros HP Hrun d i dir Hin.
  pose proof (Sound_Done _ _ _ _
                (IoSendSynchronousIrp_kept stack fuel env Irp HP) Hrun)
    as ((_ & Hall & _) & Hhead).
  destruct HP as (_ & (_ & Hn & _) & _). rewrite Hn.
  destruct t as [|e t]; [set_solver|]. cbn in Hhead, Hall.
  injection Hhead as ->.
  apply elem_of_cons in Hin as [Hin|Hin]; [done|].
  rewrite Forall_forall in Hall. exact (Hall _ Hin).
Qed.

Lemma send_dispatches_inside_the_stack_witness :
  exists r Irp' t,
    IoSendSynchronousIrp 7 [] SampleIrp = Done (r, Irp', t) /\
    forall d i dir,
      EvDispatch d i dir ∈ t ->
      0 <= i < 3 /\
      d = DriverAt [QuietEntry 1; QuietEntry 2; QuietEntry 3] (Z.to_nat i).
Proof.
  eexists _, _, _. split; [vm_compute; reflexivity|].
  eapply (send_dispatches_inside_the_stack
            [QuietEntry 1; QuietEntry 2; QuietEntry 3] 7 [] SampleIrp).
  - exact SampleIrp_prepared.
  - vm_compute. reflexivity.
Defined.

(** X4. When [IoSendSynchronousIrp] returns, the IRP is no longer active.
    Either a wait failed and its status is returned, or the traversal is
    over: the driver stack is complete, the IRP is not pending, and it was
    completed by a driver or still has the status [STATUS_NOT_HANDLED]
    (the assertions at the end of the function hold). *)
Theorem send_returns_after_the_traversal (stack : list IRP_STACK_ENTRY)
    (fuel : nat) (env : list ENV_STEP) (Irp Irp' : IRP_INTERNAL)
    (r : option KSTATUS) (t : list Event) :
  Prepared stack Irp ->
  IoSendSynchronousIrp fuel env Irp = Done (r, Irp', t) ->
  flag_test (Flags Irp') IRP_ACTIVE = false /\
  ((flag_test (Flags Irp') IRP_DRIVER_STACK_COMPLETE = true /\
    flag_test (Flags Irp') IRP_PENDING = false /\
    (flag_test (Flags Irp') IRP_COMPLETE = true \/
     Status (Public Irp') = STATUS_NOT_HANDLED)) \/
   (exists s, r = Some s /\ KSUCCESS s = false)).
Proof.
  intros HP Hrun.
  pose proof (Sound_Done _ _ _ _
                (IoSendSynchronousIrp_kept stack fuel env Irp HP) Hrun)
    as (((_ & _ & Hst) & _ & Hact & _ & Hend) & _).
  cbn [fst snd] in *. split; [done|].
  destruct Hend as [(H1 & H2 & _)|Hfail]; [left|by right]. done.
Qed.

Lemma SamplePendingIrp_prepared :
  Prepared [{| DriverStackEntry := Some (PendingDriver 1);
               IrpContext := None |}; QuietEntry 2] SamplePendingIrp.
Proof.
  split; [by repeat split|]. split; [|done].
  repeat split; try done. repeat constructor; done.
Qed.

Lemma send_returns_after_the_traversal_witness :
  exists r Irp' t,
    IoSendSynchronousIrp 7 [] SamplePendingIrp = Done (r, Irp', t) /\
    flag_test (Flags Irp') IRP_ACTIVE = false /\
    ((flag_test (Flags Irp') IRP_DRIVER_STACK_COMPLETE = true /\
      flag_test (Flags Irp') IRP_PENDING = false /\
      (flag_test (Flags Irp') IRP_COMPLETE = true \/
       Status (Public Irp') = STATUS_NOT_HANDLED)) \/
     (exists s, r = Some s /\ KSUCCESS s = false)).
Proof.
  eexists _, _, _. split; [vm_compute; reflexivity|].
  eapply (send_returns_after_the_traversal
            [{| DriverStackEntry := Some (PendingDriver 1);
                IrpContext := None |}; QuietEntry 2] 7 [] SamplePendingIrp).
  - exact SamplePendingIrp_prepared.
  - vm_compute. reflexivity.
Defined.

(** X5. The status [IoSendSynchronousIrp] returns is assigned by the
    wait and by nothing else: the function returns its local [Status]
    unassigned exactly when the sender never waited for the IRP. *)
Theorem send_status_comes_from_the_wait (stack : list IRP_STACK_ENTRY)
    (fuel : nat) (env : list ENV_STEP) (Irp Irp' : IRP_INTERNAL)
    (r : option KSTATUS) (t : list Event) :
  Prepared stack Irp ->
  IoSendSynchronousIrp fuel env Irp = Done (r, Irp', t) ->
  r = None <-> EvWait ∉ t.
Proof.
  intros HP Hrun.
  pose proof (Sound_Done _ _ _ _
                (IoSendSynchronousIrp_kept stack fuel env Irp HP) Hrun)
    as ((_ & _ & _ & Hst & _) & Hhead).
  cbn [fst snd] in *.
  destruct t as [|e t]; [done|]. cbn in Hhead, Hst.
  injection Hhead as ->.
  destruct Hst as [[Hno ->]|[Hin [s ->]]]; set_solver.
Qed.

Lemma send_status_comes_from_the_wait_witness :
  exists r Irp' t,
    IoSendSynchronousIrp 7 [] SamplePendingIrp = Done (r, Irp', t) /\
    (r = None <-> EvWait ∉ t).
Proof.
  eexists _, _, _. split; [vm_compute; reflexivity|].
  eapply (send_status_comes_from_the_wait
            [{| DriverStackEntry := Some (PendingDriver 1);
                IrpContext := None |}; QuietEntry 2] 7 [] SamplePendingIrp).
  - exact SamplePendingIrp_prepared.
  - vm_compute. reflexivity.
Defined.

(** *** IRPs that are refused, and IRPs that are sent again *)

(** X6. An IRP that carries no minor code, is not directed down or still
    has a completion routine is refused: [IoSendSynchronousIrp] returns
    [STATUS_INVALID_PARAMETER] at once, having changed nothing in the IRP
    (its signal state and its active flag included) and having called no
    driver. *)
Theorem send_refuses_an_unprepared_irp (fuel : nat) (env : list ENV_STEP)
    (Irp : IRP_INTERNAL) :
  Magic Irp = IRP_MAGIC_VALUE ->
  ShadowDevice Irp = Device (Public Irp) ->
  ShadowMajorCode Irp = MajorCode (Public Irp) ->
  MinorCode (Public Irp) = IrpMinorInvalid \/
  Direction (Public Irp) <> IrpDown \/
  CompletionRoutine (Public Irp) <> None ->
  IoSendSynchronousIrp fuel env Irp
  = Done (Some STATUS_INVALID_PARAMETER, Irp, []).
Proof.
  intros Hmagic Hdev Hmaj Hbad. unfold IoSendSynchronousIrp.
  rewrite Hmagic, Z.eqb_refl. cbn [negb].
  rewrite !bool_decide_eq_true_2 by done. cbn [negb orb].
  destruct Hbad as [Hminor|[Hdir|Hroutine]].
  - by rewrite Hminor.
  - rewrite (bool_decide_eq_false_2 _ Hdir). cbn [negb].
    by rewrite orb_true_r.
  - rewrite (bool_decide_eq_false_2 _ Hroutine). cbn [negb].
    by rewrite orb_true_r.
Qed.

Lemma send_refuses_an_unprepared_irp_witness :
  IoSendSynchronousIrp 7 []
    (set_Public (set_Direction IrpUp (Public SampleIrp)) SampleIrp)
  = Done (Some STATUS_INVALID_PARAMETER,
          set_Public (set_Direction IrpUp (Public SampleIrp)) SampleIrp, []).
Proof.
  apply (send_refuses_an_unprepared_irp 7 []
           (set_Public (set_Direction IrpUp (Public SampleIrp)) SampleIrp));
    [reflexivity | reflexivity | reflexivity |].
  right. left. discriminate.
Defined.

(** X7. An IRP whose magic word is wrong, or whose device or major code
    no longer equals the private copy taken at creation, crashes the
    system when it is sent and when it is destroyed, before any driver is
    called: as improperly allocated if the magic word is wrong, otherwise
    as an IRP whose constant state was modified. *)
Theorem tampered_irp_crashes_the_system (fuel : nat)
    (env : list ENV_STEP) (Irp : IRP_INTERNAL) :
  Magic Irp <> IRP_MAGIC_VALUE \/
  ShadowDevice Irp <> Device (Public Irp) \/
  ShadowMajorCode Irp <> MajorCode (Public Irp) ->
  let reason :=
    if Magic Irp =? IRP_MAGIC_VALUE then IrpCrashConstantStateModified
    else IrpCrashImproperlyAllocated in
  IoSendSynchronousIrp fuel env Irp = Crash reason /\
  IoDestroyIrp Irp = Crash reason.
Proof.
  intros Hbad reason. unfold reason, IoSendSynchronousIrp, IoDestroyIrp.
  destruct (Z.eqb_spec (Magic Irp) IRP_MAGIC_VALUE) as [Hmagic|Hmagic];
    cbn [negb]; [|done].
  destruct Hbad as [?|[Hdev|Hmaj]]; [done| |].
  - by rewrite (bool_decide_eq_false_2 _ Hdev).
  - rewrite (bool_decide_eq_false_2 _ Hmaj). cbn [negb].
    by rewrite orb_true_r.
Qed.

(** The sample IRP with another device written into its public part. *)
Definition TamperedIrp : IRP_INTERNAL :=
  set_Public
    {| Header := Header (Public SampleIrp); Device := Some 8%nat;
       MajorCode := MajorCode (Public SampleIrp);
       MinorCode := MinorCode (Public SampleIrp);
       Direction := Direction (Public SampleIrp);
       Status := Status (Public SampleIrp); U := U (Public SampleIrp);
       CompletionRoutine := CompletionRoutine (Public SampleIrp);
       CompletionContext := CompletionContext (Public SampleIrp) |}
    SampleIrp.

Lemma tampered_irp_crashes_the_system_witness :
  IoSendSynchronousIrp 7 [] TamperedIrp = Crash IrpCrashConstantStateModified /\
  IoDestroyIrp TamperedIrp = Crash IrpCrashConstantStateModified.
Proof.
  apply (tampered_irp_crashes_the_system 7 [] TamperedIrp).
  right. left. discriminate.
Defined.

(** Clearing a set of flags clears each of them. *)
Lemma flag_test_clear_part f m m' :
  Z.land m m' = m' -> flag_test (flag_clear f m) m' = false.
Proof.
  intros H. unfold flag_test, flag_clear.
  replace (Z.land (Z.land f (Z.lnot m)) m') with 0; [done|].
  symmetry. apply Z.bits_inj'. intros n Hn.
  pose proof (f_equal (fun z => Z.testbit z n) H) as Hb. simpl in Hb.
  rewrite Z.land_spec in Hb.
  rewrite !Z.land_spec, Z.lnot_spec, Z.bits_0 by done.
  destruct (Z.testbit f n), (Z.testbit m n), (Z.testbit m' n);
    simpl in *; congruence.
Qed.

(** X8. An IRP that came back from [IoSendSynchronousIrp] can be sent
    again once [IopInitializeIrp] has reset it: it is prepared as a new
    one is (directed down at stack index 0, status [STATUS_NOT_HANDLED],
    neither complete nor pending nor through its stack, no completion
    routine), with the stack, the device and the codes it had. *)
Theorem irp_can_be_sent_again (stack : list IRP_STACK_ENTRY) (fuel : nat)
    (env : list ENV_STEP) (Irp Irp' : IRP_INTERNAL)
    (r : option KSTATUS) (t : list Event) :
  Prepared stack Irp ->
  IoSendSynchronousIrp fuel env Irp = Done (r, Irp', t) ->
  Prepared stack (IopInitializeIrp Irp') /\
  SameConstants Irp (IopInitializeIrp Irp') /\
  flag_test (Flags (IopInitializeIrp Irp')) IRP_ACTIVE = false.
Proof.
  intros HP Hrun.
  pose proof (Sound_Done _ _ _ _
                (IoSendSynchronousIrp_kept stack fuel env Irp HP) Hrun)
    as (((HW & HC & _) & _ & Hact & _) & _).
  cbn [fst snd] in *.
  destruct HP as ((Hmagic & Hdev & Hmaj & Hmin & _) & _ & _).
  destruct HC as (C1 & C2 & C3 & C4 & C5 & C6 & C7 & C8).
  destruct HW as (W1 & W2 & W3 & W4 & W5 & W6).
  split; [|split].
  - split; [|split].
    + unfold ReadyToSend, IopInitializeIrp. cbn.
      rewrite C1, C2, C3, C4, C5, C6.
      repeat split; try done; by apply flag_test_clear_part.
    + unfold WellFormed, IopInitializeIrp. cbn.
      repeat split; try done; lia.
    + reflexivity.
  - unfold SameConstants, IopInitializeIrp. cbn. done.
  - unfold IopInitializeIrp. cbn. by rewrite flag_test_clear_other.
Qed.

Lemma irp_can_be_sent_again_witness :
  exists r Irp' t,
    IoSendSynchronousIrp 7 [] SamplePendingIrp = Done (r, Irp', t) /\
    Prepared [{| DriverStackEntry := Some (PendingDriver 1);
                 IrpContext := None |}; QuietEntry 2]
      (IopInitializeIrp Irp') /\
    SameConstants SamplePendingIrp (IopInitializeIrp Irp') /\
    flag_test (Flags (IopInitializeIrp Irp')) IRP_ACTIVE = false.
Proof.
  eexists _, _, _. split; [vm_compute; reflexivity|].
  eapply (irp_can_be_sent_again
            [{| DriverStackEntry := Some (PendingDriver 1);
                IrpContext := None |}; QuietEntry 2] 7 [] SamplePendingIrp).
  - exact SamplePendingIrp_prepared.
  - vm_compute. reflexivity.
Defined.

(** *** Completion and pending in the middle of the stack *)

(** A stack entry whose driver has a dispatch routine for the major code
    that performs only passive actions on an IRP going in direction
    [dir]. *)
Definition PassiveWhen (Major : IRP_MAJOR_CODE) (dir : IRP_DIRECTION)
    (entry : IRP_STACK_ENTRY) : Prop :=
  exists owner routine,
    DriverStackEntry entry = Some owner /\
    SelectDispatch Major (FunctionTable (Driver owner))
      = Done (Some routine, []) /\
    forall p c ic, Direction p = dir -> Forall Passive (routine p c ic).

Lemma PassiveEntry_when Major dir entry :
  PassiveEntry Major entry -> PassiveWhen Major dir entry.
Proof.
  intros (owner & routine & Ho & Hsel & Hp).
  exists owner, routine. split; [done|]. split; [done|].
  intros p c ic _. apply Hp.
Qed.

(** The calls of dispatch routines for the stack entries [l], in that
    order, with the IRP going in direction [dir]. *)
Definition Calls (stack : list IRP_STACK_ENTRY) (dir : IRP_DIRECTION)
    (l : list nat) : list Event :=
  map (fun k => EvDispatch (DriverAt stack k) (Z.of_nat k) dir) l.

(** The IRP with other read/write parameters. *)
Definition WithU (u : IRP_PARAMETERS) (Irp : IRP_INTERNAL) : IRP_INTERNAL :=
  set_Public (set_U u (Public Irp)) Irp.

Section Turning.

Variable stack : list IRP_STACK_ENTRY.
Variable Major : IRP_MAJOR_CODE.
Hypothesis stack_fits : Z.of_nat (length stack) <= MAX_ULONG.

Lemma IopCallDriver_passive_when Irp (i : nat) entry :
  Travelling stack Major Irp -> StackIndex Irp = Z.of_nat i ->
  stack !! i = Some entry ->
  PassiveWhen Major (Direction (Public Irp)) entry ->
  exists u,
    IopCallDriver Irp
    = Done (WithU u Irp, Calls stack (Direction (Public Irp)) [i]).
Proof.
  intros (Hs & Hm & _) Hi He (owner & routine & Ho & Hsel & Hp).
  destruct (RunActions_passive Irp _
              (Hp (Public Irp) (DriverContext owner) (IrpContext entry)
                 eq_refl))
    as [u Hu].
  exists u. unfold IopCallDriver, StackAt, deref.
  rewrite Hs, bind_ret_l, Hi, (index_lookup _ _ _ He).
  change (Done (entry, [])) with (ret (E := Event) entry).
  rewrite bind_ret_l, Ho, bind_ret_l, Hm, Hsel.
  change (Done (Some routine, [])) with (ret (E := Event) (Some routine)).
  rewrite bind_ret_l. unfold emit. simpl bind. rewrite Hu.
  unfold Calls, DriverAt. cbn [map]. by rewrite He, Ho.
Qed.

(** The way up from entry [i] through drivers that are passive on the way
    up: each is called once, and the traversal ends at entry 0. *)
Lemma PumpLoop_upward_from (i : nat) : forall fuel Irp,
  (forall j entry, (j <= i)%nat -> stack !! j = Some entry ->
                   PassiveWhen Major IrpUp entry) ->
  Travelling stack Major Irp -> Direction (Public Irp) = IrpUp ->
  StackIndex Irp = Z.of_nat i -> (i < length stack)%nat ->
  (i + 1 <= fuel)%nat ->
  exists u,
    PumpLoop fuel Irp
    = Done (set_Flags (flag_or (Flags Irp) IRP_DRIVER_STACK_COMPLETE)
              (set_StackIndex 0 (WithU u Irp)),
            Calls stack IrpUp (rev (seq 0 (S i)))).
Proof.
  induction i as [|i IH]; intros fuel Irp Hpassive HT Hdir Hi Hlt Hfuel;
    (destruct fuel as [|fuel]; [lia|]);
    pose proof HT as (Hs & Hm & Hsz & Hdsc & Hpend);
    (destruct (lookup_lt_is_Some_2 stack _ Hlt) as [entry He]);
    (destruct (IopCallDriver_passive_when Irp _ entry HT Hi He) as [u Hcall];
     [rewrite Hdir; eapply Hpassive; [|done]; lia|]);
    rewrite Hdir in Hcall.
  - exists u. rewrite (PumpLoop_step _ _ Hdsc), Hcall, bind_Done_l.
    change (Flags (WithU u Irp)) with (Flags Irp). rewrite Hpend.
    unfold IopAdvanceIrpStackLocation.
    change (Direction (Public (WithU u Irp))) with (Direction (Public Irp)).
    rewrite Hdir. destruct (decide (IrpUp = IrpDown)); [done|].
    change (StackIndex (WithU u Irp)) with (StackIndex Irp). rewrite Hi.
    cbn [Z.of_nat Z.eqb].
    rewrite PumpLoop_done by (by apply flag_test_or_same).
    unfold bind. rewrite app_nil_r. f_equal. f_equal.
    destruct Irp as [p m sd sm st si ss f]. cbn in *. by subst si.
  - assert (Hadv : IopAdvanceIrpStackLocation (WithU u Irp)
                   = set_StackIndex (Z.of_nat i) (WithU u Irp)).
    { unfold IopAdvanceIrpStackLocation.
      change (Direction (Public (WithU u Irp))) with (Direction (Public Irp)).
      rewrite Hdir. destruct (decide (IrpUp = IrpDown)); [done|].
      change (StackIndex (WithU u Irp)) with (StackIndex Irp). rewrite Hi.
      destruct (Z.eqb_spec (Z.of_nat (S i)) 0); [lia|].
      f_equal. rewrite ULONG_small; unfold MAX_ULONG in *; lia. }
    destruct (IH fuel (set_StackIndex (Z.of_nat i) (WithU u Irp)))
      as [u' Hrun]; [intros; eapply Hpassive; [|done]; lia | done | done
                    | done | lia | lia |].
    exists u'. rewrite (PumpLoop_step _ _ Hdsc), Hcall, bind_Done_l.
    change (Flags (WithU u Irp)) with (Flags Irp).
    rewrite Hpend, Hadv, Hrun. unfold bind. f_equal. f_equal.
    rewrite (seq_S (S i) 0), rev_app_distr. reflexivity.
Qed.

(** The way down from entry [i] through [n] drivers that are passive on
    the way down: each is called once, and the loop goes on at entry
    [i + n]. *)
Lemma PumpLoop_downward_to (n : nat) : forall (i : nat) Irp,
  (forall j entry, (i <= j < i + n)%nat -> stack !! j = Some entry ->
                   PassiveWhen Major IrpDown entry) ->
  Travelling stack Major Irp -> Direction (Public Irp) = IrpDown ->
  StackIndex Irp = Z.of_nat i -> (i + n < length stack)%nat ->
  exists u,
    forall fuel,
      PumpLoop (n + fuel) Irp
      = (run! Done (tt, Calls stack IrpDown (seq i n)) in
         PumpLoop fuel (set_StackIndex (Z.of_nat (i + n)) (WithU u Irp))).
Proof.
  induction n as [|n IH]; intros i Irp Hpassive HT Hdir Hi Hlt.
  - exists (U (Public Irp)). intros fuel. cbn [Nat.add seq Calls map].
    change (Done (tt, [])) with (ret (E := Event) tt). rewrite bind_ret_l.
    rewrite Nat.add_0_r, <- Hi. by destruct Irp as [[]].
  - pose proof HT as (Hs & Hm & Hsz & Hdsc & Hpend).
    destruct (lookup_lt_is_Some_2 stack i) as [entry He]; [lia|].
    destruct (IopCallDriver_passive_when Irp _ entry HT Hi He) as [u Hcall];
      [rewrite Hdir; eapply Hpassive; [|done]; lia|].
    rewrite Hdir in Hcall.
    assert (Hadv : IopAdvanceIrpStackLocation (WithU u Irp)
                   = set_StackIndex (Z.of_nat (S i)) (WithU u Irp)).
    { unfold IopAdvanceIrpStackLocation.
      change (Direction (Public (WithU u Irp))) with (Direction (Public Irp)).
      rewrite Hdir. destruct (decide (IrpDown = IrpDown)); [|done].
      change (StackIndex (WithU u Irp)) with (StackIndex Irp).
      change (StackSize (WithU u Irp)) with (StackSize Irp).
      rewrite Hi, Hsz. rewrite ULONG_small by (unfold MAX_ULONG in *; lia).
      destruct (Z.ltb_spec (Z.of_nat i + 1) (Z.of_nat (length stack)));
        [|lia].
      f_equal. lia. }
    destruct (IH (S i) (set_StackIndex (Z.of_nat (S i)) (WithU u Irp)))
      as [u' Hrun]; [intros; eapply Hpassive; [|done]; lia | done | done
                    | done | lia |].
    exists u'. intros fuel. cbn [Nat.add].
    rewrite (PumpLoop_step _ _ Hdsc).
    rewrite Hcall, bind_Done_l.
    change (Flags (WithU u Irp)) with (Flags Irp).
    rewrite Hpend, Hadv, Hrun.
    replace (S i + n)%nat with (i + S n)%nat by lia.
    change (WithU u' (set_StackIndex (Z.of_nat (S i)) (WithU u Irp)))
      with (WithU u' (set_StackIndex (Z.of_nat (S i)) Irp)).
    rewrite run_events_twice. reflexivity.
Qed.

End Turning.

(** A stack entry whose driver completes, with the status [s], every IRP of
    the major code that reaches it on the way down. *)
Definition Completing (Major : IRP_MAJOR_CODE) (s : KSTATUS)
    (entry : IRP_STACK_ENTRY) : Prop :=
  exists owner routine,
    DriverStackEntry entry = Some owner /\
    SelectDispatch Major (FunctionTable (Driver owner))
      = Done (Some routine, []) /\
    forall p c ic,
      Direction p = IrpDown ->
      routine p c ic = [ActCompleteIrp (DriverAddress (Driver owner)) s].

(** A stack entry whose driver pends every IRP of the major code that
    reaches it on the way down, and is passive on the way up. *)
Definition Pends (Major : IRP_MAJOR_CODE) (entry : IRP_STACK_ENTRY) : Prop :=
  exists owner routine,
    DriverStackEntry entry = Some owner /\
    SelectDispatch Major (FunctionTable (Driver owner))
      = Done (Some routine, []) /\
    (forall p c ic,
       Direction p = IrpDown ->
       routine p c ic = [ActPendIrp (DriverAddress (Driver owner))]) /\
    (forall p c ic, Direction p = IrpUp -> Forall Passive (routine p c ic)).

(** The IRP as [IoCompleteIrp] leaves it, but for the signal. *)
Definition Completed (s : KSTATUS) (Irp : IRP_INTERNAL) : IRP_INTERNAL :=
  set_Public (set_Status s (set_Direction IrpUp (Public Irp)))
    (set_Flags (flag_or (Flags Irp) IRP_COMPLETE) Irp).

Lemma StackAt_lookup Irp stack (i : nat) entry :
  Stack Irp = Some stack -> StackIndex Irp = Z.of_nat i ->
  stack !! i = Some entry ->
  StackAt Irp (StackIndex Irp) = ret entry.
Proof.
  intros Hs Hi He. unfold StackAt, deref.
  by rewrite Hs, bind_ret_l, Hi, (index_lookup _ _ _ He).
Qed.

Lemma IopCallDriver_completing stack Major Irp (i : nat) entry s :
  Travelling stack Major Irp -> StackIndex Irp = Z.of_nat i ->
  stack !! i = Some entry -> Completing Major s entry ->
  Direction (Public Irp) = IrpDown ->
  IopCallDriver Irp = Done (Completed s Irp, Calls stack IrpDown [i]).
Proof.
  intros (Hs & Hm & _ & _ & Hpend) Hi He (owner & routine & Ho & Hsel & Hr)
    Hdir.
  pose proof (StackAt_lookup _ _ _ _ Hs Hi He) as Hat.
  unfold IopCallDriver. rewrite Hat, bind_ret_l, Ho. unfold deref.
  rewrite bind_ret_l. cbv zeta. rewrite Hm, Hsel.
  change (Done (Some routine, [])) with (ret (E := Event) (Some routine)).
  rewrite bind_ret_l, (Hr _ _ _ Hdir). cbn [RunActions RunAction].
  unfold IoCompleteIrp. rewrite Hat, bind_ret_l, Ho. unfold deref.
  rewrite bind_ret_l, decide_True by done. cbv zeta.
  cbn [Flags set_Flags set_Public].
  rewrite flag_test_or_other, Hpend by done.
  rewrite bind_ret_l. unfold emit, bind, ret. cbn [app].
  unfold Calls, DriverAt. cbn [map]. rewrite He, Ho, Hi, Hdir. reflexivity.
Qed.

Lemma IopCallDriver_pends stack Major Irp (i : nat) entry :
  Travelling stack Major Irp -> StackIndex Irp = Z.of_nat i ->
  stack !! i = Some entry -> Pends Major entry ->
  Direction (Public Irp) = IrpDown ->
  IopCallDriver Irp
  = Done (set_Flags (flag_or (Flags Irp) IRP_PENDING) Irp,
          Calls stack IrpDown [i]).
Proof.
  intros (Hs & Hm & _) Hi He (owner & routine & Ho & Hsel & Hr & _) Hdir.
  pose proof (StackAt_lookup _ _ _ _ Hs Hi He) as Hat.
  unfold IopCallDriver. rewrite Hat, bind_ret_l, Ho. unfold deref.
  rewrite bind_ret_l. cbv zeta. rewrite Hm, Hsel.
  change (Done (Some routine, [])) with (ret (E := Event) (Some routine)).
  rewrite bind_ret_l, (Hr _ _ _ Hdir). cbn [RunActions RunAction].
  unfold IoPendIrp. rewrite Hat, bind_ret_l, Ho. unfold deref.
  rewrite bind_ret_l, decide_True by done.
  rewrite bind_ret_l. unfold emit, bind, ret. cbn [app].
  unfold Calls, DriverAt. cbn [map]. rewrite He, Ho, Hi, Hdir. reflexivity.
Qed.

Lemma ObWaitOnObject_signaled env Irp :
  Signaled (Header (Public Irp)) = true ->
  ObWaitOnObject env Irp = ret (STATUS_SUCCESS, Irp, env).
Proof. intros H. destruct env; cbn [ObWaitOnObject]; by rewrite H. Qed.

(** X9. A driver in the middle of the stack that completes the IRP on the
    way down turns it around: the drivers above it are called going down,
    then the completing driver, then the drivers above it again going up
    in reverse order; the completing driver is not called a second time
    and the drivers below it are not called at all. The IRP ends with the
    status the driver gave it. *)
Theorem completion_turns_the_irp_around (fuel : nat) (env : list ENV_STEP)
    (Irp : IRP_INTERNAL) (stack : list IRP_STACK_ENTRY) (k : nat)
    (entry : IRP_STACK_ENTRY) (s : KSTATUS) :
  Stack Irp = Some stack ->
  StackSize Irp = Z.of_nat (length stack) ->
  StackSize Irp <= MAX_ULONG ->
  ReadyToSend Irp ->
  stack !! k = Some entry ->
  Completing (ShadowMajorCode Irp) s entry ->
  (forall j e, (j < k)%nat -> stack !! j = Some e ->
               PassiveEntry (ShadowMajorCode Irp) e) ->
  (2 * k + 2 <= fuel)%nat ->
  exists r Irp',
    IoSendSynchronousIrp fuel env Irp
    = Done (r, Irp',
            [EvUnsignal] ++ Calls stack IrpDown (seq 0 (S k))
            ++ Calls stack IrpUp (rev (seq 0 k))) /\
    Status (Public Irp') = s /\
    flag_test (Flags Irp') IRP_COMPLETE = true /\
    flag_test (Flags Irp') IRP_DRIVER_STACK_COMPLETE = true.
Proof.
  intros Hs Hsz Hfits Hready He Hcomp Hpassive Hfuel.
  pose proof Hready as (_ & _ & _ & _ & Hdir & Hcr & Hidx & _ & Hpend & Hdsc).
  pose proof (lookup_lt_Some _ _ _ He) as Hk.
  rewrite Hsz in Hfits.
  rewrite (IoSendSynchronousIrp_ready _ _ _ Hready).
  set (Major := ShadowMajorCode Irp) in *.
  set (IrpU := set_Public (set_Signaled false (Public Irp)) Irp).
  set (IrpA := set_Flags (flag_or (Flags IrpU) IRP_ACTIVE) IrpU).
  assert (HT : Travelling stack Major IrpA).
  { repeat split; simpl; try done; by rewrite flag_test_or_other. }
  destruct (PumpLoop_downward_to stack Major Hfits k 0 IrpA) as [u Hdown];
    [ intros j e Hj Hl; apply PassiveEntry_when, (Hpassive j e); [lia|done]
    | done | done | done | lia | ].
  cbn [Nat.add] in Hdown.
  set (Irpk := set_StackIndex (Z.of_nat k) (WithU u IrpA)) in *.
  assert (HTk : Travelling stack Major Irpk) by done.
  set (Irpc := Completed s Irpk).
  assert (HTc : Travelling stack Major Irpc).
  { destruct HT as (? & ? & ? & ? & ?).
    repeat split; simpl; try done; by rewrite flag_test_or_other. }
  (* the way up from the completing driver *)
  assert (Hup : exists Irp1,
    PumpLoop (fuel - 1 - k - 1) (IopAdvanceIrpStackLocation Irpc)
    = Done (Irp1, Calls stack IrpUp (rev (seq 0 k))) /\
    Status (Public Irp1) = s /\
    CompletionRoutine (Public Irp1) = None /\
    Flags Irp1 = flag_or (Flags Irpc) IRP_DRIVER_STACK_COMPLETE).
  { destruct k as [|k'].
    - eexists. split.
      + unfold IopAdvanceIrpStackLocation. cbn [Irpc Completed Public
          set_Public Direction set_Status set_Direction StackIndex set_Flags
          Irpk set_StackIndex Z.of_nat].
        destruct (decide (IrpUp = IrpDown)); [done|]. cbn [Z.eqb].
        apply PumpLoop_done. by apply flag_test_or_same.
      + split; [done|]. split; [exact Hcr|done].
    - assert (Hadv : IopAdvanceIrpStackLocation Irpc
                     = set_StackIndex (Z.of_nat k') Irpc).
      { unfold IopAdvanceIrpStackLocation. cbn [Irpc Completed Public
          set_Public Direction set_Status set_Direction StackIndex set_Flags
          Irpk set_StackIndex].
        destruct (decide (IrpUp = IrpDown)); [done|].
        destruct (Z.eqb_spec (Z.of_nat (S k')) 0); [lia|].
        f_equal. rewrite ULONG_small; unfold MAX_ULONG in *; lia. }
      rewrite Hadv.
      destruct (PumpLoop_upward_from stack Major Hfits k'
                  (fuel - 1 - S k' - 1)%nat (set_StackIndex (Z.of_nat k') Irpc))
        as [u' Hrun];
        [ intros j e Hj Hl; apply PassiveEntry_when, (Hpassive j e);
          [lia|done]
        | done | done | done | lia | lia | ].
      eexists. split; [exact Hrun|].
      split; [done|]. split; [exact Hcr|done]. }
  destruct Hup as (Irp1 & Hup & Hst1 & Hcr1 & Hfl1).
  assert (Hnp : flag_test (Flags Irp1) IRP_PENDING = false).
  { rewrite Hfl1, flag_test_or_other by done.
    exact (proj2 (proj2 (proj2 (proj2 HTc)))). }
  assert (Hpump : IopPumpIrpThroughStack (fuel - 1) IrpA
    = Done (Irp1, Calls stack IrpDown (seq 0 (S k))
                  ++ Calls stack IrpUp (rev (seq 0 k)))).
  { unfold IopPumpIrpThroughStack.
    replace (fuel - 1)%nat with (k + S (fuel - 1 - k - 1))%nat by lia.
    eapply bind_Done_eq.
    - rewrite Hdown. eapply bind_Done; [reflexivity|]. fold Irpk.
      rewrite (PumpLoop_step _ _ (proj1 (proj2 (proj2 (proj2 HTk))))).
      eapply bind_Done;
        [by apply (IopCallDriver_completing stack Major Irpk k entry s)|].
      cbv beta. fold Irpc.
      rewrite (proj2 (proj2 (proj2 (proj2 HTc)))). exact Hup.
    - cbv beta. rewrite Hfl1, flag_test_or_same, Hcr1 by done. reflexivity.
    - rewrite (seq_S k 0). unfold Calls.
      rewrite !map_app, <- !app_assoc, app_nil_r. reflexivity. }
  exists None, (set_Flags (flag_clear (Flags Irp1) IRP_ACTIVE) Irp1).
  split; [|split; [|split]].
  - eapply bind_Done; [reflexivity|]. cbv beta. fold IrpU. fold IrpA.
    destruct fuel as [|fuel]; [lia|].
    rewrite (SendLoop_step _ _ _ _ (proj1 (proj2 (proj2 (proj2 HT))))).
    replace (S fuel - 1)%nat with fuel in Hpump by lia.
    eapply bind_Done_eq; [exact Hpump | | by rewrite app_nil_r].
    cbv beta. rewrite Hnp. apply SendLoop_done.
    rewrite Hfl1. by apply flag_test_or_same.
  - exact Hst1.
  - cbn. rewrite flag_test_clear_other, Hfl1, flag_test_or_other by done.
    by apply flag_test_or_same.
  - cbn. rewrite flag_test_clear_other, Hfl1 by done.
    by apply flag_test_or_same.
Qed.

(** X10. A driver that pends the IRP on the way down stops the traversal
    at its stack entry: the sender waits, and once the driver has
    completed the IRP from another context the traversal resumes at that
    same entry, whose driver is called a second time with the IRP going
    up, before the drivers above it. [IoSendSynchronousIrp] then returns
    [STATUS_SUCCESS], and the IRP has the status the driver gave it. *)
Theorem pended_irp_resumes_at_its_driver (fuel : nat) (env' : list ENV_STEP)
    (Irp : IRP_INTERNAL) (stack : list IRP_STACK_ENTRY) (k : nat)
    (entry : IRP_STACK_ENTRY) (s : KSTATUS) :
  Stack Irp = Some stack ->
  StackSize Irp = Z.of_nat (length stack) ->
  StackSize Irp <= MAX_ULONG ->
  ReadyToSend Irp ->
  stack !! k = Some entry ->
  Pends (ShadowMajorCode Irp) entry ->
  (forall j e, (j < k)%nat -> stack !! j = Some e ->
               PassiveEntry (ShadowMajorCode Irp) e) ->
  (k + 3 <= fuel)%nat ->
  exists Irp',
    IoSendSynchronousIrp fuel
      (EnvRun [ActCompleteIrp (DriverAt stack k) s] :: env') Irp
    = Done (Some STATUS_SUCCESS, Irp',
            [EvUnsignal] ++ Calls stack IrpDown (seq 0 (S k))
            ++ [EvWait; EvSignal]
            ++ Calls stack IrpUp (rev (seq 0 (S k)))) /\
    Status (Public Irp') = s /\
    flag_test (Flags Irp') IRP_COMPLETE = true /\
    flag_test (Flags Irp') IRP_DRIVER_STACK_COMPLETE = true.
Proof.
  intros Hs Hsz Hfits Hready He Hpends Hpassive Hfuel.
  pose proof Hready as (_ & _ & _ & _ & Hdir & Hcr & Hidx & _ & Hpend & Hdsc).
  pose proof (lookup_lt_Some _ _ _ He) as Hk.
  rewrite Hsz in Hfits.
  rewrite (IoSendSynchronousIrp_ready _ _ _ Hready).
  set (Major := ShadowMajorCode Irp) in *.
  set (IrpU := set_Public (set_Signaled false (Public Irp)) Irp).
  set (IrpA := set_Flags (flag_or (Flags IrpU) IRP_ACTIVE) IrpU).
  assert (HT : Travelling stack Major IrpA).
  { repeat split; simpl; try done; by rewrite flag_test_or_other. }
  destruct (PumpLoop_downward_to stack Major Hfits k 0 IrpA) as [u Hdown];
    [ intros j e Hj Hl; apply PassiveEntry_when, (Hpassive j e); [lia|done]
    | done | done | done | lia | ].
  cbn [Nat.add] in Hdown.
  set (Irpk := set_StackIndex (Z.of_nat k) (WithU u IrpA)) in *.
  assert (HTk : Travelling stack Major Irpk) by done.
  pose proof HTk as (_ & _ & _ & Hdsck & Hpendk).
  (* the way down, up to the pending driver *)
  set (Irpp := set_Flags (flag_or (Flags Irpk) IRP_PENDING) Irpk).
  assert (Hpump1 : IopPumpIrpThroughStack (fuel - 1) IrpA
                   = Done (Irpp, Calls stack IrpDown (seq 0 (S k)))).
  { unfold IopPumpIrpThroughStack.
    replace (fuel - 1)%nat with (k + S (fuel - 1 - k - 1))%nat by lia.
    eapply bind_Done_eq.
    - rewrite Hdown. eapply bind_Done; [reflexivity|]. fold Irpk.
      rewrite (PumpLoop_step _ _ Hdsck).
      eapply bind_Done_eq;
        [ by apply (IopCallDriver_pends stack Major Irpk k entry)
        | | reflexivity ].
      cbv beta. fold Irpp.
      assert (Hp : flag_test (Flags Irpp) IRP_PENDING = true)
        by (by apply flag_test_or_same).
      rewrite Hp. reflexivity.
    - cbv beta.
      assert (Hd : flag_test (Flags Irpp) IRP_DRIVER_STACK_COMPLETE = false)
        by (cbn; by rewrite flag_test_or_other).
      rewrite Hd. reflexivity.
    - rewrite (seq_S k 0). unfold Calls.
      rewrite !map_app, <- !app_assoc, !app_nil_r. reflexivity. }
  (* the completion from the other context *)
  destruct Hpends as (owner & routine & Ho & Hsel & Hrd & Hru).
  set (Irps :=
    set_Public (set_Signaled true (Public (Completed s Irpp)))
      (Completed s Irpp)).
  assert (Hwait :
    ObWaitOnObject (EnvRun [ActCompleteIrp (DriverAt stack k) s] :: env') Irpp
    = Done (STATUS_SUCCESS, Irps, env', [EvSignal])).
  { change (ObWaitOnObject
              (EnvRun [ActCompleteIrp (DriverAt stack k) s] :: env') Irpp)
      with (let! Irp1 :=
              (let! Irp2 := IoCompleteIrp (DriverAt stack k) Irpp s in
               ret Irp2) in
            ObWaitOnObject env' Irp1).
    eapply bind_Done_eq; [| apply ObWaitOnObject_signaled; reflexivity
                          | symmetry; apply app_nil_r ].
    rewrite bind_ret_r. unfold IoCompleteIrp.
    rewrite (StackAt_lookup Irpp stack k entry Hs eq_refl He).
    rewrite bind_ret_l, Ho. unfold deref. rewrite bind_ret_l.
    rewrite decide_True by (unfold DriverAt; by rewrite He, Ho).
    cbv zeta. cbn [Flags set_Flags set_Public].
    rewrite flag_test_or_other by done.
    assert (Hp : flag_test (Flags Irpp) IRP_PENDING = true)
      by (by apply flag_test_or_same).
    rewrite Hp. reflexivity. }
  (* the way up, from the pending driver *)
  set (Irpq := set_Flags (flag_clear (Flags Irps) IRP_PENDING) Irps).
  assert (HTq : Travelling stack Major Irpq).
  { destruct HTk as (? & ? & ? & _ & _).
    repeat split; try done.
    - cbn. rewrite flag_test_clear_other by done.
      by rewrite !flag_test_or_other.
    - apply flag_test_clear_same. }
  destruct (PumpLoop_upward_from stack Major Hfits k (fuel - 1 - 1)%nat Irpq)
    as [u' Hup].
  { intros j e Hj Hl. destruct (decide (j = k)) as [->|Hne].
    - rewrite He in Hl. injection Hl as <-. by exists owner, routine.
    - apply PassiveEntry_when, (Hpassive j e); [lia|done]. }
  { done. }
  { done. }
  { done. }
  { lia. }
  { lia. }
  set (Irp1 := set_Flags (flag_or (Flags Irpq) IRP_DRIVER_STACK_COMPLETE)
                 (set_StackIndex 0 (WithU u' Irpq))) in *.
  exists (set_Flags (flag_clear (Flags Irp1) IRP_ACTIVE) Irp1).
  split; [|split; [|split]].
  - eapply bind_Done; [reflexivity|]. cbv beta. fold IrpU. fold IrpA.
    destruct fuel as [|fuel]; [lia|].
    rewrite (SendLoop_step _ _ _ _ (proj1 (proj2 (proj2 (proj2 HT))))).
    replace (S fuel - 1)%nat with fuel in * by lia.
    eapply bind_Done; [exact Hpump1|]. cbv beta.
    assert (Hp : flag_test (Flags Irpp) IRP_PENDING = true)
      by (by apply flag_test_or_same).
    rewrite Hp.
    eapply (bind_Done _ _ tt [EvWait]); [reflexivity|].
    eapply (bind_Done _ _ _ [EvSignal]); [exact Hwait|].
    cbv beta iota. cbn [KSUCCESS negb]. fold Irpq.
    destruct fuel as [|fuel]; [lia|].
    rewrite (SendLoop_step _ _ _ _ (proj1 (proj2 (proj2 (proj2 HTq))))).
    replace (S fuel - 1)%nat with fuel in * by lia.
    eapply bind_Done_eq; [| | symmetry; apply app_nil_r].
    + unfold IopPumpIrpThroughStack.
      eapply bind_Done_eq; [exact Hup | | symmetry; apply app_nil_r].
      cbv beta. fold Irp1.
      assert (Hd : flag_test (Flags Irp1) IRP_DRIVER_STACK_COMPLETE = true)
        by (by apply flag_test_or_same).
      rewrite Hd.
      change (CompletionRoutine (Public Irp1))
        with (CompletionRoutine (Public Irp)).
      by rewrite Hcr.
    + cbv beta.
      assert (Hnp : flag_test (Flags Irp1) IRP_PENDING = false).
      { cbn. rewrite flag_test_or_other by done. apply flag_test_clear_same. }
      rewrite Hnp. apply SendLoop_done. by apply flag_test_or_same.
  - reflexivity.
  - cbn. rewrite flag_test_clear_other by done.
    rewrite flag_test_or_other by done.
    rewrite flag_test_clear_other by done.
    by apply flag_test_or_same.
  - cbn. rewrite flag_test_clear_other by done.
    by apply flag_test_or_same.
Qed.

Lemma completion_turns_the_irp_around_witness :
  exists r Irp',
    IoSendSynchronousIrp 7 []
      (set_Stack (Some [QuietEntry 1; FailingEntry 2; QuietEntry 3]) SampleIrp)
    = Done (r, Irp',
            [EvUnsignal; EvDispatch 1%nat 0 IrpDown;
             EvDispatch 2%nat 1 IrpDown; EvDispatch 1%nat 0 IrpUp]) /\
    Status (Public Irp') = STATUS_NO_MEDIA /\
    flag_test (Flags Irp') IRP_COMPLETE = true /\
    flag_test (Flags Irp') IRP_DRIVER_STACK_COMPLETE = true.
Proof.
  apply (completion_turns_the_irp_around 7 []
           (set_Stack (Some [QuietEntry 1; FailingEntry 2; QuietEntry 3])
              SampleIrp)
           [QuietEntry 1; FailingEntry 2; QuietEntry 3] 1 (FailingEntry 2)
           STATUS_NO_MEDIA).
  - reflexivity.
  - reflexivity.
  - cbn. unfold MAX_ULONG. lia.
  - by repeat split.
  - reflexivity.
  - eexists _, _. split; [reflexivity|]. split; [reflexivity|].
    intros p c ic Hd. cbn. by rewrite Hd.
  - intros [|j] e Hj Hl; [|lia]. injection Hl as <-.
    apply QuietEntry_passive.
  - lia.
Defined.

Lemma pended_irp_resumes_at_its_driver_witness :
  exists Irp',
    IoSendSynchronousIrp 7 [EnvRun [ActCompleteIrp 2%nat STATUS_NO_MEDIA]]
      (set_Stack (Some [QuietEntry 1; PendingEntry 2; QuietEntry 3]) SampleIrp)
    = Done (Some STATUS_SUCCESS, Irp',
            [EvUnsignal; EvDispatch 1%nat 0 IrpDown;
             EvDispatch 2%nat 1 IrpDown; EvWait; EvSignal;
             EvDispatch 2%nat 1 IrpUp; EvDispatch 1%nat 0 IrpUp]) /\
    Status (Public Irp') = STATUS_NO_MEDIA /\
    flag_test (Flags Irp') IRP_COMPLETE = true /\
    flag_test (Flags Irp') IRP_DRIVER_STACK_COMPLETE = true.
Proof.
  apply (pended_irp_resumes_at_its_driver 7 []
           (set_Stack (Some [QuietEntry 1; PendingEntry 2; QuietEntry 3])
              SampleIrp)
           [QuietEntry 1; PendingEntry 2; QuietEntry 3] 1 (PendingEntry 2)
           STATUS_NO_MEDIA).
  - reflexivity.
  - reflexivity.
  - cbn. unfold MAX_ULONG. lia.
  - by repeat split.
  - reflexivity.
  - eexists _, _. split; [reflexivity|]. split; [reflexivity|]. split.
    + intros p c ic Hd. cbn. by rewrite Hd.
    + intros p c ic Hd. cbn. rewrite Hd. constructor.
  - intros [|j] e Hj Hl; [|lia]. injection Hl as <-.
    apply QuietEntry_passive.
  - lia.
Defined.

(** *** Creation that succeeds, and destruction *)

(** The driver loop of [IoCreateIrp] changes nothing in the IRP but its
    stack. *)
Lemma StoreStackEntry_frame Irp i f Irp' t :
  StoreStackEntry Irp i f = Done (Irp', t) ->
  set_Stack None Irp' = set_Stack None Irp.
Proof.
  unfold StoreStackEntry. intros H.
  apply bind_inv in H as (stack & t1 & t2 & _ & H & _).
  apply bind_inv in H as (old & t3 & t4 & _ & H & _).
  by injection H as <- _.
Qed.

Lemma CreateDriverLoop_frame F entries : forall L L' b t,
  CreateDriverLoop F entries L = Done (L', b, t) ->
  set_Stack None (cIrp L') = set_Stack None (cIrp L).
Proof.
  induction entries as [|e entries IH]; intros L L' b t; cbn [CreateDriverLoop].
  - by intros [= <- _ _].
  - intros H. apply bind_inv in H as (Irp1 & t1 & t2 & H1 & H & _).
    apply StoreStackEntry_frame in H1.
    destruct (CreateIrp (FunctionTable (Driver e))) as [hook|].
    + apply bind_inv in H as ([] & t3 & t4 & _ & H & _).
      destruct (hook (Public Irp1) (DriverContext e) F) as [s c].
      apply bind_inv in H as (Irp2 & t5 & t6 & H2 & H & _).
      apply StoreStackEntry_frame in H2.
      destruct (negb (KSUCCESS s)).
      * injection H as <- _ _. cbn [cIrp]. congruence.
      * apply IH in H. cbn [cIrp] in H. congruence.
    + apply IH in H. cbn [cIrp] in H. congruence.
Qed.

(** A device chain each of whose devices has as many drivers as its
    [DriverStackSize] says. *)
Fixpoint SizesMatch (d : DEVICE) : Prop :=
  match d with
  | MkDevice _ type _ _ size head target =>
      size = Z.of_nat (length head) /\
      match type, target with
      | ObjectDevice, Some next => SizesMatch next
      | _, _ => True
      end
  end.

Lemma SumStackSizes_chain : forall d s,
  SizesMatch d -> 0 <= s ->
  s + Z.of_nat (length (ChainEntries d)) <= MAX_ULONG ->
  SumStackSizes d s = s + Z.of_nat (length (ChainEntries d)).
Proof.
  fix IH 1. intros [a type st vf size head target] s.
  cbn [SizesMatch SumStackSizes ChainEntries]. intros [-> Hnext] Hs.
  rewrite length_app, Nat2Z.inj_add. intros Hfits.
  destruct type; [destruct target as [next|]|].
  - rewrite ULONG_small by lia. rewrite IH by (done || lia). lia.
  - cbn [length] in *. rewrite ULONG_small by lia. lia.
  - cbn [length] in *. rewrite ULONG_small by lia. lia.
Qed.

(** What [IoCreateIrp] returns when no create hook fails. *)
Lemma IoCreateIrp_success (UINTN_BITS : Z) (d : DEVICE)
    (Major : IRP_MAJOR_CODE) (F : Z) :
  let p := PublicAtCreate d Major in
  let chain := ChainEntries d in
  DriverStackHead d <> [] ->
  SizesMatch d ->
  0 < SIZEOF_IRP_STACK_ENTRY UINTN_BITS ->
  SIZEOF_IRP_STACK_ENTRY UINTN_BITS * Z.of_nat (length chain) <= MAX_ULONG ->
  Forall (fun e => HookFails p F e = false) chain ->
  IoCreateIrp UINTN_BITS true true (Some d) Major F
  = Done (Some {| Public := p; Magic := IRP_MAGIC_VALUE;
                  ShadowDevice := Some (DeviceAddress d);
                  ShadowMajorCode := Major;
                  Stack := Some (map (Filled p F) chain);
                  StackIndex := 0;
                  StackSize := Z.of_nat (length chain);
                  Flags := 0 |},
          [EvObCreateObject;
           EvAllocateStack
             (SIZEOF_IRP_STACK_ENTRY UINTN_BITS * Z.of_nat (length chain))]
          ++ HookCalls 0 chain) /\
  (0 < length chain)%nat /\
  Z.of_nat (length chain) <= MAX_ULONG.
Proof.
  intros p chain Hhead Hmatch Hsizeof Hfits Hok.
  assert (Hlen : Z.of_nat (length chain) <= MAX_ULONG).
  { set (size := SIZEOF_IRP_STACK_ENTRY UINTN_BITS) in *.
    pose proof (Nat2Z.is_nonneg (length chain)). nia. }
  assert (Hsum : SumStackSizes d 0 = Z.of_nat (length chain)).
  { unfold chain in *. rewrite SumStackSizes_chain; [lia | done | lia | lia]. }
  assert (Hsize : DriverStackSize d <> 0).
  { destruct d as [a type st vf size head target].
    cbn in Hmatch, Hhead |- *. destruct Hmatch as [-> _].
    destruct head; [done|]. cbn [length]. lia. }
  assert (Hn : (0 < length chain)%nat).
  { unfold chain. destruct d as [a type st vf size head target].
    cbn in Hhead |- *. destruct head; [done|]. cbn [app length]. lia. }
  split; [|done].
  set (n := length chain) in *.
  unfold IoCreateIrp.
  destruct (Z.eqb_spec (DriverStackSize d) 0); [done|].
  rewrite bool_decide_eq_false_2 by done. cbn [orb negb]. cbv iota zeta.
  cbn [StackSize NewIrp]. rewrite Hsum.
  rewrite (ULONG_small (SIZEOF_IRP_STACK_ENTRY UINTN_BITS * Z.of_nat n))
    by lia.
  rewrite (Z.mul_comm (SIZEOF_IRP_STACK_ENTRY UINTN_BITS)), Z.div_mul by lia.
  rewrite Nat2Z.id, (Z.mul_comm (Z.of_nat n)).
  cbn [andb]. cbv iota.
  rewrite CreateDeviceLoop_chain. fold chain.
  set (L0 := {| cIrp := _ |}).
  assert (HW : Walked p F n [] L0).
  { repeat split.
    - unfold Partial. cbn [map length app]. by rewrite Nat.sub_0_r.
    - cbn. by rewrite Hsum. }
  destruct (CreateDriverLoop_walk p F n ltac:(lia) chain [] L0 HW)
    as (L1 & HW1 & Hrun1); [cbn [length]; lia | done |].
  cbn [app length] in HW1, Hrun1.
  specialize (Hrun1 []). rewrite app_nil_r in Hrun1.
  cbn [CreateDriverLoop] in Hrun1.
  pose proof (CreateDriverLoop_frame F chain L0 L1 false
                (HookCalls 0 chain ++ [])) as Hframe.
  rewrite Hrun1 in Hframe. specialize (Hframe eq_refl).
  destruct HW1 as (Hstack & Hpub & Hsz & _).
  assert (Hfull : Partial n (map (Filled p F) chain) = map (Filled p F) chain).
  { unfold Partial. rewrite length_map. fold n. rewrite Nat.sub_diag.
    apply app_nil_r. }
  rewrite Hfull in Hstack.
  eapply bind_Done_eq; [reflexivity | | reflexivity].
  eapply bind_Done_eq; [reflexivity | | reflexivity].
  eapply bind_Done_eq;
    [ rewrite Hrun1; eapply bind_Done; reflexivity
    | | by rewrite !app_nil_r ].
  cbv beta iota. unfold CreateIrpEnd, initialized. rewrite bind_ret_l.
  cbn [KSUCCESS negb]. unfold ret. f_equal. f_equal. f_equal.
  destruct (cIrp L1) as [pub mg sd sm st si ss fl].
  cbn [Stack Public StackSize] in Hstack, Hpub, Hsz.
  pose proof (f_equal Magic Hframe) as E1.
  pose proof (f_equal ShadowDevice Hframe) as E2.
  pose proof (f_equal ShadowMajorCode Hframe) as E3.
  pose proof (f_equal StackIndex Hframe) as E4.
  pose proof (f_equal Flags Hframe) as E5.
  cbn in E1, E2, E3, E4, E5. by subst.
Qed.

(** X11. When the pool serves the IRP and its stack and no create hook
    fails, [IoCreateIrp] returns an IRP whose stack holds, in order, one
    entry for each driver of the device and of its chain of targets, with
    the driver stack entry and the context its create hook stored; the
    hooks are the only driver code called, once each in stack order; and
    once a minor code is set the IRP is prepared for
    [IoSendSynchronousIrp]. *)
Theorem create_prepares_the_irp (UINTN_BITS : Z) (d : DEVICE)
    (Major : IRP_MAJOR_CODE) (F : Z) :
  let p := PublicAtCreate d Major in
  let chain := ChainEntries d in
  DriverStackHead d <> [] ->
  SizesMatch d ->
  0 < SIZEOF_IRP_STACK_ENTRY UINTN_BITS ->
  SIZEOF_IRP_STACK_ENTRY UINTN_BITS * Z.of_nat (length chain) <= MAX_ULONG ->
  Forall (fun e => HookFails p F e = false) chain ->
  Major <> IrpMajorInvalid ->
  exists Irp,
    IoCreateIrp UINTN_BITS true true (Some d) Major F
    = Done (Some Irp,
            [EvObCreateObject;
             EvAllocateStack
               (SIZEOF_IRP_STACK_ENTRY UINTN_BITS * Z.of_nat (length chain))]
            ++ HookCalls 0 chain) /\
    Stack Irp = Some (map (Filled p F) chain) /\
    forall minor,
      minor <> IrpMinorInvalid ->
      Prepared (map (Filled p F) chain)
        (set_Public (set_MinorCode minor (Public Irp)) Irp).
Proof.
  intros p chain Hhead Hmatch Hsizeof Hfits Hok Hmajor.
  destruct (IoCreateIrp_success UINTN_BITS d Major F Hhead Hmatch Hsizeof
              Hfits Hok) as (Hrun & Hn & Hlen).
  fold p chain in Hrun, Hn, Hlen.
  eexists. split; [exact Hrun|]. split; [reflexivity|].
  intros minor Hminor. split; [|split].
  - by repeat split.
  - unfold WellFormed. cbn. rewrite length_map.
    split; [done|]. split; [done|]. split; [done|]. split; [lia|].
    split; [|done]. apply Forall_map, Forall_true. by intros.
  - reflexivity.
Qed.

(** The call of its driver's destroy hook for a stack entry, if the driver
    has one. *)
Definition OwnDestroyCall (entry : IRP_STACK_ENTRY) : option Event :=
  match DriverStackEntry entry with
  | Some owner =>
      match DestroyIrp (FunctionTable (Driver owner)) with
      | Some routine =>
          Some (EvDestroyIrp routine (DriverContext owner) (IrpContext entry))
      | None => None
      end
  | None => None
  end.

Lemma DestroyLoop_run todo : forall seen Irp,
  Stack Irp = Some (seen ++ todo) ->
  Forall (fun e => DriverStackEntry e <> None) todo ->
  Z.of_nat (length seen + length todo) <= MAX_ULONG ->
  DestroyLoop (length todo) Irp (Z.of_nat (length seen))
  = Done (tt, omap OwnDestroyCall todo).
Proof.
  induction todo as [|e todo IH]; intros seen Irp Hs Hfilled Hfits; [done|].
  apply Forall_cons in Hfilled as [He Hfilled].
  cbn [length DestroyLoop]. unfold StackAt, deref.
  rewrite Hs, bind_ret_l.
  erewrite index_lookup
    by (rewrite lookup_app_r, Nat.sub_diag by lia; reflexivity).
  change (Done (e, [])) with (ret (E := Event) e). rewrite bind_ret_l.
  destruct (DriverStackEntry e) as [own|] eqn:Hown; [|done].
  rewrite bind_ret_l.
  rewrite ULONG_small by (cbn [length] in Hfits; unfold MAX_ULONG in *; lia).
  replace (Z.of_nat (length seen) + 1) with (Z.of_nat (length (seen ++ [e])))
    by (rewrite length_app; cbn [length]; lia).
  rewrite (IH (seen ++ [e]) Irp);
    [ | by rewrite <- app_assoc | done
      | rewrite length_app; cbn [length] in *; lia ].
  cbn [omap list_omap]. unfold OwnDestroyCall at 2. rewrite Hown.
  destruct (DestroyIrp (FunctionTable (Driver own))); reflexivity.
Qed.

(** X12. [IoDestroyIrp], given an IRP whose stack entries all have their
    driver stack entry, calls for each entry in ascending order the
    destroy hook of that entry's own driver, if it has one, with that
    driver's context and the entry's IRP context; then it frees the stack
    and releases the IRP. *)
Theorem destroy_calls_every_owner (Irp : IRP_INTERNAL)
    (stack : list IRP_STACK_ENTRY) :
  Magic Irp = IRP_MAGIC_VALUE ->
  ShadowDevice Irp = Device (Public Irp) ->
  ShadowMajorCode Irp = MajorCode (Public Irp) ->
  Stack Irp = Some stack ->
  StackSize Irp = Z.of_nat (length stack) ->
  StackSize Irp <= MAX_ULONG ->
  Forall (fun e => DriverStackEntry e <> None) stack ->
  IoDestroyIrp Irp
  = Done (tt, omap OwnDestroyCall stack
              ++ [EvFreeStack; EvObReleaseReference]).
Proof.
  intros Hmagic Hdev Hmaj Hs Hsz Hfits Hall. unfold IoDestroyIrp.
  rewrite Hmagic, Z.eqb_refl. cbn [negb].
  rewrite !bool_decide_eq_true_2 by done. cbn [negb orb].
  rewrite Hsz, Nat2Z.id.
  pose proof (DestroyLoop_run stack [] Irp) as Hloop.
  cbn [length app Nat.add] in Hloop. change (Z.of_nat 0) with 0 in Hloop.
  rewrite Hloop; [done | done | done | lia].
Qed.

(** The destroy hook of a driver, called with the context its create hook
    stored. *)
Definition MirrorCall (p : IRP) (F : Z) (e : DRIVER_STACK_ENTRY)
  : option Event :=
  match DestroyIrp (FunctionTable (Driver e)) with
  | Some routine =>
      Some (EvDestroyIrp routine (DriverContext e) (ContextAfter p F e))
  | None => None
  end.

Lemma OwnDestroyCall_Filled p F l :
  omap OwnDestroyCall (map (Filled p F) l) = omap (MirrorCall p F) l.
Proof.
  induction l as [|e l IH]; [done|]. cbn [map omap list_omap].
  unfold OwnDestroyCall at 1, MirrorCall at 1. cbn.
  destruct (DestroyIrp (FunctionTable (Driver e))); by rewrite ?IH.
Qed.

(** X13. Creation and destruction mirror each other: the IRP that
    [IoCreateIrp] returns when no hook fails, and any IRP with the same
    constants (such as the one [IoSendSynchronousIrp] hands back), is
    destroyed by calling the destroy hook of every driver of the chain
    that has one, in the order in which the create hooks were called and
    each with the IRP context its driver's create hook stored, and by
    giving back the stack and the IRP. *)
Theorem destroy_mirrors_create (UINTN_BITS : Z) (d : DEVICE)
    (Major : IRP_MAJOR_CODE) (F : Z) :
  let p := PublicAtCreate d Major in
  let chain := ChainEntries d in
  DriverStackHead d <> [] ->
  SizesMatch d ->
  0 < SIZEOF_IRP_STACK_ENTRY UINTN_BITS ->
  SIZEOF_IRP_STACK_ENTRY UINTN_BITS * Z.of_nat (length chain) <= MAX_ULONG ->
  Forall (fun e => HookFails p F e = false) chain ->
  exists Irp t,
    IoCreateIrp UINTN_BITS true true (Some d) Major F = Done (Some Irp, t) /\
    forall Irp',
      SameConstants Irp Irp' ->
      IoDestroyIrp Irp'
      = Done (tt, omap (MirrorCall p F) chain
                  ++ [EvFreeStack; EvObReleaseReference]).
Proof.
  intros p chain Hhead Hmatch Hsizeof Hfits Hok.
  destruct (IoCreateIrp_success UINTN_BITS d Major F Hhead Hmatch Hsizeof
              Hfits Hok) as (Hrun & Hn & Hlen).
  fold p chain in Hrun, Hn, Hlen.
  eexists _, _. split; [exact Hrun|].
  intros Irp' (C1 & C2 & C3 & C4 & C5 & C6 & C7 & C8). cbn in *.
  unfold IoDestroyIrp.
  rewrite C1, Z.eqb_refl. cbn [negb].
  rewrite !bool_decide_eq_true_2 by congruence. cbn [negb orb].
  rewrite C8, Nat2Z.id.
  pose proof (DestroyLoop_run (map (Filled p F) chain) [] Irp') as Hloop.
  cbn [length app Nat.add] in Hloop. change (Z.of_nat 0) with 0 in Hloop.
  rewrite length_map in Hloop.
  rewrite Hloop;
    [ | done | apply Forall_map, Forall_true; by intros | lia ].
  by rewrite OwnDestroyCall_Filled.
Qed.

(** *** What creation takes and destruction gives back *)

Definition IsObjectCreation (e : Event) : bool :=
  match e with EvObCreateObject => true | _ => false end.

Definition IsObjectRelease (e : Event) : bool :=
  match e with EvObReleaseReference => true | _ => false end.

Definition IsStackAllocation (e : Event) : bool :=
  match e with EvAllocateStack _ => true | _ => false end.

Definition IsStackRelease (e : Event) : bool :=
  match e with EvFreeStack => true | _ => false end.

Definition Count (P : Event -> bool) (t : list Event) : Z :=
  Z.of_nat (length (List.filter P t)).

(** The IRP objects, and the IRP stacks, obtained in a trace and not given
    back in it. *)
Definition ObjectsHeld (t : list Event) : Z :=
  Count IsObjectCreation t - Count IsObjectRelease t.

Definition StacksHeld (t : list Event) : Z :=
  Count IsStackAllocation t - Count IsStackRelease t.

Lemma Count_app P t1 t2 : Count P (t1 ++ t2) = Count P t1 + Count P t2.
Proof. unfold Count. rewrite List.filter_app, length_app. lia. Qed.

Lemma Count_Only P Q t :
  Only Q t -> (forall e, Q e = true -> P e = false) -> Count P t = 0.
Proof.
  intros Ht HPQ. unfold Count.
  induction Ht as [|e t He _ IH]; [done|]. cbn [List.filter].
  by rewrite (HPQ e He).
Qed.

Lemma ObjectsHeld_app t1 t2 :
  ObjectsHeld (t1 ++ t2) = ObjectsHeld t1 + ObjectsHeld t2.
Proof. unfold ObjectsHeld. rewrite !Count_app. lia. Qed.

Lemma StacksHeld_app t1 t2 :
  StacksHeld (t1 ++ t2) = StacksHeld t1 + StacksHeld t2.
Proof. unfold StacksHeld. rewrite !Count_app. lia. Qed.

(** A trace that neither obtains nor gives back an IRP or a stack. *)
Definition Neutral (e : Event) : bool :=
  negb (IsObjectCreation e || IsObjectRelease e
        || IsStackAllocation e || IsStackRelease e).

Lemma Neutral_held t : Only Neutral t -> ObjectsHeld t = 0 /\ StacksHeld t = 0.
Proof.
  intros H. unfold ObjectsHeld, StacksHeld.
  rewrite !(Count_Only _ Neutral t H); [done | | | |]; by intros [].
Qed.

Lemma StoreStackEntry_stack Irp i f Irp' t :
  StoreStackEntry Irp i f = Done (Irp', t) -> is_Some (Stack Irp').
Proof.
  unfold StoreStackEntry. intros H.
  apply bind_inv in H as (stack & t1 & t2 & _ & H & _).
  apply bind_inv in H as (old & t3 & t4 & _ & H & _).
  injection H as <- _. by eexists.
Qed.

Lemma CreateDriverLoop_stack F entries : forall L L' b t,
  CreateDriverLoop F entries L = Done (L', b, t) ->
  is_Some (Stack (cIrp L)) -> is_Some (Stack (cIrp L')).
Proof.
  induction entries as [|e entries IH]; intros L L' b t; cbn [CreateDriverLoop].
  - by intros [= <- _ _].
  - intros H _. apply bind_inv in H as (Irp1 & t1 & t2 & H1 & H & _).
    apply StoreStackEntry_stack in H1.
    destruct (CreateIrp (FunctionTable (Driver e))) as [hook|].
    + apply bind_inv in H as ([] & t3 & t4 & _ & H & _).
      destruct (hook (Public Irp1) (DriverContext e) F) as [s c].
      apply bind_inv in H as (Irp2 & t5 & t6 & H2 & H & _).
      apply StoreStackEntry_stack in H2.
      destruct (negb (KSUCCESS s)).
      * by injection H as <- _ _.
      * by apply IH in H.
    + by apply IH in H.
Qed.

(** The calls of create hooks, and the calls of destroy hooks. *)
Definition IsCreateHook (e : Event) : bool :=
  match e with EvCreateIrp _ _ => true | _ => false end.

Definition IsDestroyHook (e : Event) : bool :=
  match e with EvDestroyIrp _ _ _ => true | _ => false end.

(** The shapes a run of [IoCreateIrp] can have when the pool serves the
    stack. *)
Definition CreateTrace (r : option IRP_INTERNAL) (t : list Event) : Prop :=
  (r = None /\ t = []) \/
  exists n hooks,
    Only IsCreateHook hooks /\
    ((r <> None /\ t = [EvObCreateObject; EvAllocateStack n] ++ hooks) \/
     (r = None /\
      exists cleanup,
        Only IsDestroyHook cleanup /\
        t = [EvObCreateObject; EvAllocateStack n] ++ hooks ++ cleanup
            ++ [EvFreeStack; EvObReleaseReference])).

Lemma IoCreateIrp_trace (UINTN_BITS : Z)
    (ObjectAvailable' : bool) (Device' : option DEVICE)
    (Major : IRP_MAJOR_CODE) (F : Z) (r : option IRP_INTERNAL)
    (t : list Event) :
  IoCreateIrp UINTN_BITS ObjectAvailable' true Device' Major F
    = Done (r, t) ->
  CreateTrace r t.
Proof.
  unfold IoCreateIrp. intros H.
  destruct (match Device' with Some d => _ | None => false end).
  { injection H as <- <-. by left. }
  destruct ObjectAvailable'; cbn [negb] in H.
  2:{ injection H as <- <-. by left. }
  right.
  apply bind_inv in H as ([] & t1 & t2 & [= <-] & H & ->).
  cbv zeta in H.
  apply bind_inv in H as ([] & t3 & t4 & [= <-] & H & ->).
  cbn [negb andb] in H.
  apply bind_inv in H as ([L1 jumped] & tl & te & Hloop & H & ->).
  eexists _, tl. split.
  { destruct Device' as [d|].
    - eapply CreateDeviceLoop_Only; [|exact Hloop]. done.
    - injection Hloop as <- <- <-. constructor. }
  assert (Hstack : is_Some (Stack (cIrp L1))).
  { destruct Device' as [d|].
    - rewrite CreateDeviceLoop_chain in Hloop.
      eapply CreateDriverLoop_stack; [exact Hloop|]. by eexists.
    - injection Hloop as <- <- <-. by eexists. }
  unfold CreateIrpEnd in H.
  apply bind_inv in H as (s & t5 & t6 & Hs & H & ->).
  assert (t5 = []) as ->.
  { unfold initialized in Hs. destruct (if jumped then _ else _);
      [by injection Hs as _ <- | done]. }
  destruct (negb (KSUCCESS s)).
  - right. destruct Hstack as [stack Hstack]. rewrite Hstack in H.
    apply bind_inv in H as ([] & t7 & t8 & Hc & H & ->).
    apply bind_inv in Hc as ([] & tc & t9 & Hc & [= <-] & ->).
    apply bind_inv in H as ([] & t10 & t11 & [= <-] & [= <- <-] & ->).
    split; [done|]. exists tc. split.
    + eapply CreateCleanupLoop_Only; [|exact Hc]. done.
    + cbn [app]. by rewrite <- !app_assoc.
  - left. injection H as <- <-. split; [done|]. cbn [app].
    by rewrite app_nil_r.
Qed.

Lemma CreateTrace_held r t :
  CreateTrace r t ->
  ObjectsHeld t = match r with Some _ => 1 | None => 0 end /\
  StacksHeld t = match r with Some _ => 1 | None => 0 end.
Proof.
  intros [[-> ->]|(n & hooks & Hhooks & Hshape)]; [done|].
  destruct (Neutral_held hooks) as [Ho Hs].
  { eapply Only_weaken; [|exact Hhooks]. by intros []. }
  destruct Hshape as [[Hr ->]|(-> & cleanup & Hcleanup & ->)].
  - rewrite ObjectsHeld_app, StacksHeld_app, Ho, Hs. by destruct r.
  - destruct (Neutral_held cleanup) as [Ho' Hs'].
    { eapply Only_weaken; [|exact Hcleanup]. by intros []. }
    rewrite !ObjectsHeld_app, !StacksHeld_app, Ho, Hs, Ho', Hs'. done.
Qed.

Lemma IoCreateIrp_held (UINTN_BITS : Z)
    (ObjectAvailable' : bool) (Device' : option DEVICE)
    (Major : IRP_MAJOR_CODE) (F : Z) (r : option IRP_INTERNAL)
    (t : list Event) :
  IoCreateIrp UINTN_BITS ObjectAvailable' true Device' Major F
    = Done (r, t) ->
  ObjectsHeld t = match r with Some _ => 1 | None => 0 end /\
  StacksHeld t = match r with Some _ => 1 | None => 0 end.
Proof. intros H. by eapply CreateTrace_held, IoCreateIrp_trace. Qed.

(** X14. [IoCreateIrp] leaks nothing when the pool serves the stack. When
    it returns an IRP, the run is the creation of the object, the
    allocation of the stack and the calls of create hooks, and exactly
    that object and that stack are held. When it returns NULL, either
    nothing was obtained at all, or the run ends by freeing the stack and
    releasing the object after the destroy hooks were called, so that
    nothing is held. *)
Theorem create_gives_back_what_it_took (UINTN_BITS : Z)
    (ObjectAvailable' : bool) (Device' : option DEVICE)
    (Major : IRP_MAJOR_CODE) (F : Z) (r : option IRP_INTERNAL)
    (t : list Event) :
  IoCreateIrp UINTN_BITS ObjectAvailable' true Device' Major F
    = Done (r, t) ->
  ObjectsHeld t = match r with Some _ => 1 | None => 0 end /\
  StacksHeld t = match r with Some _ => 1 | None => 0 end /\
  (r = None ->
   t = [] \/
   (head t = Some EvObCreateObject /\
    exists t', t = t' ++ [EvFreeStack; EvObReleaseReference])) /\
  (r <> None ->
   (EvFreeStack ∉ t) /\ (EvObReleaseReference ∉ t) /\
   forall r' c ic, EvDestroyIrp r' c ic ∉ t).
Proof.
  intros H. apply IoCreateIrp_trace in H.
  destruct (CreateTrace_held r t H) as [Ho Hs].
  split; [done|]. split; [done|].
  destruct H as [[-> ->]|(n & hooks & Hhooks & Hshape)].
  - split; [by left|done].
  - unfold Only in Hhooks. rewrite Forall_forall in Hhooks.
    destruct Hshape as [[Hr ->]|(-> & cleanup & Hcleanup & ->)].
    + split; [done|]. intros _.
      assert (Hno : forall e, IsCreateHook e = false ->
                e <> EvObCreateObject ->
                (forall k, e <> EvAllocateStack k) ->
                e ∉ [EvObCreateObject; EvAllocateStack n] ++ hooks).
      { intros e He H1 H2 Hin. cbn [app] in Hin.
        apply elem_of_cons in Hin as [->|Hin]; [done|].
        apply elem_of_cons in Hin as [->|Hin]; [by eapply H2|].
        apply Hhooks in Hin. congruence. }
      split; [by apply Hno|]. split; [by apply Hno|].
      intros r' c ic. by apply Hno.
    + split; [|done]. intros _. right. split; [done|].
      exists ([EvObCreateObject; EvAllocateStack n] ++ hooks ++ cleanup).
      by rewrite <- !app_assoc.
Qed.


Lemma IoDestroyIrp_held Irp u t :
  IoDestroyIrp Irp = Done (u, t) -> ObjectsHeld t = -1 /\ StacksHeld t = -1.
Proof.
  unfold IoDestroyIrp. intros H.
  destruct (negb (Magic Irp =? IRP_MAGIC_VALUE)); [done|].
  destruct (_ || _); [done|].
  apply bind_inv in H as ([] & tl & t2 & Hl & H & ->).
  apply bind_inv in H as ([] & t3 & t4 & [= <-] & [= _ <-] & ->).
  destruct (Neutral_held tl) as [Ho Hs].
  { eapply DestroyLoop_Only; [|exact Hl]. done. }
  rewrite !ObjectsHeld_app, !StacksHeld_app, Ho, Hs. done.
Qed.

Lemma IoSendSynchronousIrp_held fuel env Irp r t :
  IoSendSynchronousIrp fuel env Irp = Done (r, t) ->
  ObjectsHeld t = 0 /\ StacksHeld t = 0.
Proof.
  intros H. apply Neutral_held.
  eapply IoSendSynchronousIrp_Only; [..|exact H]; done.
Qed.

(** Without the pool, [IoCreateIrp] returns for a device only where it
    turns the request away before it obtains anything: past that point it
    zeroes, or writes to, the stack it did not get. *)
Lemma IoCreateIrp_without_pool (UINTN_BITS : Z) (ObjectAvailable' : bool)
    (d : DEVICE) (Major : IRP_MAJOR_CODE) (F : Z)
    (r : option IRP_INTERNAL) (t : list Event) :
  IoCreateIrp UINTN_BITS ObjectAvailable' false (Some d) Major F
    = Done (r, t) ->
  r = None /\ t = [].
Proof.
  unfold IoCreateIrp. intros H.
  destruct (_ || _) eqn:Hconfig.
  { by injection H as <- <-. }
  destruct ObjectAvailable'; cbn [negb] in H.
  2:{ by injection H as <- <-. }
  exfalso.
  apply bind_inv in H as ([] & t1 & t2 & _ & H & _).
  cbv zeta in H.
  apply bind_inv in H as ([] & t3 & t4 & _ & H & _).
  cbn [negb andb] in H.
  destruct (0 <? _); [done|].
  apply bind_inv in H as ([L1 jumped] & tl & te & Hloop & _ & _).
  destruct d as [a type state f size head target].
  apply orb_false_elim in Hconfig as [_ Hhead].
  destruct head as [|e head]; [done|].
  cbn [CreateDeviceLoop CreateDriverLoop] in Hloop.
  apply bind_inv in Hloop as (? & ? & ? & Hloop & _ & _).
  apply bind_inv in Hloop as (? & ? & ? & Hstore & _ & _).
  unfold StoreStackEntry in Hstore. by destruct Major.
Qed.

Lemma IoCreateIrp_held_for (UINTN_BITS : Z)
    (ObjectAvailable' PoolAvailable' : bool) (d : DEVICE)
    (Major : IRP_MAJOR_CODE) (F : Z) (r : option IRP_INTERNAL)
    (t : list Event) :
  IoCreateIrp UINTN_BITS ObjectAvailable' PoolAvailable' (Some d) Major F
    = Done (r, t) ->
  ObjectsHeld t = match r with Some _ => 1 | None => 0 end /\
  StacksHeld t = match r with Some _ => 1 | None => 0 end.
Proof.
  destruct PoolAvailable'; intros H.
  - by eapply IoCreateIrp_held.
  - by apply IoCreateIrp_without_pool in H as [-> ->].
Qed.

(** The closing step of the accounts below: what the creation, the send
    and the destruction found in the run hold, added up. *)
Ltac settle_accounts H :=
  unfold ret in H; injection H as <- <-;
  repeat match goal with
    | Hm : (if ?c then _ else _) = Done _ |- _ => destruct c
    | Hm : emit _ = Done _ |- _ => unfold emit in Hm
    | Hm : ret _ = Done _ |- _ => unfold ret in Hm
    | Hm : Done _ = Done (_, _) |- _ => injection Hm as <- <-
    end;
  repeat match goal with
    | Hc : IoCreateIrp _ _ _ (Some _) _ _ = Done _ |- _ =>
        apply IoCreateIrp_held_for in Hc as [? ?]
    | Hs : IoSendSynchronousIrp _ _ _ = Done _ |- _ =>
        apply IoSendSynchronousIrp_held in Hs as [? ?]
    | Hd : IoDestroyIrp _ = Done _ |- _ =>
        apply IoDestroyIrp_held in Hd as [? ?]
    end;
  rewrite ?ObjectsHeld_app, ?StacksHeld_app;
  repeat match goal with
    | Heq : ObjectsHeld _ = _ |- _ => rewrite Heq; clear Heq
    | Heq : StacksHeld _ = _ |- _ => rewrite Heq; clear Heq
    end;
  split; reflexivity.

Section Accounts.

Variable UINTN_BITS : Z.
Variable env : ENVIRONMENT.
Variable Device' : DEVICE.

Lemma IopSendOpenIrp_held req r t :
  IopSendOpenIrp UINTN_BITS env Device' req = Done (r, t) ->
  ObjectsHeld t = 0 /\ StacksHeld t = 0.
Proof.
  intros H. unfold IopSendOpenIrp in H. unravel H; settle_accounts H.
Qed.

Lemma IopSendCloseIrp_held req r t :
  IopSendCloseIrp UINTN_BITS env Device' req = Done (r, t) ->
  ObjectsHeld t = 0 /\ StacksHeld t = 0.
Proof.
  intros H. unfold IopSendCloseIrp in H. unravel H; settle_accounts H.
Qed.

Lemma IopSendIoIrp_held minor req r t :
  IopSendIoIrp UINTN_BITS env Device' minor req = Done (r, t) ->
  ObjectsHeld t = 0 /\ StacksHeld t = 0.
Proof.
  intros H. unfold IopSendIoIrp in H. unravel H; settle_accounts H.
Qed.

Lemma IopSendIoReadIrp_held req r t :
  IopSendIoReadIrp UINTN_BITS env Device' req = Done (r, t) ->
  ObjectsHeld t = 0 /\ StacksHeld t = 0.
Proof.
  intros H. unfold IopSendIoReadIrp in H.
  apply bind_inv in H as ([s req'] & t1 & t2 & H1 & [= _ <-] & ->).
  rewrite app_nil_r. by eapply IopSendIoIrp_held.
Qed.

Lemma IopSendSystemControlIrp_held control ctx r t :
  IopSendSystemControlIrp UINTN_BITS env Device' control ctx = Done (r, t) ->
  ObjectsHeld t = 0 /\ StacksHeld t = 0.
Proof.
  intros H. unfold IopSendSystemControlIrp in H.
  unravel H; settle_accounts H.
Qed.

Lemma IopSendUserControlIrp_held minor k ctx size r t :
  IopSendUserControlIrp UINTN_BITS env Device' minor k ctx size
    = Done (r, t) ->
  ObjectsHeld t = 0 /\ StacksHeld t = 0.
Proof.
  intros H. unfold IopSendUserControlIrp in H.
  unravel H; settle_accounts H.
Qed.

End Accounts.

(** X15. The synchronous helpers leave no IRP behind: whenever one of
    them returns, with whatever status, every IRP object and every IRP
    stack obtained during the call has been given back. *)
Theorem helpers_leave_no_irp_behind (UINTN_BITS : Z) (env : ENVIRONMENT)
    (Device' : DEVICE) :
  (forall req r t,
     IopSendOpenIrp UINTN_BITS env Device' req = Done (r, t) ->
     ObjectsHeld t = 0 /\ StacksHeld t = 0) /\
  (forall req r t,
     IopSendCloseIrp UINTN_BITS env Device' req = Done (r, t) ->
     ObjectsHeld t = 0 /\ StacksHeld t = 0) /\
  (forall minor req r t,
     IopSendIoIrp UINTN_BITS env Device' minor req = Done (r, t) ->
     ObjectsHeld t = 0 /\ StacksHeld t = 0) /\
  (forall req r t,
     IopSendIoReadIrp UINTN_BITS env Device' req = Done (r, t) ->
     ObjectsHeld t = 0 /\ StacksHeld t = 0) /\
  (forall control ctx r t,
     IopSendSystemControlIrp UINTN_BITS env Device' control ctx
       = Done (r, t) ->
     ObjectsHeld t = 0 /\ StacksHeld t = 0) /\
  (forall minor k ctx size r t,
     IopSendUserControlIrp UINTN_BITS env Device' minor k ctx size
       = Done (r, t) ->
     ObjectsHeld t = 0 /\ StacksHeld t = 0).
Proof.
  split; [|split; [|split; [|split; [|split]]]]; intros *.
  - by apply IopSendOpenIrp_held.
  - by apply IopSendCloseIrp_held.
  - by apply IopSendIoIrp_held.
  - by apply IopSendIoReadIrp_held.
  - by apply IopSendSystemControlIrp_held.
  - by apply IopSendUserControlIrp_held.
Qed.

(** A device whose volume flags are [f]. *)
Definition WithVolumeFlags (f : Z) (d : DEVICE) : DEVICE :=
  match d with
  | MkDevice a type state _ size head target =>
      MkDevice a type state f size head target
  end.

(** X16. [IopSendSystemControlIrp] screens its requests. A control number
    that is not above [IrpMinorSystemControlInvalid] is refused with
    [STATUS_INVALID_PARAMETER] before the device is even locked. On a
    volume that is being unmounted (and not removed) every request is
    turned away with [STATUS_DEVICE_NOT_CONNECTED], under the device lock
    and without an IRP being created, except the writing of file
    properties and the deletion, for which the unmounting makes no
    difference at all. *)
Theorem system_control_is_screened (UINTN_BITS : Z) (env : ENVIRONMENT)
    (Device' : DEVICE) (ControlNumber : IRP_MINOR_CODE)
    (SystemContext : PVOID) :
  (ControlNumber <= IrpMinorSystemControlInvalid ->
   IopSendSystemControlIrp UINTN_BITS env Device' ControlNumber SystemContext
   = Done (STATUS_INVALID_PARAMETER, [])) /\
  (IrpMinorSystemControlInvalid < ControlNumber ->
   State Device' <> DeviceRemoved ->
   DeviceType Device' = ObjectVolume ->
   flag_test (VolumeFlags Device') VOLUME_FLAG_UNMOUNTING = true ->
   ControlNumber <> IrpMinorSystemControlWriteFileProperties ->
   ControlNumber <> IrpMinorSystemControlDelete ->
   IopSendSystemControlIrp UINTN_BITS env Device' ControlNumber SystemContext
   = Done (STATUS_DEVICE_NOT_CONNECTED,
           [EvAcquireShared (DeviceAddress Device');
            EvReleaseShared (DeviceAddress Device')])) /\
  (ControlNumber = IrpMinorSystemControlWriteFileProperties \/
   ControlNumber = IrpMinorSystemControlDelete ->
   IopSendSystemControlIrp UINTN_BITS env Device' ControlNumber SystemContext
   = IopSendSystemControlIrp UINTN_BITS env (WithVolumeFlags 0 Device')
       ControlNumber SystemContext).
Proof.
  split; [|split].
  - intros Hlow. unfold IopSendSystemControlIrp.
    by destruct (Z.leb_spec ControlNumber IrpMinorSystemControlInvalid);
      [|lia].
  - intros Hvalid Hstate Htype Hflag Hwrite Hdelete.
    unfold IopSendSystemControlIrp.
    destruct (Z.leb_spec ControlNumber IrpMinorSystemControlInvalid); [lia|].
    rewrite (bool_decide_eq_false_2 _ Hstate).
    rewrite (bool_decide_eq_true_2 _ Htype), Hflag.
    destruct (Z.eqb_spec ControlNumber
                IrpMinorSystemControlWriteFileProperties); [done|].
    destruct (Z.eqb_spec ControlNumber IrpMinorSystemControlDelete); [done|].
    reflexivity.
  - intros Hexempt. destruct Device' as [a type state vf size head target].
    unfold IopSendSystemControlIrp, WithVolumeFlags.
    cbn [DeviceAddress State DeviceType VolumeFlags].
    destruct (ControlNumber <=? IrpMinorSystemControlInvalid); [done|].
    destruct (bool_decide (state = DeviceRemoved)); [done|].
    assert (Hskip :
      negb (ControlNumber =? IrpMinorSystemControlWriteFileProperties)
      && negb (ControlNumber =? IrpMinorSystemControlDelete) = false).
    { destruct Hexempt as [-> | ->]; reflexivity. }
    rewrite <- !andb_assoc, Hskip, !andb_false_r.
    reflexivity.
Qed.

(** *** Instances *)

(** A device with one driver on top of a target device with another;
    both drivers have create hooks that succeed. *)
Definition StackedDevice : DEVICE :=
  {| DeviceAddress := 7%nat; DeviceType := ObjectDevice;
     State := DeviceStarted; VolumeFlags := 0; DriverStackSize := 1;
     DriverStackHead := [HookedDriver 1 true];
     TargetDevice :=
       Some {| DeviceAddress := 6%nat; DeviceType := ObjectDevice;
               State := DeviceStarted; VolumeFlags := 0;
               DriverStackSize := 1;
               DriverStackHead := [HookedDriver 2 true];
               TargetDevice := None |} |}.

Lemma create_prepares_the_irp_witness :
  exists Irp,
    IoCreateIrp 32 true true (Some StackedDevice) IrpMajorOpen 0
    = Done (Some Irp,
            [EvObCreateObject; EvAllocateStack 16;
             EvCreateIrp 1%nat 0; EvCreateIrp 2%nat 1]) /\
    Stack Irp
    = Some [{| DriverStackEntry := Some (HookedDriver 1 true);
               IrpContext := Some 101 |};
            {| DriverStackEntry := Some (HookedDriver 2 true);
               IrpContext := Some 201 |}] /\
    forall minor,
      minor <> IrpMinorInvalid ->
      Prepared [{| DriverStackEntry := Some (HookedDriver 1 true);
                   IrpContext := Some 101 |};
                {| DriverStackEntry := Some (HookedDriver 2 true);
                   IrpContext := Some 201 |}]
        (set_Public (set_MinorCode minor (Public Irp)) Irp).
Proof.
  apply (create_prepares_the_irp 32 StackedDevice IrpMajorOpen 0).
  - discriminate.
  - by repeat split.
  - reflexivity.
  - vm_compute. discriminate.
  - repeat constructor.
  - discriminate.
Defined.

Lemma destroy_calls_every_owner_witness :
  IoDestroyIrp SampleIrp
  = Done (tt, [EvDestroyIrp 1 1 None; EvDestroyIrp 2 2 None;
               EvDestroyIrp 3 3 None; EvFreeStack; EvObReleaseReference]).
Proof.
  apply (destroy_calls_every_owner SampleIrp
           [QuietEntry 1; QuietEntry 2; QuietEntry 3]);
    try reflexivity.
  - vm_compute. discriminate.
  - repeat constructor; discriminate.
Defined.

Lemma destroy_mirrors_create_witness :
  exists Irp t,
    IoCreateIrp 32 true true (Some StackedDevice) IrpMajorOpen 0
      = Done (Some Irp, t) /\
    forall Irp',
      SameConstants Irp Irp' ->
      IoDestroyIrp Irp'
      = Done (tt, [EvDestroyIrp 11 1 (Some 101); EvDestroyIrp 12 2 (Some 201);
                   EvFreeStack; EvObReleaseReference]).
Proof.
  apply (destroy_mirrors_create 32 StackedDevice IrpMajorOpen 0).
  - discriminate.
  - by repeat split.
  - reflexivity.
  - vm_compute. discriminate.
  - repeat constructor.
Defined.

Lemma create_gives_back_what_it_took_witness :
  exists t,
    IoCreateIrp 32 true true (Some ThirdHookFails) IrpMajorOpen 0
      = Done (None, t) /\
    ObjectsHeld t = 0 /\ StacksHeld t = 0.
Proof.
  eexists. split; [vm_compute; reflexivity|].
  eassert (Hrun : IoCreateIrp 32 true true (Some ThirdHookFails)
                    IrpMajorOpen 0 = Done (None, _))
    by (vm_compute; reflexivity).
  destruct (create_gives_back_what_it_took 32 true (Some ThirdHookFails)
              IrpMajorOpen 0 None _ Hrun) as (Ho & Hs & _).
  exact (conj Ho Hs).
Defined.

(** Surroundings in which the status that [IoSendSynchronousIrp] leaves
    unassigned happens to be a failure. *)
Definition UnluckyEnvironment : ENVIRONMENT :=
  {| ObjectAvailable := true; PoolAvailable := true; Fuel := 8;
     Wakeups := []; Unassigned := STATUS_INSUFFICIENT_RESOURCES |}.

Lemma helpers_leave_no_irp_behind_witness :
  (exists t,
     IopSendCloseIrp 32 SampleEnvironment (SampleDisk DeviceStarted) 5
       = Done (STATUS_SUCCESS, t) /\
     ObjectsHeld t = 0 /\ StacksHeld t = 0) /\
  (exists t,
     IopSendCloseIrp 32 UnluckyEnvironment (ServingDisk DeviceStarted) 5
       = Done (STATUS_INSUFFICIENT_RESOURCES, t) /\
     ObjectsHeld t = 0 /\ StacksHeld t = 0).
Proof.
  split.
  - eexists. split; [vm_compute; reflexivity|].
    apply (proj1 (proj2 (helpers_leave_no_irp_behind 32 SampleEnvironment
                           (SampleDisk DeviceStarted)))
             5 STATUS_SUCCESS).
    vm_compute. reflexivity.
  - eexists. split; [vm_compute; reflexivity|].
    apply (proj1 (proj2 (helpers_leave_no_irp_behind 32 UnluckyEnvironment
                           (ServingDisk DeviceStarted)))
             5 STATUS_INSUFFICIENT_RESOURCES).
    vm_compute. reflexivity.
Defined.

(** A volume that is being unmounted. *)
Definition UnmountingVolume : DEVICE :=
  {| DeviceAddress := 12%nat; DeviceType := ObjectVolume;
     State := DeviceStarted; VolumeFlags := VOLUME_FLAG_UNMOUNTING;
     DriverStackSize := 1; DriverStackHead := [PendingDriver 1];
     TargetDevice := None |}.

Lemma system_control_is_screened_witness :
  IopSendSystemControlIrp 32 SampleEnvironment UnmountingVolume
    IrpMinorSystemControlLookup 0
  = Done (STATUS_DEVICE_NOT_CONNECTED,
          [EvAcquireShared 12%nat; EvReleaseShared 12%nat]).
Proof.
  apply (proj1 (proj2 (system_control_is_screened 32 SampleEnvironment
                         UnmountingVolume IrpMinorSystemControlLookup 0)));
    try reflexivity; discriminate.
Defined.
End IrpFacts.

(** ** The SD/MMC driver *)

Module SdFacts.

Import Sd.

(** The DMA transfers submitted in a trace. *)
Definition IsTransfer (e : Event) : bool :=
  match e with
  | EvBlockIoDma _ _ _ _ _ _ _ => true
  | _ => false
  end.

Definition Transfers (t : list Event) : list Event :=
  List.filter IsTransfer t.

Lemma Transfers_lift {A} (m : Run Irp.Event A) a t :
  lift m = Done (a, t) -> Transfers t = [].
Proof.
  destruct m as [[a' t']| | | |]; simpl; try discriminate.
  intros [= _ <-]. unfold Transfers.
  induction t' as [|e t' IH]; simpl; done.
Qed.

(** C6. The DMA completion callback, called for the disk's active IRP
    (an I/O IRP whose current stack slot the SD driver owns): on a failure
    status it completes the IRP with that status and submits nothing;
    otherwise [IoBytesCompleted] and [NewIoOffset] advance by the bytes
    transferred, and then either [IoBytesCompleted] equals
    [IoSizeInBytes], and the IRP is completed with the status handed in
    and nothing is submitted, or it does not, and the IRP is left as it
    was (not completed) while one DMA transfer is submitted for block
    offset [NewIoOffset >> BlockShift], for the blocks of the bytes that
    remain, at buffer offset [IoBytesCompleted]. *)
Theorem dma_completion_advances_or_completes
    (UINTN_BITS : Z) (SdDriver : Irp.PDRIVER) (Disk : SD_DISK)
    (Context : ADDRESS) (Irp0 : Irp.IRP_INTERNAL)
    (Request : Irp.IRP_READ_WRITE) (BytesTransferred : Z) (Status : KSTATUS) :
  IrpFacts.CurrentOwner Irp0 = Some SdDriver ->
  Irp.U (Irp.Public Irp0) = Irp.UReadWrite Request ->
  let Completed :=
    wrap UINTN_BITS (Irp.IoBytesCompleted Request + BytesTransferred) in
  let NewOffset := ULONGLONG (Irp.NewIoOffset Request + BytesTransferred) in
  exists Irp1 t,
    SdpDmaCompletion UINTN_BITS SdDriver Disk Context (Some Irp0)
      BytesTransferred Status = Done (Irp1, t) /\
    (KSUCCESS Status = false ->
       Irp.Status (Irp.Public Irp1) = Status /\
       flag_test (Irp.Flags Irp1) Irp.IRP_COMPLETE = true /\
       Irp.Direction (Irp.Public Irp1) = Irp.IrpUp /\
       ReadWrite Irp1 = Request /\
       Transfers t = []) /\
    (KSUCCESS Status = true ->
       Irp.IoBytesCompleted (ReadWrite Irp1) = Completed /\
       Irp.NewIoOffset (ReadWrite Irp1) = NewOffset /\
       Irp.IoOffset (ReadWrite Irp1) = Irp.IoOffset Request /\
       Irp.IoSizeInBytes (ReadWrite Irp1) = Irp.IoSizeInBytes Request /\
       (Completed = Irp.IoSizeInBytes Request ->
          Irp.Status (Irp.Public Irp1) = Status /\
          flag_test (Irp.Flags Irp1) Irp.IRP_COMPLETE = true /\
          Irp.Direction (Irp.Public Irp1) = Irp.IrpUp /\
          Transfers t = []) /\
       (Completed <> Irp.IoSizeInBytes Request ->
          Irp.Status (Irp.Public Irp1) = Irp.Status (Irp.Public Irp0) /\
          Irp.Flags Irp1 = Irp.Flags Irp0 /\
          Irp.Direction (Irp.Public Irp1) = Irp.Direction (Irp.Public Irp0) /\
          Transfers t =
            [EvBlockIoDma (DiskController Disk)
               (Z.shiftr NewOffset (BlockShift Disk))
               (Z.shiftr
                  (wrap UINTN_BITS (Irp.IoSizeInBytes Request - Completed))
                  (BlockShift Disk))
               (Irp.IoBuffer Request) Completed
               (Irp.MinorCode (Irp.Public Irp0) =? Irp.IrpMinorIoWrite)
               Context])).
Proof.
  intros Hown HU Completed NewOffset.
  unfold SdpDmaCompletion, deref. rewrite bind_ret_l.
  assert (HR : ReadWrite Irp0 = Request) by (unfold ReadWrite; by rewrite HU).
  destruct (KSUCCESS Status) eqn:Hs; simpl negb; cbv iota.
  - rewrite HR. fold Completed. fold NewOffset.
    set (Irp1 := Irp.set_Public _ Irp0).
    unfold Irp.UINTN. fold Completed.
    destruct (Z.eqb_spec Completed (Irp.IoSizeInBytes Request)) as [Heq|Hne].
    + destruct (IrpFacts.IoCompleteIrp_by_owner SdDriver Irp1 Status)
        as (Irp2 & t & Hrun & Hst & Hdir & Hfl & HU2 & _); [exact Hown|].
      rewrite Hrun. eexists _, _. split; [reflexivity|].
      split; [done|]. intros _.
      unfold ReadWrite. rewrite HU2. simpl.
      repeat split; try done.
      eapply (Transfers_lift (Done (Irp2, t))). reflexivity.
    + eexists _, _. split; [reflexivity|].
      split; [done|]. intros _.
      repeat split; try done.
  - destruct (IrpFacts.IoCompleteIrp_by_owner SdDriver Irp0 Status)
      as (Irp2 & t & Hrun & Hst & Hdir & Hfl & HU2 & _); [exact Hown|].
    rewrite Hrun. eexists _, _. split; [reflexivity|].
    split; [|done]. intros _.
    unfold ReadWrite. rewrite HU2, HU. simpl.
    repeat split; try done.
    eapply (Transfers_lift (Done (Irp2, t))). reflexivity.
Qed.

Definition SdDriverEntry (address : nat) : Irp.IRP_STACK_ENTRY :=
  {| Irp.DriverStackEntry :=
       Some {| Irp.Driver :=
                 {| Irp.DriverAddress := address;
                    Irp.FunctionTable := IrpFacts.PendingTable address |};
               Irp.DriverContext := 40 |};
     Irp.IrpContext := None |}.

(** A write of 4096 bytes at byte offset 4096, pended by the SD driver
    (address 1), of which nothing has been transferred yet. *)
Definition SampleIoIrp : Irp.IRP_INTERNAL :=
  {| Irp.Public :=
       {| Irp.Header := {| Irp.ReferenceCount := 1; Irp.Signaled := false |};
          Irp.Device := Some 9%nat; Irp.MajorCode := Irp.IrpMajorIo;
          Irp.MinorCode := Irp.IrpMinorIoWrite; Irp.Direction := Irp.IrpDown;
          Irp.Status := STATUS_NOT_HANDLED;
          Irp.U := Irp.UReadWrite
                     {| Irp.IoBuffer := Some 5%nat; Irp.IoFlags := 0;
                        Irp.IoOffset := 4096; Irp.IoSizeInBytes := 4096;
                        Irp.IoBytesCompleted := 0; Irp.NewIoOffset := 4096;
                        Irp.FileSize := 524288 |};
          Irp.CompletionRoutine := None; Irp.CompletionContext := 0 |};
     Irp.Magic := Irp.IRP_MAGIC_VALUE; Irp.ShadowDevice := Some 9%nat;
     Irp.ShadowMajorCode := Irp.IrpMajorIo;
     Irp.Stack := Some [SdDriverEntry 1];
     Irp.StackIndex := 0; Irp.StackSize := 1;
     Irp.Flags := Z.lor Irp.IRP_ACTIVE Irp.IRP_PENDING |}.

Definition SampleSdDisk : SD_DISK :=
  {| DiskType := SdDeviceDisk; ReferenceCount := 2;
     DiskDevice := Some 9%nat; DiskParent := Some 30%nat;
     DiskController := Some 31%nat; ControllerLock := Some 32%nat;
     DiskIrp := Some 50%nat; DiskIoBuffer := Some 5%nat;
     DiskFlags := Z.lor SD_DISK_FLAG_MEDIA_PRESENT SD_DISK_FLAG_DMA_SUPPORTED;
     BlockShift := 9; BlockCount := 1024; DiskToken := Some 40%nat |}.

Lemma dma_completion_advances_or_completes_witness :
  exists Irp1 t,
    SdpDmaCompletion 32 1%nat SampleSdDisk 40%nat (Some SampleIoIrp) 2048
      STATUS_SUCCESS = Done (Irp1, t) /\
    Irp.IoBytesCompleted (ReadWrite Irp1) = 2048 /\
    Irp.NewIoOffset (ReadWrite Irp1) = 6144 /\
    Transfers t =
      [EvBlockIoDma (Some 31%nat) 12 4 (Some 5%nat) 2048 true 40%nat].
Proof.
  destruct (dma_completion_advances_or_completes 32 1%nat SampleSdDisk 40%nat
              SampleIoIrp _ 2048 STATUS_SUCCESS eq_refl eq_refl)
    as (Irp1 & t & Hrun & _ & Hok).
  destruct (Hok eq_refl) as (Hdone & Hnew & _ & _ & _ & Hmore).
  destruct Hmore as (_ & _ & _ & Ht); [vm_compute; discriminate|].
  exists Irp1, t. split; [exact Hrun|].
  split; [exact Hdone|]. split; [exact Hnew|]. exact Ht.
Defined.

(** *** A card that disappears during enumeration *)

Lemma insertion_is_a_change (f : Z) :
  flag_test f SD_SLOT_FLAG_INSERTION_PENDING = true ->
  flag_test f (Z.lor SD_SLOT_FLAG_INSERTION_PENDING
                 SD_SLOT_FLAG_REMOVAL_PENDING) = true.
Proof.
  unfold flag_test. intros H.
  destruct (Z.eqb_spec (Z.land f (Z.lor SD_SLOT_FLAG_INSERTION_PENDING
                                    SD_SLOT_FLAG_REMOVAL_PENDING)) 0)
    as [H0|]; [|done].
  assert (Z.land f SD_SLOT_FLAG_INSERTION_PENDING = 0) as Hz; [|by rewrite Hz in H].
  change SD_SLOT_FLAG_INSERTION_PENDING
    with (Z.land (Z.lor SD_SLOT_FLAG_INSERTION_PENDING
                    SD_SLOT_FLAG_REMOVAL_PENDING)
            SD_SLOT_FLAG_INSERTION_PENDING) at 1.
  by rewrite Z.land_assoc, H0.
Qed.

Lemma LoadDisk_Some (m : MEMORY) (a : ADDRESS) (d : SD_DISK) :
  Disks m !! a = Some d -> LoadDisk m (Some a) = ret d.
Proof. intros H. unfold LoadDisk, deref. rewrite bind_ret_l. by rewrite H. Qed.

(** Dropping the only reference of a disk context frees it, with a
    reference count of zero. *)
Lemma release_last_reference (m : MEMORY) (a : ADDRESS) (d : SD_DISK) :
  Disks m !! a = Some d -> ReferenceCount d = 1 ->
  SdpDiskReleaseReference m a
  = Done (set_Disks (delete a (Disks m)) m,
          [EvDestroyDisk a (set_ReferenceCount 0 d)]).
Proof.
  intros Hd Hc. unfold SdpDiskReleaseReference.
  rewrite (LoadDisk_Some _ _ _ Hd). simpl bind. rewrite Hc. simpl.
  unfold SdpDestroyDisk, LoadDisk, deref. simpl.
  rewrite lookup_insert_eq. simpl.
  unfold set_Disks. simpl. by rewrite delete_insert_eq.
Qed.
Lemma SlotPublishDisk_gone (env : ENUMERATION) (m : MEMORY) (a : ADDRESS)
    (d : SD_DISK) :
  Disks m !! a = Some d -> ReferenceCount d = 1 ->
  InitializeDma env = STATUS_NO_MEDIA ->
  SlotPublishDisk env a m
  = Done (STATUS_SUCCESS, set_Disks (delete a (Disks m)) m,
          [EvInitializeDma (DiskController d);
           EvDestroyDisk a (set_ReferenceCount 0 d)]).
Proof.
  intros Hd Hc Hdma. unfold SlotPublishDisk.
  rewrite (LoadDisk_Some _ _ _ Hd), Hdma.
  unfold SlotQueryChildrenEnd.
  rewrite (release_last_reference _ _ _ Hd Hc). reflexivity.
Qed.

Lemma SlotReadMedia_gone (env : ENUMERATION) (m : MEMORY) (a : ADDRESS)
    (d : SD_DISK) :
  Disks m !! a = Some d -> ReferenceCount d = 1 ->
  (MediaParameters env).1.1 = STATUS_NO_MEDIA \/
  (KSUCCESS (MediaParameters env).1.1 = true /\
   InitializeDma env = STATUS_NO_MEDIA) ->
  exists t Destroyed,
    SlotReadMedia env a m
    = Done (STATUS_SUCCESS, set_Disks (delete a (Disks m)) m, t) /\
    EvDestroyDisk a Destroyed ∈ t /\
    ReferenceCount Destroyed = 0 /\
    DiskDevice Destroyed = DiskDevice d /\
    EvCreateDevice a ∉ t.
Proof.
  intros Hd Hc Hgone. unfold SlotReadMedia.
  rewrite (LoadDisk_Some _ _ _ Hd).
  destruct (MediaParameters env) as [[Status Count] BlockSize].
  cbn [fst] in Hgone. destruct Hgone as [-> | [Hok Hdma]].
  - unfold SlotQueryChildrenEnd.
    rewrite (release_last_reference _ _ _ Hd Hc).
    eexists _; exists (set_ReferenceCount 0 d). split; [reflexivity|].
    repeat split; try done; set_solver.
  - set (d2 := set_BlockShift (RtlCountTrailingZeros32 BlockSize)
                 (set_BlockCount (ULONGLONG Count) d)).
    assert (Hd2 : Disks (StoreDisk m a d2) !! a = Some d2)
      by (simpl; by rewrite lookup_insert_eq).
    rewrite Hok, bind_ret_l. cbn [negb]. cbv zeta. fold d2.
    rewrite (SlotPublishDisk_gone env _ a d2 Hd2 Hc Hdma).
    cbn [StoreDisk set_Disks Disks]. rewrite delete_insert_eq.
    eexists _; exists (set_ReferenceCount 0 d2). split; [reflexivity|].
    repeat split; try done; set_solver.
Qed.

(** C8. An enumeration of a slot with an insertion pending, in which the
    controller initializes, a disk context is allocated, and the card then
    turns out to be gone ([STATUS_NO_MEDIA] from the media parameters, or
    from the DMA initialization after the media parameters were read):
    [SdpSlotQueryChildren] returns [STATUS_SUCCESS], the slot has no disk,
    no child is reported, no OS device was created for the new context,
    and the new context is destroyed with a reference count of zero and is
    no longer in the pool. *)
Theorem vanished_card_is_released (env : ENUMERATION) (m : MEMORY)
    (a : ADDRESS) :
  flag_test (SlotFlags (Slot m)) SD_SLOT_FLAG_INSERTION_PENDING = true ->
  (forall old, SlotDisk (Slot m) = Some old -> is_Some (Disks m !! old)) ->
  KSUCCESS (InitializeController env) = true ->
  DiskAllocation env = Some a ->
  Disks m !! a = None ->
  (MediaParameters env).1.1 = STATUS_NO_MEDIA \/
  (KSUCCESS (MediaParameters env).1.1 = true /\
   InitializeDma env = STATUS_NO_MEDIA) ->
  exists m' t Destroyed,
    SdpSlotQueryChildren env m = Done (STATUS_SUCCESS, m', t) /\
    SlotDisk (Slot m') = None /\
    Children m' = Children m /\
    Disks m' !! a = None /\
    EvDestroyDisk a Destroyed ∈ t /\
    ReferenceCount Destroyed = 0 /\
    DiskDevice Destroyed = None /\
    EvCreateDevice a ∉ t.
Proof.
  intros Hins Hold Hinit Halloc Hfresh Hgone.
  unfold SdpSlotQueryChildren. cbv zeta.
  rewrite (insertion_is_a_change _ Hins), Hins.
  set (m0 := set_Slot _ m).
  (* the existing disk, if any, is detached *)
  assert (exists m1 t1,
    DetachDisk m0 = Done (m1, t1) /\
    SlotDisk (Slot m1) = None /\ Children m1 = Children m /\
    Disks m1 !! a = None /\
    (forall e, e ∈ t1 ->
       e = EvAcquireQueuedLock (SlotLock (Slot m0)) \/
       e = EvReleaseQueuedLock (SlotLock (Slot m0))))
    as (m1 & t1 & -> & Hnodisk & Hchildren & Hfresh1 & Ht1).
  { unfold DetachDisk. destruct (SlotDisk (Slot m0)) as [old|] eqn:Hd.
    - destruct (Hold old Hd) as [d Hlook].
      rewrite (LoadDisk_Some m0 old d Hlook).
      eexists _, _. split; [reflexivity|]. simpl.
      repeat split.
      + rewrite lookup_insert_ne; [done|]. intros ->. congruence.
      + intros e He. set_solver.
    - eexists _, _. split; [reflexivity|]. repeat split; try done.
      intros e He. set_solver. }
  (* the new disk context is created and then released *)
  set (m2 := StoreDisk m1 a (NewDiskContext (Slot m1))).
  destruct (SlotReadMedia_gone env m2 a (NewDiskContext (Slot m1)))
    as (t2 & Destroyed & Hrun & Hin & Hcount & Hdev & Hnodev);
    [simpl; by rewrite lookup_insert_eq | done | done |].
  assert (Hinsert :
    SlotInsertDisk env m1
    = Done (STATUS_SUCCESS, set_Disks (delete a (Disks m2)) m2,
            [EvDelayExecution SD_INSERTION_SETTLE_DELAY;
             EvInitializeController (SlotController (Slot m1)) true;
             EvAllocateDisk] ++ t2)).
  { unfold SlotInsertDisk, SdpCreateDisk. rewrite Hinit, Halloc.
    cbn [negb]. unfold emit, ret, bind. fold m2. rewrite Hrun.
    reflexivity. }
  exists (set_Disks (delete a (Disks m2)) m2),
    (t1 ++ [EvDelayExecution SD_INSERTION_SETTLE_DELAY;
            EvInitializeController (SlotController (Slot m1)) true;
            EvAllocateDisk] ++ t2), Destroyed.
  split; [|repeat split].
  - unfold bind at 1. rewrite Hinsert. reflexivity.
  - exact Hnodisk.
  - exact Hchildren.
  - simpl. by rewrite lookup_delete_eq.
  - set_solver.
  - exact Hcount.
  - by rewrite Hdev.
  - intros Hbad. rewrite !elem_of_app in Hbad.
    destruct Hbad as [Hbad|Hbad].
    + destruct (Ht1 _ Hbad); discriminate.
    + set_solver.
Qed.

Definition SampleMemory : MEMORY :=
  {| Slot := {| SlotAddress := 30%nat; SlotDevice := Some 8%nat;
                SlotController := Some 31%nat; SlotDisk := Some 59%nat;
                SlotFlags :=
                  Z.lor SD_SLOT_FLAG_INSERTION_PENDING
                    SD_SLOT_FLAG_REMOVAL_PENDING;
                SlotLock := Some 32%nat |};
     Disks := {[ 59%nat := SampleSdDisk ]};
     Children := [] |}.

(** The card answers the initialization and is gone when its parameters
    are asked for. *)
Definition SampleEnumeration : ENUMERATION :=
  {| InitializeController := STATUS_SUCCESS;
     DiskAllocation := Some 60%nat;
     MediaParameters := (STATUS_NO_MEDIA, 0, 0);
     InitializeDma := STATUS_SUCCESS;
     CreateDevice := (STATUS_SUCCESS, Some 61%nat);
     MergeChildArrays := STATUS_SUCCESS |}.

Lemma vanished_card_is_released_witness :
  exists m' t Destroyed,
    SdpSlotQueryChildren SampleEnumeration SampleMemory
      = Done (STATUS_SUCCESS, m', t) /\
    SlotDisk (Slot m') = None /\
    Children m' = [] /\
    Disks m' !! 60%nat = None /\
    EvDestroyDisk 60%nat Destroyed ∈ t /\
    ReferenceCount Destroyed = 0 /\
    DiskDevice Destroyed = None /\
    EvCreateDevice 60%nat ∉ t.
Proof.
  apply (vanished_card_is_released SampleEnumeration SampleMemory 60%nat).
  - reflexivity.
  - intros old [= <-]. vm_compute. eexists. reflexivity.
  - reflexivity.
  - reflexivity.
  - reflexivity.
  - left. reflexivity.
Defined.

(** *** Polled block I/O *)

(** The caller's buffer is not aligned, so the memory manager substitutes
    a buffer of two fragments of one block each. *)
Definition CallerBuffer : IO_BUFFER :=
  {| BufferAddress := 5%nat;
     Fragment := [{| VirtualAddress := 0x1001; PhysicalAddress := 0x20001;
                     Size := 1024 |}];
     CurrentOffset := 0 |}.

Definition SubstituteBuffer : IO_BUFFER :=
  {| BufferAddress := 6%nat;
     Fragment := [{| VirtualAddress := 0x8000; PhysicalAddress := 0x40000;
                     Size := 512 |};
                  {| VirtualAddress := 0xA000; PhysicalAddress := 0x50000;
                     Size := 512 |}];
     CurrentOffset := 0 |}.

(** The card serves block 8 and is pulled out before block 9; [Validated]
    is the buffer the memory manager settles on. *)
Definition CardPulledAfterBlock8 (Validated : IO_BUFFER)
  : POLLED_ENVIRONMENT :=
  {| ValidateIoBuffer := (STATUS_SUCCESS, Validated);
     CopyIn := STATUS_SUCCESS;
     MapIoBuffer := STATUS_SUCCESS;
     BlockIoPolled :=
       fun BlockOffset BlockCount' _ _ =>
         if BlockOffset + BlockCount' <=? 9 then STATUS_SUCCESS
         else STATUS_NO_MEDIA;
     CopyBack := STATUS_SUCCESS |}.

(** C7, at the failing input: a polled read of the two blocks 8 and 9
    from a disk with 512-byte blocks, through a substitute buffer, when
    the controller fails the second call with [STATUS_NO_MEDIA]. The loop
    is left at the failure, but the status of the copy back into the
    caller's buffer then overwrites the controller's: the function
    returns [STATUS_SUCCESS] with one block completed of the two asked
    for. *)
Theorem polled_read_hides_controller_failure :
  SdpPerformBlockIoPolled 32 8 (CardPulledAfterBlock8 SubstituteBuffer)
    SampleSdDisk
    CallerBuffer 8 2 false true
  = Done (STATUS_SUCCESS, 1,
          [EvValidateIoBuffer MAX_ULONGLONG 512 1024;
           EvMapIoBuffer 6%nat;
           EvAcquireQueuedLock (Some 32%nat);
           EvBlockIoPolled (Some 31%nat) 8 1 0x8000 false;
           EvBlockIoPolled (Some 31%nat) 9 1 0xA000 false;
           EvReleaseQueuedLock (Some 32%nat);
           EvCopyIoBuffer 5%nat 6%nat 512;
           EvFreeIoBuffer 6%nat;
           EvFlushBuffer 0x1001 1024]).
Proof. vm_compute. reflexivity. Qed.

(** When the caller's own buffer is used (here the aligned two-fragment
    buffer itself) the same failure is surfaced. *)
Example polled_read_surfaces_controller_failure :
  exists t,
    SdpPerformBlockIoPolled 32 8 (CardPulledAfterBlock8 SubstituteBuffer)
      SampleSdDisk SubstituteBuffer 8 2 false true
    = Done (STATUS_NO_MEDIA, 1, t).
Proof. eexists. vm_compute. reflexivity. Qed.

(** The events that take or release the controller lock. *)
Definition IsLockEvent (e : Event) : bool :=
  match e with
  | EvAcquireQueuedLock _ | EvReleaseQueuedLock _ => true
  | _ => false
  end.

Definition LockFree (t : list Event) : Prop :=
  Forall (fun e => IsLockEvent e = false) t.

Lemma LockFree_bind {A B} (m : Run Event A) (k : A -> Run Event B) b t :
  bind m k = Done (b, t) ->
  (forall a t1, m = Done (a, t1) -> LockFree t1) ->
  (forall a t2, k a = Done (b, t2) -> LockFree t2) ->
  LockFree t.
Proof.
  intros H Hm Hk. apply bind_inv in H as (a & t1 & t2 & H1 & H2 & ->).
  apply Forall_app. split; [by eapply Hm | by eapply Hk].
Qed.

Lemma LockFree_emit (e : Event) u t :
  IsLockEvent e = false -> emit e = Done (u, t) -> LockFree t.
Proof. intros He [= _ <-]. by repeat constructor. Qed.

Lemma LockFree_ret {A} (a b : A) t : ret (E := Event) a = Done (b, t) -> LockFree t.
Proof. intros [= _ <-]. constructor. Qed.

Lemma LockFree_index {A} (l : list A) i x t :
  index (E := Event) l i = Done (x, t) -> LockFree t.
Proof.
  unfold index. destruct (_ || _); [discriminate|].
  destruct (l !! _); [|discriminate]. apply LockFree_ret.
Qed.

Lemma FindStartingFragment_LockFree UINTN_BITS fuel b off i r t :
  FindStartingFragment UINTN_BITS fuel b off i = Done (r, t) -> LockFree t.
Proof.
  revert off i t.
  induction fuel as [|fuel IH]; intros off i t; cbn [FindStartingFragment].
  - destruct (off =? 0); [apply LockFree_ret|discriminate].
  - destruct (off =? 0); [apply LockFree_ret|].
    intros H. eapply LockFree_bind; [exact H | intros ? ?; apply LockFree_index|].
    intros f t2. cbv beta. destruct (off <? Size f); [apply LockFree_ret|].
    apply IH.
Qed.

Lemma PolledTransferLoop_LockFree UINTN_BITS fuel env Disk b n w L r t :
  PolledTransferLoop UINTN_BITS fuel env Disk b n w L = Done (r, t) ->
  LockFree t.
Proof.
  revert L t.
  induction fuel as [|fuel IH]; intros L t; cbn [PolledTransferLoop].
  - destruct (lBlocksComplete L =? n); [apply LockFree_ret|discriminate].
  - destruct (lBlocksComplete L =? n); [apply LockFree_ret|].
    intros H. eapply LockFree_bind; [exact H | intros ? ?; apply LockFree_index|].
    intros f t2 H2. cbv beta zeta in H2.
    eapply LockFree_bind; [exact H2 | intros ? ?; by apply LockFree_emit|].
    intros [] t3. destruct (negb _); [apply LockFree_ret|]. apply IH.
Qed.

Lemma FlushFragments_LockFree l u t :
  FlushFragments l = Done (u, t) -> LockFree t.
Proof.
  revert t. induction l as [|f l IH]; intros t; cbn [FlushFragments].
  - apply LockFree_ret.
  - intros H. eapply LockFree_bind; [exact H | intros ? ?; by apply LockFree_emit|].
    intros [] t2. apply IH.
Qed.

Lemma PerformBlockIoPolledEnd_LockFree UINTN_BITS env Disk o b w s n r t :
  PerformBlockIoPolledEnd UINTN_BITS env Disk o b w false s n = Done (r, t) ->
  LockFree t.
Proof.
  unfold PerformBlockIoPolledEnd. intros H.
  eapply LockFree_bind; [exact H | intros ? ?; apply LockFree_ret|].
  intros [] t2 H2. clear H.
  eapply LockFree_bind; [exact H2| |].
  - intros a t1. destruct (negb (bool_decide _)); [|apply LockFree_ret].
    intros H3. eapply LockFree_bind; [exact H3| |].
    + intros a' t1'.
      destruct (negb w && negb (n =? 0)); [|apply LockFree_ret].
      intros H4. eapply LockFree_bind;
        [exact H4 | intros ? ?; by apply LockFree_emit|].
      intros [] t4. destruct (negb _); apply LockFree_ret.
    + intros a' t2' H4. eapply LockFree_bind;
        [exact H4 | intros ? ?; by apply LockFree_emit|].
      intros [] t4. apply LockFree_ret.
  - intros [s' n'] t3 H3. eapply LockFree_bind; [exact H3| |].
    + intros a t1.
      destruct (negb w && negb (n' =? 0)); [apply FlushFragments_LockFree|].
      apply LockFree_ret.
    + intros [] t4. apply LockFree_ret.
Qed.

(** With [LockRequired = FALSE] the controller lock is neither acquired
    nor released, whatever the memory manager and the controller answer. *)
Lemma polled_io_without_lock (UINTN_BITS : Z) (fuel : nat)
    (env : POLLED_ENVIRONMENT) (Disk : SD_DISK) (IoBuffer : IO_BUFFER)
    (BlockAddress BlocksToComplete : Z) (Write : bool) r t :
  SdpPerformBlockIoPolled UINTN_BITS fuel env Disk IoBuffer BlockAddress
    BlocksToComplete Write false = Done (r, t) ->
  LockFree t.
Proof.
  unfold SdpPerformBlockIoPolled. intros H.
  eapply LockFree_bind; [exact H | intros ? ?; by apply LockFree_emit|].
  clear H. intros [] t1. cbv beta. destruct (ValidateIoBuffer env) as [s0 b].
  destruct (KSUCCESS s0); cbn [negb];
    [|apply PerformBlockIoPolledEnd_LockFree].
  intros H. eapply LockFree_bind; [exact H| |].
  - intros a t2. cbv beta.
    destruct (negb (bool_decide (BufferAddress b = BufferAddress IoBuffer))
              && Write); [|apply LockFree_ret].
    intros H2. eapply LockFree_bind;
      [exact H2 | intros ? ?; by apply LockFree_emit|].
    intros [] t3. apply LockFree_ret.
  - clear H. intros s1 t2. cbv beta.
    destruct (KSUCCESS s1); cbn [negb];
      [|apply PerformBlockIoPolledEnd_LockFree].
    intros H. eapply LockFree_bind;
      [exact H | intros ? ?; by apply LockFree_emit|].
    clear H. intros [] t3. cbv beta zeta.
    destruct (KSUCCESS (MapIoBuffer env)); cbn [negb];
      [|apply PerformBlockIoPolledEnd_LockFree].
    intros H. eapply LockFree_bind;
      [exact H | intros ? ?; apply FindStartingFragment_LockFree|].
    clear H. intros [i off] t4 H. cbv beta iota in H.
    eapply LockFree_bind; [exact H | intros ? ?; apply LockFree_ret|].
    clear H. intros [] t5. cbv beta.
    destruct (flag_test (DiskFlags Disk) SD_DISK_FLAG_MEDIA_PRESENT);
      cbn [negb]; [|apply PerformBlockIoPolledEnd_LockFree].
    intros H. eapply LockFree_bind;
      [exact H | intros ? ?; apply PolledTransferLoop_LockFree|].
    intros [s3 L] t6. cbv beta iota. apply PerformBlockIoPolledEnd_LockFree.
Qed.

(** *** The anatomy of a polled transfer *)

Definition IsPolledTransfer (e : Event) : bool :=
  match e with
  | EvBlockIoPolled _ _ _ _ _ => true
  | _ => false
  end.

(** Events that touch neither the controller lock nor the controller. *)
Definition IsQuiet (e : Event) : bool :=
  negb (IsLockEvent e) && negb (IsPolledTransfer e).

(** The work on I/O buffers that surrounds the transfers. *)
Definition IsBufferWork (e : Event) : bool :=
  match e with
  | EvValidateIoBuffer _ _ _ | EvCopyIoBuffer _ _ _ | EvMapIoBuffer _
  | EvFreeIoBuffer _ | EvFlushBuffer _ _ => true
  | _ => false
  end.

Lemma BufferWork_quiet (t : list Event) :
  Forall (fun e => IsBufferWork e = true) t ->
  Forall (fun e => IsQuiet e = true) t.
Proof. intros H. eapply Forall_impl; [exact H|]. by intros []. Qed.

(** The I/O buffers freed in a trace, in order. *)
Definition Frees (t : list Event) : list ADDRESS :=
  omap (fun e => match e with EvFreeIoBuffer a => Some a | _ => None end) t.

(** The polled transfers of a trace, each with its block offset and its
    block count. *)
Definition PolledCalls (t : list Event) : list (Z * Z) :=
  omap (fun e => match e with
                 | EvBlockIoPolled _ o c _ _ => Some (o, c)
                 | _ => None
                 end) t.

(** Transfers that start at [Offset] and each start where the one before
    ended. *)
Fixpoint Consecutive (Offset : Z) (calls : list (Z * Z)) : Prop :=
  match calls with
  | [] => True
  | (o, c) :: calls' => o = Offset /\ Consecutive (ULONGLONG (o + c)) calls'
  end.

(** A transfer of the disk's controller in the direction [Write]. *)
Definition TransferOf (Disk : SD_DISK) (Write : bool) (e : Event) : Prop :=
  exists o c va, e = EvBlockIoPolled (DiskController Disk) o c va Write.

Lemma Frees_app t1 t2 : Frees (t1 ++ t2) = Frees t1 ++ Frees t2.
Proof. apply omap_app. Qed.

Lemma PolledCalls_app t1 t2 :
  PolledCalls (t1 ++ t2) = PolledCalls t1 ++ PolledCalls t2.
Proof. apply omap_app. Qed.

Lemma TransferOf_quiet Disk Write t :
  Forall (TransferOf Disk Write) t ->
  Forall (fun e => IsPolledTransfer e = true) t /\ Frees t = [].
Proof.
  induction 1 as [|e t (o & c & va & ->) _ [IH1 IH2]]; [done|].
  split; [by constructor | done].
Qed.

Lemma FlushFragments_run (l : list IO_BUFFER_FRAGMENT) :
  FlushFragments l
  = Done (tt, map (fun f => EvFlushBuffer (VirtualAddress f) (Size f)) l).
Proof.
  induction l as [|f l IH]; [done|]. cbn [FlushFragments].
  rewrite IH. reflexivity.
Qed.

Lemma Flushes_quiet (l : list IO_BUFFER_FRAGMENT) :
  let t := map (fun f => EvFlushBuffer (VirtualAddress f) (Size f)) l in
  Forall (fun e => IsBufferWork e = true) t /\ Frees t = [] /\ PolledCalls t = [].
Proof. induction l as [|f l (IH1 & IH2 & IH3)]; cbn; [done|]. by repeat split; [constructor|..]. Qed.

Section Polled.

Variable UINTN_BITS : Z.
Variable env : POLLED_ENVIRONMENT.
Variable Disk : SD_DISK.

(** The transfer loop calls the disk's controller and nothing else, for
    consecutive block ranges, and ends in success only with every block
    complete. *)
Lemma PolledTransferLoop_shape fuel b N W L s L' t :
  PolledTransferLoop UINTN_BITS fuel env Disk b N W L = Done (s, L', t) ->
  Forall (TransferOf Disk W) t /\
  Consecutive (lBlockOffset L) (PolledCalls t) /\
  (KSUCCESS s = true -> lBlocksComplete L' = N) /\
  (t = [] -> s = STATUS_SUCCESS).
Proof.
  revert L t.
  induction fuel as [|fuel IH]; intros L t; cbn [PolledTransferLoop].
  - destruct (Z.eqb_spec (lBlocksComplete L) N); [|discriminate].
    by intros [= <- <- <-].
  - destruct (Z.eqb_spec (lBlocksComplete L) N).
    { by intros [= <- <- <-]. }
    intros H. apply bind_inv in H as (f & t1 & t2 & Hf & H & ->).
    assert (t1 = []) as ->.
    { unfold index in Hf. destruct (_ || _); [done|].
      destruct (_ !! _); [by injection Hf as _ <- | done]. }
    cbv zeta in H.
    apply bind_inv in H as ([] & t3 & t4 & [= <-] & H & ->).
    destruct (negb (KSUCCESS (BlockIoPolled env _ _ _ _))) eqn:Hk.
    + injection H as <- <- <-. cbn.
      split; [|split; [|split]]; [|done| |done].
      * constructor; [|done]. by eexists _, _, _.
      * intros Hs. by rewrite Hs in Hk.
    + apply IH in H as (H1 & H2 & H3 & H4). cbn.
      split; [|split; [|split]]; [|done|done|done].
      constructor; [|done]. by eexists _, _, _.
Qed.

(** The cleanup releases the lock if it is held, frees the substitute
    buffer if there is one, and changes the result only when data read
    through a substitute buffer is copied back. *)
Lemma PerformBlockIoPolledEnd_shape O B W held s3 n3 s n t :
  PerformBlockIoPolledEnd UINTN_BITS env Disk O B W held s3 n3
    = Done (s, n, t) ->
  exists rest,
    t = (if held then [EvReleaseQueuedLock (ControllerLock Disk)] else [])
        ++ rest /\
    Forall (fun e => IsBufferWork e = true) rest /\
    Frees rest = (if decide (BufferAddress O = BufferAddress B) then []
                  else [BufferAddress B]) /\
    ((s = s3 /\ n = n3) \/
     (W = false /\ BufferAddress O <> BufferAddress B /\ n3 <> 0 /\
      s = CopyBack env /\
      n = if KSUCCESS (CopyBack env) then n3 else 0)).
Proof.
  unfold PerformBlockIoPolledEnd. intros H.
  apply bind_inv in H as ([] & t1 & t2 & Hl & H & ->).
  exists t2. split.
  { f_equal. destruct held; by injection Hl as <-. }
  clear Hl. apply bind_inv in H as ([s' n'] & t3 & t4 & Hr & H & ->).
  apply bind_inv in H as ([] & t5 & t6 & Hf & [= <- <- <-] & ->).
  rewrite app_nil_r.
  assert (Ht5 : Forall (fun e => IsBufferWork e = true) t5 /\ Frees t5 = []).
  { destruct (negb W && negb (n' =? 0)).
    - rewrite FlushFragments_run in Hf. injection Hf as <-.
      pose proof (Flushes_quiet (Fragment O)) as (? & ? & _). done.
    - by injection Hf as <-. }
  destruct Ht5 as [Hq5 Hf5]. rewrite Frees_app, Hf5, app_nil_r.
  rewrite Forall_app.
  split; [split; [|done]|].
  - unfold ret in *.
    destruct (bool_decide _); cbn [negb] in Hr; [by injection Hr as _ _ <-|].
    apply bind_inv in Hr as (r' & t7 & t8 & Hc & Hr & ->).
    apply bind_inv in Hr as ([] & t9 & t10 & [= <-] & [= _ <-] & ->).
    apply Forall_app. split; [|by repeat constructor].
    destruct (_ && _); [|by injection Hc as _ <-].
    apply bind_inv in Hc as ([] & t11 & t12 & [= <-] & Hc & ->).
    destruct (negb _); injection Hc as _ <-; by repeat constructor.
  - unfold ret in *.
    destruct (decide (BufferAddress O = BufferAddress B)) as [Heq|Hne].
    { rewrite bool_decide_eq_true_2 in Hr by done. cbn in Hr.
      injection Hr as <- <- <-. split; [done|]. by left. }
    rewrite bool_decide_eq_false_2 in Hr by done. cbn [negb] in Hr.
    apply bind_inv in Hr as ([s'' n''] & t7 & t8 & Hc & Hr & ->).
    apply bind_inv in Hr as ([] & t9 & t10 & [= <-] & [= <- <- <-] & ->).
    rewrite Frees_app. cbn [Frees omap app].
    destruct W; cbn [negb andb] in Hc.
    { injection Hc as <- <- <-. split; [done|]. by left. }
    destruct (Z.eqb_spec n3 0) as [Hz|Hz]; cbn [negb] in Hc.
    { injection Hc as <- <- <-. split; [done|]. by left. }
    apply bind_inv in Hc as ([] & t11 & t12 & [= <-] & Hc & ->).
    destruct (KSUCCESS (CopyBack env)); cbn [negb] in Hc;
      injection Hc as <- <- <-; (split; [done|]); by right.
Qed.

Lemma FindStartingFragment_silent fuel b off i r t :
  FindStartingFragment UINTN_BITS fuel b off i = Done (r, t) -> t = [].
Proof.
  revert off i.
  induction fuel as [|fuel IH]; intros off i; cbn [FindStartingFragment].
  - destruct (off =? 0); [by intros [= _ <-]|done].
  - destruct (off =? 0); [by intros [= _ <-]|].
    intros H. apply bind_inv in H as (f & t1 & t2 & Hf & H & ->).
    assert (t1 = []) as ->.
    { unfold index in Hf. destruct (_ || _); [done|].
      destruct (_ !! _); [by injection Hf as _ <- | done]. }
    destruct (off <? Size f); [by injection H as _ <-|]. by apply IH in H.
Qed.

(** A run of [SdpPerformBlockIoPolled]: the preparation of the buffer,
    the acquisition of the lock if it is held from there on, the
    transfers, and the cleanup that is handed the status [s3] and the
    blocks complete [n3]. *)
Lemma SdpPerformBlockIoPolled_anatomy fuel O A N W LR s n t :
  SdpPerformBlockIoPolled UINTN_BITS fuel env Disk O A N W LR
    = Done (s, n, t) ->
  exists setup transfers (held : bool) s3 n3 tend,
    t = setup
        ++ (if held then [EvAcquireQueuedLock (ControllerLock Disk)] else [])
        ++ transfers ++ tend /\
    Forall (fun e => IsBufferWork e = true) setup /\ Frees setup = [] /\
    PerformBlockIoPolledEnd UINTN_BITS env Disk O (ValidateIoBuffer env).2 W
      held s3 n3 = Done (s, n, tend) /\
    Forall (TransferOf Disk W) transfers /\
    Consecutive A (PolledCalls transfers) /\
    (KSUCCESS s3 = true -> n3 = N) /\
    (held = true -> LR = true) /\
    (held = false -> LR = true ->
     transfers = [] /\ n3 = 0 /\ KSUCCESS s3 = false) /\
    (flag_test (DiskFlags Disk) SD_DISK_FLAG_MEDIA_PRESENT = false ->
     transfers = [] /\ n3 = 0 /\ KSUCCESS s3 = false).
Proof.
  unfold SdpPerformBlockIoPolled. intros H.
  apply bind_inv in H as ([] & t1 & t2 & [= <-] & H & ->).
  destruct (ValidateIoBuffer env) as [s0 B]. cbn [snd].
  destruct (KSUCCESS s0) eqn:Hs0; cbn [negb] in H.
  2:{ eexists _, (@nil Event), false, s0, 0, t2.
      split; [reflexivity|]. split; [by repeat constructor|].
      split; [done|]. split; [exact H|]. split; [done|]. split; [done|].
      split; [congruence|]. by repeat split. }
  apply bind_inv in H as (s1 & t3 & t4 & Hcopy & H & ->).
  assert (Hq3 : Forall (fun e => IsBufferWork e = true) t3 /\ Frees t3 = []).
  { destruct (_ && W); [|by injection Hcopy as _ <-].
    apply bind_inv in Hcopy as ([] & ? & ? & [= <-] & [= _ <-] & ->).
    by repeat constructor. }
  destruct Hq3 as [Hq3 Hf3].
  destruct (KSUCCESS s1) eqn:Hs1; cbn [negb] in H.
  2:{ eexists ([_] ++ t3), (@nil Event), false, s1, 0, t4.
      split; [reflexivity|].
      split; [apply Forall_app; split; [by repeat constructor|done]|].
      split; [by rewrite Frees_app, Hf3|].
      split; [exact H|]. split; [done|]. split; [done|].
      split; [congruence|]. by repeat split. }
  apply bind_inv in H as ([] & t5 & t6 & [= <-] & H & ->).
  cbv zeta in H.
  set (setup := [EvValidateIoBuffer MAX_ULONGLONG
                   (BlockAlignment UINTN_BITS (BlockShift Disk))
                   (Irp.UINTN UINTN_BITS (N ≪ BlockShift Disk))] ++ t3
                ++ [EvMapIoBuffer (BufferAddress B)]).
  assert (Hsetup :
    Forall (fun e => IsBufferWork e = true) setup /\ Frees setup = []).
  { split.
    - apply Forall_app. split; [by repeat constructor|].
      apply Forall_app. split; [done|by repeat constructor].
    - unfold setup. by rewrite !Frees_app, Hf3. }
  destruct Hsetup as [Hqs Hfs].
  destruct (KSUCCESS (MapIoBuffer env)) eqn:Hs2; cbn [negb] in H.
  2:{ exists setup, (@nil Event), false, (MapIoBuffer env), 0, t6.
      split; [unfold setup; by rewrite <- !app_assoc|].
      split; [exact Hqs|]. split; [exact Hfs|].
      split; [exact H|]. split; [done|]. split; [done|].
      split; [congruence|]. by repeat split. }
  apply bind_inv in H as ([i off] & t7 & t8 & Hfind & H & ->).
  apply FindStartingFragment_silent in Hfind as ->.
  apply bind_inv in H as ([] & t9 & t10 & Hacq & H & ->).
  assert (t9 = if LR then [EvAcquireQueuedLock (ControllerLock Disk)] else [])
    as -> by (destruct LR; by injection Hacq as <-).
  clear Hacq.
  destruct (flag_test (DiskFlags Disk) SD_DISK_FLAG_MEDIA_PRESENT) eqn:Hm;
    cbn [negb] in H.
  2:{ exists setup, (@nil Event), LR, STATUS_NO_MEDIA, 0, t10.
      split; [unfold setup; by rewrite <- !app_assoc|].
      split; [exact Hqs|]. split; [exact Hfs|].
      split; [exact H|]. split; [done|]. split; [done|].
      split; [done|]. split; [done|]. by repeat split. }
  apply bind_inv in H as ([s3 L] & t11 & t12 & Hloop & H & ->).
  apply PolledTransferLoop_shape in Hloop as (Hall & Hcons & Hdone & _).
  exists setup, t11, LR, s3, (lBlocksComplete L), t12.
  split; [unfold setup; by rewrite <- !app_assoc|].
  split; [exact Hqs|]. split; [exact Hfs|].
  split; [exact H|]. split; [done|]. split; [done|].
  split; [done|]. split; [done|]. split; [|done]. by intros ->.
Qed.

End Polled.

Lemma Quiet_no_calls (t : list Event) :
  Forall (fun e => IsQuiet e = true) t -> PolledCalls t = [].
Proof.
  unfold PolledCalls.
  induction 1 as [|e t He _ IH]; [done|]. cbn [omap list_omap].
  rewrite IH. by destruct e.
Qed.

Lemma Release_tail (held : bool) (l : option ADDRESS) :
  Frees (if held then [EvReleaseQueuedLock l] else []) = [] /\
  PolledCalls (if held then [EvReleaseQueuedLock l] else []) = [].
Proof. by destruct held. Qed.

Lemma Acquire_head (held : bool) (l : option ADDRESS) :
  Frees (if held then [EvAcquireQueuedLock l] else []) = [] /\
  PolledCalls (if held then [EvAcquireQueuedLock l] else []) = [].
Proof. by destruct held. Qed.

(** X17. When the lock is required, [SdpPerformBlockIoPolled] calls the
    controller only between one acquisition and one release of the
    disk's controller lock, and returns with the lock released; a run
    that fails before the lock is taken never calls the controller. *)
Theorem polled_transfers_hold_the_lock (UINTN_BITS : Z) (fuel : nat)
    (env : POLLED_ENVIRONMENT) (Disk : SD_DISK) (IoBuffer : IO_BUFFER)
    (BlockAddress BlocksToComplete : Z) (Write : bool)
    (r : KSTATUS * Z) (t : list Event) :
  SdpPerformBlockIoPolled UINTN_BITS fuel env Disk IoBuffer BlockAddress
    BlocksToComplete Write true = Done (r, t) ->
  exists before transfers after,
    Forall (fun e => IsQuiet e = true) before /\
    Forall (TransferOf Disk Write) transfers /\
    Forall (fun e => IsQuiet e = true) after /\
    ((transfers = [] /\ t = before ++ after) \/
     t = before ++ [EvAcquireQueuedLock (ControllerLock Disk)] ++ transfers
         ++ [EvReleaseQueuedLock (ControllerLock Disk)] ++ after).
Proof.
  destruct r as [s n]. intros H.
  apply SdpPerformBlockIoPolled_anatomy in H
    as (setup & transfers & held & s3 & n3 & tend & -> & Hq & _ & Hend
        & Hall & _ & _ & _ & Hearly & _).
  apply PerformBlockIoPolledEnd_shape in Hend as (rest & -> & Hrest & _).
  apply BufferWork_quiet in Hq, Hrest.
  exists setup, transfers, rest.
  split; [done|]. split; [done|]. split; [done|].
  destruct held.
  - right. done.
  - left. destruct (Hearly eq_refl eq_refl) as (-> & _). done.
Qed.

(** X18. A polled transfer that returns a success status has completed
    every block it was asked for, with one exception: a read through a
    substitute buffer, whose status is that of the copy back into the
    caller's buffer. *)
Theorem polled_success_means_all_blocks (UINTN_BITS : Z) (fuel : nat)
    (env : POLLED_ENVIRONMENT) (Disk : SD_DISK) (IoBuffer : IO_BUFFER)
    (BlockAddress BlocksToComplete : Z) (Write LockRequired : bool)
    (s : KSTATUS) (n : Z) (t : list Event) :
  SdpPerformBlockIoPolled UINTN_BITS fuel env Disk IoBuffer BlockAddress
    BlocksToComplete Write LockRequired = Done (s, n, t) ->
  KSUCCESS s = true ->
  n = BlocksToComplete \/
  (Write = false /\
   BufferAddress IoBuffer <> BufferAddress (ValidateIoBuffer env).2 /\
   s = CopyBack env /\ n <> 0).
Proof.
  intros H Hs.
  apply SdpPerformBlockIoPolled_anatomy in H
    as (setup & transfers & held & s3 & n3 & tend & -> & _ & _ & Hend
        & _ & _ & Hdone & _).
  apply PerformBlockIoPolledEnd_shape in Hend
    as (rest & _ & _ & _ & [[-> ->]|(HW & HB & Hn3 & Hcopy & Hn)]).
  - left. by apply Hdone.
  - right. rewrite <- Hcopy, Hs in Hn. by subst n.
Qed.

(** X19. On every path, [SdpPerformBlockIoPolled] frees the buffer the
    memory manager substituted for the caller's, once, and frees nothing
    else; when the caller's own buffer is used, nothing is freed. *)
Theorem substitute_buffer_is_freed_once (UINTN_BITS : Z) (fuel : nat)
    (env : POLLED_ENVIRONMENT) (Disk : SD_DISK) (IoBuffer : IO_BUFFER)
    (BlockAddress BlocksToComplete : Z) (Write LockRequired : bool)
    (r : KSTATUS * Z) (t : list Event) :
  SdpPerformBlockIoPolled UINTN_BITS fuel env Disk IoBuffer BlockAddress
    BlocksToComplete Write LockRequired = Done (r, t) ->
  Frees t
  = if decide (BufferAddress IoBuffer
               = BufferAddress (ValidateIoBuffer env).2)
    then [] else [BufferAddress (ValidateIoBuffer env).2].
Proof.
  destruct r as [s n]. intros H.
  apply SdpPerformBlockIoPolled_anatomy in H
    as (setup & transfers & held & s3 & n3 & tend & -> & _ & Hfs & Hend
        & Hall & _).
  apply PerformBlockIoPolledEnd_shape in Hend as (rest & -> & _ & Hfr & _).
  apply TransferOf_quiet in Hall as [_ Hft].
  rewrite !Frees_app, Hfs, Hft, Hfr.
  rewrite (proj1 (Acquire_head held _)), (proj1 (Release_tail held _)).
  done.
Qed.

(** X20. On a disk whose media is not present,
    [SdpPerformBlockIoPolled] never calls the controller: it fails with
    no block completed. *)
Theorem polled_io_without_media (UINTN_BITS : Z) (fuel : nat)
    (env : POLLED_ENVIRONMENT) (Disk : SD_DISK) (IoBuffer : IO_BUFFER)
    (BlockAddress BlocksToComplete : Z) (Write LockRequired : bool)
    (s : KSTATUS) (n : Z) (t : list Event) :
  flag_test (DiskFlags Disk) SD_DISK_FLAG_MEDIA_PRESENT = false ->
  SdpPerformBlockIoPolled UINTN_BITS fuel env Disk IoBuffer BlockAddress
    BlocksToComplete Write LockRequired = Done (s, n, t) ->
  PolledCalls t = [] /\ n = 0 /\ KSUCCESS s = false.
Proof.
  intros Hm H.
  apply SdpPerformBlockIoPolled_anatomy in H
    as (setup & transfers & held & s3 & n3 & tend & -> & Hq & _ & Hend
        & _ & _ & _ & _ & _ & Habsent).
  destruct (Habsent Hm) as (-> & -> & Hs3).
  apply PerformBlockIoPolledEnd_shape in Hend
    as (rest & -> & Hrest & _ & [[-> ->]|(_ & _ & ? & _)]); [|done].
  apply BufferWork_quiet in Hq, Hrest.
  split; [|done].
  rewrite !PolledCalls_app, (Quiet_no_calls _ Hq), (Quiet_no_calls _ Hrest).
  rewrite (proj2 (Acquire_head held _)), (proj2 (Release_tail held _)).
  done.
Qed.

(** X21. The controller is asked for consecutive block ranges: the first
    call of a polled transfer starts at [BlockAddress] and every other
    call starts at the block where the call before it ended; every call
    goes to the disk's controller, in the direction asked for. *)
Theorem polled_transfers_are_consecutive (UINTN_BITS : Z) (fuel : nat)
    (env : POLLED_ENVIRONMENT) (Disk : SD_DISK) (IoBuffer : IO_BUFFER)
    (BlockAddress BlocksToComplete : Z) (Write LockRequired : bool)
    (r : KSTATUS * Z) (t : list Event) :
  SdpPerformBlockIoPolled UINTN_BITS fuel env Disk IoBuffer BlockAddress
    BlocksToComplete Write LockRequired = Done (r, t) ->
  Consecutive BlockAddress (PolledCalls t) /\
  forall c o k va w,
    EvBlockIoPolled c o k va w ∈ t ->
    c = DiskController Disk /\ w = Write.
Proof.
  destruct r as [s n]. intros H.
  apply SdpPerformBlockIoPolled_anatomy in H
    as (setup & transfers & held & s3 & n3 & tend & -> & Hq & _ & Hend
        & Hall & Hcons & _).
  apply PerformBlockIoPolledEnd_shape in Hend as (rest & -> & Hrest & _).
  apply BufferWork_quiet in Hq, Hrest.
  split.
  - rewrite !PolledCalls_app, (Quiet_no_calls _ Hq),
      (Quiet_no_calls _ Hrest).
    rewrite (proj2 (Acquire_head held _)), (proj2 (Release_tail held _)).
    by rewrite app_nil_r.
  - intros c o k va w Hin. rewrite Forall_forall in Hq, Hrest, Hall.
    rewrite !elem_of_app in Hin.
    destruct Hin as [Hin|[Hin|[Hin|[Hin|Hin]]]].
    + by apply Hq in Hin.
    + destruct held; [|by apply elem_of_nil in Hin].
      by apply list_elem_of_singleton in Hin.
    + apply Hall in Hin as (? & ? & ? & [= -> _ _ _ ->]). done.
    + destruct held; [|by apply elem_of_nil in Hin].
      by apply list_elem_of_singleton in Hin.
    + by apply Hrest in Hin.
Qed.

Lemma polled_transfers_hold_the_lock_witness :
  exists r t,
    SdpPerformBlockIoPolled 32 8 (CardPulledAfterBlock8 SubstituteBuffer)
      SampleSdDisk CallerBuffer 8 2 false true = Done (r, t) /\
    exists before transfers after,
      Forall (fun e => IsQuiet e = true) before /\
      Forall (TransferOf SampleSdDisk false) transfers /\
      Forall (fun e => IsQuiet e = true) after /\
      ((transfers = [] /\ t = before ++ after) \/
       t = before ++ [EvAcquireQueuedLock (ControllerLock SampleSdDisk)]
           ++ transfers
           ++ [EvReleaseQueuedLock (ControllerLock SampleSdDisk)] ++ after).
Proof.
  eexists _, _. split; [vm_compute; reflexivity|].
  eapply (polled_transfers_hold_the_lock 32 8
            (CardPulledAfterBlock8 SubstituteBuffer) SampleSdDisk
            CallerBuffer 8 2 false).
  vm_compute. reflexivity.
Defined.

(** A card that serves every block; [Validated] is the buffer the memory
    manager settles on. *)
Definition CardServing (Validated : IO_BUFFER) : POLLED_ENVIRONMENT :=
  {| ValidateIoBuffer := (STATUS_SUCCESS, Validated);
     CopyIn := STATUS_SUCCESS;
     MapIoBuffer := STATUS_SUCCESS;
     BlockIoPolled := fun _ _ _ _ => STATUS_SUCCESS;
     CopyBack := STATUS_SUCCESS |}.

Lemma polled_success_means_all_blocks_witness :
  exists s n t,
    SdpPerformBlockIoPolled 32 8 (CardServing SubstituteBuffer)
      SampleSdDisk CallerBuffer 8 2 true true = Done (s, n, t) /\
    KSUCCESS s = true /\
    (n = 2 \/
     (true = false /\
      BufferAddress CallerBuffer
      <> BufferAddress (ValidateIoBuffer (CardServing SubstituteBuffer)).2 /\
      s = CopyBack (CardServing SubstituteBuffer) /\ n <> 0)).
Proof.
  eexists _, _, _. split; [vm_compute; reflexivity|].
  split; [reflexivity|].
  eapply (polled_success_means_all_blocks 32 8
            (CardServing SubstituteBuffer) SampleSdDisk
            CallerBuffer 8 2 true true).
  - vm_compute. reflexivity.
  - reflexivity.
Defined.

Lemma substitute_buffer_is_freed_once_witness :
  exists r t,
    SdpPerformBlockIoPolled 32 8 (CardPulledAfterBlock8 SubstituteBuffer)
      SampleSdDisk CallerBuffer 8 2 false true = Done (r, t) /\
    Frees t = [BufferAddress SubstituteBuffer].
Proof.
  eexists _, _. split; [vm_compute; reflexivity|].
  eapply (substitute_buffer_is_freed_once 32 8
            (CardPulledAfterBlock8 SubstituteBuffer) SampleSdDisk
            CallerBuffer 8 2 false true).
  vm_compute. reflexivity.
Defined.

Lemma polled_io_without_media_witness :
  exists s n t,
    SdpPerformBlockIoPolled 32 8 (CardServing CallerBuffer)
      (set_DiskFlags 0 SampleSdDisk) CallerBuffer 8 2 false true
    = Done (s, n, t) /\
    PolledCalls t = [] /\ n = 0 /\ KSUCCESS s = false.
Proof.
  eexists _, _, _. split; [vm_compute; reflexivity|].
  eapply (polled_io_without_media 32 8 (CardServing CallerBuffer)
            (set_DiskFlags 0 SampleSdDisk) CallerBuffer 8 2 false true).
  - reflexivity.
  - vm_compute. reflexivity.
Defined.

Lemma polled_transfers_are_consecutive_witness :
  exists r t,
    SdpPerformBlockIoPolled 32 8 (CardServing SubstituteBuffer)
      SampleSdDisk CallerBuffer 8 2 true true = Done (r, t) /\
    Consecutive 8 (PolledCalls t) /\
    forall c o k va w,
      EvBlockIoPolled c o k va w ∈ t ->
      c = DiskController SampleSdDisk /\ w = true.
Proof.
  eexists _, _. split; [vm_compute; reflexivity|].
  eapply (polled_transfers_are_consecutive 32 8
            (CardServing SubstituteBuffer) SampleSdDisk
            CallerBuffer 8 2 true true).
  vm_compute. reflexivity.
Defined.

(** *** Slot enumeration, path by path *)

(** A disk whose media has been marked absent. *)
Definition ClearMedia (d : SD_DISK) : SD_DISK :=
  set_DiskFlags (flag_clear (DiskFlags d) SD_DISK_FLAG_MEDIA_PRESENT) d.

(** The slot's disk pointer, if it is set, points to a disk context. *)
Definition ValidSlot (m : MEMORY) : Prop :=
  forall old, SlotDisk (Slot m) = Some old -> is_Some (Disks m !! old).

(** The pool once the slot's disk, if it has one, has lost its media. *)
Definition PoolAfterRemoval (m : MEMORY) : gmap ADDRESS SD_DISK :=
  match SlotDisk (Slot m) with
  | Some old =>
      match Disks m !! old with
      | Some d => <[old := ClearMedia d]> (Disks m)
      | None => Disks m
      end
  | None => Disks m
  end.

(** The two pending bits. *)
Definition PENDING : Z :=
  Z.lor SD_SLOT_FLAG_INSERTION_PENDING SD_SLOT_FLAG_REMOVAL_PENDING.

(** The slot once enumeration has taken the pending bits. *)
Definition TakePending (s : SD_SLOT) : SD_SLOT :=
  set_SlotFlags (Z.land (SlotFlags s) (ULONG (Z.lnot PENDING))) s.

Lemma TakePending_clears (s : SD_SLOT) :
  flag_test (SlotFlags (TakePending s)) SD_SLOT_FLAG_INSERTION_PENDING = false
  /\ flag_test (SlotFlags (TakePending s)) SD_SLOT_FLAG_REMOVAL_PENDING
     = false.
Proof.
  unfold TakePending, flag_test. cbn [SlotFlags set_SlotFlags].
  rewrite <- !Z.land_assoc.
  change (Z.land (ULONG (Z.lnot PENDING)) SD_SLOT_FLAG_INSERTION_PENDING)
    with 0.
  change (Z.land (ULONG (Z.lnot PENDING)) SD_SLOT_FLAG_REMOVAL_PENDING)
    with 0.
  by rewrite Z.land_0_r.
Qed.

(** A flag word of 32 bits with neither pending bit set is left as it is
    when the pending bits are taken. *)
Lemma TakePending_idle (s : SD_SLOT) :
  0 <= SlotFlags s <= MAX_ULONG ->
  flag_test (SlotFlags s) PENDING = false ->
  TakePending s = s.
Proof.
  intros Hrange Hidle. unfold TakePending.
  assert (Z.land (SlotFlags s) (ULONG (Z.lnot PENDING)) = SlotFlags s) as ->;
    [|by destruct s].
  unfold flag_test in Hidle. apply negb_false_iff, Z.eqb_eq in Hidle.
  unfold ULONG, wrap. rewrite <- Z.land_ones by done.
  rewrite (Z.land_comm (Z.lnot PENDING)), Z.land_assoc.
  rewrite Z.land_ones by done.
  rewrite Z.mod_small by (unfold MAX_ULONG in Hrange; lia).
  apply Z.bits_inj'. intros n Hn.
  pose proof (f_equal (fun z => Z.testbit z n) Hidle) as Hb. cbn beta in Hb.
  rewrite Z.land_spec, Z.bits_0 in Hb.
  rewrite Z.land_spec, Z.lnot_spec by done.
  destruct (Z.testbit (SlotFlags s) n), (Z.testbit PENDING n); done.
Qed.

Lemma removal_is_a_change (f : Z) :
  flag_test f SD_SLOT_FLAG_REMOVAL_PENDING = true ->
  flag_test f PENDING = true.
Proof.
  unfold flag_test. intros H.
  destruct (Z.eqb_spec (Z.land f PENDING) 0) as [H0|]; [|done].
  assert (Z.land f SD_SLOT_FLAG_REMOVAL_PENDING = 0) as Hz;
    [|by rewrite Hz in H].
  change SD_SLOT_FLAG_REMOVAL_PENDING
    with (Z.land PENDING SD_SLOT_FLAG_REMOVAL_PENDING) at 1.
  by rewrite Z.land_assoc, H0.
Qed.

Lemma DetachDisk_run (m : MEMORY) :
  ValidSlot m ->
  DetachDisk m
  = Done ({| Slot := set_SlotDisk None (Slot m);
             Disks := PoolAfterRemoval m;
             Children := Children m |},
          match SlotDisk (Slot m) with
          | Some _ => [EvAcquireQueuedLock (SlotLock (Slot m));
                       EvReleaseQueuedLock (SlotLock (Slot m))]
          | None => []
          end).
Proof.
  intros Hvalid. unfold DetachDisk, PoolAfterRemoval.
  destruct (SlotDisk (Slot m)) as [old|] eqn:Hold.
  - destruct (Hvalid old Hold) as [d Hd].
    rewrite (LoadDisk_Some _ _ _ Hd), Hd. reflexivity.
  - destruct m as [[] ? ?]. cbn in *. by subst.
Qed.

Lemma SlotEnumerateChild_run (env : ENUMERATION) (m : MEMORY) :
  ValidSlot m ->
  SlotEnumerateChild env m
  = match SlotDisk (Slot m) with
    | None => Done (STATUS_SUCCESS, m, [])
    | Some a =>
        match Disks m !! a with
        | Some d =>
            Done (MergeChildArrays env,
                  (if KSUCCESS (MergeChildArrays env) then
                     match DiskDevice d with
                     | Some child => set_Children (Children m ++ [child]) m
                     | None => m
                     end
                   else m),
                  [EvMergeChildArrays (DiskDevice d)])
        | None => Fault NullDereference
        end
    end.
Proof.
  intros Hvalid. unfold SlotEnumerateChild.
  destruct (SlotDisk (Slot m)) as [a|] eqn:Ha; [|done].
  destruct (Hvalid a Ha) as [d Hd].
  rewrite (LoadDisk_Some _ _ _ Hd), Hd. reflexivity.
Qed.

(** *** Insertion *)

(** The disk contexts destroyed in a trace, each as it was freed. *)
Definition Destroyed (t : list Event) : list (ADDRESS * SD_DISK) :=
  omap (fun e => match e with
                 | EvDestroyDisk a d => Some (a, d)
                 | _ => None
                 end) t.

(** What [SdpDestroyDisk] and the cleanup of the enumeration assert of a
    context that is freed, and that nothing refers to it any more. *)
Definition Unused (d : SD_DISK) : Prop :=
  ReferenceCount d = 0 /\ DiskDevice d = None /\ DiskToken d = None /\
  DiskIrp d = None.

(** Whether the card is still there at the end of the insertion block:
    every step succeeded, short of the DMA initialization, which may fail
    for another reason than the card being gone. *)
Definition CardStays (env : ENUMERATION) : bool :=
  KSUCCESS (InitializeController env)
  && bool_decide (is_Some (DiskAllocation env))
  && KSUCCESS (MediaParameters env).1.1
  && negb (bool_decide (InitializeDma env = STATUS_NO_MEDIA))
  && KSUCCESS (CreateDevice env).1.

(** The disk context of a card that stays. *)
Definition AttachedDisk (env : ENUMERATION) (s : SD_SLOT) : SD_DISK :=
  {| DiskType := SdDeviceDisk; ReferenceCount := 1;
     DiskDevice := (CreateDevice env).2;
     DiskParent := Some (SlotAddress s);
     DiskController := SlotController s;
     ControllerLock := SlotLock s;
     DiskIrp := None; DiskIoBuffer := None;
     DiskFlags :=
       if KSUCCESS (InitializeDma env)
       then Z.lor SD_DISK_FLAG_DMA_SUPPORTED SD_DISK_FLAG_MEDIA_PRESENT
       else SD_DISK_FLAG_MEDIA_PRESENT;
     BlockShift := RtlCountTrailingZeros32 (MediaParameters env).2;
     BlockCount := ULONGLONG (MediaParameters env).1.2;
     DiskToken := None |}.

(** The children reported once the disk's device is merged into them. *)
Definition Reported (env : ENUMERATION) (children : list ADDRESS)
  : list ADDRESS :=
  if KSUCCESS (MergeChildArrays env) then
    match (CreateDevice env).2 with
    | Some child => children ++ [child]
    | None => children
    end
  else children.

Lemma bind_emit {E B} (e : E) (k : unit -> Run E B) b t :
  k tt = Done (b, t) -> bind (emit e) k = Done (b, e :: t).
Proof. intros H. unfold emit. cbn. by rewrite H. Qed.

Lemma release_fresh_context (m : MEMORY) (a : ADDRESS) (d : SD_DISK)
    (s : KSTATUS) :
  Disks m !! a = None -> ReferenceCount d = 1 ->
  SlotQueryChildrenEnd s (Some a) (StoreDisk m a d)
  = Done (s, m, [EvDestroyDisk a (set_ReferenceCount 0 d)]).
Proof.
  intros Hfresh Hc. unfold SlotQueryChildrenEnd.
  rewrite (release_last_reference _ a d);
    [|cbn; by rewrite lookup_insert_eq|done].
  cbn. rewrite delete_insert_id by done. by destruct m.
Qed.

Lemma StoreDisk_twice (m : MEMORY) (a : ADDRESS) (d d' : SD_DISK) :
  StoreDisk (StoreDisk m a d) a d' = StoreDisk m a d'.
Proof. unfold StoreDisk, set_Disks. cbn. by rewrite insert_insert_eq. Qed.

Lemma LoadDisk_stored (m : MEMORY) (a : ADDRESS) (d : SD_DISK) :
  LoadDisk (StoreDisk m a d) (Some a) = ret d.
Proof. apply LoadDisk_Some. cbn. by rewrite lookup_insert_eq. Qed.

(** A card that stays is attached to the slot and reported. *)
Lemma SlotInsertDisk_attaches (env : ENUMERATION) (m : MEMORY) (a : ADDRESS) :
  CardStays env = true ->
  DiskAllocation env = Some a ->
  exists t,
    SlotInsertDisk env m
    = Done (MergeChildArrays env,
            {| Slot := set_SlotDisk (Some a) (Slot m);
               Disks := <[a := AttachedDisk env (Slot m)]> (Disks m);
               Children := Reported env (Children m) |}, t) /\
    Destroyed t = [].
Proof.
  unfold CardStays. intros Hstays Halloc.
  apply andb_prop in Hstays as [Hstays Hcreate].
  apply andb_prop in Hstays as [Hstays Hdma].
  apply andb_prop in Hstays as [Hstays Hmedia].
  apply andb_prop in Hstays as [Hinit _].
  apply negb_true_iff in Hdma.
  unfold SlotInsertDisk, SdpCreateDisk. rewrite Hinit, Halloc. cbn [negb].
  destruct (MediaParameters env) as [[ms Count] BlockSize] eqn:Hmp.
  destruct (CreateDevice env) as [cs dev] eqn:Hcd. cbn [fst snd] in *.
  eexists. split.
  - apply bind_emit, bind_emit. rewrite bind_assoc. apply bind_emit.
    rewrite !bind_ret_l. unfold SlotReadMedia.
    rewrite LoadDisk_stored, bind_ret_l. apply bind_emit.
    rewrite Hmp, Hmedia. cbn [negb].
    rewrite StoreDisk_twice. unfold SlotPublishDisk.
    rewrite LoadDisk_stored, bind_ret_l. apply bind_emit.
    rewrite Hdma, andb_false_r. apply bind_emit.
    rewrite Hcd, Hcreate. cbn [negb]. rewrite StoreDisk_twice.
    unfold SlotEnumerateChild. cbn [Slot set_Slot SlotDisk set_SlotDisk].
    change (LoadDisk (set_Slot ?s (StoreDisk m a ?d)) (Some a))
      with (LoadDisk (StoreDisk m a d) (Some a)).
    rewrite LoadDisk_stored, bind_ret_l. apply bind_emit.
    unfold SlotQueryChildrenEnd, ret. f_equal. f_equal. f_equal.
    unfold Reported, AttachedDisk. rewrite Hmp, Hcd. cbn [fst snd].
    destruct (KSUCCESS (MergeChildArrays env)), dev,
      (KSUCCESS (InitializeDma env)); reflexivity.
  - reflexivity.
Qed.

(** A card that does not stay leaves the memory as it was: the context
    allocated for it, if one was, is destroyed unused. *)
Lemma SlotInsertDisk_restores (env : ENUMERATION) (m : MEMORY) :
  CardStays env = false ->
  (forall a, DiskAllocation env = Some a -> Disks m !! a = None) ->
  exists s t,
    SlotInsertDisk env m = Done (s, m, t) /\
    match DiskAllocation env with
    | Some a =>
        if KSUCCESS (InitializeController env)
        then exists d, Destroyed t = [(a, d)] /\ Unused d
        else Destroyed t = []
    | None => Destroyed t = []
    end.
Proof.
  unfold CardStays. intros Hgone Hfresh.
  unfold SlotInsertDisk, SdpCreateDisk.
  destruct (MediaParameters env) as [[ms Count] BlockSize] eqn:Hmp.
  destruct (CreateDevice env) as [cs dev] eqn:Hcd. cbn [fst snd] in *.
  destruct (KSUCCESS (InitializeController env)) eqn:Hinit; cbn [negb].
  2:{ eexists _, _. split; [reflexivity|]. by destruct (DiskAllocation env). }
  destruct (DiskAllocation env) as [a|] eqn:Halloc.
  2:{ eexists _, _. split; [reflexivity|]. done. }
  specialize (Hfresh a eq_refl).
  rewrite bool_decide_eq_true_2 in Hgone by by eexists.
  cbn [andb] in Hgone.
  set (d0 := NewDiskContext (Slot m)).
  destruct (KSUCCESS ms) eqn:Hmedia; cbn [andb] in Hgone.
  2:{ eexists _, _. split.
      - apply bind_emit, bind_emit. rewrite bind_assoc. apply bind_emit.
        rewrite !bind_ret_l. unfold SlotReadMedia.
        rewrite LoadDisk_stored, bind_ret_l. apply bind_emit.
        rewrite Hmp, Hmedia. cbn [negb].
        by apply release_fresh_context.
      - eexists. split; [reflexivity|]. done. }
  set (d1 := set_BlockShift (RtlCountTrailingZeros32 BlockSize)
               (set_BlockCount (ULONGLONG Count) d0)).
  destruct (bool_decide (InitializeDma env = STATUS_NO_MEDIA)) eqn:Hdma;
    cbn [negb andb] in Hgone.
  { apply bool_decide_eq_true in Hdma.
    eexists _, _. split.
    - apply bind_emit, bind_emit. rewrite bind_assoc. apply bind_emit.
      rewrite !bind_ret_l. unfold SlotReadMedia.
      rewrite LoadDisk_stored, bind_ret_l. apply bind_emit.
      rewrite Hmp, Hmedia. cbn [negb]. rewrite StoreDisk_twice.
      unfold SlotPublishDisk.
      rewrite LoadDisk_stored, bind_ret_l. apply bind_emit.
      rewrite Hdma. cbn [KSUCCESS negb andb].
      rewrite bool_decide_eq_true_2 by done.
      by apply (release_fresh_context m a d1).
    - eexists. split; [reflexivity|]. done. }
  eexists _, _. split.
  - apply bind_emit, bind_emit. rewrite bind_assoc. apply bind_emit.
    rewrite !bind_ret_l. unfold SlotReadMedia.
    rewrite LoadDisk_stored, bind_ret_l. apply bind_emit.
    rewrite Hmp, Hmedia. cbn [negb]. rewrite StoreDisk_twice.
    unfold SlotPublishDisk.
    rewrite LoadDisk_stored, bind_ret_l. apply bind_emit.
    rewrite Hdma, andb_false_r. apply bind_emit.
    rewrite Hcd, Hgone. cbn [negb]. rewrite StoreDisk_twice.
    apply release_fresh_context; [done|].
    by destruct (KSUCCESS (InitializeDma env)).
  - eexists. split; [reflexivity|].
    by destruct (KSUCCESS (InitializeDma env)).
Qed.

(** *** Enumeration as a whole *)

Lemma SdpSlotQueryChildren_unfold (env : ENUMERATION) (m : MEMORY) :
  SdpSlotQueryChildren env m
  = let m0 := set_Slot (TakePending (Slot m)) m in
    let! m1 :=
      (if flag_test (SlotFlags (Slot m)) PENDING then DetachDisk m0
       else ret m0) in
    if flag_test (SlotFlags (Slot m)) SD_SLOT_FLAG_INSERTION_PENDING
    then SlotInsertDisk env m1
    else SlotEnumerateChild env m1.
Proof. reflexivity. Qed.

Lemma insertion_is_pending (f : Z) :
  flag_test f SD_SLOT_FLAG_INSERTION_PENDING = true ->
  flag_test f PENDING = true.
Proof. apply insertion_is_a_change. Qed.

(** The memory after the pending bits are taken and the slot's disk, if
    any, is detached. *)
Definition Emptied (m : MEMORY) : MEMORY :=
  {| Slot := set_SlotDisk None (TakePending (Slot m));
     Disks := PoolAfterRemoval m;
     Children := Children m |}.

(** The lock events of the detachment. *)
Definition Detachment (m : MEMORY) : list Event :=
  match SlotDisk (Slot m) with
  | Some _ => [EvAcquireQueuedLock (SlotLock (Slot m));
               EvReleaseQueuedLock (SlotLock (Slot m))]
  | None => []
  end.

Lemma Detach_taken (m : MEMORY) :
  ValidSlot m ->
  DetachDisk (set_Slot (TakePending (Slot m)) m)
  = Done (Emptied m, Detachment m).
Proof.
  intros Hvalid. rewrite DetachDisk_run; [reflexivity|].
  intros old Hold. by apply Hvalid.
Qed.

Lemma Emptied_fresh (m : MEMORY) (a : ADDRESS) :
  Disks m !! a = None -> Disks (Emptied m) !! a = None.
Proof.
  intros Hfresh. cbn. unfold PoolAfterRemoval.
  destruct (SlotDisk (Slot m)) as [old|]; [|done].
  destruct (Disks m !! old) as [d|] eqn:Hd; [|done].
  rewrite lookup_insert_ne; [done|]. intros ->. congruence.
Qed.

(** X22. Whatever the controller, the pool and the I/O manager answer,
    [SdpSlotQueryChildren] returns, with both pending bits of the slot
    clear and with nothing else of the slot changed but its disk
    pointer. *)
Theorem enumeration_takes_the_pending_bits (env : ENUMERATION)
    (m : MEMORY) :
  ValidSlot m ->
  (forall a, DiskAllocation env = Some a -> Disks m !! a = None) ->
  exists s m' t,
    SdpSlotQueryChildren env m = Done (s, m', t) /\
    flag_test (SlotFlags (Slot m')) SD_SLOT_FLAG_INSERTION_PENDING = false /\
    flag_test (SlotFlags (Slot m')) SD_SLOT_FLAG_REMOVAL_PENDING = false /\
    Slot m' = set_SlotDisk (SlotDisk (Slot m')) (TakePending (Slot m)).
Proof.
  intros Hvalid Hfresh.
  assert (Hgoal : exists s m' t,
    SdpSlotQueryChildren env m = Done (s, m', t) /\
    Slot m' = set_SlotDisk (SlotDisk (Slot m')) (TakePending (Slot m))).
  { rewrite SdpSlotQueryChildren_unfold. cbv zeta.
    destruct (flag_test (SlotFlags (Slot m)) SD_SLOT_FLAG_INSERTION_PENDING)
      eqn:Hins.
    - rewrite (insertion_is_pending _ Hins), (Detach_taken m Hvalid).
      destruct (CardStays env) eqn:Hstays.
      + assert (exists a, DiskAllocation env = Some a) as [a Ha].
        { unfold CardStays in Hstays.
          destruct (DiskAllocation env); [by eexists|].
          by rewrite andb_false_r in Hstays. }
        destruct (SlotInsertDisk_attaches env (Emptied m) a Hstays Ha)
          as (t & Hrun & _).
        eexists _, _, _. split; [by eapply bind_Done|]. reflexivity.
      + destruct (SlotInsertDisk_restores env (Emptied m) Hstays)
          as (s & t & Hrun & _).
        { intros a Ha. by apply Emptied_fresh, Hfresh. }
        eexists _, _, _. split; [by eapply bind_Done|]. reflexivity.
    - assert (exists m1 t1,
        (if flag_test (SlotFlags (Slot m)) PENDING
         then DetachDisk (set_Slot (TakePending (Slot m)) m)
         else ret (set_Slot (TakePending (Slot m)) m)) = Done (m1, t1) /\
        ValidSlot m1 /\
        Slot m1 = set_SlotDisk (SlotDisk (Slot m1)) (TakePending (Slot m)))
        as (m1 & t1 & -> & Hvalid1 & Hslot1).
      { destruct (flag_test (SlotFlags (Slot m)) PENDING).
        - rewrite (Detach_taken m Hvalid). eexists _, _.
          split; [reflexivity|]. split; [|reflexivity]. by intros old.
        - eexists _, _. split; [reflexivity|].
          split; [exact Hvalid|]. cbn. by destruct (Slot m). }
      pose proof (SlotEnumerateChild_run env m1 Hvalid1) as Hrun.
      destruct (SlotDisk (Slot m1)) as [a|] eqn:Ha.
      + destruct (Hvalid1 a Ha) as [d Hd]. rewrite Hd in Hrun.
        eexists _, _, _. split; [by eapply bind_Done|].
        destruct (KSUCCESS (MergeChildArrays env)), (DiskDevice d);
          cbn; by rewrite Ha in *.
      + eexists _, _, _. split; [by eapply bind_Done|]. by rewrite Ha in *. }
  destruct Hgoal as (s & m' & t & Hrun & Hslot).
  exists s, m', t. split; [done|].
  rewrite Hslot. cbn [SlotFlags set_SlotDisk].
  destruct (TakePending_clears (Slot m)) as [H1 H2]. done.
Qed.

Lemma SampleMemory_valid : ValidSlot SampleMemory.
Proof. intros old [= <-]. vm_compute. eexists. reflexivity. Qed.

Lemma enumeration_takes_the_pending_bits_witness :
  exists s m' t,
    SdpSlotQueryChildren SampleEnumeration SampleMemory = Done (s, m', t) /\
    flag_test (SlotFlags (Slot m')) SD_SLOT_FLAG_INSERTION_PENDING = false /\
    flag_test (SlotFlags (Slot m')) SD_SLOT_FLAG_REMOVAL_PENDING = false /\
    Slot m'
    = set_SlotDisk (SlotDisk (Slot m')) (TakePending (Slot SampleMemory)).
Proof.
  apply (enumeration_takes_the_pending_bits SampleEnumeration SampleMemory).
  - exact SampleMemory_valid.
  - intros a [= <-]. vm_compute. reflexivity.
Defined.

(** X23. An enumeration with an insertion pending ends in one of two
    ways. If the card stays, the new disk context is attached to the slot
    with one reference, its media present, its geometry and its device
    set, and its device is reported; nothing is destroyed. Otherwise the
    slot is left without a disk and the pool as it was once the old disk
    lost its media: the context allocated for the card, if one was, is
    destroyed, with no reference, no device, no token and no IRP. *)
Theorem insertion_attaches_or_restores (env : ENUMERATION) (m : MEMORY) :
  flag_test (SlotFlags (Slot m)) SD_SLOT_FLAG_INSERTION_PENDING = true ->
  ValidSlot m ->
  (forall a, DiskAllocation env = Some a -> Disks m !! a = None) ->
  exists s m' t,
    SdpSlotQueryChildren env m = Done (s, m', t) /\
    (CardStays env = true ->
     exists a,
       DiskAllocation env = Some a /\
       s = MergeChildArrays env /\
       m' = {| Slot := set_SlotDisk (Some a) (TakePending (Slot m));
               Disks := <[a := AttachedDisk env (Slot m)]>
                          (PoolAfterRemoval m);
               Children := Reported env (Children m) |} /\
       Destroyed t = []) /\
    (CardStays env = false ->
     m' = Emptied m /\
     match DiskAllocation env with
     | Some a =>
         if KSUCCESS (InitializeController env)
         then exists d, Destroyed t = [(a, d)] /\ Unused d
         else Destroyed t = []
     | None => Destroyed t = []
     end).
Proof.
  intros Hins Hvalid Hfresh.
  rewrite SdpSlotQueryChildren_unfold. cbv zeta.
  rewrite Hins, (insertion_is_pending _ Hins), (Detach_taken m Hvalid).
  assert (Hquiet : Destroyed (Detachment m) = []).
  { unfold Detachment. by destruct (SlotDisk (Slot m)). }
  destruct (CardStays env) eqn:Hstays.
  - assert (exists a, DiskAllocation env = Some a) as [a Ha].
    { unfold CardStays in Hstays.
      destruct (DiskAllocation env); [by eexists|].
      by rewrite andb_false_r in Hstays. }
    destruct (SlotInsertDisk_attaches env (Emptied m) a Hstays Ha)
      as (t & Hrun & Hnone).
    eexists _, _, _. split; [by eapply bind_Done|]. split; [|done].
    intros _. exists a. split; [done|]. split; [done|]. split; [done|].
    unfold Destroyed in *. by rewrite omap_app, Hquiet, Hnone.
  - destruct (SlotInsertDisk_restores env (Emptied m) Hstays)
      as (s & t & Hrun & Hdestroyed).
    { intros a Ha. by apply Emptied_fresh, Hfresh. }
    eexists _, _, _. split; [by eapply bind_Done|]. split; [done|].
    intros _. split; [done|].
    unfold Destroyed in *. by rewrite omap_app, Hquiet.
Qed.

(** The card stays and supports DMA. *)
Definition CardStaying : ENUMERATION :=
  {| InitializeController := STATUS_SUCCESS;
     DiskAllocation := Some 60%nat;
     MediaParameters := (STATUS_SUCCESS, 2048, 512);
     InitializeDma := STATUS_SUCCESS;
     CreateDevice := (STATUS_SUCCESS, Some 61%nat);
     MergeChildArrays := STATUS_SUCCESS |}.

Lemma insertion_attaches_or_restores_witness :
  exists s m' t,
    SdpSlotQueryChildren CardStaying SampleMemory = Done (s, m', t) /\
    (CardStays CardStaying = true ->
     exists a,
       DiskAllocation CardStaying = Some a /\
       s = MergeChildArrays CardStaying /\
       m' = {| Slot := set_SlotDisk (Some a)
                         (TakePending (Slot SampleMemory));
               Disks := <[a := AttachedDisk CardStaying (Slot SampleMemory)]>
                          (PoolAfterRemoval SampleMemory);
               Children := Reported CardStaying (Children SampleMemory) |} /\
       Destroyed t = []) /\
    (CardStays CardStaying = false ->
     m' = Emptied SampleMemory /\
     match DiskAllocation CardStaying with
     | Some a =>
         if KSUCCESS (InitializeController CardStaying)
         then exists d, Destroyed t = [(a, d)] /\ Unused d
         else Destroyed t = []
     | None => Destroyed t = []
     end).
Proof.
  apply (insertion_attaches_or_restores CardStaying SampleMemory).
  - reflexivity.
  - exact SampleMemory_valid.
  - intros a [= <-]. vm_compute. reflexivity.
Defined.

(** X24. With neither bit pending, [SdpSlotQueryChildren] changes
    nothing in the slot or the pool and calls neither the controller nor
    the pool: a slot without a disk reports nothing and succeeds; a slot
    with a disk reports the device of that disk, and returns the status
    of the merge. *)
Theorem enumeration_without_change (env : ENUMERATION) (m : MEMORY) :
  0 <= SlotFlags (Slot m) <= MAX_ULONG ->
  flag_test (SlotFlags (Slot m)) PENDING = false ->
  (SlotDisk (Slot m) = None ->
   SdpSlotQueryChildren env m = Done (STATUS_SUCCESS, m, [])) /\
  (forall a d,
     SlotDisk (Slot m) = Some a -> Disks m !! a = Some d ->
     SdpSlotQueryChildren env m
     = Done (MergeChildArrays env,
             (if KSUCCESS (MergeChildArrays env) then
                match DiskDevice d with
                | Some child => set_Children (Children m ++ [child]) m
                | None => m
                end
              else m),
             [EvMergeChildArrays (DiskDevice d)])).
Proof.
  intros Hrange Hidle.
  assert (Hrun : SdpSlotQueryChildren env m = SlotEnumerateChild env m).
  { rewrite SdpSlotQueryChildren_unfold. cbv zeta. rewrite Hidle.
    assert (flag_test (SlotFlags (Slot m)) SD_SLOT_FLAG_INSERTION_PENDING
            = false) as ->.
    { destruct (flag_test _ SD_SLOT_FLAG_INSERTION_PENDING) eqn:Hins;
        [|done].
      by rewrite (insertion_is_pending _ Hins) in Hidle. }
    rewrite bind_ret_l, (TakePending_idle _ Hrange Hidle). by destruct m. }
  rewrite Hrun. unfold SlotEnumerateChild. split.
  - by intros ->.
  - intros a d -> Hd. by rewrite (LoadDisk_Some _ _ _ Hd).
Qed.

(** A slot whose card has been enumerated before. *)
Definition SettledMemory : MEMORY :=
  set_Slot (set_SlotFlags 0 (Slot SampleMemory)) SampleMemory.

Lemma enumeration_without_change_witness :
  (SlotDisk (Slot SettledMemory) = None ->
   SdpSlotQueryChildren SampleEnumeration SettledMemory
   = Done (STATUS_SUCCESS, SettledMemory, [])) /\
  (forall a d,
     SlotDisk (Slot SettledMemory) = Some a ->
     Disks SettledMemory !! a = Some d ->
     SdpSlotQueryChildren SampleEnumeration SettledMemory
     = Done (MergeChildArrays SampleEnumeration,
             (if KSUCCESS (MergeChildArrays SampleEnumeration) then
                match DiskDevice d with
                | Some child =>
                    set_Children (Children SettledMemory ++ [child])
                      SettledMemory
                | None => SettledMemory
                end
              else SettledMemory),
             [EvMergeChildArrays (DiskDevice d)])).
Proof.
  apply (enumeration_without_change SampleEnumeration SettledMemory).
  - vm_compute. split; discriminate.
  - reflexivity.
Defined.

(** X25. A removal without an insertion detaches the slot's disk: its
    media is marked absent between an acquisition and a release of the
    slot's lock, the slot forgets it, and nothing is reported. The disk
    context is neither released nor destroyed; the controller and the
    pool are not called. *)
Theorem removal_detaches_the_disk (env : ENUMERATION) (m : MEMORY)
    (old : ADDRESS) (d : SD_DISK) :
  flag_test (SlotFlags (Slot m)) SD_SLOT_FLAG_REMOVAL_PENDING = true ->
  flag_test (SlotFlags (Slot m)) SD_SLOT_FLAG_INSERTION_PENDING = false ->
  SlotDisk (Slot m) = Some old ->
  Disks m !! old = Some d ->
  SdpSlotQueryChildren env m
  = Done (STATUS_SUCCESS,
          {| Slot := set_SlotDisk None (TakePending (Slot m));
             Disks := <[old := ClearMedia d]> (Disks m);
             Children := Children m |},
          [EvAcquireQueuedLock (SlotLock (Slot m));
           EvReleaseQueuedLock (SlotLock (Slot m))]).
Proof.
  intros Hrem Hins Hold Hd.
  rewrite SdpSlotQueryChildren_unfold. cbv zeta.
  rewrite Hins, (removal_is_a_change _ Hrem), Detach_taken.
  2:{ intros old' Hold'. rewrite Hold in Hold'. injection Hold' as <-.
      by eexists. }
  unfold Emptied, Detachment, PoolAfterRemoval. rewrite Hold, Hd.
  reflexivity.
Qed.

(** The card of the sample slot was pulled out. *)
Definition PulledMemory : MEMORY :=
  set_Slot (set_SlotFlags SD_SLOT_FLAG_REMOVAL_PENDING (Slot SampleMemory))
    SampleMemory.

Lemma removal_detaches_the_disk_witness :
  SdpSlotQueryChildren SampleEnumeration PulledMemory
  = Done (STATUS_SUCCESS,
          {| Slot := set_SlotDisk None (TakePending (Slot PulledMemory));
             Disks := <[59%nat := ClearMedia SampleSdDisk]>
                        (Disks PulledMemory);
             Children := Children PulledMemory |},
          [EvAcquireQueuedLock (SlotLock (Slot PulledMemory));
           EvReleaseQueuedLock (SlotLock (Slot PulledMemory))]).
Proof.
  apply (removal_detaches_the_disk SampleEnumeration PulledMemory 59%nat
           SampleSdDisk); reflexivity.
Defined.

(** X26. When the controller cannot be initialized for an inserted card,
    nothing is allocated: the slot is left without a disk, and the
    failure is returned, except a timeout, which is returned as
    success. *)
Theorem controller_failure_allocates_nothing (env : ENUMERATION)
    (m : MEMORY) :
  flag_test (SlotFlags (Slot m)) SD_SLOT_FLAG_INSERTION_PENDING = true ->
  ValidSlot m ->
  KSUCCESS (InitializeController env) = false ->
  SdpSlotQueryChildren env m
  = Done ((if decide (InitializeController env = STATUS_TIMEOUT)
           then STATUS_SUCCESS else InitializeController env),
          Emptied m,
          Detachment m
          ++ [EvDelayExecution SD_INSERTION_SETTLE_DELAY;
              EvInitializeController (SlotController (Slot m)) true]).
Proof.
  intros Hins Hvalid Hfail.
  rewrite SdpSlotQueryChildren_unfold. cbv zeta.
  rewrite Hins, (insertion_is_pending _ Hins), (Detach_taken m Hvalid).
  eapply bind_Done; [reflexivity|].
  unfold SlotInsertDisk. rewrite Hfail. cbn [negb].
  apply bind_emit, bind_emit. unfold SlotQueryChildrenEnd, ret.
  by destruct (decide (InitializeController env = STATUS_TIMEOUT)) as [->|?];
    [|rewrite bool_decide_eq_false_2 by done].
Qed.

(** The controller does not answer. *)
Definition SilentController : ENUMERATION :=
  {| InitializeController := STATUS_TIMEOUT;
     DiskAllocation := Some 60%nat;
     MediaParameters := (STATUS_SUCCESS, 2048, 512);
     InitializeDma := STATUS_SUCCESS;
     CreateDevice := (STATUS_SUCCESS, Some 61%nat);
     MergeChildArrays := STATUS_SUCCESS |}.

Lemma controller_failure_allocates_nothing_witness :
  SdpSlotQueryChildren SilentController SampleMemory
  = Done (STATUS_SUCCESS, Emptied SampleMemory,
          Detachment SampleMemory
          ++ [EvDelayExecution SD_INSERTION_SETTLE_DELAY;
              EvInitializeController
                (SlotController (Slot SampleMemory)) true]).
Proof.
  apply (controller_failure_allocates_nothing SilentController SampleMemory).
  - reflexivity.
  - exact SampleMemory_valid.
  - reflexivity.
Defined.

(** *** Opening and closing a disk *)

Lemma reference_round_trip (c : Z) :
  1 <= c <= MAX_ULONG ->
  (ULONG (c + 1) =? 1) = false /\
  ULONG (ULONG (c + 1) + ULONG (-1)) = c.
Proof.
  unfold MAX_ULONG, ULONG, wrap. intros Hc.
  change ((-1) mod 2 ^ 32) with (2 ^ 32 - 1).
  destruct (decide (c = 2 ^ 32 - 1)) as [->|Hne]; [done|].
  rewrite (Z.mod_small (c + 1)) by lia. split; [lia|].
  replace (c + 1 + (2 ^ 32 - 1)) with (c + 1 * 2 ^ 32) by lia.
  rewrite Z.mod_add by done. apply Z.mod_small. lia.
Qed.

Lemma lift_complete_by_owner (owner : Irp.PDRIVER) (Irp0 : Irp.IRP_INTERNAL)
    (s : KSTATUS) :
  IrpFacts.CurrentOwner Irp0 = Some owner ->
  exists Irp1 t,
    lift (Irp.IoCompleteIrp owner Irp0 s) = Done (Irp1, map EvIrp t) /\
    Irp.Status (Irp.Public Irp1) = s /\
    Irp.Direction (Irp.Public Irp1) = Irp.IrpUp /\
    flag_test (Irp.Flags Irp1) Irp.IRP_COMPLETE = true /\
    Irp.U (Irp.Public Irp1) = Irp.U (Irp.Public Irp0) /\
    Irp.MinorCode (Irp.Public Irp1) = Irp.MinorCode (Irp.Public Irp0).
Proof.
  intros Hown.
  destruct (IrpFacts.IoCompleteIrp_by_owner owner Irp0 s Hown)
    as (Irp1 & t & -> & H1 & H2 & H3 & H4 & H5 & _).
  by exists Irp1, t.
Qed.

(** X27. An open followed by a close leaves the disk context as it was.
    [SdDispatchOpen] takes one reference on the disk and
    [SdDispatchClose] gives one back; each completes its IRP with
    [STATUS_SUCCESS], and nothing is destroyed. *)
Theorem open_then_close_restores_the_disk (SdDriver : Irp.PDRIVER)
    (m : MEMORY) (OpenIrp CloseIrp : Irp.IRP_INTERNAL) (a : ADDRESS)
    (d : SD_DISK) :
  Disks m !! a = Some d ->
  DiskType d = SdDeviceDisk ->
  1 <= ReferenceCount d <= MAX_ULONG ->
  IrpFacts.CurrentOwner OpenIrp = Some SdDriver ->
  IrpFacts.CurrentOwner CloseIrp = Some SdDriver ->
  exists m1 OpenIrp' t1 CloseIrp' t2,
    SdDispatchOpen SdDriver m OpenIrp a = Done (m1, OpenIrp', t1) /\
    Disks m1 !! a
    = Some (set_ReferenceCount (ULONG (ReferenceCount d + 1)) d) /\
    SdDispatchClose SdDriver m1 CloseIrp a = Done (m, CloseIrp', t2) /\
    Irp.Status (Irp.Public OpenIrp') = STATUS_SUCCESS /\
    flag_test (Irp.Flags OpenIrp') Irp.IRP_COMPLETE = true /\
    Irp.Status (Irp.Public CloseIrp') = STATUS_SUCCESS /\
    flag_test (Irp.Flags CloseIrp') Irp.IRP_COMPLETE = true /\
    Destroyed (t1 ++ t2) = [].
Proof.
  intros Hd Htype Hc Hopen Hclose.
  destruct (reference_round_trip _ Hc) as [Hnot Hback].
  destruct (lift_complete_by_owner SdDriver OpenIrp STATUS_SUCCESS Hopen)
    as (O' & to & Ho & Hos & _ & Hoc & _).
  destruct (lift_complete_by_owner SdDriver CloseIrp STATUS_SUCCESS Hclose)
    as (C' & tc & Hcl & Hcs & _ & Hcc & _).
  set (d1 := set_ReferenceCount (ULONG (ReferenceCount d + 1)) d).
  exists (StoreDisk m a d1), O', (map EvIrp to), C', (map EvIrp tc).
  assert (Hquiet : forall t, Destroyed (map EvIrp t) = []).
  { intros t. induction t as [|e t IH]; [done|]. exact IH. }
  split; [|split; [|split]].
  - unfold SdDispatchOpen, SdpDiskAddReference.
    rewrite (LoadDisk_Some _ _ _ Hd), !bind_ret_l, Htype.
    rewrite bool_decide_eq_true_2 by done. cbn [negb].
    rewrite ?bind_ret_l, Ho. cbn [bind ret]. by rewrite app_nil_r.
  - cbn. by rewrite lookup_insert_eq.
  - unfold SdDispatchClose, SdpDiskReleaseReference.
    rewrite LoadDisk_stored, !bind_ret_l.
    change (DiskType d1) with (DiskType d). rewrite Htype.
    rewrite bool_decide_eq_true_2 by done. cbn [negb].
    rewrite ?LoadDisk_stored, ?bind_ret_l. cbv zeta.
    change (ReferenceCount d1) with (ULONG (ReferenceCount d + 1)).
    rewrite Hnot, Hback, ?bind_ret_l, StoreDisk_twice, Hcl.
    assert (StoreDisk m a (set_ReferenceCount (ReferenceCount d) d1) = m)
      as ->; [|cbn [bind ret]; by rewrite app_nil_r].
    unfold StoreDisk, set_Disks.
    replace (set_ReferenceCount (ReferenceCount d) d1) with d
      by by destruct d.
    rewrite insert_id by done. by destruct m.
  - unfold Destroyed in *. rewrite omap_app.
    fold (Destroyed (map EvIrp to)). fold (Destroyed (map EvIrp tc)).
    rewrite !Hquiet. done.
Qed.

Lemma open_then_close_restores_the_disk_witness :
  exists m1 OpenIrp' t1 CloseIrp' t2,
    SdDispatchOpen 1%nat SampleMemory SampleIoIrp 59%nat
      = Done (m1, OpenIrp', t1) /\
    Disks m1 !! 59%nat
    = Some (set_ReferenceCount (ULONG (ReferenceCount SampleSdDisk + 1))
              SampleSdDisk) /\
    SdDispatchClose 1%nat m1 SampleIoIrp 59%nat
      = Done (SampleMemory, CloseIrp', t2) /\
    Irp.Status (Irp.Public OpenIrp') = STATUS_SUCCESS /\
    flag_test (Irp.Flags OpenIrp') Irp.IRP_COMPLETE = true /\
    Irp.Status (Irp.Public CloseIrp') = STATUS_SUCCESS /\
    flag_test (Irp.Flags CloseIrp') Irp.IRP_COMPLETE = true /\
    Destroyed (t1 ++ t2) = [].
Proof.
  apply (open_then_close_restores_the_disk 1%nat SampleMemory SampleIoIrp
           SampleIoIrp 59%nat SampleSdDisk).
  - reflexivity.
  - reflexivity.
  - vm_compute. split; discriminate.
  - reflexivity.
  - reflexivity.
Defined.

(** *** Crash dump I/O *)

(** X28. The block I/O routines of the crash dump interface never touch
    the controller lock, whatever the memory manager and the controller
    answer; [SdpDiskBlockIoRead] only reads and [SdpDiskBlockIoWrite]
    only writes, through the disk's controller; and when the buffer
    handed in passes validation, no buffer is freed or copied. *)
Theorem crash_dump_io_takes_no_lock (UINTN_BITS : Z) (fuel : nat)
    (env : POLLED_ENVIRONMENT) (Disk : SD_DISK) (IoBuffer : IO_BUFFER)
    (BlockAddress BlockCount' : Z) (Write : bool) (r : KSTATUS * Z)
    (t : list Event) :
  (if Write
   then SdpDiskBlockIoWrite UINTN_BITS fuel env Disk IoBuffer BlockAddress
          BlockCount'
   else SdpDiskBlockIoRead UINTN_BITS fuel env Disk IoBuffer BlockAddress
          BlockCount') = Done (r, t) ->
  LockFree t /\
  (forall c o k va w,
     EvBlockIoPolled c o k va w ∈ t ->
     c = DiskController Disk /\ w = Write) /\
  (BufferAddress IoBuffer = BufferAddress (ValidateIoBuffer env).2 ->
   Frees t = [] /\ forall dst src n, EvCopyIoBuffer dst src n ∉ t).
Proof.
  intros H.
  assert (Hrun : SdpPerformBlockIoPolled UINTN_BITS fuel env Disk IoBuffer
                   BlockAddress BlockCount' Write false = Done (r, t))
    by by destruct Write.
  clear H. split; [by eapply polled_io_without_lock|].
  destruct r as [s n].
  assert (Hnocopy :
    BufferAddress IoBuffer = BufferAddress (ValidateIoBuffer env).2 ->
    forall dst src k, EvCopyIoBuffer dst src k ∉ t).
  { intros Hsame dst src k. pose proof Hrun as Hcopy.
    unfold SdpPerformBlockIoPolled in Hcopy.
    apply bind_inv in Hcopy as ([] & t1 & t2 & [= <-] & Hcopy & ->).
    destruct (ValidateIoBuffer env) as [s0 B]. cbn [snd] in *.
    rewrite bool_decide_eq_true_2 in Hcopy by done.
    cbn [negb andb] in Hcopy.
    assert (Hend : forall st k' tt' r',
      PerformBlockIoPolledEnd UINTN_BITS env Disk IoBuffer B Write false
        st k' = Done (r', tt') ->
      EvCopyIoBuffer dst src k ∉ tt').
    { intros st k' tt' r'. unfold PerformBlockIoPolledEnd.
      rewrite bool_decide_eq_true_2 by done. cbn [negb].
      rewrite !bind_ret_l. intros Hx.
      destruct (negb Write && negb (k' =? 0)).
      - apply bind_inv in Hx as ([] & ? & ? & Hfl & [= _ <-] & ->).
        rewrite FlushFragments_run in Hfl. injection Hfl as <-.
        rewrite app_nil_r. intros Hbad.
        apply list_elem_of_fmap in Hbad as (? & ? & _). done.
      - rewrite bind_ret_l in Hx. injection Hx as _ <-.
        apply not_elem_of_nil. }
    destruct (KSUCCESS s0) eqn:Hs0; cbn [negb] in Hcopy.
    2:{ apply Hend in Hcopy. set_solver. }
    rewrite bind_ret_l, Hs0 in Hcopy. cbn [negb] in Hcopy.
    apply bind_inv in Hcopy as ([] & t3 & t4 & [= <-] & Hcopy & ->).
    destruct (KSUCCESS (MapIoBuffer env)); cbn [negb] in Hcopy.
    2:{ apply Hend in Hcopy. set_solver. }
    apply bind_inv in Hcopy as ([i off] & t5 & t6 & Hfind & Hcopy & ->).
    apply FindStartingFragment_silent in Hfind as ->.
    rewrite bind_ret_l in Hcopy.
    destruct (flag_test (DiskFlags Disk) SD_DISK_FLAG_MEDIA_PRESENT);
      cbn [negb] in Hcopy.
    2:{ apply Hend in Hcopy. set_solver. }
    apply bind_inv in Hcopy as ([s4 L] & t7 & t8 & Hloop & Hcopy & ->).
    apply PolledTransferLoop_shape in Hloop as (Hloop & _).
    apply Hend in Hcopy. rewrite Forall_forall in Hloop.
    intros Hbad. rewrite !elem_of_app in Hbad.
    destruct Hbad as [Hbad|[Hbad|[Hbad|[Hbad|Hbad]]]]; try done;
      try (by apply list_elem_of_singleton in Hbad);
      try (by apply elem_of_nil in Hbad).
    by apply Hloop in Hbad as (? & ? & ? & ?). }
  apply SdpPerformBlockIoPolled_anatomy in Hrun
    as (setup & transfers & held & s3 & n3 & tend & -> & Hq & Hfs & Hend
        & Hall & _ & _ & Hheld & _).
  assert (held = false) as ->
    by (destruct held; [discriminate (Hheld eq_refl)|done]).
  apply PerformBlockIoPolledEnd_shape in Hend as (rest & -> & Hrest & Hfr & _).
  cbn [app] in *. split.
  - intros c o k va w Hin. rewrite Forall_forall in Hq, Hrest, Hall.
    rewrite !elem_of_app in Hin. destruct Hin as [Hin|[Hin|Hin]].
    + by apply Hq in Hin.
    + apply Hall in Hin as (? & ? & ? & [= -> _ _ _ ->]). done.
    + by apply Hrest in Hin.
  - intros Hsame. split; [|by apply Hnocopy].
    apply TransferOf_quiet in Hall as [_ Hft].
    rewrite !Frees_app, Hfs, Hft, Hfr. by rewrite decide_True.
Qed.

Lemma crash_dump_io_takes_no_lock_witness :
  exists r t,
    SdpDiskBlockIoWrite 32 8 (CardServing SubstituteBuffer) SampleSdDisk
      SubstituteBuffer 8 2 = Done (r, t) /\
    LockFree t /\
    (forall c o k va w,
       EvBlockIoPolled c o k va w ∈ t ->
       c = DiskController SampleSdDisk /\ w = true) /\
    (BufferAddress SubstituteBuffer
     = BufferAddress (ValidateIoBuffer (CardServing SubstituteBuffer)).2 ->
     Frees t = [] /\ forall dst src n, EvCopyIoBuffer dst src n ∉ t).
Proof.
  eexists _, _. split; [vm_compute; reflexivity|].
  eapply (crash_dump_io_takes_no_lock 32 8 (CardServing SubstituteBuffer)
            SampleSdDisk SubstituteBuffer 8 2 true).
  vm_compute. reflexivity.
Defined.

(** *** I/O dispatch *)

(** The events of the rest of the driver in a trace of the I/O dispatch
    routine. *)
Definition DriverEvents (t : list IoEvent) : list Event :=
  omap (fun e => match e with EvDriver e' => Some e' | _ => None end) t.

(** The acquisitions and releases of locks in a trace, in order. *)
Definition LockEvents (t : list Event) : list Event :=
  List.filter IsLockEvent t.

Lemma DriverEvents_app t1 t2 :
  DriverEvents (t1 ++ t2) = DriverEvents t1 ++ DriverEvents t2.
Proof. apply omap_app. Qed.

Lemma DriverEvents_driver (t : list Event) :
  DriverEvents (map EvDriver t) = t.
Proof.
  unfold DriverEvents. induction t as [|e t IH]; [done|].
  cbn [map omap list_omap]. by rewrite IH.
Qed.

Lemma LockEvents_app t1 t2 :
  LockEvents (t1 ++ t2) = LockEvents t1 ++ LockEvents t2.
Proof. apply List.filter_app. Qed.

Lemma Transfers_app t1 t2 :
  Transfers (t1 ++ t2) = Transfers t1 ++ Transfers t2.
Proof. apply List.filter_app. Qed.

Lemma filter_none {A} (P : A -> bool) (t : list A) :
  Forall (fun e => P e = false) t -> List.filter P t = [].
Proof.
  induction 1 as [|e t He _ IH]; [done|]. cbn. by rewrite He.
Qed.

(** The events of the IRP engine are no lock events, no transfers and no
    frees of the driver. *)
Lemma engine_events_are_neutral (t : list Irp.Event) :
  LockEvents (map EvIrp t) = [] /\ Transfers (map EvIrp t) = [] /\
  Frees (map EvIrp t) = [].
Proof. induction t as [|e t (IH1 & IH2 & IH3)]; [done|]. cbn. done. Qed.

Lemma BufferWork_neutral (t : list Event) :
  Forall (fun e => IsBufferWork e = true) t ->
  LockEvents t = [] /\ Transfers t = [].
Proof.
  intros H. split; apply filter_none; (eapply Forall_impl; [exact H|]);
    by intros [].
Qed.

Lemma TransferOf_neutral Disk W (t : list Event) :
  Forall (TransferOf Disk W) t -> LockEvents t = [] /\ Transfers t = [].
Proof.
  intros H. split; apply filter_none; (eapply Forall_impl; [exact H|]);
    by intros e (? & ? & ? & ->).
Qed.

(** What a polled transfer under the lock leaves in the trace. *)
Lemma polled_summary UINTN_BITS fuel env Disk O A N W r t :
  SdpPerformBlockIoPolled UINTN_BITS fuel env Disk O A N W true
    = Done (r, t) ->
  (LockEvents t = [] \/
   LockEvents t = [EvAcquireQueuedLock (ControllerLock Disk);
                   EvReleaseQueuedLock (ControllerLock Disk)]) /\
  Transfers t = [] /\
  Frees t = if decide (BufferAddress O = BufferAddress (ValidateIoBuffer env).2)
            then [] else [BufferAddress (ValidateIoBuffer env).2].
Proof.
  destruct r as [s n]. intros H.
  apply SdpPerformBlockIoPolled_anatomy in H
    as (setup & transfers & held & s3 & n3 & tend & -> & Hq & Hfs & Hend
        & Hall & _).
  apply PerformBlockIoPolledEnd_shape in Hend as (rest & -> & Hrest & Hfr & _).
  destruct (BufferWork_neutral _ Hq) as [Hl1 Hd1].
  destruct (BufferWork_neutral _ Hrest) as [Hl2 Hd2].
  destruct (TransferOf_neutral _ _ _ Hall) as [Hl3 Hd3].
  apply TransferOf_quiet in Hall as [_ Hft].
  rewrite !LockEvents_app, !Transfers_app, !Frees_app.
  rewrite Hl1, Hl2, Hl3, Hd1, Hd2, Hd3, Hfs, Hft, Hfr.
  destruct held; cbn; by auto.
Qed.

Lemma driver_Done {A} (m : Run Event A) a t :
  m = Done (a, t) -> driver m = Done (a, map EvDriver t).
Proof. by intros ->. Qed.

Lemma driver_inv {A} (m : Run Event A) a t :
  driver m = Done (a, t) -> exists t', m = Done (a, t') /\ t = map EvDriver t'.
Proof.
  destruct m as [[a' t']| | | |]; try discriminate.
  intros [= <- <-]. by eexists.
Qed.

(** The code at [DispatchIoEnd] frees the substitute buffer, if there is
    one, and completes the IRP. *)
Lemma DispatchIoEnd_run (SdDriver : Irp.PDRIVER) (o : option ADDRESS)
    (b : ADDRESS) (same : bool) (Irp0 : Irp.IRP_INTERNAL) (s : KSTATUS) :
  IrpFacts.CurrentOwner Irp0 = Some SdDriver ->
  exists Irp1 t,
    DispatchIoEnd SdDriver o (if same then o else Some b) Irp0 s
      = Done (Irp1, t) /\
    LockEvents (DriverEvents t) = [] /\
    Transfers (DriverEvents t) = [] /\
    Frees (DriverEvents t)
    = (if same || bool_decide (o = Some b) then [] else [b]) /\
    Irp.Status (Irp.Public Irp1) = s /\
    Irp.Direction (Irp.Public Irp1) = Irp.IrpUp /\
    flag_test (Irp.Flags Irp1) Irp.IRP_COMPLETE = true /\
    Irp.U (Irp.Public Irp1) = Irp.U (Irp.Public Irp0) /\
    Irp.MinorCode (Irp.Public Irp1) = Irp.MinorCode (Irp.Public Irp0).
Proof.
  intros Hown.
  destruct (lift_complete_by_owner SdDriver Irp0 s Hown)
    as (Irp1 & t & Hrun & Hprops).
  destruct (engine_events_are_neutral t) as (Hl & Hd & Hf).
  unfold DispatchIoEnd.
  assert (Hsame : (if same then o else Some b) = o ->
    exists t',
      (run! ret () in driver (lift (Irp.IoCompleteIrp SdDriver Irp0 s)))
      = Done (Irp1, t') /\ DriverEvents t' = map EvIrp t).
  { intros _. rewrite bind_ret_l, (driver_Done _ _ _ Hrun).
    eexists. split; [reflexivity|]. apply DriverEvents_driver. }
  destruct same; cbn [orb].
  - rewrite bool_decide_eq_true_2 by done. cbn [negb].
    destruct (Hsame eq_refl) as (t' & -> & Ht').
    exists Irp1, t'. rewrite Ht'. done.
  - destruct (decide (o = Some b)) as [->|Hne].
    + rewrite !bool_decide_eq_true_2 by done. cbn [negb].
      destruct (Hsame eq_refl) as (t' & -> & Ht').
      exists Irp1, t'. rewrite Ht'. done.
    + rewrite !bool_decide_eq_false_2 by done. cbn [negb].
      cbn [deref]. rewrite bind_ret_l. cbn [driver emit map].
      rewrite (driver_Done _ _ _ Hrun).
      eexists _, _. split; [reflexivity|].
      cbn [bind app DriverEvents omap list_omap].
      fold (DriverEvents (map EvDriver (map EvIrp t))).
      rewrite DriverEvents_driver.
      change (EvFreeIoBuffer b :: map EvIrp t)
        with ([EvFreeIoBuffer b] ++ map EvIrp t).
      rewrite LockEvents_app, Transfers_app, Frees_app, Hl, Hd, Hf. done.
Qed.

Lemma IoPendIrp_by_owner (owner : Irp.PDRIVER) (Irp0 : Irp.IRP_INTERNAL) :
  IrpFacts.CurrentOwner Irp0 = Some owner ->
  Irp.IoPendIrp owner Irp0
  = Done (Irp.set_Flags (flag_or (Irp.Flags Irp0) Irp.IRP_PENDING) Irp0, []).
Proof.
  intros Hown.
  destruct (IrpFacts.CurrentOwner_inv _ _ Hown) as (entry & o & Hat & Ho & Hd).
  unfold Irp.IoPendIrp. rewrite Hat. simpl bind at 1. rewrite Ho.
  simpl bind at 1. by rewrite decide_True by done.
Qed.

Lemma bind_Done_ret {E A B} (m : Run E A) (f : A -> B) a t :
  m = Done (a, t) -> (let! x := m in ret (f x)) = Done (f a, t).
Proof. intros ->. cbn. by rewrite app_nil_r. Qed.

Lemma FlushFragmentsForDma_run (W : bool) (l : list IO_BUFFER_FRAGMENT) :
  exists t, FlushFragmentsForDma W l = Done (tt, t) /\ DriverEvents t = [].
Proof.
  induction l as [|f l (t & IH & Ht)]; [by eexists|].
  cbn [FlushFragmentsForDma]. rewrite IH. eexists. split; [reflexivity|].
  cbn [app DriverEvents omap list_omap]. by destruct W.
Qed.

(** X29. Handed an IRP on its way down to a disk, [SdDispatchIo] either
    starts DMA or completes the IRP, never both and never neither. When
    it starts DMA, the IRP is pended, the disk remembers the IRP and the
    buffer in use, one transfer is submitted, and the controller lock is
    held on return. Otherwise the IRP is completed, the disk is as it
    was, no DMA transfer is submitted, the controller lock is not held
    on return, and the buffer substituted for the caller's, if one was,
    has been freed. *)
Theorem io_dispatch_completes_or_pends (UINTN_BITS : Z)
    (SdDriver : Irp.PDRIVER) (fuel : nat) (env : POLLED_ENVIRONMENT)
    (Buffers : gmap ADDRESS IO_BUFFER) (IrpAddress : ADDRESS)
    (Irp0 : Irp.IRP_INTERNAL) (DiskAddress : ADDRESS) (Disk Disk' : SD_DISK)
    (Irp' : Irp.IRP_INTERNAL) (t : list IoEvent) :
  DiskType Disk = SdDeviceDisk ->
  Irp.Direction (Irp.Public Irp0) = Irp.IrpDown ->
  IrpFacts.CurrentOwner Irp0 = Some SdDriver ->
  (forall o b, Buffers !! o = Some b -> BufferAddress b = o) ->
  SdDispatchIo UINTN_BITS SdDriver fuel env Buffers IrpAddress Irp0
    DiskAddress Disk = Done (Disk', Irp', t) ->
  let Request := ReadWrite Irp0 in
  let B := BufferAddress (ValidateIoBuffer env).2 in
  let Lock := ControllerLock Disk in
  (flag_test (Irp.Flags Irp') Irp.IRP_PENDING = true /\
   Irp.Direction (Irp.Public Irp') = Irp.IrpDown /\
   Disk' = set_DiskIoBuffer (Some B) (set_DiskIrp (Some IrpAddress) Disk) /\
   LockEvents (DriverEvents t) = [EvAcquireQueuedLock Lock] /\
   Transfers (DriverEvents t)
   = [EvBlockIoDma (DiskController Disk)
        (Z.shiftr (Irp.IoOffset Request) (BlockShift Disk))
        (Z.shiftr (Irp.IoSizeInBytes Request) (BlockShift Disk))
        (Some B) 0
        (Irp.MinorCode (Irp.Public Irp0) =? Irp.IrpMinorIoWrite)
        DiskAddress] /\
   Frees (DriverEvents t) = [])
  \/
  (flag_test (Irp.Flags Irp') Irp.IRP_COMPLETE = true /\
   Irp.Direction (Irp.Public Irp') = Irp.IrpUp /\
   Disk' = Disk /\
   (LockEvents (DriverEvents t) = [] \/
    LockEvents (DriverEvents t)
    = [EvAcquireQueuedLock Lock; EvReleaseQueuedLock Lock]) /\
   Transfers (DriverEvents t) = [] /\
   Frees (DriverEvents t)
   = if flag_test (DiskFlags Disk) SD_DISK_FLAG_MEDIA_PRESENT
        && negb (bool_decide (Irp.IoBuffer Request = Some B))
     then [B] else []).
Proof.
  intros Htype Hdown Hown Hstore Hrun Request B Lock.
  unfold SdDispatchIo in Hrun. rewrite Htype in Hrun.
  rewrite bool_decide_eq_true_2 in Hrun by done. cbn [negb] in Hrun.
  destruct (flag_test (DiskFlags Disk) SD_DISK_FLAG_MEDIA_PRESENT) eqn:Hmedia;
    cbn [negb andb] in Hrun |- *.
  2:{ (* no media *)
      destruct (DispatchIoEnd_run SdDriver (Irp.IoBuffer Request) 0%nat true
                  Irp0 STATUS_NO_MEDIA Hown)
        as (Irp1 & t1 & Hend & Hl & Hd & Hf & _ & Hdir & Hc & _).
      fold Request in Hrun.
      rewrite (bind_Done_ret _ (fun I => (Disk, I)) _ _ Hend) in Hrun.
      injection Hrun as <- <- <-. right. rewrite Hl, Hd, Hf.
      repeat split; try done. by left. }
  destruct (flag_test (DiskFlags Disk) SD_DISK_FLAG_DMA_SUPPORTED) eqn:Hdma;
    cbn [negb] in Hrun.
  2:{ (* polled *)
      fold Request in Hrun.
      apply bind_inv in Hrun as (o & t1 & t2 & Ho & Hrun & ->).
      destruct (Irp.IoBuffer Request) as [o'|] eqn:Hbuf; [|done].
      injection Ho as -> <-.
      apply bind_inv in Hrun as (Original & t3 & t4 & HO & Hrun & ->).
      destruct (Buffers !! o) as [b|] eqn:Hb; [|done].
      injection HO as <- <-. apply Hstore in Hb.
      apply bind_inv in Hrun as ([s n] & t5 & t6 & Hpolled & Hrun & ->).
      apply driver_inv in Hpolled as (tp & Hpolled & ->).
      apply polled_summary in Hpolled as (Hlp & Hdp & Hfp).
      match type of Hrun with
      | context [DispatchIoEnd _ _ _ ?I ?S] =>
          destruct (DispatchIoEnd_run SdDriver (Some o) 0%nat true I S)
            as (Irp1 & te & Hend & Hl & Hd & Hf & _ & Hdir & Hc & _);
            [exact Hown|]
      end.
      cbv iota beta in Hrun. cbn [fst snd] in Hrun.
      rewrite (bind_Done_ret _ (fun I => (Disk, I)) _ _ Hend) in Hrun.
      injection Hrun as <- <- <-.
      right. cbn [app].
      rewrite DriverEvents_app, DriverEvents_driver.
      rewrite LockEvents_app, Transfers_app, Frees_app.
      rewrite Hl, Hd, Hf, Hdp, Hfp, !app_nil_r. rewrite Hb.
      split; [done|]. split; [done|]. split; [done|]. split; [done|].
      split; [done|]. fold B.
      destruct (decide (o = B)) as [Heq|Hne].
      - rewrite decide_True by done.
        rewrite bool_decide_eq_true_2; [done|]. by rewrite Heq.
      - rewrite decide_False by done.
        rewrite bool_decide_eq_false_2; [done|]. by intros [= ?]. }
  (* DMA on the way down *)
  rewrite Hdown in Hrun. rewrite bool_decide_eq_false_2 in Hrun by done.
  unfold DispatchIoDma in Hrun. fold Request in Hrun.
  apply bind_inv in Hrun as ([] & t1 & t2 & [= <-] & Hrun & ->).
  unfold B. destruct (ValidateIoBuffer env) as [s0 V]. cbn [snd].
  set (Write := Irp.MinorCode (Irp.Public Irp0) =? Irp.IrpMinorIoWrite)
    in *.
  set (Irp1 := set_IoBytesCompleted 0 Irp0) in *.
  assert (Hown1 : IrpFacts.CurrentOwner Irp1 = Some SdDriver) by exact Hown.
  assert (Hfail : forall s tr,
    (let! Irp2 := DispatchIoEnd SdDriver (Irp.IoBuffer Request)
                    (Some (BufferAddress V)) Irp1 s in
     ret (Disk, Irp2)) = Done (Disk', Irp', tr) ->
    flag_test (Irp.Flags Irp') Irp.IRP_COMPLETE = true /\
    Irp.Direction (Irp.Public Irp') = Irp.IrpUp /\
    Disk' = Disk /\
    LockEvents (DriverEvents tr) = [] /\
    Transfers (DriverEvents tr) = [] /\
    Frees (DriverEvents tr)
    = if negb (bool_decide (Irp.IoBuffer Request = Some (BufferAddress V)))
      then [BufferAddress V] else []).
  { intros s tr Hx.
    destruct (DispatchIoEnd_run SdDriver (Irp.IoBuffer Request)
                (BufferAddress V) false Irp1 s Hown1)
      as (Irp2 & te & Hend & Hl & Hd & Hf & _ & Hdir & Hc & _).
    rewrite (bind_Done_ret _ (fun I => (Disk, I)) _ _ Hend) in Hx.
    injection Hx as <- <- <-.
    rewrite Hl, Hd, Hf. cbn [orb].
    repeat split; try done. by repeat case_bool_decide. }
  destruct (KSUCCESS s0) eqn:Hs0; cbn [negb] in Hrun.
  2:{ right. apply Hfail in Hrun as (? & ? & ? & Hl & Hd & Hf).
      change (?x :: t2) with ([x] ++ t2).
      rewrite !DriverEvents_app, !LockEvents_app, !Transfers_app, !Frees_app.
      rewrite Hl, Hd, Hf. repeat split; try done. by left. }
  apply bind_inv in Hrun as (s1 & t3 & t4 & Hcopy & Hrun & ->).
  assert (Ht3 : LockEvents (DriverEvents t3) = [] /\
                Transfers (DriverEvents t3) = [] /\
                Frees (DriverEvents t3) = []).
  { destruct (_ && Write); [|by injection Hcopy as _ <-].
    apply bind_inv in Hcopy as (o & ? & ? & Ho & Hcopy & ->).
    destruct (Irp.IoBuffer Request); [|done]. injection Ho as <- <-.
    apply bind_inv in Hcopy as ([] & ? & ? & [= <-] & [= _ <-] & ->).
    done. }
  destruct Ht3 as (Hl3 & Hd3 & Hf3).
  destruct (KSUCCESS s1) eqn:Hs1; cbn [negb] in Hrun.
  2:{ right. apply Hfail in Hrun as (? & ? & ? & Hl & Hd & Hf).
      change (?x :: t3 ++ t4) with ([x] ++ t3 ++ t4).
      rewrite !DriverEvents_app, !LockEvents_app, !Transfers_app, !Frees_app.
      rewrite Hl, Hd, Hf, Hl3, Hd3, Hf3. repeat split; try done. by left. }
  apply bind_inv in Hrun as ([] & t5 & t6 & [= <-] & Hrun & ->).
  cbv zeta in Hrun.
  destruct (KSUCCESS (MapIoBuffer env)) eqn:Hs2; cbn [negb] in Hrun.
  2:{ right. apply Hfail in Hrun as (? & ? & ? & Hl & Hd & Hf).
      change (?x :: t3 ++ ?y ++ t6) with ([x] ++ t3 ++ y ++ t6).
      rewrite !DriverEvents_app, !LockEvents_app, !Transfers_app, !Frees_app.
      rewrite Hl, Hd, Hf, Hl3, Hd3, Hf3. repeat split; try done. by left. }
  apply bind_inv in Hrun as ([] & t7 & t8 & Hflush & Hrun & ->).
  destruct (FlushFragmentsForDma_run Write (Fragment V)) as (tf & Hf' & Hquiet).
  rewrite Hf' in Hflush. injection Hflush as <-.
  apply bind_inv in Hrun as ([] & t9 & t10 & [= <-] & Hrun & ->).
  rewrite Hmedia in Hrun. cbn [negb] in Hrun.
  apply bind_inv in Hrun as (Irp3 & t11 & t12 & Hpend & Hrun & ->).
  apply driver_inv in Hpend as (tp & Hpend & ->).
  match type of Hpend with
  | lift (Irp.IoPendIrp _ ?I) = _ =>
      rewrite (IoPendIrp_by_owner SdDriver I Hown) in Hpend
  end.
  injection Hpend as <- <-.
  apply bind_inv in Hrun as ([] & t13 & t14 & [= <-] & [= <- <- <-] & ->).
  left.
  change (?x :: t3 ++ ?y ++ tf ++ ?z)
    with ([x] ++ t3 ++ y ++ tf ++ z).
  rewrite !DriverEvents_app, !LockEvents_app, !Transfers_app, !Frees_app.
  rewrite Hquiet, Hl3, Hd3, Hf3.
  split; [|split; [done|]].
  { cbn. apply flag_test_or_same. done. }
  split; [done|]. split; [done|]. split; [done|]. done.
Qed.

(** The buffers of the samples, by address. *)
Definition SampleBuffers : gmap ADDRESS IO_BUFFER :=
  {[ 5%nat := CallerBuffer ]}.

(** The sample disk with no request in progress. *)
Definition IdleDisk : SD_DISK :=
  set_DiskIoBuffer None (set_DiskIrp None SampleSdDisk).

Lemma SampleBuffers_consistent :
  forall o b, SampleBuffers !! o = Some b -> BufferAddress b = o.
Proof.
  intros o b H. unfold SampleBuffers in H.
  apply lookup_singleton_Some in H as [<- <-]. reflexivity.
Qed.

Lemma io_dispatch_completes_or_pends_witness :
  exists Disk' Irp' t,
    SdDispatchIo 32 1%nat 8 (CardServing CallerBuffer) SampleBuffers 50%nat
      SampleIoIrp 59%nat IdleDisk = Done (Disk', Irp', t) /\
    let Request := ReadWrite SampleIoIrp in
    let B := BufferAddress (ValidateIoBuffer (CardServing CallerBuffer)).2 in
    let Lock := ControllerLock IdleDisk in
    (flag_test (Irp.Flags Irp') Irp.IRP_PENDING = true /\
     Irp.Direction (Irp.Public Irp') = Irp.IrpDown /\
     Disk'
     = set_DiskIoBuffer (Some B) (set_DiskIrp (Some 50%nat) IdleDisk) /\
     LockEvents (DriverEvents t) = [EvAcquireQueuedLock Lock] /\
     Transfers (DriverEvents t)
     = [EvBlockIoDma (DiskController IdleDisk)
          (Z.shiftr (Irp.IoOffset Request) (BlockShift IdleDisk))
          (Z.shiftr (Irp.IoSizeInBytes Request) (BlockShift IdleDisk))
          (Some B) 0
          (Irp.MinorCode (Irp.Public SampleIoIrp) =? Irp.IrpMinorIoWrite)
          59%nat] /\
     Frees (DriverEvents t) = [])
    \/
    (flag_test (Irp.Flags Irp') Irp.IRP_COMPLETE = true /\
     Irp.Direction (Irp.Public Irp') = Irp.IrpUp /\
     Disk' = IdleDisk /\
     (LockEvents (DriverEvents t) = [] \/
      LockEvents (DriverEvents t)
      = [EvAcquireQueuedLock Lock; EvReleaseQueuedLock Lock]) /\
     Transfers (DriverEvents t) = [] /\
     Frees (DriverEvents t)
     = if flag_test (DiskFlags IdleDisk) SD_DISK_FLAG_MEDIA_PRESENT
          && negb (bool_decide (Irp.IoBuffer Request = Some B))
       then [B] else []).
Proof.
  eexists _, _, _. split; [vm_compute; reflexivity|].
  eapply (io_dispatch_completes_or_pends 32 1%nat 8 (CardServing CallerBuffer)
            SampleBuffers 50%nat SampleIoIrp 59%nat IdleDisk).
  - reflexivity.
  - reflexivity.
  - reflexivity.
  - exact SampleBuffers_consistent.
  - vm_compute. reflexivity.
Defined.

(** *** A request served by DMA, from the dispatch to the clean up *)

(** X30. A request served by DMA. Handed the IRP on its way down,
    [SdDispatchIo] takes the controller lock, pends the IRP and submits
    one transfer; when the transfer is over, [SdpDmaCompletion] completes
    the IRP with all its bytes transferred; handed the IRP on its way
    up, [SdDispatchIo] releases the lock and frees the buffer that was
    substituted for the caller's, if one was. The disk is then as it was
    before the request: the lock was acquired once and released once,
    and one DMA transfer was submitted. *)
Theorem dma_request_round_trip (UINTN_BITS : Z) (SdDriver : Irp.PDRIVER)
    (fuel : nat) (env : POLLED_ENVIRONMENT)
    (Buffers : gmap ADDRESS IO_BUFFER) (IrpAddress : ADDRESS)
    (Irp0 : Irp.IRP_INTERNAL) (Request : Irp.IRP_READ_WRITE)
    (DiskAddress : ADDRESS) (Disk : SD_DISK) (o : ADDRESS)
    (Original : IO_BUFFER) :
  DiskType Disk = SdDeviceDisk ->
  flag_test (DiskFlags Disk) SD_DISK_FLAG_MEDIA_PRESENT = true ->
  flag_test (DiskFlags Disk) SD_DISK_FLAG_DMA_SUPPORTED = true ->
  DiskIrp Disk = None ->
  DiskIoBuffer Disk = None ->
  Irp.Direction (Irp.Public Irp0) = Irp.IrpDown ->
  Irp.U (Irp.Public Irp0) = Irp.UReadWrite Request ->
  IrpFacts.CurrentOwner Irp0 = Some SdDriver ->
  Irp.IoBuffer Request = Some o ->
  Buffers !! o = Some Original ->
  0 <= Irp.IoSizeInBytes Request < 2 ^ UINTN_BITS ->
  KSUCCESS (ValidateIoBuffer env).1 = true ->
  KSUCCESS (CopyIn env) = true ->
  KSUCCESS (MapIoBuffer env) = true ->
  KSUCCESS (CopyBack env) = true ->
  let B := BufferAddress (ValidateIoBuffer env).2 in
  let Lock := ControllerLock Disk in
  exists Disk1 Irp1 t1 Irp2 t2 t3,
    SdDispatchIo UINTN_BITS SdDriver fuel env Buffers IrpAddress Irp0
      DiskAddress Disk = Done (Disk1, Irp1, t1) /\
    SdpDmaCompletion UINTN_BITS SdDriver Disk1 DiskAddress (Some Irp1)
      (Irp.IoSizeInBytes Request) STATUS_SUCCESS = Done (Irp2, t2) /\
    SdDispatchIo UINTN_BITS SdDriver fuel env Buffers IrpAddress Irp2
      DiskAddress Disk1 = Done (Disk, Irp2, t3) /\
    flag_test (Irp.Flags Irp2) Irp.IRP_COMPLETE = true /\
    Irp.Status (Irp.Public Irp2) = STATUS_SUCCESS /\
    Irp.IoBytesCompleted (ReadWrite Irp2) = Irp.IoSizeInBytes Request /\
    Irp.NewIoOffset (ReadWrite Irp2)
    = ULONGLONG (Irp.IoOffset Request + Irp.IoSizeInBytes Request) /\
    LockEvents (DriverEvents t1 ++ t2 ++ DriverEvents t3)
    = [EvAcquireQueuedLock Lock; EvReleaseQueuedLock Lock] /\
    Transfers (DriverEvents t1 ++ t2 ++ DriverEvents t3)
    = [EvBlockIoDma (DiskController Disk)
         (Z.shiftr (Irp.IoOffset Request) (BlockShift Disk))
         (Z.shiftr (Irp.IoSizeInBytes Request) (BlockShift Disk))
         (Some B) 0
         (Irp.MinorCode (Irp.Public Irp0) =? Irp.IrpMinorIoWrite)
         DiskAddress] /\
    Frees (DriverEvents t1 ++ t2 ++ DriverEvents t3)
    = if decide (o = B) then [] else [B].
Proof.
  intros Htype Hmedia Hdma Hidle1 Hidle2 Hdown HU Hown Hbuf HO Hsize
    Hv Hc Hm Hb B Lock.
  assert (HRW : ReadWrite Irp0 = Request) by (unfold ReadWrite; by rewrite HU).
  set (Write := Irp.MinorCode (Irp.Public Irp0) =? Irp.IrpMinorIoWrite).
  set (Disk1 := set_DiskIoBuffer (Some B) (set_DiskIrp (Some IrpAddress) Disk)).
  set (Request1 :=
    {| Irp.IoBuffer := Some o; Irp.IoFlags := Irp.IoFlags Request;
       Irp.IoOffset := Irp.IoOffset Request;
       Irp.IoSizeInBytes := Irp.IoSizeInBytes Request;
       Irp.IoBytesCompleted := 0;
       Irp.NewIoOffset := Irp.IoOffset Request;
       Irp.FileSize := Irp.FileSize Request |}).
  set (Irp1 :=
    Irp.set_Flags (flag_or (Irp.Flags Irp0) Irp.IRP_PENDING)
      (Irp.set_Public (Irp.set_U (Irp.UReadWrite Request1) (Irp.Public Irp0))
         Irp0)).
  (* the way down *)
  assert (Hdown1 : exists t1,
    SdDispatchIo UINTN_BITS SdDriver fuel env Buffers IrpAddress Irp0
      DiskAddress Disk = Done (Disk1, Irp1, t1) /\
    LockEvents (DriverEvents t1) = [EvAcquireQueuedLock Lock] /\
    Transfers (DriverEvents t1)
    = [EvBlockIoDma (DiskController Disk)
         (Z.shiftr (Irp.IoOffset Request) (BlockShift Disk))
         (Z.shiftr (Irp.IoSizeInBytes Request) (BlockShift Disk))
         (Some B) 0 Write DiskAddress] /\
    Frees (DriverEvents t1) = []).
  { unfold SdDispatchIo. rewrite Htype, Hmedia, Hdma, Hdown.
    rewrite bool_decide_eq_true_2 by done.
    rewrite bool_decide_eq_false_2 by done. cbn [negb].
    unfold DispatchIoDma. rewrite HRW. fold Write.
    unfold B in *. destruct (ValidateIoBuffer env) as [s0 V].
    cbn [fst snd] in *. rewrite Hv. cbn [negb].
    destruct (FlushFragmentsForDma_run Write (Fragment V))
      as (tf & Hflush & Hquiet).
    assert (Hcopy : exists tc,
      (if negb (bool_decide (Some (BufferAddress V) = Irp.IoBuffer Request))
          && Write
       then
         let! o' := deref (Irp.IoBuffer Request) in
         run! driver (emit (EvCopyIoBuffer (BufferAddress V) o'
                              (Irp.IoSizeInBytes Request))) in
         ret (CopyIn env)
       else ret s0) = Done (STATUS_SUCCESS, tc) /\
      LockEvents (DriverEvents tc) = [] /\
      Transfers (DriverEvents tc) = [] /\ Frees (DriverEvents tc) = []).
    { destruct (_ && Write).
      - rewrite Hbuf. cbn [deref]. rewrite bind_ret_l.
        destruct (CopyIn env); try discriminate.
        eexists. split; [reflexivity|]. done.
      - destruct s0; try discriminate. by eexists. }
    destruct Hcopy as (tc & Hcopy & Hlc & Hdc & Hfc).
    eexists. split.
    - eapply bind_Done; [reflexivity|].
      eapply bind_Done; [exact Hcopy|]. cbn [KSUCCESS negb].
      eapply bind_Done; [reflexivity|]. rewrite Hm. cbn [negb].
      eapply bind_Done; [exact Hflush|].
      eapply bind_Done; [reflexivity|]. rewrite Hmedia. cbn [negb].
      eapply bind_Done.
      { apply driver_Done. 
        rewrite (IoPendIrp_by_owner SdDriver); [reflexivity|exact Hown]. }
      eapply bind_Done; [reflexivity|].
      unfold ret. f_equal. f_equal. f_equal.
      unfold Irp1, set_NewIoOffset, set_IoBytesCompleted, ReadWrite.
      cbn. rewrite HU. cbn. unfold Request1. by rewrite Hbuf.
    - rewrite !DriverEvents_app, !LockEvents_app, !Transfers_app, !Frees_app.
      rewrite Hquiet, Hlc, Hdc, Hfc. done. }
  destruct Hdown1 as (t1 & Hrun1 & Hl1 & Hd1 & Hf1).
  (* the completion *)
  set (Request2 :=
    {| Irp.IoBuffer := Some o; Irp.IoFlags := Irp.IoFlags Request;
       Irp.IoOffset := Irp.IoOffset Request;
       Irp.IoSizeInBytes := Irp.IoSizeInBytes Request;
       Irp.IoBytesCompleted := Irp.IoSizeInBytes Request;
       Irp.NewIoOffset :=
         ULONGLONG (Irp.IoOffset Request + Irp.IoSizeInBytes Request);
       Irp.FileSize := Irp.FileSize Request |}).
  set (Irp1' :=
    Irp.set_Public (Irp.set_U (Irp.UReadWrite Request2) (Irp.Public Irp1))
      Irp1).
  destruct (lift_complete_by_owner SdDriver Irp1' STATUS_SUCCESS Hown)
    as (Irp2 & t2 & Hrun2 & Hstatus & Hup & Hcomplete & HU2 & Hminor).
  destruct (engine_events_are_neutral t2) as (Hl2 & Hd2 & Hf2).
  assert (HRW2 : ReadWrite Irp2 = Request2)
    by (unfold ReadWrite; by rewrite HU2).
  assert (Hcompletion :
    SdpDmaCompletion UINTN_BITS SdDriver Disk1 DiskAddress (Some Irp1)
      (Irp.IoSizeInBytes Request) STATUS_SUCCESS
    = Done (Irp2, map EvIrp t2)).
  { unfold SdpDmaCompletion. cbn [deref]. rewrite bind_ret_l.
    cbn [KSUCCESS negb].
    change (ReadWrite Irp1) with Request1. cbn [Request1 Irp.IoBytesCompleted
      Irp.NewIoOffset Irp.IoSizeInBytes Irp.IoBuffer].
    rewrite Z.add_0_l.
    unfold Irp.UINTN.
    rewrite (wrap_small UINTN_BITS (Irp.IoSizeInBytes Request)) by done.
    rewrite Z.eqb_refl. exact Hrun2. }
  (* the way up *)
  assert (Hup3 : exists t3,
    SdDispatchIo UINTN_BITS SdDriver fuel env Buffers IrpAddress Irp2
      DiskAddress Disk1 = Done (Disk, Irp2, t3) /\
    LockEvents (DriverEvents t3) = [EvReleaseQueuedLock Lock] /\
    Transfers (DriverEvents t3) = [] /\
    Frees (DriverEvents t3) = if decide (o = B) then [] else [B]).
  { unfold SdDispatchIo.
    change (DiskType Disk1) with (DiskType Disk).
    change (DiskFlags Disk1) with (DiskFlags Disk).
    rewrite Htype, Hmedia, Hdma, Hup.
    rewrite !bool_decide_eq_true_2 by done. cbn [negb].
    unfold DispatchIoUp.
    change (DiskIrp Disk1) with (Some IrpAddress).
    rewrite bool_decide_eq_true_2 by done. cbn [negb].
    change (DiskIoBuffer Disk1) with (Some B).
    assert (set_DiskIrp None (set_DiskIoBuffer None Disk1) = Disk) as ->.
    { destruct Disk. cbn in *. by subst. }
    rewrite HRW2. cbn [Request2 Irp.IoBuffer Irp.IoBytesCompleted].
    destruct (decide (o = B)) as [Heq|Hne].
    - rewrite bool_decide_eq_true_2 by (by rewrite Heq). cbn [negb].
      eexists. split; [reflexivity|]. done.
    - rewrite bool_decide_eq_false_2 by (by intros [= ?]). cbn [negb].
      assert (Hback : exists tb,
        (if negb (Irp.MinorCode (Irp.Public Irp2) =? Irp.IrpMinorIoWrite)
            && negb (Irp.IoSizeInBytes Request =? 0)
         then
           let! o' := deref (Some o) in
           let! b := deref (Some B) in
           run! driver (emit (EvCopyIoBuffer o' b
                                (Irp.IoSizeInBytes Request))) in
           if negb (KSUCCESS (CopyBack env))
           then
             if KSUCCESS (Irp.IoGetIrpStatus (set_IoBytesCompleted 0 Irp2))
             then driver (lift (Irp.IoCompleteIrp SdDriver
                                  (set_IoBytesCompleted 0 Irp2)
                                  (CopyBack env)))
             else ret (set_IoBytesCompleted 0 Irp2)
           else
             let! Original' := deref (Buffers !! o') in
             run! driver (FlushFragments (Fragment Original')) in
             ret Irp2
         else ret Irp2) = Done (Irp2, tb) /\
        LockEvents (DriverEvents tb) = [] /\
        Transfers (DriverEvents tb) = [] /\ Frees (DriverEvents tb) = []).
      { destruct (_ && _); [|by eexists].
        cbn [deref]. rewrite !bind_ret_l, Hb, HO. cbn [negb deref].
        rewrite bind_ret_l, FlushFragments_run. cbn [driver].
        eexists. split; [reflexivity|].
        cbn [bind emit ret app]. rewrite app_nil_r.
        rewrite DriverEvents_app, !DriverEvents_driver.
        destruct (Flushes_quiet (Fragment Original)) as (Hq & Hfr & _).
        destruct (BufferWork_neutral _ Hq) as [Hlq Hdq].
        rewrite LockEvents_app, Transfers_app, Frees_app, Hlq, Hdq, Hfr.
        done. }
      destruct Hback as (tb & Hback & Hlb & Hdb & Hfb).
      eexists. split.
      + eapply bind_Done; [reflexivity|].
        eapply bind_Done_ret with (f := fun I => (Disk, I)).
        eapply bind_Done; [exact Hback|].
        cbn [deref]. rewrite bind_ret_l.
        eapply bind_Done; [reflexivity|]. reflexivity.
      + rewrite !DriverEvents_app, !LockEvents_app, !Transfers_app,
          !Frees_app.
        rewrite Hlb, Hdb, Hfb. done. }
  destruct Hup3 as (t3 & Hrun3 & Hl3 & Hd3 & Hf3).
  exists Disk1, Irp1, t1, Irp2, (map EvIrp t2), t3.
  split; [done|]. split; [done|]. split; [done|]. split; [done|].
  split; [done|]. rewrite HRW2.
  split; [done|]. split; [done|].
  rewrite !LockEvents_app, !Transfers_app, !Frees_app.
  rewrite Hl1, Hl2, Hl3, Hd1, Hd2, Hd3, Hf1, Hf2, Hf3. done.
Qed.

Lemma dma_request_round_trip_witness :
  exists Disk1 Irp1 t1 Irp2 t2 t3,
    SdDispatchIo 32 1%nat 8 (CardServing SubstituteBuffer) SampleBuffers
      50%nat SampleIoIrp 59%nat IdleDisk = Done (Disk1, Irp1, t1) /\
    SdpDmaCompletion 32 1%nat Disk1 59%nat (Some Irp1) 4096 STATUS_SUCCESS
      = Done (Irp2, t2) /\
    SdDispatchIo 32 1%nat 8 (CardServing SubstituteBuffer) SampleBuffers
      50%nat Irp2 59%nat Disk1 = Done (IdleDisk, Irp2, t3) /\
    LockEvents (DriverEvents t1 ++ t2 ++ DriverEvents t3)
    = [EvAcquireQueuedLock (Some 32%nat);
       EvReleaseQueuedLock (Some 32%nat)] /\
    Frees (DriverEvents t1 ++ t2 ++ DriverEvents t3) = [6%nat].
Proof.
  edestruct (dma_request_round_trip 32 1%nat 8 (CardServing SubstituteBuffer)
               SampleBuffers 50%nat SampleIoIrp (ReadWrite SampleIoIrp)
               59%nat IdleDisk 5%nat CallerBuffer)
    as (Disk1 & Irp1 & t1 & Irp2 & t2 & t3 & H1 & H2 & H3 & _ & _ & _ & _
        & Hl & _ & Hf);
    [reflexivity | reflexivity | reflexivity | reflexivity | reflexivity
    | reflexivity | reflexivity | reflexivity | reflexivity | reflexivity
    | vm_compute; split; [discriminate | reflexivity]
    | reflexivity | reflexivity | reflexivity | reflexivity |].
  exists Disk1, Irp1, t1, Irp2, t2, t3.
  split; [exact H1|]. split; [exact H2|]. split; [exact H3|].
  split; [exact Hl|]. exact Hf.
Defined.
End SdFacts.
